(* ===== verification/_CoqProject ===== *)
-Q . S2P
Prelude.v
Errors.v
Pthread.v
Platform.v
Claims.v
Common.v
Names.v
World.v
SharedMemory.v
Memory.v
Machine.v
Typing.v
Regions.v
Lifecycle.v
Handles.v
Processes.v
Sharing.v
Steps.v
Refcount.v
Interleaving.v
Races.v
Faults.v
Ends.v
Opening.v
Remapping.v
Memories.v
Growth.v
Protocol.v
Exclusive.v
Wakeups.v
Tests.v
