(* ===== verification/Prelude.v ===== *)
(** * IPM: a verification development of the inter-process memory library

    The library (include/ipm, source) lets processes share a named memory and
    claim regions of it for reading or writing.  A memory is two POSIX shared
    memory objects, the data block and the block with the list of active
    claims; each process that uses the memory holds a handle.  The list is
    protected by a robust process-shared mutex, and a process whose claim
    conflicts sleeps on a condition variable in the list.

    ** Parts and files

    - [Prelude] (this file): machine integers with their wrap-around, the
      monad of C code (a run returns, aborts on an assertion, is undefined, or
      never returns), lemmas and tactics shared by all files.
    - [Errors]: source/ipm_error.c, include/ipm/ipm_error.h.  The result codes,
      the table of their texts and both lookups.
    - [Pthread]: the documented behaviour of the POSIX thread and semaphore
      functions the library calls, and the calling thread with its [errno] and
      a schedule of injected failures.
    - [Platform]: source/ipm_platform.c.  One definition per wrapper; the mutex
      as an abstract lock that can be orphaned by a dead owner.
      [ipm_condition_signal] is written against the class [CondSignal] of file
      [Pthread], which has two instances: the condition variable alone, and one that
      counts the wake-ups sent, by which [Protocol] knows whether a sleeper wakes.
    - [Claims]: source/memory_claim.h, memory_claim.c.  The claim list as the
      array in shared memory it is, slots beyond the count included, and every
      operation on it; [visible] is the list of active claims.
    - [Common]: source/ipm_common.c, internal.h, include/ipm/ipm_common.h.
      Constants, the context of user callbacks, allocation and error reporting; a
      user ([recorder]) who logs every callback as an [event].
    - [Names]: [make_block_name_based_on_id] of source/shared_memory.c.
    - [World]: shared memory names, objects, descriptors, mapped pages and the
      system calls on them; accesses through addresses.  Class [Env] has what
      the sources do not determine (the user's state, where the kernel puts a
      mapping, the text of an error number); class [EnvLaws] the one law about
      it that theorems use, that a mapping is placed on free pages.
    - [SharedMemory]: source/shared_memory.h, shared_memory.c, every function.
    - [Memory]: source/ipm_memory.c, ipm_memory_internal.h,
      include/ipm/ipm_memory.h, every function of the public interface, and the
      lemmas on its loops.  The name in a handle is a buffer of bytes that need not
      have been written ([name_buffer], [strncpy]); printing it ([IPM_ERROR_named],
      [c_string]) is undefined when it has no end.
    - [Machine]: a concrete environment, in which witnesses run the code.
    - [Typing]: the types of all values (integers within their C width, names
      within their buffers, pages and descriptors of existing objects), rules for
      what a run [preserves], and the programs over the public interface.
    - [Regions]: theorems on claiming and releasing.
    - [Lifecycle]: theorems on creating, opening, closing, growing and locking a
      block.
    - [Handles]: theorems on creating, growing and closing a memory, and on names too
      long to be printed.
    - [Processes]: several processes on one machine, each with its own view of it;
      what else a process has at hand is chosen by the file that uses it.
    - [Sharing]: several processes that create, open and close one block; a step
      is a whole call of a process.
    - [Steps]: [shared_memory_block_create], [_open] and [_close] cut at their
      accesses to shared memory and to names; a [place] is a place in the code with
      the variables that are live there, [segment] the code up to the next place.
    - [Refcount]: the abstract books on references: two counters per object, and the
      role of every process.
    - [Interleaving]: any number of processes whose segments interleave in any order
      ([machine_step]), and the simulation of the machine by the books.
    - [Races]: schedules of that machine in which opening meets closing or creating.
    - [Faults]: types, mappings and sizes in the interleaved machine, and where a
      segment can be undefined.
    - [Ends]: how many segments a call has left, and the loop that waits for a creator.
    - [Opening]: theorems on [ipm_memory_open] and [ipm_memory_clean].
    - [Remapping]: one handle of a memory that others use too, and the calls that map
      its data block again: where the new pages are ([mapped_at]), and that the pointer
      of the handle is null afterwards.
    - [Memories]: several processes that call the public interface on one memory, a
      whole call at a time; both blocks, their sizes and the list of claims.  The
      machine has a flag [stale]: with it a process may grow the memory to any size its
      handle allows, as the code does; without it only to a size that is not less than
      what the memory has.
    - [Growth]: that machine when one process grows the memory and others follow, do not
      follow, or close.
    - [Protocol]: several processes on one claim list as a step relation whose
      steps are runs of the code between two operations on the mutex or the
      condition variable.  A sleeper wakes up by a signal only if the run of
      [ipm_condition_signal] has sent a wake-up.  A [regime] says what may happen
      besides: claims out of order, the bulk operations, deaths, spurious wake-ups.
    - [Exclusive]: the abstract ledger of granted regions, and the simulation of
      the protocol by it.
    - [Wakeups]: who signals whom: wake-ups that are never lost and those that are.
    - [Tests]: tests/single_test.c, fork_test.c and test_common.c as programs of
      the model, and their runs.

    ** What the theorems show

    - The claim list: insertion, removal, iteration, initialisation on every
      branch; insertion equals ordered insertion exactly when it appends, and
      removal equals deletion exactly when it pops, so claims in stack order
      round-trip; the conflict test never misses an overlap.
    - Claiming and releasing: the run of each interface function for every
      behaviour of the other processes (the list [wakes] of what they do while
      the caller sleeps), a lock that fails or hangs, a wait that fails and the
      assertions included; a grant keeps regions exclusive; the bulk operations
      terminate and leave what they should, and what they do to other
      processes' claims.
    - Reporting an error: the exact sequence of callbacks, from which it follows that
      nothing leaks and nothing is freed twice; a name of the full length allowed
      cannot be printed.
    - Types: every program over the public interface keeps every value within its
      C type, for all failures, callbacks and contents of the shared memory
      ([programs_typed]; the invariants of the machines rest on the same rules).
    - Blocks and memories: creation establishes a usable handle, failures clean
      up, and create/close and open/close restore names, descriptors and
      mappings; opening a memory gives a usable handle or undoes what it did; for
      any number of processes the reference count is the number of handles and
      the name lives as long as there is one; the two blocks of a memory stay
      together, and closing a handle always returns, whatever was claimed; no call on
      a handle aborts or is undefined under the conditions [calls_return] lists.
    - Growing: the size one process gives the memory reaches every process that
      synchronises, with all its pages mapped, but the pointer of the handle is null
      then.  Without growth from a stale size no handle is larger than its memory, and
      no claim ends beyond it, the end computed modulo [2 ^ 64] as the code does; but
      growing from a size that is out of date shrinks the memory where assertions are
      off and leaves claims without memory, so does one of two processes that grow it at
      the same time, assertions or not, and a mapping that was made again is never
      undone.
    - Inside the calls: create, open and close are their segments one after the
      other ([calls_are_segments]); in every interleaving of segments the count in a header is the number
      of processes between taking and giving back a reference, handles have
      different identifiers, and every segment is a step of the books or leaves them
      alone; a segment can fault only at the first access to a header, and only
      when mapping it failed or the object has no size yet; no segment hangs, and a
      call ends after ten segments at most besides turns of its waiting loop.
    - Races: an open that crosses the last close gets a handle on a block without a
      name, a late close removes the name of another block, an open that meets a
      create faults.
    - Processes on a claim list: mutual exclusion of the critical sections for every
      interleaving; progress as long as nobody dies, bulk operations included, in a
      build with assertions while the list is not full; exclusive regions
      and refinement of the ledger for every interleaving in which claims are
      appended and popped, whoever dies; a run that breaks exclusiveness without
      that discipline.
    - Waiting: with single releases and no deaths no wake-up is lost; the bulk operations
      lose them, and one signal is not enough for two readers.
    - Deaths: a dead owner's mutex is repaired by the next lock, but a process
      that is just being woken makes it unrecoverable; an open that falls into the
      last close never returns.
    - Tests: the repository's own tests pass in the model, with their output and no
      allocation left ([tests_pass]).
    - A theorem with a number (C1 to C40) is one of the properties of the development; the
      three named in brackets here without one are checks of the model.
    - Claims of a process that is gone can become active again.
    - Where the code differs from what it means to do, a theorem states the
      behaviour it has (lost claims, unknown identifiers, wrapped bounds, a null
      pointer after remapping, an unchecked mapping, an inverted ownership test,
      [errno] read after functions that do not set it).

    ** Bounds and fuel

    Integers keep their C width; a counter that can wrap is wrapped in the
    model.  [release_loop] and [remove_all_loop] run with the claim count as
    fuel, and [release_loop_run] and [remove_all_loop_run] prove that it is
    enough for every well-formed list; running out would be reported as not
    returning.  Waiting loops recurse on the finite list of what the other
    processes do, and sleep forever when it ends.  Sixteen digits are enough for
    every 64-bit identifier.

    ** Not modelled

    The bytes of the data block (the library never reads them; [Tests] keeps the
    text its programs exchange), the padding and the alignment of structures
    beyond their sizes, and weak memory orders: accesses to shared memory happen
    one at a time, in the order of the program.  In [Sharing] and [Memories] a whole
    call is one step ([open_races_with_close] splits the last close), and in
    [Memories] a claim is granted at once or refused, for waiting is the subject of
    [Protocol], claims in a build with assertions have a length and find two slots
    free, only active identifiers are given back, and a process whose pointer is null
    (after it has mapped the memory again) maps it once more or grows it only while
    nothing is mapped at the bottom of its address space, which the code would unmap.
    In [Interleaving] a close has no callback, a process does not die in a call (it
    may stop for ever), and the numbers of processes and of steps stay below what the
    counters can hold.  In [Protocol] a process dies between steps,
    gives back only active identifiers (what the others do is undefined behaviour,
    see [Claims]) and signals wake at most one sleeper.  The header names a Windows
    platform for which there is no code, and the build files are not part of the
    library. *)

From stdpp Require Export base numbers list strings gmap fin_maps pretty.
From Stdlib Require Export Lia.

#[global] Open Scope Z_scope.

(** ** Machine integers

    [size_t], [ipm_id] and [uint64_t] are 64 bits wide, [unsigned] and
    [uint32_t] 32 bits; arithmetic on them wraps. *)

Definition u64_mod : Z := 2 ^ 64.
Definition u32_mod : Z := 2 ^ 32.
Definition wrap64 (z : Z) : Z := z mod u64_mod.
Definition wrap32 (z : Z) : Z := z mod u32_mod.

(** The conversion of a 64-bit unsigned value to [off_t] (a signed 64-bit type). *)
Definition to_off_t (z : Z) : Z := if z <? 2 ^ 63 then z else z - u64_mod.

Definition u64 (z : Z) : Prop := 0 <= z < u64_mod.
Definition u32 (z : Z) : Prop := 0 <= z < u32_mod.

#[global] Instance u64_dec z : Decision (u64 z).
Proof. unfold u64; apply _. Defined.
#[global] Instance u32_dec z : Decision (u32 z).
Proof. unfold u32; apply _. Defined.

(** ** Outcomes and the state monad

    A C function run on a state [S] either returns, fails an [assert]
    (the process aborts; the shared state it leaves behind is kept), performs
    an operation with undefined behaviour or an access fault, or never returns
    because it blocks or loops. *)

Inductive outcome (S A : Type) : Type :=
| Ret (a : A) (s : S)
| Abort (s : S)
| Undef
| Hang (s : S).
Arguments Ret {S A} a s.
Arguments Abort {S A} s.
Arguments Undef {S A}.
Arguments Hang {S A} s.

Definition M (S A : Type) : Type := S -> outcome S A.

#[global] Instance M_ret {S} : MRet (M S) := fun A a s => Ret a s.
#[global] Instance M_bind {S} : MBind (M S) := fun A B f m s =>
  match m s with
  | Ret a s' => f a s'
  | Abort s' => Abort s'
  | Undef => Undef
  | Hang s' => Hang s'
  end.

Definition get {S} : M S S := fun s => Ret s s.
Definition put {S} (s' : S) : M S unit := fun _ => Ret tt s'.
Definition gets {S A} (f : S -> A) : M S A := fun s => Ret (f s) s.
Definition modify {S} (f : S -> S) : M S unit := fun s => Ret tt (f s).
Definition undef {S A} : M S A := fun _ => Undef.
Definition hang {S A} : M S A := fun s => Hang s.
Definition abort {S A} : M S A := fun s => Abort s.

(** [assert(b)]: compiled out when [NDEBUG] is defined. *)
Definition cassert {S} (NDEBUG b : bool) : M S unit :=
  if NDEBUG || b then mret tt else abort.

(** Reading through a pointer that does not designate an object is undefined. *)
Definition unwrap {S A} (o : option A) : M S A :=
  match o with Some a => mret a | None => undef end.

(** Running code on a part of the state. *)
Definition zoom {S T A} (g : S -> T) (p : T -> S -> S) (m : M T A) : M S A := fun s =>
  match m (g s) with
  | Ret a t => Ret a (p t s)
  | Abort t => Abort (p t s)
  | Undef => Undef
  | Hang t => Hang (p t s)
  end.

(** Total correctness: [m] returns from [s] and the result satisfies [Q]. *)
Definition wp {S A} (m : M S A) (s : S) (Q : A -> S -> Prop) : Prop :=
  match m s with Ret a s' => Q a s' | _ => False end.

(** ** Lemmas on outcomes and weakest preconditions *)

Section wp.
Context {S A B : Type}.
Implicit Types (m : M S A) (f : A -> M S B) (s : S).

Lemma wp_ret (a : A) s (Q : A -> S -> Prop) : Q a s -> wp (mret a) s Q.
Proof. done. Qed.

Lemma wp_bind m f s (Q : B -> S -> Prop) :
  wp m s (fun a s' => wp (f a) s' Q) -> wp (m ≫= f) s Q.
Proof. unfold wp, mbind, M_bind. by destruct (m s). Qed.

Lemma wp_mono m s (P Q : A -> S -> Prop) :
  wp m s P -> (forall a s', P a s' -> Q a s') -> wp m s Q.
Proof. unfold wp. destruct (m s); auto. Qed.

Lemma wp_run m s (Q : A -> S -> Prop) :
  wp m s Q <-> exists a s', m s = Ret a s' /\ Q a s'.
Proof.
  unfold wp. split; [|by intros (a & s' & -> & ?)].
  destruct (m s); [eauto | done..].
Qed.

Lemma wp_of_run m s a s' (Q : A -> S -> Prop) : m s = Ret a s' -> Q a s' -> wp m s Q.
Proof. unfold wp. by intros ->. Qed.

Lemma bind_Ret m f s a s' : m s = Ret a s' -> (m ≫= f) s = f a s'.
Proof. unfold mbind, M_bind. by intros ->. Qed.

Lemma bind_Abort m f s s' : m s = Abort s' -> (m ≫= f) s = Abort s'.
Proof. intros Hm. unfold mbind, M_bind. by rewrite Hm. Qed.
Lemma bind_assoc {C} m f (g : B -> M S C) s : ((m ≫= f) ≫= g) s = (m ≫= (fun a => f a ≫= g)) s.
Proof. unfold mbind, M_bind. by destruct (m s). Qed.

Lemma bind_ext m f g s : (forall a s', m s = Ret a s' -> f a s' = g a s') -> (m ≫= f) s = (m ≫= g) s.
Proof. unfold mbind, M_bind. intros Hfg. destruct (m s); auto. Qed.

Lemma bind_Ret_inv m f s b s' :
  (m ≫= f) s = Ret b s' -> exists a s1, m s = Ret a s1 /\ f a s1 = Ret b s'.
Proof. unfold mbind, M_bind. destruct (m s); [eauto | done..]. Qed.
End wp.

Lemma cassert_true {S} (NDEBUG b : bool) (s : S) :
  b = true -> cassert NDEBUG b s = Ret tt s.
Proof. intros ->. unfold cassert. by rewrite orb_true_r. Qed.

Lemma cassert_ndebug {S} (b : bool) (s : S) : cassert true b s = Ret tt s.
Proof. done. Qed.

Lemma cassert_fails {S} (s : S) : cassert false false s = Abort s.
Proof. done. Qed.

(** ** Outcomes that do not happen

    [avoids x m]: whatever the state, [m] is never undefined, or never hangs. *)
Inductive mishap := Undefined | Hanging.
Definition is_mishap {S A} (x : mishap) (o : outcome S A) : Prop :=
  match x, o with Undefined, Undef => True | Hanging, Hang _ => True | _, _ => False end.
Definition avoids {S A} (x : mishap) (m : M S A) : Prop := forall s, ~ is_mishap x (m s).

Lemma avoids_undef {S A} (m : M S A) s : avoids Undefined m -> m s <> Undef.
Proof. intros Hm Heq. apply (Hm s). by rewrite Heq. Qed.
Lemma avoids_hang {S A} (m : M S A) s s' : avoids Hanging m -> m s <> Hang s'.
Proof. intros Hm Heq. apply (Hm s). by rewrite Heq. Qed.

Ltac no_mishap x := destruct x; (done || intros []).

Lemma avoids_ret {S A} x (a : A) : avoids x (mret a : M S A).
Proof. intros s. no_mishap x. Qed.
Lemma avoids_bind {S A B} x (m : M S A) (f : A -> M S B) :
  avoids x m -> (forall a, avoids x (f a)) -> avoids x (m ≫= f).
Proof.
  intros Hm Hf s. unfold mbind, M_bind. specialize (Hm s). destruct (m s); [apply Hf|..]; no_mishap x.
Qed.
Lemma avoids_zoom {S T A} x (g : S -> T) p (m : M T A) : avoids x m -> avoids x (zoom g p m).
Proof. intros Hm s. unfold zoom. specialize (Hm (g s)). destruct (m (g s)); no_mishap x. Qed.
Lemma avoids_cassert {S} x nd b : avoids x (cassert nd b : M S unit).
Proof. intros s. unfold cassert. destruct (nd || b); no_mishap x. Qed.
Lemma avoids_gets {S A} x (f : S -> A) : avoids x (gets f).
Proof. intros s. no_mishap x. Qed.
Lemma avoids_modify {S} x (f : S -> S) : avoids x (modify f).
Proof. intros s. no_mishap x. Qed.
Create HintDb avoids discriminated.
#[export] Hint Resolve avoids_ret avoids_cassert avoids_gets avoids_modify : avoids.

Ltac avoids_step :=
  lazymatch goal with
  | |- avoids _ (let _ := _ in _) => cbv zeta
  | |- avoids _ (_ ≫= _) => apply avoids_bind; [|intros ?]
  | |- avoids _ (if ?b then _ else _) => destruct b
  | |- avoids _ (match ?x with _ => _ end) => destruct x
  | |- avoids _ _ => solve [auto with avoids | done]
  end.
Ltac avoids := repeat avoids_step.

Lemma zoom_Ret {S T A} (g : S -> T) p (m : M T A) s a t :
  m (g s) = Ret a t -> zoom g p m s = Ret a (p t s).
Proof. unfold zoom. by intros ->. Qed.

Lemma zoom_wp {S T A} (g : S -> T) p (m : M T A) s (Q : A -> S -> Prop) :
  wp m (g s) (fun a t => Q a (p t s)) -> wp (zoom g p m) s Q.
Proof. unfold wp, zoom. by destruct (m (g s)). Qed.

(** ** Machine arithmetic *)

Lemma wrap64_small z : u64 z -> wrap64 z = z.
Proof. unfold wrap64, u64. intros; by apply Z.mod_small. Qed.

Lemma wrap32_small z : u32 z -> wrap32 z = z.
Proof. unfold wrap32, u32. intros; by apply Z.mod_small. Qed.

Lemma wrap64_range z : u64 (wrap64 z).
Proof. unfold wrap64, u64. apply Z.mod_pos_bound. unfold u64_mod; lia. Qed.

Lemma wrap32_range z : u32 (wrap32 z).
Proof. unfold wrap32, u32. apply Z.mod_pos_bound. unfold u32_mod; lia. Qed.

Lemma u32_u64 z : u32 z -> u64 z.
Proof. unfold u32, u64, u32_mod, u64_mod. lia. Qed.

(** One subtraction of the modulus brings a sum of two words back in range. *)
Lemma wrap64_add_over a b :
  u64 a -> u64 b -> u64_mod <= a + b -> wrap64 (a + b) = a + b - u64_mod.
Proof.
  unfold wrap64, u64. intros Ha Hb Hc. symmetry. apply Z.mod_unique_pos with 1; lia.
Qed.

(** ** Lists *)

Lemma insert_take_S {A} (l X : list A) p x :
  (p < length l)%nat -> <[p := x]> (take (S p) l ++ X) = take p l ++ x :: X.
Proof.
  intros Hp. destruct (lookup_lt_is_Some_2 _ _ Hp) as [y Hy].
  rewrite (take_S_r _ _ _ Hy), <- app_assoc. simpl.
  assert (p = length (take p l) + 0)%nat as Hlen by (rewrite length_take; lia).
  rewrite Hlen at 1. by rewrite insert_app_r.
Qed.

(** Splitting a list at the element of a given position. *)
Lemma take_drop_at {A} (l : list A) p x :
  l !! p = Some x -> l = take p l ++ x :: drop (S p) l.
Proof. intros H. symmetry. by apply take_drop_middle. Qed.

Lemma last_take_app {A} (l : list A) : l <> [] -> exists x, l = take (length l - 1) l ++ [x].
Proof.
  intros H. destruct l as [|x l _] using rev_ind; [done|].
  exists x. rewrite length_app. simpl. rewrite Nat.add_sub, take_app_length. done.
Qed.

Lemma filter_all {A} (P : A -> Prop) `{!forall x, Decision (P x)} (l : list A) :
  Forall P l -> filter P l = l.
Proof. induction 1 as [|x l Hx Hl IH]; [done|]. by rewrite filter_cons_True, IH. Qed.

Create HintDb ipm discriminated.
#[export] Hint Resolve wrap64_range wrap32_range u32_u64 : ipm.

(** [run_step E] advances a monadic run whose next operation is known to
    return by [E]. *)
Ltac run_step E := first [rewrite (bind_Ret _ _ _ _ _ E) | erewrite bind_Ret by (apply E)].

(** Linear arithmetic on words. *)
Ltac word := unfold u64, u32, u32_mod, u64_mod in *; lia.

(** Booleans of the code to propositions. *)
Ltac bool_lia :=
  repeat match goal with
  | H : context [?a && ?b = true] |- _ => apply andb_true_iff in H as [? ?]
  | H : negb _ = true |- _ => apply negb_true_iff in H
  end; lia.
