(* ===== verification/Errors.v ===== *)
(** * Result codes (include/ipm/ipm_error.h, source/ipm_error.c)

    The enumeration [ipm_result], its integer values, the table [RESULT_INFO]
    of names and messages, and the two lookup functions. *)

From S2P Require Import Prelude.

Inductive ipm_result : Type :=
| IPM_RESULT_SUCCESS
| IPM_RESULT_ERR_ACCESS
| IPM_RESULT_ERR_EXISTS
| IPM_RESULT_ERR_BAD_VALUE
| IPM_RESULT_ERR_MAX_FDS
| IPM_RESULT_ERR_NAME_TOO_LONG
| IPM_RESULT_ERR_MAX_FDS_SYS
| IPM_RESULT_ERR_INVALID_FD
| IPM_RESULT_ERR_BAD_FS
| IPM_RESULT_ERR_OS_OUT_OF_MEMORY
| IPM_RESULT_ERR_OS_UNEXPECTED
| IPM_RESULT_ERR_BAD_ID
| IPM_RESULT_ERR_BAD_SIZE
| IPM_RESULT_ERR_NO_SEM
| IPM_RESULT_ERR_NO_SEM_WAIT
| IPM_RESULT_ERR_ALREADY_LOCKED
| IPM_RESULT_ERR_NOT_LOCKED
| IPM_RESULT_ERR_LIST_SIZE_MISMATCH
| IPM_RESULT_ERR_INVALID_CLAIM
| IPM_RESULT_ERR_BAD_INIT
| IPM_RESULT_ERR_DEADLOCK
| IPM_RESULT_INTERRUPTED
| IPM_RESULT_ERR_BAD_ACCESS
| IPM_RESULT_ERR_DOES_NOT_EXIST.

#[global] Instance ipm_result_eq_dec : EqDecision ipm_result.
Proof. solve_decision. Defined.

(** The enumerators in declaration order; an enumerator's value is its index. *)
Definition ipm_result_enum : list ipm_result :=
  [ IPM_RESULT_SUCCESS; IPM_RESULT_ERR_ACCESS; IPM_RESULT_ERR_EXISTS;
    IPM_RESULT_ERR_BAD_VALUE; IPM_RESULT_ERR_MAX_FDS; IPM_RESULT_ERR_NAME_TOO_LONG;
    IPM_RESULT_ERR_MAX_FDS_SYS; IPM_RESULT_ERR_INVALID_FD; IPM_RESULT_ERR_BAD_FS;
    IPM_RESULT_ERR_OS_OUT_OF_MEMORY; IPM_RESULT_ERR_OS_UNEXPECTED;
    IPM_RESULT_ERR_BAD_ID; IPM_RESULT_ERR_BAD_SIZE;
    IPM_RESULT_ERR_NO_SEM; IPM_RESULT_ERR_NO_SEM_WAIT;
    IPM_RESULT_ERR_ALREADY_LOCKED; IPM_RESULT_ERR_NOT_LOCKED;
    IPM_RESULT_ERR_LIST_SIZE_MISMATCH; IPM_RESULT_ERR_INVALID_CLAIM;
    IPM_RESULT_ERR_BAD_INIT; IPM_RESULT_ERR_DEADLOCK;
    IPM_RESULT_INTERRUPTED;
    IPM_RESULT_ERR_BAD_ACCESS; IPM_RESULT_ERR_DOES_NOT_EXIST ].

Definition IPM_RESULT_COUNT : Z := 24.

Definition ipm_result_code (r : ipm_result) : Z :=
  match list_find (r =.) ipm_result_enum with
  | Some (i, _) => Z.of_nat i
  | None => IPM_RESULT_COUNT
  end.

(** [RESULT_INFO[r]], as (str, msg). *)
Definition RESULT_INFO (r : ipm_result) : string * string :=
  match r with
  | IPM_RESULT_SUCCESS => ("IPM_RESULT_SUCCESS", "Success")
  | IPM_RESULT_ERR_EXISTS => ("IPM_RESULT_ERR_EXISTS", "Memory object already exists")
  | IPM_RESULT_ERR_ACCESS => ("IPM_RESULT_ERR_ACCESS", "Don't have sufficient permissions")
  | IPM_RESULT_ERR_BAD_VALUE => ("IPM_RESULT_ERR_BAD_VALUE", "Parameter had an invalid value")
  | IPM_RESULT_ERR_MAX_FDS => ("IPM_RESULT_ERR_MAX_FDS", "Process has maximum number of FDs")
  | IPM_RESULT_ERR_NAME_TOO_LONG =>
      ("IPM_RESULT_ERR_NAME_TOO_LONG", "Name of memory object was greater than PATH_MAX")
  | IPM_RESULT_ERR_MAX_FDS_SYS =>
      ("IPM_RESULT_ERR_MAX_FDS_SYS", "System has maximum number of FDs")
  | IPM_RESULT_ERR_INVALID_FD =>
      ("IPM_RESULT_ERR_INVALID_FD", "Invalid FD was passed to a function")
  | IPM_RESULT_ERR_BAD_FS => ("IPM_RESULT_ERR_BAD_FS", "Operation not allowed by the filesystem")
  | IPM_RESULT_ERR_OS_OUT_OF_MEMORY =>
      ("IPM_RESULT_ERR_OS_OUT_OF_MEMORY", "Operating system ran out of memory")
  | IPM_RESULT_ERR_OS_UNEXPECTED =>
      ("IPM_RESULT_ERR_OS_UNEXPECTED", "OS error occurred, but type was not expected")
  | IPM_RESULT_ERR_BAD_ID => ("IPM_RESULT_ERR_BAD_ID", "ID did not match real block ID")
  | IPM_RESULT_ERR_BAD_SIZE => ("IPM_RESULT_ERR_BAD_SIZE", "Size did not match real block size")
  | IPM_RESULT_ERR_NO_SEM => ("IPM_RESULT_ERR_NO_SEM", "Could not create synchronization semaphore")
  | IPM_RESULT_ERR_NO_SEM_WAIT => ("IPM_RESULT_ERR_NO_SEM_WAIT", "Waiting on semaphore failed")
  | IPM_RESULT_ERR_ALREADY_LOCKED => ("IPM_RESULT_ERR_ALREADY_LOCKED", "Lock was already acquired")
  | IPM_RESULT_ERR_NOT_LOCKED => ("IPM_RESULT_ERR_NOT_LOCKED", "Lock was not acquired")
  | IPM_RESULT_ERR_LIST_SIZE_MISMATCH =>
      ("IPM_RESULT_ERR_LIST_SIZE_MISMATCH",
       "Length of the list does not match between semaphores and internal data")
  | IPM_RESULT_ERR_INVALID_CLAIM => ("IPM_RESULT_ERR_INVALID_CLAIM", "Claim does not exist")
  | IPM_RESULT_ERR_BAD_INIT =>
      ("IPM_RESULT_ERR_BAD_INIT", "Initialization was done in an incorrect way")
  | IPM_RESULT_ERR_DEADLOCK => ("IPM_RESULT_ERR_DEADLOCK", "Locking would cause a deadlock")
  | IPM_RESULT_INTERRUPTED => ("IPM_RESULT_INTERRUPTED", "Function was interrupted by user")
  | IPM_RESULT_ERR_BAD_ACCESS =>
      ("IPM_RESULT_ERR_BAD_ACCESS", "Desire access is incompatible with the memory block")
  | IPM_RESULT_ERR_DOES_NOT_EXIST =>
      ("IPM_RESULT_ERR_DOES_NOT_EXIST", "Memory block does not exist")
  end.

(** [res] is the integer the caller passes, which need not be an enumerator. *)
Definition ipm_result_info (proj : string * string -> string) (res : Z) : string :=
  if (res <? ipm_result_code IPM_RESULT_SUCCESS) || (IPM_RESULT_COUNT <=? res) then "Unknown"
  else match ipm_result_enum !! Z.to_nat res with
       | Some r => proj (RESULT_INFO r)
       | None => "Unknown"
       end.

Definition ipm_result_to_str (res : Z) : string := ipm_result_info fst res.
Definition ipm_result_to_msg (res : Z) : string := ipm_result_info snd res.

(** Forms used inside the library, where the argument is an enumerator. *)
Definition result_str (r : ipm_result) : string := ipm_result_to_str (ipm_result_code r).
Definition result_msg (r : ipm_result) : string := ipm_result_to_msg (ipm_result_code r).

Lemma ipm_result_code_lookup r : ipm_result_enum !! Z.to_nat (ipm_result_code r) = Some r.
Proof. by destruct r. Qed.

Lemma ipm_result_code_range r : 0 <= ipm_result_code r < IPM_RESULT_COUNT.
Proof. destruct r; vm_compute; split; congruence. Qed.

Lemma ipm_result_info_of_code proj r :
  ipm_result_info proj (ipm_result_code r) = proj (RESULT_INFO r).
Proof. by destruct r. Qed.

#[export] Instance RESULT_INFO_str_inj : Inj (=) (=) (fun r => (RESULT_INFO r).1).
Proof. intros r1 r2. destruct r1, r2; (reflexivity || discriminate). Qed.

Lemma ipm_result_enum_complete : length ipm_result_enum = Z.to_nat IPM_RESULT_COUNT.
Proof. reflexivity. Qed.

(** The name lookup is a bijection between the enumerators and their
    identifiers: on every enumerator's value it returns a non-"Unknown" string,
    two values in range with the same string are equal, and every integer out
    of range is answered with "Unknown". *)
Theorem result_to_str_correct :
  (forall r, ipm_result_to_str (ipm_result_code r) = (RESULT_INFO r).1 /\
             ipm_result_to_str (ipm_result_code r) <> "Unknown") /\
  (forall r1 r2, ipm_result_to_str (ipm_result_code r1) = ipm_result_to_str (ipm_result_code r2) ->
                 r1 = r2) /\
  (forall z, ~ (0 <= z < IPM_RESULT_COUNT) ->
             ipm_result_to_str z = "Unknown" /\ ipm_result_to_msg z = "Unknown").
Proof.
  split_and!.
  - intros r. unfold ipm_result_to_str. rewrite ipm_result_info_of_code. split; [done|].
    by destruct r.
  - intros r1 r2. unfold ipm_result_to_str. rewrite !ipm_result_info_of_code.
    apply (inj (fun r => (RESULT_INFO r).1)).
  - intros z Hz. unfold ipm_result_to_str, ipm_result_to_msg, ipm_result_info.
    change (ipm_result_code IPM_RESULT_SUCCESS) with 0.
    destruct (Z.ltb_spec z 0); [done|]. destruct (Z.leb_spec IPM_RESULT_COUNT z); [done|lia].
Qed.
