(* ===== verification/Pthread.v ===== *)
(** * The POSIX thread primitives the library calls

    [source/ipm_platform.c] wraps [pthread_mutex_*], [pthread_cond_*] and
    [sem_*].  This file models what POSIX documents of those calls: the state
    of a process-shared, error-checking, robust mutex, of a condition variable
    and of a semaphore, and the calling thread.

    Two facts of the POSIX interface matter to the code and are kept exactly:
    the [pthread_*] functions return an error number and leave [errno] alone,
    whereas [sem_*] return -1 and set [errno].  Failures that are not
    determined by the modelled state (resource exhaustion, permissions) come
    from the thread's fault schedule [t_faults]: each fallible call consumes
    one entry, and an entry [e] other than 0 makes it fail with error [e].  A theorem that
    quantifies over the schedule covers every pattern of such failures.

    [pthread_cond_signal] is a class, because what it does to the other threads is not
    part of the caller's state: one instance is the call as the caller sees it, the
    other counts the wake-ups sent. *)

From S2P Require Import Prelude.

(** ** Error numbers (Linux values) *)
Definition EPERM : Z := 1.
Definition ENOENT : Z := 2.
Definition EBADF : Z := 9.
Definition EAGAIN : Z := 11.
Definition ENOMEM : Z := 12.
Definition EACCES : Z := 13.
Definition EBUSY : Z := 16.
Definition EEXIST : Z := 17.
Definition EINVAL : Z := 22.
Definition ENFILE : Z := 23.
Definition EMFILE : Z := 24.
Definition EFBIG : Z := 27.
Definition EROFS : Z := 30.
Definition EDEADLK : Z := 35.
Definition ENAMETOOLONG : Z := 36.
Definition EOWNERDEAD : Z := 130.
Definition ENOTRECOVERABLE : Z := 131.

(** C's [switch] over error numbers: the first matching case, or the default. *)
Fixpoint switch {A} (e : Z) (cases : list (Z * A)) (default : A) : A :=
  match cases with
  | [] => default
  | (k, a) :: cases => if e =? k then a else switch e cases default
  end.

(** ** The calling thread *)
Record thread := mk_thread {
  t_tid : Z;
  t_errno : Z;
  t_faults : list Z
}.

Definition set_errno (e : Z) (t : thread) : thread := mk_thread (t_tid t) e (t_faults t).

(** Consumes one entry of the fault schedule; past its end nothing fails. *)
Definition next_fault : M thread Z := fun t =>
  match t_faults t with
  | [] => Ret 0 t
  | f :: fs => Ret f (mk_thread (t_tid t) (t_errno t) fs)
  end.

Section on_thread.
Context {X : Type}.

Definition on_thread {A} (m : M thread A) : M (thread * X) A :=
  zoom fst (fun t s => (t, s.2)) m.

Definition errno : M (thread * X) Z := gets (fun s => t_errno s.1).
Definition self : M (thread * X) Z := gets (fun s => t_tid s.1).

(** A [pthread_*] call: an injected failure returns its error number. *)
Definition pthread_call (m : M (thread * X) Z) : M (thread * X) Z :=
  f ← on_thread next_fault;
  if f =? 0 then m else mret f.

(** A call in the style of the system calls: -1 and [errno] on failure. *)
Definition fail_errno (e : Z) : M (thread * X) Z :=
  _ ← on_thread (modify (set_errno e)); mret (-1).
Definition errno_call (m : M (thread * X) Z) : M (thread * X) Z :=
  f ← on_thread next_fault;
  if f =? 0 then m else fail_errno f.

Definition get_obj : M (thread * X) X := gets snd.
Definition put_obj (x : X) : M (thread * X) unit := modify (fun s => (s.1, x)).
End on_thread.

(** ** Mutexes *)
Record pthread_mutexattr_t := mk_mutexattr {
  ma_pshared : bool;      (* PTHREAD_PROCESS_SHARED *)
  ma_errorcheck : bool;   (* PTHREAD_MUTEX_ERRORCHECK *)
  ma_robust : bool        (* PTHREAD_MUTEX_ROBUST *)
}.
Definition default_mutexattr : pthread_mutexattr_t := mk_mutexattr false false false.

Record pthread_mutex_t := mk_mutex {
  m_init : bool;               (* between init and destroy *)
  m_attr : pthread_mutexattr_t;
  m_owner : option Z;          (* the locking thread *)
  m_owner_dead : bool;         (* that thread's process terminated *)
  m_inconsistent : bool;       (* locked after EOWNERDEAD, not yet repaired *)
  m_unrecoverable : bool       (* unlocked while inconsistent *)
}.

(** Zero-filled memory, before [pthread_mutex_init]. *)
Definition zero_mutex : pthread_mutex_t := mk_mutex false default_mutexattr None false false false.
Definition free_mutex (a : pthread_mutexattr_t) : pthread_mutex_t :=
  mk_mutex true a None false false false.
Definition held_mutex (a : pthread_mutexattr_t) (tid : Z) : pthread_mutex_t :=
  mk_mutex true a (Some tid) false false false.

(** The termination of thread [tid] as seen by a mutex. *)
Definition owner_dies (tid : Z) (m : pthread_mutex_t) : pthread_mutex_t :=
  if decide (m_owner m = Some tid)
  then mk_mutex (m_init m) (m_attr m) (m_owner m) true (m_inconsistent m) (m_unrecoverable m)
  else m.

Section mutexattr.
Context {X : Type}.
Implicit Types a : pthread_mutexattr_t.

Definition attr_call (a a' : pthread_mutexattr_t) : M (thread * X) (Z * pthread_mutexattr_t) :=
  r ← pthread_call (mret 0);
  mret (r, if r =? 0 then a' else a).

Definition pthread_mutexattr_init : M (thread * X) (Z * pthread_mutexattr_t) :=
  attr_call default_mutexattr default_mutexattr.
Definition pthread_mutexattr_setpshared a (v : bool) : M (thread * X) (Z * pthread_mutexattr_t) :=
  attr_call a (mk_mutexattr v (ma_errorcheck a) (ma_robust a)).
Definition pthread_mutexattr_settype a (errorcheck : bool) : M (thread * X) (Z * pthread_mutexattr_t) :=
  attr_call a (mk_mutexattr (ma_pshared a) errorcheck (ma_robust a)).
Definition pthread_mutexattr_setrobust a (v : bool) : M (thread * X) (Z * pthread_mutexattr_t) :=
  attr_call a (mk_mutexattr (ma_pshared a) (ma_errorcheck a) v).
(** Its result is never read, and the attribute object is dead afterwards. *)
Definition pthread_mutexattr_destroy a : M (thread * X) unit := mret tt.
End mutexattr.

Definition pthread_mutex_init (a : pthread_mutexattr_t) : M (thread * pthread_mutex_t) Z :=
  pthread_call (_ ← put_obj (free_mutex a); mret 0).

(** Acquiring the mutex for the calling thread, or never returning. *)
Definition mutex_acquire : M (thread * pthread_mutex_t) Z :=
  m ← get_obj; tid ← self;
  if negb (m_init m) then mret EINVAL
  else if m_unrecoverable m then mret ENOTRECOVERABLE
  else match m_owner m with
  | None => _ ← put_obj (mk_mutex true (m_attr m) (Some tid) false (m_inconsistent m) false); mret 0
  | Some o =>
      if m_owner_dead m then
        if ma_robust (m_attr m) then
          _ ← put_obj (mk_mutex true (m_attr m) (Some tid) false true false); mret EOWNERDEAD
        else hang
      else if (o =? tid) && ma_errorcheck (m_attr m) then mret EDEADLK
      else hang
  end.

Definition mutex_release : M (thread * pthread_mutex_t) Z :=
  m ← get_obj; tid ← self;
  if negb (m_init m) then mret EINVAL
  else if decide (m_owner m = Some tid) then
    _ ← put_obj (mk_mutex true (m_attr m) None false false (m_inconsistent m)); mret 0
  else mret EPERM.

Definition pthread_mutex_lock : M (thread * pthread_mutex_t) Z := pthread_call mutex_acquire.
Definition pthread_mutex_unlock : M (thread * pthread_mutex_t) Z := pthread_call mutex_release.

(** Marks the state the mutex protects as consistent again; its result is not read. *)
Definition pthread_mutex_consistent : M (thread * pthread_mutex_t) unit :=
  m ← get_obj; tid ← self;
  if decide (m_owner m = Some tid) then
    put_obj (mk_mutex (m_init m) (m_attr m) (m_owner m) (m_owner_dead m) false (m_unrecoverable m))
  else mret tt.

Definition pthread_mutex_destroy : M (thread * pthread_mutex_t) Z :=
  pthread_call (
    m ← get_obj;
    if negb (m_init m) then mret EINVAL
    else if decide (m_owner m = None) then
      _ ← put_obj zero_mutex; mret 0
    else mret EBUSY).

(** ** Condition variables

    A condition variable's own state is whether it is initialised and whether
    it is process-shared; who sleeps on it belongs to the model of the
    processes (file [Protocol]). *)
Record pthread_cond_t := mk_cond { c_init : bool; c_pshared : bool }.
Definition zero_cond : pthread_cond_t := mk_cond false false.

Section condattr.
Context {X : Type}.
Definition pthread_condattr_init : M (thread * X) (Z * bool) :=
  r ← pthread_call (mret 0); mret (r, false).
Definition pthread_condattr_setpshared (a v : bool) : M (thread * X) (Z * bool) :=
  r ← pthread_call (mret 0); mret (r, if r =? 0 then v else a).
Definition pthread_condattr_destroy (a : bool) : M (thread * X) unit := mret tt.
End condattr.

Definition pthread_cond_init (pshared : bool) : M (thread * pthread_cond_t) Z :=
  pthread_call (_ ← put_obj (mk_cond true pshared); mret 0).

Definition pthread_cond_destroy : M (thread * pthread_cond_t) Z :=
  pthread_call (
    c ← get_obj;
    if c_init c then _ ← put_obj zero_cond; mret 0 else mret EINVAL).

Definition pthread_cond_signal : M (thread * pthread_cond_t) Z :=
  pthread_call (c ← get_obj; mret (if c_init c then 0 else EINVAL)).

(** Whom a signal wakes belongs to the model of the processes too.  There the
    condition variable carries the number of wake-ups sent, which the primitive raises
    where it succeeds; the code that signals is written against the class and runs on
    both. *)
Class CondSignal (X : Type) := cond_signal : M (thread * X) Z.
#[export] Instance signal_cond : CondSignal pthread_cond_t := pthread_cond_signal.
#[export] Instance signal_counted : CondSignal (pthread_cond_t * nat) :=
  pthread_call (s ← get_obj;
    if c_init s.1 then _ ← put_obj (s.1, S s.2); mret 0 else mret EINVAL).

Definition pthread_cond_broadcast : M (thread * pthread_cond_t) Z :=
  pthread_call (c ← get_obj; mret (if c_init c then 0 else EINVAL)).

(** [pthread_cond_wait] on a shared object [X] that holds the mutex (read by
    [gm], written by [pm]) and the condition variable (read by [gc]).  The
    mutex is released, the thread sleeps while the other processes change the
    object ([Some f]) or forever ([None]), and the mutex is acquired again
    before the call returns; the acquisition may report a dead owner. *)
Definition pthread_cond_wait {X} (gc : X -> pthread_cond_t) (gm : X -> pthread_mutex_t)
    (pm : pthread_mutex_t -> X -> X) (sleep : option (X -> X)) : M (thread * X) Z :=
  let on_mutex m := zoom (fun s => (s.1, gm s.2)) (fun s' s => (s'.1, pm s'.2 s.2)) m in
  pthread_call (
    x ← get_obj;
    if negb (c_init (gc x)) then mret EINVAL
    else
      r ← on_mutex mutex_release;
      if negb (r =? 0) then mret r
      else match sleep with
           | None => hang
           | Some f => _ ← modify (fun s => (s.1, f s.2)); on_mutex mutex_acquire
           end).

(** ** Semaphores *)
Record sem_t := mk_sem { s_init : bool; s_pshared : bool; s_value : Z }.
Definition SEM_VALUE_MAX : Z := 2 ^ 31 - 1.
Definition EOVERFLOW : Z := 75.

Definition sem_init (pshared : bool) (v : Z) : M (thread * sem_t) Z :=
  errno_call (if SEM_VALUE_MAX <? v then fail_errno EINVAL
              else _ ← put_obj (mk_sem true pshared v); mret 0).
Definition sem_destroy : M (thread * sem_t) Z :=
  errno_call (s ← get_obj; if s_init s then _ ← put_obj (mk_sem false false 0); mret 0
                           else fail_errno EINVAL).
Definition sem_post : M (thread * sem_t) Z :=
  errno_call (s ← get_obj;
    if negb (s_init s) then fail_errno EINVAL
    else if s_value s =? SEM_VALUE_MAX then fail_errno EOVERFLOW
    else _ ← put_obj (mk_sem true (s_pshared s) (s_value s + 1)); mret 0).
Definition sem_wait : M (thread * sem_t) Z :=
  errno_call (s ← get_obj;
    if negb (s_init s) then fail_errno EINVAL
    else if s_value s <=? 0 then hang
    else _ ← put_obj (mk_sem true (s_pshared s) (s_value s - 1)); mret 0).
Definition sem_getvalue : M (thread * sem_t) (Z * option Z) :=
  r ← errno_call (s ← get_obj; if s_init s then mret 0 else fail_errno EINVAL);
  s ← get_obj;
  mret (r, if r =? 0 then Some (s_value s) else None).
