(* ===== verification/Platform.v ===== *)
(** * The platform layer (source/ipm_platform.c, source/ipm_platform.h)

    One definition per wrapper.  The wrappers call a primitive, compare its
    result with 0 and then select the [ipm_result] by switching over [errno];
    the definitions do the same, reading [errno] and not the returned number.
    [ipm_condition_signal] works with either instance of the class [CondSignal];
    [counted_signal_run] and [signal_uncounted] relate the two runs. *)

From S2P Require Import Prelude Errors Pthread.

Abbreviation ipm_sem := sem_t.
Abbreviation ipm_mut := pthread_mutex_t.
Abbreviation ipm_cnd := pthread_cond_t.

(** ** Semaphores *)

Definition ipm_semaphore_init (val : Z) : M (thread * ipm_sem) ipm_result :=
  ret ← sem_init true val;
  if negb (ret =? 0) then mret IPM_RESULT_ERR_NO_SEM else mret IPM_RESULT_SUCCESS.

Definition ipm_semaphore_destroy : M (thread * ipm_sem) unit :=
  _ ← sem_destroy; mret tt.

Definition ipm_semaphore_post : M (thread * ipm_sem) unit :=
  _ ← sem_post; mret tt.

Definition ipm_semaphore_wait : M (thread * ipm_sem) ipm_result :=
  res ← sem_wait;
  if res <? 0 then mret IPM_RESULT_ERR_NO_SEM_WAIT else mret IPM_RESULT_SUCCESS.

(** The result type is [unsigned]: [return -1] gives [UINT_MAX]. *)
Definition ipm_semaphore_count : M (thread * ipm_sem) Z :=
  '(r, v) ← sem_getvalue;
  let out := default 0 v in
  if r <? 0 then mret (wrap32 (-1)) else mret (wrap32 out).

(** ** Mutexes *)

Definition mutex_init_error (errno : Z) : ipm_result :=
  switch errno
    [(EAGAIN, IPM_RESULT_ERR_OS_OUT_OF_MEMORY); (ENOMEM, IPM_RESULT_ERR_OS_OUT_OF_MEMORY);
     (EPERM, IPM_RESULT_ERR_ACCESS); (EBUSY, IPM_RESULT_ERR_BAD_INIT);
     (EINVAL, IPM_RESULT_ERR_BAD_VALUE)]
    IPM_RESULT_ERR_OS_UNEXPECTED.

Definition ipm_mutex_init : M (thread * ipm_mut) ipm_result :=
  '(res, attribs) ← pthread_mutexattr_init;
  if negb (res =? 0) then mret IPM_RESULT_ERR_OS_UNEXPECTED else
  '(res, attribs) ← pthread_mutexattr_setpshared attribs true;
  if negb (res =? 0) then
    _ ← pthread_mutexattr_destroy attribs; mret IPM_RESULT_ERR_OS_UNEXPECTED else
  '(res, attribs) ← pthread_mutexattr_settype attribs true;
  if negb (res =? 0) then
    _ ← pthread_mutexattr_destroy attribs; mret IPM_RESULT_ERR_OS_UNEXPECTED else
  '(res, attribs) ← pthread_mutexattr_setrobust attribs true;
  if negb (res =? 0) then
    _ ← pthread_mutexattr_destroy attribs; mret IPM_RESULT_ERR_OS_UNEXPECTED else
  res ← pthread_mutex_init attribs;
  if negb (res =? 0) then
    _ ← pthread_mutexattr_destroy attribs;
    e ← errno; mret (mutex_init_error e) else
  _ ← pthread_mutexattr_destroy attribs;
  mret IPM_RESULT_SUCCESS.

Definition ipm_mutex_lock : M (thread * ipm_mut) ipm_result :=
  res ← pthread_mutex_lock;
  if res =? EOWNERDEAD then
    _ ← pthread_mutex_consistent; mret IPM_RESULT_SUCCESS
  else if negb (res =? 0) then
    e ← errno;
    if e =? EINVAL then mret IPM_RESULT_ERR_BAD_VALUE
    else if e =? EDEADLK then mret IPM_RESULT_ERR_DEADLOCK
    else if e =? EOWNERDEAD then
      _ ← pthread_mutex_consistent; mret IPM_RESULT_SUCCESS
    else mret IPM_RESULT_ERR_OS_UNEXPECTED
  else mret IPM_RESULT_SUCCESS.

Definition ipm_mutex_unlock : M (thread * ipm_mut) ipm_result :=
  res ← pthread_mutex_unlock;
  if negb (res =? 0) then
    e ← errno;
    mret (switch e [(EPERM, IPM_RESULT_ERR_NOT_LOCKED)] IPM_RESULT_ERR_OS_UNEXPECTED)
  else mret IPM_RESULT_SUCCESS.

Definition ipm_mutex_destroy : M (thread * ipm_mut) ipm_result :=
  res ← pthread_mutex_destroy;
  if negb (res =? 0) then
    e ← errno;
    mret (switch e [(EBUSY, IPM_RESULT_ERR_ALREADY_LOCKED); (EINVAL, IPM_RESULT_ERR_BAD_VALUE)]
            IPM_RESULT_ERR_OS_UNEXPECTED)
  else mret IPM_RESULT_SUCCESS.

(** ** Condition variables *)

(** The [switch] has no default: an error number it does not list falls
    through to the success path, which destroys the attributes once more. *)
Definition cond_init_error (errno : Z) : option ipm_result :=
  switch errno
    [(EAGAIN, Some IPM_RESULT_ERR_OS_OUT_OF_MEMORY); (ENOMEM, Some IPM_RESULT_ERR_OS_OUT_OF_MEMORY);
     (EBUSY, Some IPM_RESULT_ERR_BAD_INIT); (EINVAL, Some IPM_RESULT_ERR_BAD_VALUE)]
    None.

Definition ipm_condition_init : M (thread * ipm_cnd) ipm_result :=
  '(res, attribs) ← pthread_condattr_init;
  if negb (res =? 0) then mret IPM_RESULT_ERR_OS_UNEXPECTED else
  '(res, attribs) ← pthread_condattr_setpshared attribs true;
  if negb (res =? 0) then
    _ ← pthread_condattr_destroy attribs; mret IPM_RESULT_ERR_OS_UNEXPECTED else
  res ← pthread_cond_init attribs;
  let success := _ ← pthread_condattr_destroy attribs; mret IPM_RESULT_SUCCESS in
  if negb (res =? 0) then
    _ ← pthread_condattr_destroy attribs;
    e ← errno;
    match cond_init_error e with Some r => mret r | None => success end
  else success.

Definition cond_wait_error (errno : Z) : ipm_result :=
  switch errno [(EINVAL, IPM_RESULT_ERR_BAD_VALUE); (EPERM, IPM_RESULT_ERR_NOT_LOCKED)]
    IPM_RESULT_ERR_OS_UNEXPECTED.

Definition ipm_condition_wait {X} (gc : X -> ipm_cnd) (gm : X -> ipm_mut)
    (pm : ipm_mut -> X -> X) (sleep : option (X -> X)) : M (thread * X) ipm_result :=
  res ← pthread_cond_wait gc gm pm sleep;
  if negb (res =? 0) then e ← errno; mret (cond_wait_error e)
  else mret IPM_RESULT_SUCCESS.

Definition ipm_condition_broadcast : M (thread * ipm_cnd) ipm_result :=
  res ← pthread_cond_broadcast;
  if negb (res =? 0) then
    e ← errno; mret (switch e [(EINVAL, IPM_RESULT_ERR_BAD_VALUE)] IPM_RESULT_ERR_OS_UNEXPECTED)
  else mret IPM_RESULT_SUCCESS.

Definition ipm_condition_signal {X} `{CondSignal X} : M (thread * X) ipm_result :=
  res ← cond_signal;
  if negb (res =? 0) then
    e ← errno; mret (switch e [(EINVAL, IPM_RESULT_ERR_BAD_VALUE)] IPM_RESULT_ERR_OS_UNEXPECTED)
  else mret IPM_RESULT_SUCCESS.

Definition ipm_condition_destroy : M (thread * ipm_cnd) ipm_result :=
  res ← pthread_cond_destroy;
  if negb (res =? 0) then
    e ← errno;
    mret (switch e [(EBUSY, IPM_RESULT_ERR_ALREADY_LOCKED); (EINVAL, IPM_RESULT_ERR_BAD_VALUE)]
            IPM_RESULT_ERR_OS_UNEXPECTED)
  else mret IPM_RESULT_SUCCESS.

(** ** What the wrappers guarantee *)

(** The attributes [ipm_mutex_init] asks for. *)
Definition ipm_mutexattr : pthread_mutexattr_t := mk_mutexattr true true true.

(** The error [ipm_mutex_lock] selects from [errno] when the primitive fails. *)
Definition mutex_lock_error (errno : Z) : ipm_result :=
  if errno =? EINVAL then IPM_RESULT_ERR_BAD_VALUE
  else if errno =? EDEADLK then IPM_RESULT_ERR_DEADLOCK
  else if errno =? EOWNERDEAD then IPM_RESULT_SUCCESS
  else IPM_RESULT_ERR_OS_UNEXPECTED.

Definition thread_after_call (t : thread) : thread :=
  mk_thread (t_tid t) (t_errno t) (tail (t_faults t)).

Lemma pthread_call_run {X} (m : M (thread * X) Z) t x :
  pthread_call m (t, x) =
  if List.hd 0 (t_faults t) =? 0 then m (thread_after_call t, x)
  else Ret (List.hd 0 (t_faults t)) (thread_after_call t, x).
Proof.
  destruct t as [tid e [|f fs]]; [done|].
  unfold pthread_call, thread_after_call, on_thread, zoom, mbind, M_bind; simpl.
  by destruct (f =? 0).
Qed.

(** A schedule whose first [n] entries inject nothing. *)
Definition no_faults (n : nat) (t : thread) : Prop :=
  Forall (.= 0) (take n (t_faults t)).
#[global] Instance no_faults_dec n t : Decision (no_faults n t).
Proof. unfold no_faults; apply _. Defined.

Fixpoint thread_after (n : nat) (t : thread) : thread :=
  match n with O => t | S n => thread_after n (thread_after_call t) end.

Lemma no_faults_S n t :
  no_faults (S n) t -> List.hd 0 (t_faults t) = 0 /\ no_faults n (thread_after_call t).
Proof.
  unfold no_faults. destruct t as [tid e [|f fs]]; simpl; intros H.
  - split; [done|]. by rewrite take_nil.
  - by apply Forall_cons in H as [-> H].
Qed.

Lemma no_faults_le n k t : (k <= n)%nat -> no_faults n t -> no_faults k t.
Proof.
  unfold no_faults. intros Hk H. replace (take k (t_faults t)) with (take k (take n (t_faults t))).
  - by apply Forall_take.
  - rewrite take_take. f_equal. lia.
Qed.

Lemma no_faults_after k n t : no_faults (k + n) t -> no_faults n (thread_after k t).
Proof.
  revert t. induction k as [|k IH]; intros t H; [done|]. simpl. apply IH.
  by apply no_faults_S in H as [_ H].
Qed.

Lemma no_faults_nil n t : t_faults t = [] -> no_faults n t.
Proof. unfold no_faults. intros ->. by rewrite take_nil. Qed.

Lemma thread_after_call_nil t : t_faults t = [] -> thread_after_call t = t.
Proof. destruct t as [tid e fs]; simpl. by intros ->. Qed.

Lemma pthread_call_nofault {X} (m : M (thread * X) Z) n t x :
  no_faults (S n) t -> pthread_call m (t, x) = m (thread_after_call t, x).
Proof. intros [H _]%no_faults_S; by rewrite pthread_call_run, H. Qed.

Lemma t_tid_after n t : t_tid (thread_after n t) = t_tid t.
Proof. revert t. induction n as [|n IH]; intros t; [done|]. simpl. by rewrite IH. Qed.
Lemma t_errno_after n t : t_errno (thread_after n t) = t_errno t.
Proof. revert t. induction n as [|n IH]; intros t; [done|]. simpl. by rewrite IH. Qed.

#[export] Hint Resolve no_faults_nil : ipm.

(** [attr_call] in weakest-precondition form: it succeeds with the new
    attributes or fails with the schedule's next entry. *)
Lemma attr_call_wp {X} a a' t (x : X) Q :
  (List.hd 0 (t_faults t) = 0 -> Q (0, a') (thread_after_call t, x)) ->
  (forall e, List.hd 0 (t_faults t) = e -> e <> 0 -> Q (e, a) (thread_after_call t, x)) ->
  wp (attr_call a a') (t, x) Q.
Proof.
  intros H0 He. unfold attr_call. apply wp_bind. unfold wp. rewrite pthread_call_run.
  destruct (Z.eqb_spec (List.hd 0 (t_faults t)) 0) as [E|E]; [by apply H0|].
  apply Z.eqb_neq in E as E'. unfold mret, M_ret. rewrite E'. by apply He.
Qed.

(** Case analysis on the outcome of the next primitive of a wrapper. *)
Ltac prim_case :=
  match goal with
  | |- context [List.hd 0 (t_faults ?t) =? 0] =>
      destruct (Z.eqb_spec (List.hd 0 (t_faults t)) 0)
  end.

(** One attribute call of an initialiser; the failing branch contradicts a
    fault-free schedule. *)
Ltac faults_contradict :=
  repeat match goal with H : no_faults (S _) _ |- _ => apply no_faults_S in H as [? H] end;
  congruence.
Ltac attr_step :=
  apply wp_bind; apply attr_call_wp;
  [ intros ?; simpl
  | intros e He Hne; rewrite (proj2 (Z.eqb_neq _ _) Hne); simpl;
    split; [right; done|]; intros Hn; exfalso; faults_contradict ].

(** Whatever the schedule injects, initialisation returns; it yields a free,
    process-shared, error-checking, robust mutex exactly when it succeeds and
    leaves the memory untouched when it fails. *)
Lemma mutex_init_wp t m :
  wp ipm_mutex_init (t, m) (fun r s =>
    (r = IPM_RESULT_SUCCESS /\ s.2 = free_mutex ipm_mutexattr \/
     r <> IPM_RESULT_SUCCESS /\ s.2 = m) /\
    (no_faults 5 t -> r = IPM_RESULT_SUCCESS)).
Proof.
  unfold ipm_mutex_init. do 4 attr_step.
  apply wp_bind. unfold wp at 1, pthread_mutex_init. rewrite pthread_call_run. prim_case.
  - split; [by left|done].
  - unfold wp. rewrite (proj2 (Z.eqb_neq _ _) n). split.
    + right. split; [|done]. simpl. unfold mutex_init_error, switch. by repeat case_match.
    + intros Hn. exfalso. faults_contradict.
Qed.

(** *** The mutex as an abstract lock

    A mutex initialised by [ipm_mutex_init] is free, held by a live thread, or
    orphaned by a thread that died holding it. *)
Inductive lock_state := Free | Held (tid : Z) | Orphaned (tid : Z).
#[global] Instance lock_state_eq_dec : EqDecision lock_state.
Proof. solve_decision. Defined.

Definition mutex_of (a : lock_state) : ipm_mut :=
  match a with
  | Free => free_mutex ipm_mutexattr
  | Held o => held_mutex ipm_mutexattr o
  | Orphaned o => mk_mutex true ipm_mutexattr (Some o) true false false
  end.

Definition lock_dies (tid : Z) (a : lock_state) : lock_state :=
  match a with Held o => if o =? tid then Orphaned o else a | _ => a end.

Lemma owner_dies_refines tid a : owner_dies tid (mutex_of a) = mutex_of (lock_dies tid a).
Proof.
  unfold owner_dies. case_decide as E; destruct a as [|o|o]; simpl in *; simplify_eq; try done.
  - by rewrite Z.eqb_refl.
  - destruct (Z.eqb_spec o tid) as [->|]; done.
Qed.

Lemma mutex_consistent_run t a : pthread_mutex_consistent (t, mutex_of a) = Ret tt (t, mutex_of a).
Proof.
  unfold pthread_mutex_consistent, mbind, M_bind; simpl. case_decide; [|done]. by destruct a.
Qed.

(** The tail of [ipm_mutex_lock] after a failed primitive. *)
Lemma mutex_lock_error_run t a :
  (e ← errno;
   if e =? EINVAL then mret IPM_RESULT_ERR_BAD_VALUE
   else if e =? EDEADLK then mret IPM_RESULT_ERR_DEADLOCK
   else if e =? EOWNERDEAD then _ ← pthread_mutex_consistent; mret IPM_RESULT_SUCCESS
   else mret IPM_RESULT_ERR_OS_UNEXPECTED) (t, mutex_of a)
  = Ret (mutex_lock_error (t_errno t)) (t, mutex_of a).
Proof.
  unfold mbind at 1, M_bind at 1. simpl. unfold mutex_lock_error.
  destruct (_ =? EINVAL); [done|]. destruct (_ =? EDEADLK); [done|].
  destruct (_ =? EOWNERDEAD); [|done].
  by rewrite (bind_Ret _ _ _ _ _ (mutex_consistent_run _ _)).
Qed.

(** A free or an orphaned lock is acquired, and the orphaned one repaired; a
    lock another live thread holds blocks; relocking fails without touching
    the mutex, with the result that the stale [errno] selects. *)
Lemma mutex_lock_run t a :
  no_faults 1 t ->
  ipm_mutex_lock (t, mutex_of a) =
  match a with
  | Free | Orphaned _ => Ret IPM_RESULT_SUCCESS (thread_after_call t, mutex_of (Held (t_tid t)))
  | Held o => if o =? t_tid t
              then Ret (mutex_lock_error (t_errno t)) (thread_after_call t, mutex_of a)
              else Hang (thread_after_call t, mutex_of a)
  end.
Proof.
  intros Hf. unfold ipm_mutex_lock, pthread_mutex_lock, mbind, M_bind.
  rewrite (pthread_call_nofault _ 0) by done.
  destruct a as [|o|o]; [done| |].
  - unfold mutex_acquire, mbind, M_bind. simpl. destruct (Z.eqb_spec o (t_tid t)) as [->|]; [|done].
    apply (mutex_lock_error_run (thread_after_call t) (Held (t_tid t))).
  - unfold mutex_acquire, pthread_mutex_consistent, mbind, M_bind. simpl. by rewrite decide_True.
Qed.

(** Unlocking by the holder frees the lock; by anybody else it fails and
    changes nothing. *)
Lemma mutex_unlock_run t a :
  no_faults 1 t ->
  ipm_mutex_unlock (t, mutex_of a) =
  if decide (a = Held (t_tid t) \/ a = Orphaned (t_tid t))
  then Ret IPM_RESULT_SUCCESS (thread_after_call t, mutex_of Free)
  else Ret (if t_errno t =? EPERM then IPM_RESULT_ERR_NOT_LOCKED else IPM_RESULT_ERR_OS_UNEXPECTED)
         (thread_after_call t, mutex_of a).
Proof.
  intros Hf. unfold ipm_mutex_unlock, pthread_mutex_unlock, mbind, M_bind.
  rewrite (pthread_call_nofault _ 0) by done.
  unfold mutex_release, mbind, M_bind; cbn -[decide].
  destruct a as [|o|o]; cbn -[decide]; repeat case_decide;
    destruct_or?; simplify_eq; (done || exfalso; auto).
Qed.

(** Locking and unlocking by a thread other than a live holder restores a
    free lock, also when the previous holder died. *)
Lemma lock_unlock_run t a :
  no_faults 2 t -> (a = Free \/ exists o, a = Orphaned o) ->
  (_ ← ipm_mutex_lock; ipm_mutex_unlock) (t, mutex_of a) =
  Ret IPM_RESULT_SUCCESS (thread_after 2 t, mutex_of Free).
Proof.
  intros Hf Ha. apply no_faults_S in Hf as Hf'. destruct Hf' as [_ Hf'].
  erewrite bind_Ret; [|rewrite mutex_lock_run; [|by eapply no_faults_le; [|exact Hf]; lia];
    by destruct Ha as [->|[o ->]]].
  rewrite mutex_unlock_run by done. by rewrite decide_True by auto.
Qed.

(** A failure the schedule injects into a lock. *)
Lemma mutex_lock_fault t a e fs :
  t_faults t = e :: fs -> e <> 0 -> e <> EOWNERDEAD ->
  ipm_mutex_lock (t, mutex_of a) = Ret (mutex_lock_error (t_errno t)) (thread_after_call t, mutex_of a).
Proof.
  intros Hf He0 Heo. unfold ipm_mutex_lock, pthread_mutex_lock, mbind, M_bind.
  rewrite pthread_call_run, Hf. simpl. rewrite (proj2 (Z.eqb_neq _ _) He0). simpl.
  rewrite (proj2 (Z.eqb_neq _ _) Heo), (proj2 (Z.eqb_neq _ _) He0). simpl.
  apply (mutex_lock_error_run (thread_after_call t)).
Qed.

(** ** Initialisation and destruction without injected failures *)

Lemma attr_call_nofault {X} a a' n t (x : X) :
  no_faults (S n) t -> attr_call a a' (t, x) = Ret (0, a') (thread_after_call t, x).
Proof. intros Hf. unfold attr_call, mbind, M_bind. by rewrite (pthread_call_nofault _ n). Qed.

Lemma mutex_init_run t m :
  no_faults 5 t ->
  ipm_mutex_init (t, m) = Ret IPM_RESULT_SUCCESS (thread_after 5 t, mutex_of Free).
Proof.
  intros H0. apply no_faults_S in H0 as H1; destruct H1 as [_ H1].
  apply no_faults_S in H1 as H2; destruct H2 as [_ H2].
  apply no_faults_S in H2 as H3; destruct H3 as [_ H3].
  apply no_faults_S in H3 as H4; destruct H4 as [_ H4].
  unfold ipm_mutex_init.
  do 4 (erewrite bind_Ret by (eapply attr_call_nofault; eassumption); simpl).
  unfold pthread_mutex_init, mbind, M_bind. by rewrite (pthread_call_nofault _ 0).
Qed.

Lemma cond_init_run t c :
  no_faults 3 t ->
  ipm_condition_init (t, c) = Ret IPM_RESULT_SUCCESS (thread_after 3 t, mk_cond true true).
Proof.
  intros H0. apply no_faults_S in H0 as H1; destruct H1 as [_ H1].
  apply no_faults_S in H1 as H2; destruct H2 as [_ H2].
  unfold ipm_condition_init, pthread_condattr_init, pthread_condattr_setpshared, pthread_cond_init.
  unfold mbind, M_bind.
  rewrite (pthread_call_nofault _ 2) by done. simpl.
  rewrite (pthread_call_nofault _ 1) by done. simpl.
  by rewrite (pthread_call_nofault _ 0).
Qed.

Lemma mutex_destroy_run t :
  no_faults 1 t ->
  ipm_mutex_destroy (t, mutex_of Free) = Ret IPM_RESULT_SUCCESS (thread_after_call t, zero_mutex).
Proof.
  intros Hf. unfold ipm_mutex_destroy, pthread_mutex_destroy, mbind, M_bind.
  by rewrite (pthread_call_nofault _ 0).
Qed.

Lemma cond_destroy_run t :
  no_faults 1 t ->
  ipm_condition_destroy (t, mk_cond true true) = Ret IPM_RESULT_SUCCESS (thread_after_call t, zero_cond).
Proof.
  intros Hf. unfold ipm_condition_destroy, pthread_cond_destroy, mbind, M_bind.
  by rewrite (pthread_call_nofault _ 0).
Qed.

Lemma cond_signal_run t :
  no_faults 1 t ->
  ipm_condition_signal (t, mk_cond true true) =
  Ret IPM_RESULT_SUCCESS (thread_after_call t, mk_cond true true).
Proof.
  intros Hf. unfold ipm_condition_signal, cond_signal, signal_cond, pthread_cond_signal, mbind, M_bind.
  by rewrite (pthread_call_nofault _ 0).
Qed.

(** One wake-up is sent. *)
Lemma counted_signal_run t n :
  no_faults 1 t ->
  ipm_condition_signal (t, (mk_cond true true, n)) =
  Ret IPM_RESULT_SUCCESS (thread_after_call t, (mk_cond true true, S n)).
Proof.
  intros Hf. unfold ipm_condition_signal, cond_signal, signal_counted, mbind, M_bind.
  by rewrite (pthread_call_nofault _ 0).
Qed.

(** Counting the wake-ups changes nothing else. *)
Lemma signal_uncounted t (c : ipm_cnd) n :
  ipm_condition_signal (t, c) =
  match ipm_condition_signal (t, (c, n)) with
  | Ret r (t', (c', _)) => Ret r (t', c')
  | Abort (t', (c', _)) => Abort (t', c')
  | Undef => Undef
  | Hang (t', (c', _)) => Hang (t', c')
  end.
Proof.
  destruct t as [tid e fs], c as [i p]. unfold ipm_condition_signal, cond_signal, signal_cond, signal_counted,
    pthread_cond_signal, mbind, M_bind. rewrite !pthread_call_run.
  unfold t_faults. destruct (List.hd 0 fs =? 0) eqn:Hf; destruct i; cbn -[switch Z.eqb]; rewrite ?Hf; reflexivity.
Qed.

(** ** Properties *)

(** C21. The wrappers implement a robust lock.  Initialisation yields a free lock
    or reports an error and leaves the memory alone, whatever fails.  Locking
    takes a free or an orphaned lock (repairing it), blocks on a lock of a live
    thread and fails on the caller's own lock without changing it; unlocking
    frees the caller's lock and fails on any other; the death of the holder
    orphans the lock, so no sequence of these makes it unrecoverable. *)
Theorem mutex_implements_lock t a m tid :
  no_faults 1 t ->
  wp ipm_mutex_init (t, m) (fun r s =>
    (r = IPM_RESULT_SUCCESS /\ s.2 = mutex_of Free \/ r <> IPM_RESULT_SUCCESS /\ s.2 = m) /\
    (no_faults 5 t -> r = IPM_RESULT_SUCCESS)) /\
  ipm_mutex_lock (t, mutex_of a) =
    match a with
    | Free | Orphaned _ => Ret IPM_RESULT_SUCCESS (thread_after_call t, mutex_of (Held (t_tid t)))
    | Held o => if o =? t_tid t
                then Ret (mutex_lock_error (t_errno t)) (thread_after_call t, mutex_of a)
                else Hang (thread_after_call t, mutex_of a)
    end /\
  ipm_mutex_unlock (t, mutex_of a) =
    (if decide (a = Held (t_tid t) \/ a = Orphaned (t_tid t))
     then Ret IPM_RESULT_SUCCESS (thread_after_call t, mutex_of Free)
     else Ret (if t_errno t =? EPERM then IPM_RESULT_ERR_NOT_LOCKED else IPM_RESULT_ERR_OS_UNEXPECTED)
            (thread_after_call t, mutex_of a)) /\
  owner_dies tid (mutex_of a) = mutex_of (lock_dies tid a).
Proof.
  intros Hf. split_and!;
    [apply mutex_init_wp|by apply mutex_lock_run|by apply mutex_unlock_run|apply owner_dies_refines].
Qed.

Lemma mutex_implements_lock_witness :
  ipm_mutex_lock (mk_thread 7 0 [], mutex_of (Orphaned 3)) =
  Ret IPM_RESULT_SUCCESS (mk_thread 7 0 [], mutex_of (Held 7)).
Proof.
  apply (mutex_implements_lock (mk_thread 7 0 []) (Orphaned 3) zero_mutex 0).
  apply no_faults_nil. reflexivity.
Defined.

(** The wrapper reads [errno], which the [pthread] functions do not set, so
    the result of a failed lock depends on an unrelated earlier error and not
    on the failure.  With a stale [EOWNERDEAD] the failure is reported as a
    success while the mutex is left exactly as it was: free, or held by
    somebody else. *)
Theorem mutex_lock_reports_stale_errno t a e fs :
  t_faults t = e :: fs -> e <> 0 -> e <> EOWNERDEAD ->
  ipm_mutex_lock (t, mutex_of a) =
    Ret (mutex_lock_error (t_errno t)) (thread_after_call t, mutex_of a) /\
  (t_errno t = EOWNERDEAD -> mutex_lock_error (t_errno t) = IPM_RESULT_SUCCESS).
Proof. intros Hf H0 He. split; [by eapply mutex_lock_fault|by intros ->]. Qed.

Lemma mutex_lock_reports_stale_errno_witness :
  ipm_mutex_lock (mk_thread 7 EOWNERDEAD [EINVAL], mutex_of Free) =
  Ret IPM_RESULT_SUCCESS (mk_thread 7 EOWNERDEAD [], mutex_of Free).
Proof.
  destruct (mutex_lock_reports_stale_errno (mk_thread 7 EOWNERDEAD [EINVAL]) Free EINVAL [])
    as [H _]; [reflexivity | discriminate | discriminate | exact H].
Defined.

(** Initialising a condition variable reports success without initialising
    it whenever [pthread_cond_init] fails while [errno] holds a number the
    [switch] does not list, in particular 0. *)
Theorem condition_init_false_success t c e fs :
  t_faults t = 0 :: 0 :: e :: fs -> e <> 0 -> cond_init_error (t_errno t) = None ->
  exists t', ipm_condition_init (t, c) = Ret IPM_RESULT_SUCCESS (t', c).
Proof.
  intros Hf He Hn. destruct t as [tid en fl]. simpl in *. subst fl.
  eexists. unfold ipm_condition_init, pthread_condattr_init, pthread_condattr_setpshared,
    pthread_cond_init, mbind, M_bind. rewrite pthread_call_run. simpl.
  rewrite pthread_call_run. simpl.   rewrite (proj2 (Z.eqb_neq _ _) He). simpl. rewrite (proj2 (Z.eqb_neq _ _) He). simpl.
  rewrite Hn. reflexivity.
Qed.

Lemma condition_init_false_success_witness :
  exists t', ipm_condition_init (mk_thread 7 0 [0; 0; EPERM], zero_cond) =
             Ret IPM_RESULT_SUCCESS (t', zero_cond).
Proof.
  apply (condition_init_false_success (mk_thread 7 0 [0; 0; EPERM]) zero_cond EPERM []);
    [reflexivity | discriminate | reflexivity].
Defined.
