(* ===== verification/Claims.v ===== *)
(** * The claim list (source/memory_claim.h, source/memory_claim.c)

    A claim list lives in shared memory: a mutex, a condition variable, three
    counters and an array of claims of which the first [count] are active.
    The operations are translated statement by statement; the array is a list
    of slots whose contents beyond [count] (zeroes, or claims released earlier)
    are part of the state, because the code copies them. *)

From S2P Require Import Prelude Errors Pthread Platform.

(** [ipm_access_mode_T] of include/ipm/ipm_common.h. *)
Inductive ipm_access_mode := IPM_ACCESS_MODE_READ_ONLY | IPM_ACCESS_MODE_READ_WRITE.
#[global] Instance ipm_access_mode_eq_dec : EqDecision ipm_access_mode.
Proof. solve_decision. Defined.

Record ipm_memory_claim := mk_claim {
  claim_id : Z;
  proc_id : Z;
  access : ipm_access_mode;
  offset : Z;
  size : Z
}.
#[global] Instance ipm_memory_claim_eq_dec : EqDecision ipm_memory_claim.
Proof. solve_decision. Defined.

(** A slot of freshly truncated shared memory. *)
Definition zero_claim : ipm_memory_claim := mk_claim 0 0 IPM_ACCESS_MODE_READ_ONLY 0 0.

Record ipm_claim_list := mk_list {
  list_mutex : ipm_mut;
  list_cnd : ipm_cnd;
  count : Z;
  capacity : Z;
  claim_counter : Z;
  claims : list ipm_memory_claim
}.

Definition set_mutex (m : ipm_mut) (l : ipm_claim_list) : ipm_claim_list :=
  mk_list m (list_cnd l) (count l) (capacity l) (claim_counter l) (claims l).
Definition set_cnd (c : ipm_cnd) (l : ipm_claim_list) : ipm_claim_list :=
  mk_list (list_mutex l) c (count l) (capacity l) (claim_counter l) (claims l).
Definition set_count (n : Z) (l : ipm_claim_list) : ipm_claim_list :=
  mk_list (list_mutex l) (list_cnd l) n (capacity l) (claim_counter l) (claims l).
Definition set_counter (n : Z) (l : ipm_claim_list) : ipm_claim_list :=
  mk_list (list_mutex l) (list_cnd l) (count l) (capacity l) n (claims l).
Definition set_claims (cs : list ipm_memory_claim) (l : ipm_claim_list) : ipm_claim_list :=
  mk_list (list_mutex l) (list_cnd l) (count l) (capacity l) (claim_counter l) cs.

(** ** Predicates on pairs of claims *)

Definition is_read_only (c : ipm_memory_claim) : bool :=
  bool_decide (access c = IPM_ACCESS_MODE_READ_ONLY).

Definition claims_conflict (claim_1 claim_2 : ipm_memory_claim) : bool :=
  if proc_id claim_1 =? proc_id claim_2 then false
  else if is_read_only claim_1 && is_read_only claim_2 then false
  else if offset claim_2 <? offset claim_1 then
    offset claim_2 <? wrap64 (offset claim_1 + size claim_1)
  else if offset claim_1 <? offset claim_2 then
    offset claim_1 <? wrap64 (offset claim_2 + size claim_2)
  else true.

Definition claim_encompasses_other (claim_1 claim_2 : ipm_memory_claim) : bool :=
  if negb (proc_id claim_1 =? proc_id claim_2) || negb (bool_decide (access claim_1 = access claim_2))
  then false
  else if (offset claim_2 <=? offset claim_1) &&
          (wrap64 (offset claim_2 + size claim_2) <=? wrap64 (offset claim_1 + size claim_1))
  then true
  else false.

(** ** Arrays of claims *)

(** [for (pos = 0; pos < n; ++pos) if (p(claims[pos])) break;] *)
Inductive scan_result := Hit (pos : nat) | End | Out_of_bounds.

Fixpoint scan (p : ipm_memory_claim -> bool) (cs : list ipm_memory_claim) (n : nat) (pos : nat)
    : scan_result :=
  match n with
  | O => End
  | S n =>
      match cs !! pos with
      | None => Out_of_bounds
      | Some c => if p c then Hit pos else scan p cs n (S pos)
      end
  end.

(** The same loop with an [unsigned] index against a [size_t] bound: past
    [UINT_MAX] the index wraps and the loop does not end. *)
Definition scan_loop {S} (p : ipm_memory_claim -> bool) (cs : list ipm_memory_claim) (n : Z) : M S Z :=
  match scan p cs (Z.to_nat (Z.min n u32_mod)) 0 with
  | Hit pos => mret (Z.of_nat pos)
  | End => if n <? u32_mod then mret n else hang
  | Out_of_bounds => undef
  end.

(** [memmove(claims + dst, claims + src, n * sizeof(claims[0]))]; touching a slot
    outside the array is undefined. *)
Definition memmove (dst src n : Z) (cs : list ipm_memory_claim) : option (list ipm_memory_claim) :=
  let len := Z.of_nat (length cs) in
  if (n =? 0) && (dst <=? len) && (src <=? len) then Some cs
  else if (dst + n <=? len) && (src + n <=? len) then
    let moved := take (Z.to_nat n) (drop (Z.to_nat src) cs) in
    Some (take (Z.to_nat dst) cs ++ moved ++ drop (Z.to_nat (dst + n)) cs)
  else None.

(** [claims[pos] = c] *)
Definition store (pos : Z) (c : ipm_memory_claim) (cs : list ipm_memory_claim)
    : option (list ipm_memory_claim) :=
  if pos <? Z.of_nat (length cs) then Some (<[Z.to_nat pos := c]> cs) else None.

(** ** Operations *)

(** The state of a claim-list operation: the calling thread and the list. *)
Abbreviation LM := (M (thread * ipm_claim_list)).

Definition get_list : LM ipm_claim_list := gets snd.
Definition update_list (f : ipm_claim_list -> ipm_claim_list) : LM unit :=
  modify (fun s => (s.1, f s.2)).
Definition on_mutex {A} (m : M (thread * ipm_mut) A) : LM A :=
  zoom (fun s => (s.1, list_mutex s.2)) (fun s' s => (s'.1, set_mutex s'.2 s.2)) m.
Definition on_cnd {A} (m : M (thread * ipm_cnd) A) : LM A :=
  zoom (fun s => (s.1, list_cnd s.2)) (fun s' s => (s'.1, set_cnd s'.2 s.2)) m.

(** [atomic_fetch_add(&list->count, 1)] and [atomic_fetch_sub(&list->count, 1)]. *)
Definition fetch_add_count : LM Z :=
  l ← get_list; _ ← update_list (set_count (wrap64 (count l + 1))); mret (count l).
Definition fetch_sub_count : LM Z :=
  l ← get_list; _ ← update_list (set_count (wrap64 (count l - 1))); mret (count l).
(** [atomic_fetch_add(&list->claim_counter, 1)] *)
Definition fetch_add_counter : LM Z :=
  l ← get_list; _ ← update_list (set_counter (wrap64 (claim_counter l + 1))); mret (claim_counter l).

Section operations.
Variable NDEBUG : bool.

Definition claim_add_to_list (claim : ipm_memory_claim) : LM ipm_result :=
  l ← get_list;
  _ ← cassert NDEBUG (count l <? capacity l);
  if capacity l <=? count l then
    _ ← on_mutex ipm_mutex_unlock;
    mret IPM_RESULT_ERR_LIST_SIZE_MISMATCH
  else
    (* find where to insert *)
    pos ← scan_loop (fun c => offset claim <? offset c) (claims l) (count l);
    (* shift other elements *)
    cs ← (if negb (pos =? count l)
          then unwrap (memmove (pos + 1) pos (wrap64 (wrap64 (count l - pos) - 1)) (claims l))
          else mret (claims l));
    (* insert *)
    cs ← unwrap (store pos claim cs);
    _ ← update_list (set_claims cs);
    prev_count ← fetch_add_count;
    _ ← cassert NDEBUG (prev_count <? capacity l);
    mret IPM_RESULT_SUCCESS.

Definition claim_remove_from_list (id : Z) : LM ipm_result :=
  old ← fetch_sub_count;
  let cnt := wrap32 old in
  l ← get_list;
  _ ← cassert NDEBUG ((cnt <? capacity l) && (0 <? cnt));
  if cnt =? 0 then mret IPM_RESULT_ERR_INVALID_CLAIM
  else
    pos ← scan_loop (fun c => id =? claim_id c) (claims l) cnt;
    if cnt <? pos then mret IPM_RESULT_ERR_INVALID_CLAIM
    else
      cs ← (if negb (wrap32 (pos + 1) =? cnt)
            then unwrap (memmove pos (pos + 1) (wrap32 (wrap32 (wrap32 (cnt - 1) - pos) - 1)) (claims l))
            else mret (claims l));
      _ ← update_list (set_claims cs);
      mret IPM_RESULT_SUCCESS.

(** [callback] may change the state it closes over, here threaded as [P]. *)
Fixpoint iterate_loop {P} (callback : ipm_memory_claim -> P -> Z * P) (cs : list ipm_memory_claim)
    (n pos : nat) (param : P) : option (bool * P) :=
  match n with
  | O => Some (false, param)
  | S n =>
      match cs !! pos with
      | None => None
      | Some c =>
          let '(r, param) := callback c param in
          if negb (r =? 0) then Some (true, param)
          else iterate_loop callback cs n (S pos) param
      end
  end.

Definition claims_iterate {P} (callback : ipm_memory_claim -> P -> Z * P) (param : P)
    : LM (ipm_result * P) :=
  l ← get_list;
  let cnt := wrap32 (count l) in
  _ ← cassert NDEBUG (cnt <=? capacity l);
  if negb (cnt =? count l) then mret (IPM_RESULT_ERR_LIST_SIZE_MISMATCH, param)
  else if cnt =? capacity l then mret (IPM_RESULT_SUCCESS, param)
  else
    wait_res ← on_mutex ipm_mutex_lock;
    if negb (bool_decide (wait_res = IPM_RESULT_SUCCESS)) then mret (wait_res, param)
    else
      l ← get_list;
      '(interrupted, param) ← unwrap (iterate_loop callback (claims l) (Z.to_nat cnt) 0 param);
      if (interrupted : bool) then mret (IPM_RESULT_INTERRUPTED, param)
      else
        _ ← on_mutex ipm_mutex_unlock;
        mret (IPM_RESULT_SUCCESS, param).
End operations.

Definition claim_list_init (cap : Z) : LM ipm_result :=
  res ← on_mutex ipm_mutex_init;
  if negb (bool_decide (res = IPM_RESULT_SUCCESS)) then mret res
  else
    res ← on_cnd ipm_condition_init;
    if negb (bool_decide (res = IPM_RESULT_SUCCESS)) then mret res
    else
      _ ← update_list (fun l => mk_list (list_mutex l) (list_cnd l) 0 cap 0 (claims l));
      mret res.

Definition claim_list_uninit : LM unit :=
  _ ← on_mutex ipm_mutex_destroy;
  _ ← on_cnd ipm_condition_destroy;
  mret tt.

(** ** Views of a list and well-formedness *)

(** The active claims. *)
Definition visible (l : ipm_claim_list) : list ipm_memory_claim :=
  take (Z.to_nat (count l)) (claims l).

(** The slot the next insertion brings into view. *)
Definition spare (l : ipm_claim_list) : ipm_memory_claim :=
  default zero_claim (claims l !! Z.to_nat (count l)).

Record list_wf (l : ipm_claim_list) : Prop := {
  wf_count : 0 <= count l <= capacity l;
  wf_slots : capacity l <= Z.of_nat (length (claims l));
  wf_width : Z.of_nat (length (claims l)) + 1 < u32_mod
}.

Record claim_ok (c : ipm_memory_claim) : Prop := {
  ok_offset : u64 (offset c);
  ok_size : 0 < size c;
  ok_end : offset c + size c < u64_mod
}.

Lemma length_visible l : list_wf l -> length (visible l) = Z.to_nat (count l).
Proof. intros [? ? ?]. unfold visible. rewrite length_take. lia. Qed.

Lemma visible_lookup l i :
  (i < Z.to_nat (count l))%nat -> visible l !! i = claims l !! i.
Proof. intros. unfold visible. by rewrite lookup_take_lt. Qed.

(** *** Conflicts *)

(** What the claims mean: the bytes [offset, offset + size). *)
Definition covers (c : ipm_memory_claim) (b : Z) : Prop := offset c <= b < offset c + size c.
Definition overlap (c d : ipm_memory_claim) : Prop := exists b, covers c b /\ covers d b.
Definition writes (c : ipm_memory_claim) : Prop := access c = IPM_ACCESS_MODE_READ_WRITE.

(** The reader-writer rule on regions of the README. *)
Definition region_conflict (c d : ipm_memory_claim) : Prop :=
  proc_id c <> proc_id d /\ (writes c \/ writes d) /\ overlap c d.

Lemma not_read_only c : is_read_only c = false <-> writes c.
Proof. unfold is_read_only, writes. destruct (access c); naive_solver. Qed.

Lemma claims_conflict_spec c d :
  claim_ok c -> claim_ok d ->
  claims_conflict c d = true <-> proc_id c <> proc_id d /\ (writes c \/ writes d).
Proof.
  intros [[Hc1 Hc2] Hc3 Hc4] [[Hd1 Hd2] Hd3 Hd4]. unfold claims_conflict.
  rewrite !wrap64_small by (unfold u64; lia).
  rewrite <- !not_read_only.
  destruct (Z.eqb_spec (proc_id c) (proc_id d)); [split; [done|by intros [? _]]|].
  destruct (is_read_only c), (is_read_only d); simpl; [split; [done|by intros [_ [?|?]]]|..].
  all: split; [intros _; split; auto|intros _].
  all: destruct (Z.ltb_spec (offset d) (offset c)); [apply Z.ltb_lt; lia|].
  all: destruct (Z.ltb_spec (offset c) (offset d)); [apply Z.ltb_lt; lia|done].
Qed.

Lemma claims_conflict_false c d :
  claim_ok c -> claim_ok d -> claims_conflict c d = false ->
  proc_id c = proc_id d \/ (~ writes c /\ ~ writes d).
Proof.
  intros Hc Hd Hf.
  destruct (decide (proc_id c = proc_id d)); [by left|right].
  split; intros Hw; enough (claims_conflict c d = true) by congruence;
    apply claims_conflict_spec; auto.
Qed.

(** *** The scanning loop *)

Lemma scan_find (p : ipm_memory_claim -> bool) cs n pos :
  (pos + n <= length cs)%nat ->
  scan p cs n pos =
  match list_find (fun c => p c = true) (take n (drop pos cs)) with
  | Some (i, _) => Hit (pos + i)
  | None => End
  end.
Proof.
  revert pos. induction n as [|n IH]; intros pos Hlen; [done|]. cbn [scan].
  destruct (cs !! pos) as [c|] eqn:Hc; [|apply lookup_ge_None in Hc; lia].
  rewrite (drop_S _ _ _ Hc). cbn [take list_find].
  destruct (p c) eqn:Hp.
  - rewrite decide_True by done. by rewrite Nat.add_0_r.
  - rewrite decide_False by done. rewrite IH by lia.
    destruct (list_find _ _) as [[i d]|]; simpl; [f_equal; lia|done].
Qed.

(** First index of [v] satisfying [p], or its length. *)
Definition find_pos (p : ipm_memory_claim -> bool) (v : list ipm_memory_claim) : nat :=
  match list_find (fun c => p c = true) v with Some (i, _) => i | None => length v end.

Lemma find_pos_le p v : (find_pos p v <= length v)%nat.
Proof.
  unfold find_pos. destruct (list_find _ v) as [[i c]|] eqn:E; [|lia].
  apply list_find_Some in E as (Hi & _ & _). apply lookup_lt_Some in Hi. lia.
Qed.

Lemma find_pos_lt p v i c :
  v !! i = Some c -> p c = true -> (find_pos p v <= i)%nat.
Proof.
  intros Hi Hp. unfold find_pos. destruct (list_find _ v) as [[j d]|] eqn:E.
  - apply list_find_Some in E as (Hj & Hd & Hmin).
    destruct (decide (i < j)%nat) as [Hlt|]; [|lia]. by destruct (Hmin _ _ Hi Hlt).
  - apply list_find_None in E. rewrite Forall_lookup in E. by destruct (E _ _ Hi).
Qed.

Lemma find_pos_hit p v c :
  v !! find_pos p v = Some c -> p c = true.
Proof.
  unfold find_pos. destruct (list_find _ v) as [[j d]|] eqn:E.
  - apply list_find_Some in E as (Hj & Hd & _). naive_solver.
  - intros H. apply lookup_lt_Some in H. lia.
Qed.

Lemma find_pos_all p v : Forall (fun c => p c = false) v -> find_pos p v = length v.
Proof.
  intros H. unfold find_pos. destruct (list_find _ v) as [[j d]|] eqn:E; [|done].
  apply list_find_Some in E as (Hj & Hd & _). rewrite Forall_lookup in H.
  apply H in Hj. congruence.
Qed.

Lemma find_pos_first p v i c :
  v !! i = Some c -> p c = true ->
  (forall j d, v !! j = Some d -> (j < i)%nat -> p d = false) ->
  find_pos p v = i.
Proof.
  intros Hi Hp Hmin. pose proof (find_pos_lt _ _ _ _ Hi Hp) as Hle.
  destruct (decide (find_pos p v < i)%nat) as [Hlt|]; [|lia].
  destruct (v !! find_pos p v) as [d|] eqn:E.
  - pose proof (find_pos_hit _ _ _ E). pose proof (Hmin _ _ E Hlt). congruence.
  - apply lookup_lt_Some in Hi. apply lookup_ge_None in E. lia.
Qed.

Lemma scan_loop_run {S} p cs n (s : S) :
  0 <= n <= Z.of_nat (length cs) -> n < u32_mod ->
  scan_loop p cs n s = Ret (Z.of_nat (find_pos p (take (Z.to_nat n) cs))) s.
Proof.
  intros Hn Hw. unfold scan_loop.
  rewrite Z.min_l by lia. rewrite scan_find by lia. rewrite drop_0.
  unfold find_pos. destruct (list_find _ (take (Z.to_nat n) cs)) as [[i c]|] eqn:E; simpl; [done|].
  rewrite (proj2 (Z.ltb_lt _ _)) by lia. rewrite length_take. do 2 f_equal. lia.
Qed.

(** *** Insertion *)

(** Where the code inserts: before the first active claim with a larger offset. *)
Definition ins_pos (c : ipm_memory_claim) (v : list ipm_memory_claim) : nat :=
  find_pos (fun d => offset c <? offset d) v.

(** The array after [claim_add_to_list] on [n] active claims. *)
Definition added_slots (c : ipm_memory_claim) (n : nat) (cs : list ipm_memory_claim)
    : list ipm_memory_claim :=
  let p := ins_pos c (take n cs) in
  if decide (p = n) then <[n := c]> cs
  else take p cs ++ c :: take (n - p - 1) (drop p cs) ++ drop n cs.

(** The insertion writes no other claim into a slot than [c]. *)
Lemma added_slots_from c n cs : added_slots c n cs ⊆ c :: cs.
Proof.
  unfold added_slots. case_decide; intros d Hd.
  - apply list_elem_of_lookup in Hd as [i Hd]. destruct (decide (i = n)) as [->|Hne].
    + apply list_lookup_insert_Some in Hd as [(_ & <- & _)|[? _]]; [by left|done].
    + rewrite list_lookup_insert_ne in Hd by done. right. by eapply list_elem_of_lookup_2.
  - rewrite elem_of_app, elem_of_cons, elem_of_app in Hd.
    destruct Hd as [Hd|[->|[Hd|Hd]]]; [|by left|..]; right.
    + by eapply subseteq_take.
    + by eapply subseteq_drop, subseteq_take.
    + by eapply subseteq_drop.
Qed.

Definition added (c : ipm_memory_claim) (l : ipm_claim_list) : ipm_claim_list :=
  set_count (count l + 1) (set_claims (added_slots c (Z.to_nat (count l)) (claims l)) l).

(** What the insertion does to the active claims: at the end it appends;
    otherwise the last active claim is lost and the spare slot comes into view. *)
Definition visible_added (c : ipm_memory_claim) (v : list ipm_memory_claim) (sp : ipm_memory_claim)
    : list ipm_memory_claim :=
  let p := ins_pos c v in
  if decide (p = length v) then v ++ [c]
  else take p v ++ c :: take (length v - p - 1) (drop p v) ++ [sp].

(** Reference: insertion into a list ordered by offset. *)
Fixpoint insert_sorted (c : ipm_memory_claim) (v : list ipm_memory_claim) : list ipm_memory_claim :=
  match v with
  | [] => [c]
  | d :: v' => if offset c <? offset d then c :: d :: v' else d :: insert_sorted c v'
  end.

Lemma memmove_run dst src n cs :
  0 <= dst -> 0 <= src -> 0 <= n ->
  dst + n <= Z.of_nat (length cs) -> src + n <= Z.of_nat (length cs) ->
  memmove dst src n cs =
  Some (take (Z.to_nat dst) cs ++ take (Z.to_nat n) (drop (Z.to_nat src) cs)
        ++ drop (Z.to_nat dst + Z.to_nat n) cs).
Proof.
  intros. unfold memmove.
  destruct (Z.eqb_spec n 0) as [->|].
  - rewrite !(proj2 (Z.leb_le _ _)) by lia. simpl.
    by rewrite Nat.add_0_r, take_drop.
  - rewrite andb_false_l. rewrite !(proj2 (Z.leb_le _ _)) by lia. simpl.
    by rewrite Z2Nat.inj_add by lia.
Qed.

Lemma memmove_oob dst src n cs :
  0 < n -> Z.of_nat (length cs) < dst + n -> memmove dst src n cs = None.
Proof.
  intros. unfold memmove. rewrite (proj2 (Z.eqb_neq n 0)) by lia. simpl.
  by rewrite (proj2 (Z.leb_gt _ _)) by lia.
Qed.

(** The tail of [claim_add_to_list] once the other claims are shifted. *)
Lemma claim_store_run nd c t l cs p :
  list_wf l -> count l < capacity l -> (p < length cs)%nat ->
  (cs ← unwrap (store (Z.of_nat p) c cs);
   _ ← update_list (set_claims cs);
   prev_count ← fetch_add_count;
   _ ← cassert nd (prev_count <? capacity l);
   mret IPM_RESULT_SUCCESS) (t, l) =
  Ret IPM_RESULT_SUCCESS (t, set_count (count l + 1) (set_claims (<[p := c]> cs) l)).
Proof.
  intros [Hc Hs Hw] Hlt Hp. unfold store. rewrite (proj2 (Z.ltb_lt _ _)) by lia. simpl.
  rewrite Nat2Z.id. unfold mbind, M_bind; simpl.
  rewrite cassert_true by (apply Z.ltb_lt; lia).
  by rewrite wrap64_small by word.
Qed.

Lemma claim_add_run nd c t l :
  list_wf l -> count l < capacity l ->
  claim_add_to_list nd c (t, l) = Ret IPM_RESULT_SUCCESS (t, added c l).
Proof.
  intros Hwf Hlt. pose proof Hwf as [Hc Hs Hw].
  assert (Hfp := find_pos_le (fun d => offset c <? offset d) (visible l)).
  rewrite length_visible in Hfp by done.
  unfold claim_add_to_list, get_list. erewrite bind_Ret by done.
  erewrite bind_Ret by (apply cassert_true, Z.ltb_lt; simpl; lia).
  simpl. rewrite (proj2 (Z.leb_gt _ _)) by lia.
  erewrite bind_Ret by (apply scan_loop_run; lia).
  unfold added, added_slots. fold (visible l). fold (ins_pos c (visible l)) in *.
  set (p := ins_pos c (visible l)) in *.
  destruct (Z.eqb_spec (Z.of_nat p) (count l)) as [He|He]; simpl.
  - erewrite bind_Ret by done. rewrite claim_store_run by (done || lia).
    rewrite decide_True by lia. by replace p with (Z.to_nat (count l)) by lia.
  - rewrite (wrap64_small (count l - _)) by word.
    rewrite (wrap64_small (count l - _ - _)) by word.
    rewrite memmove_run by lia. erewrite bind_Ret by done.
    rewrite claim_store_run by (done || rewrite ?length_app, ?length_take; lia).
    rewrite decide_False, Nat2Z.id by lia.
    replace (Z.to_nat (Z.of_nat p + 1)) with (S p) by lia.
    replace (Z.to_nat (count l - Z.of_nat p - 1)) with (Z.to_nat (count l) - p - 1)%nat by lia.
    replace (S p + (Z.to_nat (count l) - p - 1))%nat with (Z.to_nat (count l)) by lia.
    by rewrite insert_take_S by lia.
Qed.

Lemma length_added_slots c n cs :
  (n < length cs)%nat -> length (added_slots c n cs) = length cs.
Proof.
  intros Hn. unfold added_slots. pose proof (find_pos_le (fun d => offset c <? offset d) (take n cs)) as Hp.
  fold (ins_pos c (take n cs)) in Hp. rewrite length_take in Hp.
  case_decide; [by rewrite length_insert|].
  rewrite length_app. simpl. rewrite length_app, !length_take, !length_drop. lia.
Qed.

Lemma added_wf c l : list_wf l -> count l < capacity l -> list_wf (added c l).
Proof.
  intros [Hc Hs Hw] Hlt. split; simpl; rewrite ?length_added_slots by lia; lia.
Qed.

Lemma visible_added_eq c l :
  list_wf l -> count l < capacity l ->
  visible (added c l) = visible_added c (visible l) (spare l).
Proof.
  intros Hwf Hlt. pose proof Hwf as [Hc Hs Hw].
  pose proof (length_visible _ Hwf) as Hv.
  unfold visible at 1, added, visible_added, added_slots. simpl. rewrite Hv. fold (visible l).
  pose proof (find_pos_le (fun d => offset c <? offset d) (visible l)) as Hp.
  fold (ins_pos c (visible l)) in Hp. set (p := ins_pos c (visible l)) in *. rewrite Hv in Hp.
  replace (Z.to_nat (count l + 1)) with (S (Z.to_nat (count l))) by lia.
  assert (is_Some (claims l !! Z.to_nat (count l))) as [sp Hsp] by (apply lookup_lt_is_Some_2; lia).
  case_decide as E.
  - rewrite (take_S_r _ _ c) by (apply list_lookup_insert_eq; lia).
    by rewrite take_insert_ge by lia.
  - unfold spare. rewrite Hsp, (drop_S _ _ _ Hsp). simpl.
    set (n := Z.to_nat (count l)) in *.
    transitivity (take (S n) ((take p (claims l) ++ c :: take (n - p - 1) (drop p (claims l)) ++ [sp])
                             ++ drop (S n) (claims l))).
    { f_equal. by rewrite <- app_assoc, <- app_comm_cons, <- app_assoc. }
    rewrite take_app_length' by
      (rewrite length_app; simpl; rewrite length_app, !length_take, !length_drop; simpl; lia).
    unfold visible. fold n. rewrite take_take, !take_drop_commute, take_take.
    do 3 f_equal; [lia|]. do 3 f_equal. lia.
Qed.

Lemma find_pos_cons p d v :
  find_pos p (d :: v) = if p d then 0%nat else S (find_pos p v).
Proof.
  unfold find_pos. simpl. destruct (p d) eqn:E.
  - by rewrite decide_True.
  - rewrite decide_False by congruence. by destruct (list_find _ v) as [[]|].
Qed.

Lemma insert_sorted_split c v : insert_sorted c v = take (ins_pos c v) v ++ c :: drop (ins_pos c v) v.
Proof.
  induction v as [|d v IH]; [done|]. unfold ins_pos. rewrite find_pos_cons. simpl.
  destruct (offset c <? offset d); simpl; [done|]. by rewrite IH.
Qed.

(** The order the list is meant to keep. *)
Definition offset_sorted (v : list ipm_memory_claim) : Prop :=
  forall i j c d, (i < j)%nat -> v !! i = Some c -> v !! j = Some d -> offset c <= offset d.

Lemma ins_pos_append c v :
  Forall (fun d => offset d <= offset c) v -> ins_pos c v = length v.
Proof.
  intros H. apply find_pos_all. eapply Forall_impl; [exact H|]. simpl. intros d ?.
  apply Z.ltb_ge. lia.
Qed.

Lemma ins_pos_end_iff c v :
  ins_pos c v = length v <-> Forall (fun d => offset d <= offset c) v.
Proof.
  split; [|apply ins_pos_append]. intros H. apply Forall_lookup. intros i d Hi.
  destruct (Z.le_gt_cases (offset d) (offset c)) as [?|Hgt]; [done|].
  pose proof (find_pos_lt (fun d => offset c <? offset d) v i d Hi) as Hle.
  apply lookup_lt_Some in Hi. fold (ins_pos c v) in Hle.
  specialize (Hle ltac:(by apply Z.ltb_lt)). lia.
Qed.

Lemma offset_sorted_snoc c v :
  offset_sorted v -> Forall (fun d => offset d <= offset c) v -> offset_sorted (v ++ [c]).
Proof.
  intros Hs Hall i j x y Hij Hx Hy. rewrite Forall_lookup in Hall.
  apply lookup_snoc_Some in Hx as [[Hi Hx]|[-> ->]];
    apply lookup_snoc_Some in Hy as [[Hj Hy]|[-> ->]]; [exact (Hs _ _ _ _ Hij Hx Hy) | exact (Hall _ _ Hx) | lia | lia].
Qed.

Lemma visible_added_append c v sp :
  Forall (fun d => offset d <= offset c) v -> visible_added c v sp = v ++ [c].
Proof. intros H. unfold visible_added. by rewrite ins_pos_append, decide_True. Qed.

(** The insertion agrees with the reference exactly when it appends or when the
    spare slot happens to equal the claim it drops. *)
Lemma visible_added_iff c v sp :
  visible_added c v sp = insert_sorted c v <->
  ins_pos c v = length v \/ last v = Some sp.
Proof.
  rewrite insert_sorted_split. unfold visible_added.
  pose proof (find_pos_le (fun d => offset c <? offset d) v) as Hp. fold (ins_pos c v) in Hp.
  case_decide as E.
  { rewrite E, firstn_all, drop_all. naive_solver. }
  destruct v as [|x v _] using rev_ind; [simpl in *; lia|].
  rewrite length_app in *. simpl in *. set (p := ins_pos c (v ++ [x])) in *.
  rewrite last_snoc, drop_app_le by lia.
  rewrite (take_app_length' (drop p v)) by (rewrite length_drop; lia).
  split; [|by intros [?|[= ->]]].
  intros H. apply app_inj_1 in H as [_ [= H]]; [|done].
  apply app_inj_1 in H as [_ [= ->]]; [|done]. by right.
Qed.

(** *** Removal *)

Definition has_id (id : Z) (c : ipm_memory_claim) : bool := id =? claim_id c.

Definition rem_pos (id : Z) (v : list ipm_memory_claim) : nat := find_pos (has_id id) v.

Lemma rem_pos_lt id v : id ∈ map claim_id v -> (rem_pos id v < length v)%nat.
Proof.
  intros (c & -> & Hc)%list_elem_of_fmap. apply list_elem_of_lookup in Hc as [i Hi].
  pose proof (find_pos_lt (has_id (claim_id c)) v i c Hi (Z.eqb_refl _)).
  apply lookup_lt_Some in Hi. unfold rem_pos. lia.
Qed.

Lemma rem_pos_snoc c v :
  Forall (fun d => claim_id d <> claim_id c) v -> rem_pos (claim_id c) (v ++ [c]) = length v.
Proof.
  intros H. eapply find_pos_first; [by apply list_lookup_middle|apply Z.eqb_refl|].
  intros j d Hj Hlt. rewrite lookup_app_l in Hj by done. rewrite Forall_lookup in H.
  apply H in Hj. apply Z.eqb_neq. congruence.
Qed.

(** The array after [claim_remove_from_list] found the claim at [p] among [n]. *)
Definition removed_slots (p n : nat) (cs : list ipm_memory_claim) : list ipm_memory_claim :=
  if decide (S p = n) then cs
  else take p cs ++ take (n - p - 2) (drop (S p) cs) ++ drop (n - 2) cs.

(** And the removal none. *)
Lemma removed_slots_from p n cs : removed_slots p n cs ⊆ cs.
Proof.
  unfold removed_slots. case_decide; [done|]. intros d. rewrite !elem_of_app. intros [Hd|[Hd|Hd]].
  - by eapply subseteq_take.
  - by eapply subseteq_drop, subseteq_take.
  - by eapply subseteq_drop.
Qed.

Definition removed (p : nat) (l : ipm_claim_list) : ipm_claim_list :=
  set_count (count l - 1) (set_claims (removed_slots p (Z.to_nat (count l)) (claims l)) l).

(** What the removal does to the active claims: the last one is popped; any
    other one is deleted, but the last active claim is lost with it and the
    last but one is seen twice. *)
Definition visible_removed (p : nat) (v : list ipm_memory_claim) : list ipm_memory_claim :=
  let v' := take (length v - 1) v in
  if decide (S p = length v) then v' else delete p v' ++ drop (length v' - 1) v'.

(** The value of the element count of the [memmove] of [claim_remove_from_list]. *)
Lemma remove_move_count cnt pos :
  0 < cnt < u32_mod -> 0 <= pos <= cnt ->
  wrap32 (wrap32 (wrap32 (cnt - 1) - pos) - 1) =
  if decide (pos + 1 < cnt) then cnt - pos - 2 else cnt - pos - 2 + u32_mod.
Proof.
  intros Hc Hp. unfold wrap32. rewrite (Z.mod_small (cnt - 1)) by word.
  rewrite Zminus_mod_idemp_l. case_decide.
  - rewrite Z.mod_small by word. lia.
  - symmetry. apply Z.mod_unique_pos with (-1); word.
Qed.

Lemma claim_remove_run nd id t l :
  list_wf l -> 0 < count l -> (nd = true \/ count l < capacity l) ->
  (rem_pos id (visible l) < length (visible l))%nat ->
  claim_remove_from_list nd id (t, l) =
  Ret IPM_RESULT_SUCCESS (t, removed (rem_pos id (visible l)) l).
Proof.
  intros Hwf Hpos Hnd Hp. pose proof Hwf as [Hc Hs Hw]. rewrite length_visible in Hp by done.
  unfold claim_remove_from_list.
  erewrite bind_Ret by done. simpl. rewrite (wrap32_small (count l)) by word.
  rewrite (wrap64_small (count l - 1)) by word.
  erewrite bind_Ret by done. simpl.
  erewrite bind_Ret by (destruct Hnd as [->|]; [apply cassert_ndebug|apply cassert_true; lia]).
  rewrite (proj2 (Z.eqb_neq _ _)) by lia.
  erewrite bind_Ret by (apply scan_loop_run; lia).
  fold (visible l). fold (has_id id). fold (rem_pos id (visible l)).
  unfold removed, removed_slots. set (p := rem_pos id (visible l)) in *.
  rewrite (proj2 (Z.ltb_ge _ _)) by lia. rewrite (wrap32_small (_ + 1)) by word.
  destruct (Z.eqb_spec (Z.of_nat p + 1) (count l)) as [He|He]; simpl.
  - by rewrite decide_True by lia.
  - rewrite decide_False by lia. rewrite remove_move_count, decide_True by lia.
    rewrite memmove_run by lia. erewrite bind_Ret by done. unfold mbind, M_bind; simpl.
    do 3 f_equal. rewrite Nat2Z.id.
    replace (Z.to_nat (Z.of_nat p + 1)) with (S p) by lia.
    replace (Z.to_nat (count l - Z.of_nat p - 2)) with (Z.to_nat (count l) - p - 2)%nat by lia.
    by replace (p + (Z.to_nat (count l) - p - 2))%nat with (Z.to_nat (count l) - 2)%nat by lia.
Qed.

(** An identifier that is not active is never reported: the search position
    equals the count, passes the check [pos > count] and the [memmove] that
    follows reads and writes far outside the array. *)
Lemma claim_remove_unknown nd id t l :
  list_wf l -> 0 < count l -> (nd = true \/ count l < capacity l) ->
  Forall (fun c => claim_id c <> id) (visible l) ->
  claim_remove_from_list nd id (t, l) = Undef.
Proof.
  intros Hwf Hpos Hnd Hno. pose proof Hwf as [Hc Hs Hw].
  assert (Hp : rem_pos id (visible l) = Z.to_nat (count l)).
  { unfold rem_pos. rewrite find_pos_all; [by apply length_visible|].
    eapply Forall_impl; [exact Hno|]. intros c Hne. by apply Z.eqb_neq. }
  unfold claim_remove_from_list.
  erewrite bind_Ret by done. simpl. rewrite (wrap32_small (count l)) by word.
  erewrite bind_Ret by done. simpl.
  erewrite bind_Ret by (destruct Hnd as [->|]; [apply cassert_ndebug|apply cassert_true; lia]).
  rewrite (proj2 (Z.eqb_neq _ _)) by lia.
  erewrite bind_Ret by (apply scan_loop_run; lia).
  fold (visible l). fold (has_id id). fold (rem_pos id (visible l)). rewrite Hp, Z2Nat.id by lia.
  rewrite (proj2 (Z.ltb_ge _ _)) by lia. rewrite (wrap32_small (_ + 1)) by word.
  rewrite (proj2 (Z.eqb_neq _ _)) by lia. simpl.
  rewrite remove_move_count, decide_False by lia.
  by rewrite memmove_oob by word.
Qed.

Lemma length_removed_slots p n cs :
  (p < n)%nat -> (n <= length cs)%nat -> length (removed_slots p n cs) = length cs.
Proof.
  intros Hp Hn. unfold removed_slots. case_decide; [done|].
  rewrite !length_app, !length_take, !length_drop. lia.
Qed.

Lemma removed_wf p l :
  list_wf l -> (p < Z.to_nat (count l))%nat -> list_wf (removed p l).
Proof.
  intros [Hc Hs Hw] Hp. split; simpl; rewrite ?length_removed_slots by lia; lia.
Qed.

Lemma visible_removed_eq p l :
  list_wf l -> (p < Z.to_nat (count l))%nat ->
  visible (removed p l) = visible_removed p (visible l).
Proof.
  intros Hwf Hp. pose proof Hwf as [Hc Hs Hw]. pose proof (length_visible _ Hwf) as Hv.
  unfold visible at 1, removed, visible_removed, removed_slots. simpl. rewrite Hv.
  set (n := Z.to_nat (count l)) in *. replace (Z.to_nat (count l - 1)) with (n - 1)%nat by lia.
  assert (Ht : take (n - 1) (visible l) = take (n - 1) (claims l)).
  { unfold visible. fold n. rewrite take_take. f_equal. lia. }
  rewrite Ht. case_decide as E; [done|].
  rewrite length_take, delete_take_drop, take_take.
  replace ((n - 1) `min` length (claims l) - 1)%nat with (n - 2)%nat by lia.
  rewrite !skipn_firstn_comm, <- app_assoc.
  rewrite !take_app_ge by (rewrite ?length_take, ?length_drop; lia).
  rewrite !length_take, length_drop.
  f_equal; [f_equal; lia|]. f_equal; f_equal; lia.
Qed.

(** The removal agrees with deleting the claim exactly when that claim is the
    last one, or when the last two claims are equal. *)
Lemma visible_removed_iff p v :
  (p < length v)%nat ->
  visible_removed p v = delete p v <->
  S p = length v \/ v !! (length v - 2)%nat = last v.
Proof.
  intros Hp. unfold visible_removed. case_decide as E.
  - split; [by left|intros _]. rewrite delete_take_drop, (drop_ge _ (S p)), app_nil_r by lia.
    f_equal. lia.
  - destruct v as [|x v _] using rev_ind; [simpl in *; lia|].
    destruct v as [|y v _] using rev_ind; [simpl in *; lia|].
    rewrite last_snoc, !length_app in *. simpl in *.
    rewrite (take_app_length' (v ++ [y])) by (rewrite length_app; simpl; lia).
    rewrite length_app. simpl.
    replace (length v + 1 + 1 - 2)%nat with (length v) by lia.
    replace (length v + 1 - 1)%nat with (length v) by lia.
    rewrite drop_app_length, (lookup_app_l (v ++ [y])) by (rewrite length_app; simpl; lia).
    rewrite (list_lookup_middle v [] y) by done.
    rewrite (delete_take_drop ((v ++ [y]) ++ [x])), (delete_take_drop (v ++ [y])).
    rewrite (take_app_le (v ++ [y])), (drop_app_le (v ++ [y])) by (rewrite length_app; simpl; lia).
    rewrite <- app_assoc.
    split; [|intros [?|[= ->]]; [lia|done]].
    intros H. right. apply app_inj_1 in H as [_ H]; [|done].
    by apply app_inj_1 in H as [_ [= ->]].
Qed.

Lemma visible_removed_last v :
  v <> [] -> visible_removed (length v - 1) v = take (length v - 1) v.
Proof. intros Hv. unfold visible_removed. destruct v; [done|]. by rewrite decide_True by (simpl; lia). Qed.

Lemma length_visible_removed p v :
  (p < length v)%nat -> length (visible_removed p v) = (length v - 1)%nat.
Proof.
  intros Hp. unfold visible_removed. case_decide; rewrite ?length_app, ?length_drop, ?length_take; [lia|].
  rewrite length_delete by (apply lookup_lt_is_Some_2; rewrite length_take; lia).
  rewrite length_take. lia.
Qed.

(** Every claim active after a removal was active before. *)
Lemma visible_removed_subset p v : (p < length v)%nat -> visible_removed p v ⊆ v.
Proof.
  intros Hp x Hx. unfold visible_removed in Hx. case_decide.
  - by eapply subseteq_take.
  - apply elem_of_app in Hx as [Hx|Hx].
    + eapply subseteq_take. rewrite delete_take_drop in Hx.
      apply elem_of_app in Hx as [Hx|Hx]; [by eapply subseteq_take|by eapply subseteq_drop].
    + eapply subseteq_take. by eapply subseteq_drop.
Qed.

(** *** Iteration and the mutex *)

Lemma set_mutex_id l : set_mutex (list_mutex l) l = l.
Proof. by destruct l. Qed.
Lemma set_mutex_set m m' l : set_mutex m (set_mutex m' l) = set_mutex m l.
Proof. done. Qed.

Lemma lock_list_run t l :
  no_faults 1 t -> list_mutex l = mutex_of Free ->
  on_mutex ipm_mutex_lock (t, l) =
  Ret IPM_RESULT_SUCCESS (thread_after_call t, set_mutex (mutex_of (Held (t_tid t))) l).
Proof.
  intros Hf Hm. unfold on_mutex.
  erewrite zoom_Ret; [|simpl; rewrite Hm; by rewrite mutex_lock_run]. done.
Qed.

Lemma unlock_list_run t l :
  no_faults 1 t -> list_mutex l = mutex_of (Held (t_tid t)) ->
  on_mutex ipm_mutex_unlock (t, l) =
  Ret IPM_RESULT_SUCCESS (thread_after_call t, set_mutex (mutex_of Free) l).
Proof.
  intros Hf Hm. unfold on_mutex.
  erewrite zoom_Ret; [|simpl; rewrite Hm, mutex_unlock_run by done; by rewrite decide_True by auto].
  done.
Qed.

(** Reference: visiting a list until the callback asks to stop. *)
Fixpoint visit {P} (callback : ipm_memory_claim -> P -> Z * P) (v : list ipm_memory_claim) (param : P)
    : bool * P :=
  match v with
  | [] => (false, param)
  | c :: v => let '(r, param) := callback c param in
              if negb (r =? 0) then (true, param) else visit callback v param
  end.

Lemma iterate_loop_visit {P} (cb : ipm_memory_claim -> P -> Z * P) cs n pos param :
  (pos + n <= length cs)%nat ->
  iterate_loop cb cs n pos param = Some (visit cb (take n (drop pos cs)) param).
Proof.
  revert pos param. induction n as [|n IH]; intros pos param Hlen; [done|]. cbn [iterate_loop].
  destruct (cs !! pos) as [c|] eqn:Hc; [|apply lookup_ge_None in Hc; lia].
  rewrite (drop_S _ _ _ Hc). cbn [take visit]. destruct (cb c param) as [r param'].
  destruct (negb (r =? 0)); [done|]. apply IH. lia.
Qed.

(** ** Properties *)

(** C27. On regions that do not wrap around, [claims_conflict] holds exactly for
    claims of two different processes of which at least one writes; it is
    symmetric, and it never misses a reader-writer conflict on overlapping
    regions. *)
Theorem claims_conflict_decides c d :
  claim_ok c -> claim_ok d ->
  (claims_conflict c d = true <-> proc_id c <> proc_id d /\ (writes c \/ writes d)) /\
  claims_conflict c d = claims_conflict d c /\
  (region_conflict c d -> claims_conflict c d = true).
Proof.
  intros Hc Hd. pose proof (claims_conflict_spec c d Hc Hd) as H1.
  pose proof (claims_conflict_spec d c Hd Hc) as H2. split_and!; [done| |].
  - apply eq_true_iff_eq. rewrite H1, H2. split; intros [? ?]; (split; [congruence|tauto]).
  - intros (Hp & Hw & _). by apply H1.
Qed.

Definition ex_claim (id proc : Z) (a : ipm_access_mode) (off sz : Z) := mk_claim id proc a off sz.

Lemma claims_conflict_decides_witness :
  claims_conflict (ex_claim 0 1 IPM_ACCESS_MODE_READ_WRITE 0 32)
                  (ex_claim 1 2 IPM_ACCESS_MODE_READ_ONLY 16 32) = true.
Proof.
  apply (claims_conflict_decides (ex_claim 0 1 IPM_ACCESS_MODE_READ_WRITE 0 32)
                  (ex_claim 1 2 IPM_ACCESS_MODE_READ_ONLY 16 32)).
  - split; simpl; word.
  - split; simpl; word.
  - split_and!; [simpl; lia|by left|exists 20; unfold covers; simpl; lia].
Defined.

(** The regions play no role: two processes, one of which writes, conflict
    also when their regions have no byte in common, in either argument order. *)
Theorem disjoint_claims_conflict c d :
  claim_ok c -> claim_ok d -> proc_id c <> proc_id d -> writes c -> ~ overlap c d ->
  claims_conflict c d = true /\ claims_conflict d c = true.
Proof.
  intros Hc Hd Hp Hw _. split; apply claims_conflict_spec; auto.
Qed.

Lemma disjoint_claims_conflict_witness :
  claims_conflict (ex_claim 0 1 IPM_ACCESS_MODE_READ_WRITE 0 16)
                  (ex_claim 1 2 IPM_ACCESS_MODE_READ_ONLY 4096 16) = true.
Proof.
  apply (disjoint_claims_conflict (ex_claim 0 1 IPM_ACCESS_MODE_READ_WRITE 0 16)
                  (ex_claim 1 2 IPM_ACCESS_MODE_READ_ONLY 4096 16)).
  - split; simpl; word.
  - split; simpl; word.
  - simpl; lia.
  - done.
  - intros (b & H1 & H2). unfold covers in *. simpl in *. lia.
Defined.

(** [claim_encompasses_other] compares the starts the wrong way round: on
    claims of one process and access that do not wrap, it holds exactly when
    the first starts and ends no earlier than the second.  So whenever it holds
    with different starts, the first claim does not contain the second one's
    first byte, and it fails on every claim that strictly contains another. *)
Theorem encompasses_is_reversed c d :
  claim_ok c -> claim_ok d -> proc_id c = proc_id d -> access c = access d ->
  (claim_encompasses_other c d = true <->
   offset d <= offset c /\ offset d + size d <= offset c + size c) /\
  (claim_encompasses_other c d = true -> offset c <> offset d -> ~ covers c (offset d)) /\
  (offset c < offset d -> claim_encompasses_other c d = false).
Proof.
  intros [[Hc1 Hc2] Hc3 Hc4] [[Hd1 Hd2] Hd3 Hd4] Hp Ha. unfold claim_encompasses_other, covers.
  rewrite Hp, Z.eqb_refl, bool_decide_true by done. simpl.
  rewrite !wrap64_small by word.
  destruct (Z.leb_spec (offset d) (offset c)), (Z.leb_spec (offset d + size d) (offset c + size c));
    simpl; split_and!; (lia || (split; (done || lia))).
Qed.

Lemma encompasses_is_reversed_witness :
  claim_encompasses_other (ex_claim 0 1 IPM_ACCESS_MODE_READ_ONLY 0 100)
                          (ex_claim 1 1 IPM_ACCESS_MODE_READ_ONLY 50 10) = false.
Proof.
  apply (encompasses_is_reversed (ex_claim 0 1 IPM_ACCESS_MODE_READ_ONLY 0 100)
                          (ex_claim 1 1 IPM_ACCESS_MODE_READ_ONLY 50 10));
    [split; simpl; word | split; simpl; word | done | done | simpl; lia].
Defined.

(** C4. Insertion on every branch.  With a free slot it succeeds in every build,
    keeps the list well formed, adds one to the count, leaves the mutex, the
    condition variable, the capacity and the claim counter alone, and turns the
    active claims [v] into [visible_added c v spare]: [v ++ [c]] when no active
    claim starts after [c], and otherwise a list in which the last claim of [v]
    has been overwritten and the stale spare slot has become active.  On a full
    list a debug build aborts and a release build unlocks the caller's mutex and
    reports [IPM_RESULT_ERR_LIST_SIZE_MISMATCH] without touching the claims. *)
Theorem claim_add_functional nd c t l :
  list_wf l ->
  (count l < capacity l ->
   exists l', claim_add_to_list nd c (t, l) = Ret IPM_RESULT_SUCCESS (t, l') /\
     list_wf l' /\ visible l' = visible_added c (visible l) (spare l) /\
     count l' = count l + 1 /\ list_mutex l' = list_mutex l /\ list_cnd l' = list_cnd l /\
     capacity l' = capacity l /\ claim_counter l' = claim_counter l) /\
  (count l = capacity l ->
   no_faults 1 t -> list_mutex l = mutex_of (Held (t_tid t)) ->
   claim_add_to_list nd c (t, l) =
   if nd then Ret IPM_RESULT_ERR_LIST_SIZE_MISMATCH (thread_after_call t, set_mutex (mutex_of Free) l)
   else Abort (t, l)).
Proof.
  intros Hwf. split.
  - intros Hlt. exists (added c l). split_and!; try done.
    + by apply claim_add_run.
    + by apply added_wf.
    + by apply visible_added_eq.
  - intros Hfull Hf Hm. unfold claim_add_to_list. erewrite bind_Ret by done. simpl.
    rewrite (proj2 (Z.ltb_ge _ _)) by lia. destruct nd; [|done].
    erewrite bind_Ret by apply cassert_ndebug. rewrite (proj2 (Z.leb_le _ _)) by lia.
    by erewrite bind_Ret by (by apply unlock_list_run).
Qed.

(** A list as [claim_list_init] leaves it, with claims stored. *)
Definition ex_list (n cap : Z) (cs : list ipm_memory_claim) : ipm_claim_list :=
  mk_list (mutex_of Free) (mk_cond true true) n cap n cs.
Definition ex_slots : list ipm_memory_claim :=
  [ex_claim 0 1 IPM_ACCESS_MODE_READ_ONLY 10 4; ex_claim 1 2 IPM_ACCESS_MODE_READ_ONLY 20 4;
   zero_claim; zero_claim].
Definition ex_thread : thread := mk_thread 7 0 [].

Lemma ex_list_wf : list_wf (ex_list 2 4 ex_slots).
Proof. split; simpl; word. Qed.

Lemma claim_add_functional_witness :
  exists l', claim_add_to_list false (ex_claim 2 1 IPM_ACCESS_MODE_READ_ONLY 15 4)
               (ex_thread, ex_list 2 4 ex_slots) = Ret IPM_RESULT_SUCCESS (ex_thread, l') /\
    map claim_id (visible l') = [0; 2; 0].
Proof.
  destruct (claim_add_functional false (ex_claim 2 1 IPM_ACCESS_MODE_READ_ONLY 15 4)
              ex_thread (ex_list 2 4 ex_slots) ex_list_wf) as [H _].
  destruct H as (l' & H1 & _ & H2 & _); [simpl; lia|].
  exists l'. split; [exact H1|]. rewrite H2. reflexivity.
Defined.

(** C28. Insertion implements ordered insertion by offset exactly when no active
    claim starts after the new one, or the spare slot equals the claim that is
    overwritten; in particular a process that claims regions at non-decreasing
    offsets sees every claim appended and the order kept. *)
Theorem claim_add_sorted_iff nd c t l :
  list_wf l -> count l < capacity l ->
  exists l', claim_add_to_list nd c (t, l) = Ret IPM_RESULT_SUCCESS (t, l') /\
    (visible l' = insert_sorted c (visible l) <->
     Forall (fun d => offset d <= offset c) (visible l) \/ last (visible l) = Some (spare l)) /\
    (Forall (fun d => offset d <= offset c) (visible l) -> offset_sorted (visible l) ->
     visible l' = visible l ++ [c] /\ offset_sorted (visible l')).
Proof.
  intros Hwf Hlt. exists (added c l). split_and!.
  - by apply claim_add_run.
  - rewrite visible_added_eq by done. rewrite visible_added_iff. by rewrite ins_pos_end_iff.
  - intros Hall Hsort. rewrite visible_added_eq by done. rewrite visible_added_append by done.
    split; [done|]. by apply offset_sorted_snoc.
Qed.

Lemma claim_add_sorted_iff_witness :
  exists l', claim_add_to_list true (ex_claim 2 1 IPM_ACCESS_MODE_READ_ONLY 30 4)
               (ex_thread, ex_list 2 4 ex_slots) = Ret IPM_RESULT_SUCCESS (ex_thread, l') /\
    visible l' = insert_sorted (ex_claim 2 1 IPM_ACCESS_MODE_READ_ONLY 30 4) (take 2 ex_slots).
Proof.
  destruct (claim_add_sorted_iff true (ex_claim 2 1 IPM_ACCESS_MODE_READ_ONLY 30 4)
              ex_thread (ex_list 2 4 ex_slots) ex_list_wf) as (l' & H1 & H2 & _); [simpl; lia|].
  exists l'. split; [exact H1|]. apply H2. left. apply (bool_decide_unpack _). vm_compute. exact I.
Defined.

(** Removal from a full list in a build with assertions. *)
Lemma claim_remove_full id t l :
  list_wf l -> 0 < count l -> count l = capacity l ->
  claim_remove_from_list false id (t, l) = Abort (t, set_count (count l - 1) l).
Proof.
  intros [Hc Hs Hw] Hpos Hfull. unfold claim_remove_from_list, fetch_sub_count, get_list.
  unfold mbind, M_bind; simpl. rewrite wrap32_small by word.
  rewrite (proj2 (Z.ltb_ge _ _)) by lia. simpl. by rewrite wrap64_small by word.
Qed.

(** C5. Removal on every branch.  For an active identifier (and, in a debug
    build, a list that is not full) it succeeds and turns the active claims [v]
    into [visible_removed p v] where [p] is the first position of the identifier;
    this is [v] without that claim exactly when the claim is the last one or
    the last two claims are equal.  For an identifier that is not active the
    behaviour is undefined, never [IPM_RESULT_ERR_INVALID_CLAIM].  A full list
    makes a debug build abort, and on an empty list a release build reports
    [IPM_RESULT_ERR_INVALID_CLAIM] after wrapping the count to [2^64 - 1]. *)
Theorem claim_remove_functional nd id t l :
  list_wf l ->
  let v := visible l in
  (0 < count l -> nd = true \/ count l < capacity l -> id ∈ map claim_id v ->
   exists l', claim_remove_from_list nd id (t, l) = Ret IPM_RESULT_SUCCESS (t, l') /\
     list_wf l' /\ count l' = count l - 1 /\
     visible l' = visible_removed (rem_pos id v) v /\
     (visible l' = delete (rem_pos id v) v <->
      S (rem_pos id v) = length v \/ v !! (length v - 2)%nat = last v)) /\
  (0 < count l -> nd = true \/ count l < capacity l -> id ∉ map claim_id v ->
   claim_remove_from_list nd id (t, l) = Undef) /\
  (0 < count l -> count l = capacity l ->
   claim_remove_from_list false id (t, l) = Abort (t, set_count (count l - 1) l)) /\
  (count l = 0 ->
   claim_remove_from_list true id (t, l) = Ret IPM_RESULT_ERR_INVALID_CLAIM (t, set_count (2 ^ 64 - 1) l)).
Proof.
  intros Hwf v. pose proof Hwf as [Hc Hs Hw]. pose proof (length_visible _ Hwf) as Hv. split_and!.
  - intros Hpos Hnd Hin. pose proof (rem_pos_lt _ _ Hin) as Hp. fold v in Hv.
    exists (removed (rem_pos id v) l). split_and!; [|apply removed_wf; [done|lia]|done| |].
    + by apply claim_remove_run.
    + apply visible_removed_eq; [done|lia].
    + rewrite visible_removed_eq by (done || lia). by apply visible_removed_iff.
  - intros Hpos Hnd Hin. apply claim_remove_unknown; [done..|].
    apply Forall_forall. intros c Hcv <-. apply Hin, list_elem_of_fmap. eauto.
  - intros Hpos Hfull. by apply claim_remove_full.
  - intros H0. unfold claim_remove_from_list, fetch_sub_count, get_list.
    unfold mbind, M_bind; simpl. by rewrite H0.
Qed.

Lemma claim_remove_functional_witness :
  exists l', claim_remove_from_list false 1 (ex_thread, ex_list 2 4 ex_slots)
             = Ret IPM_RESULT_SUCCESS (ex_thread, l') /\ map claim_id (visible l') = [0].
Proof.
  destruct (claim_remove_functional false 1 ex_thread (ex_list 2 4 ex_slots) ex_list_wf) as [H _].
  destruct H as (l' & H1 & _ & _ & H2 & _);
    [simpl; lia | right; simpl; lia | apply (bool_decide_unpack _); vm_compute; exact I |].
  exists l'. split; [exact H1|]. rewrite H2. reflexivity.
Defined.

(** Claiming and releasing in stack order is exact: a claim with a fresh
    identifier that starts no earlier than the active ones is appended, and
    releasing it restores the active claims, the count and the slots before the
    inserted one, provided the list does not become full in a debug build. *)
Theorem claim_add_remove_lifo nd c t l :
  list_wf l -> count l + 1 < capacity l \/ nd = true /\ count l < capacity l ->
  Forall (fun d => offset d <= offset c /\ claim_id d <> claim_id c) (visible l) ->
  exists l', (_ ← claim_add_to_list nd c; claim_remove_from_list nd (claim_id c)) (t, l)
             = Ret IPM_RESULT_SUCCESS (t, l') /\
    visible l' = visible l /\ count l' = count l /\ list_wf l'.
Proof.
  intros Hwf Hroom Hall. apply Forall_and in Hall as [Hoff Hid].
  pose proof Hwf as [Hc Hs Hw]. pose proof (length_visible _ Hwf) as Hv.
  assert (count l < capacity l) as Hlt by lia.
  erewrite bind_Ret by (by apply claim_add_run).
  assert (Hva : visible (added c l) = visible l ++ [c]).
  { rewrite visible_added_eq by done. by apply visible_added_append. }
  pose proof (added_wf c l Hwf Hlt) as Hwfa.
  assert (Hp : rem_pos (claim_id c) (visible (added c l)) = length (visible l)).
  { rewrite Hva. by apply rem_pos_snoc. }
  assert (Hcnt : Z.to_nat (count (added c l)) = S (length (visible l))) by (simpl; lia).
  exists (removed (length (visible l)) (added c l)). split_and!.
  - rewrite <- Hp. apply claim_remove_run; [done|simpl; lia| |].
    + simpl. destruct Hroom as [?|[-> ?]]; [right; lia|by left].
    + rewrite Hp, Hva, length_app. simpl. lia.
  - rewrite visible_removed_eq by (done || lia). rewrite Hva. unfold visible_removed.
    rewrite length_app, decide_True by (simpl; lia). simpl. by rewrite Nat.add_sub, take_app_length.
  - simpl. lia.
  - apply removed_wf; [done|lia].
Qed.

Lemma claim_add_remove_lifo_witness :
  exists l', (_ ← claim_add_to_list false (ex_claim 2 1 IPM_ACCESS_MODE_READ_ONLY 30 4);
              claim_remove_from_list false 2) (ex_thread, ex_list 2 4 ex_slots)
             = Ret IPM_RESULT_SUCCESS (ex_thread, l') /\ visible l' = take 2 ex_slots.
Proof.
  destruct (claim_add_remove_lifo false (ex_claim 2 1 IPM_ACCESS_MODE_READ_ONLY 30 4) ex_thread
              (ex_list 2 4 ex_slots) ex_list_wf) as (l' & H1 & H2 & _).
  - left. simpl. lia.
  - apply (bool_decide_unpack _). vm_compute. exact I.
  - exists l'. split; [exact H1|exact H2].
Defined.

(** Iterating over a list that is not full takes the mutex, calls the
    callback on the active claims in order until it returns a non-zero value,
    and returns its accumulated effect.  Run to the end it gives the mutex
    back; interrupted, it returns [IPM_RESULT_INTERRUPTED] with the mutex still
    held by the caller.  A full list is reported as a success without a single
    call of the callback. *)
Theorem claims_iterate_functional {P} nd (cb : ipm_memory_claim -> P -> Z * P) (param : P) t l :
  list_wf l -> no_faults 2 t -> list_mutex l = mutex_of Free ->
  claims_iterate nd cb param (t, l) =
  if decide (count l = capacity l) then Ret (IPM_RESULT_SUCCESS, param) (t, l)
  else
    let '(interrupted, param') := visit cb (visible l) param in
    if interrupted
    then Ret (IPM_RESULT_INTERRUPTED, param')
           (thread_after_call t, set_mutex (mutex_of (Held (t_tid t))) l)
    else Ret (IPM_RESULT_SUCCESS, param') (thread_after 2 t, l).
Proof.
  intros [Hc Hs Hw] Hf Hm. apply no_faults_S in Hf as Hf'. destruct Hf' as [_ Hf'].
  unfold claims_iterate. erewrite bind_Ret by done. simpl.
  rewrite (wrap32_small (count l)) by word.
  erewrite bind_Ret by (apply cassert_true, Z.leb_le; lia).
  rewrite Z.eqb_refl. simpl. case_decide as E; [by rewrite (proj2 (Z.eqb_eq _ _) E)|].
  rewrite (proj2 (Z.eqb_neq _ _) E).
  erewrite bind_Ret by (apply lock_list_run; [by eapply no_faults_le; [|exact Hf]; lia|done]).
  simpl. erewrite bind_Ret by done. simpl.
  rewrite iterate_loop_visit, drop_0 by lia. fold (visible l).
  destruct (visit cb (visible l) param) as [b param']. erewrite bind_Ret by done.
  destruct b; [done|].
  erewrite bind_Ret by (by apply unlock_list_run).
  by rewrite set_mutex_set, <- Hm, set_mutex_id.
Qed.

Lemma claims_iterate_functional_witness :
  claims_iterate false (fun c n => (0, n + size c)) 0 (ex_thread, ex_list 2 4 ex_slots) =
  Ret (IPM_RESULT_SUCCESS, 8) (ex_thread, ex_list 2 4 ex_slots).
Proof.
  exact (claims_iterate_functional false (fun c n => (0, n + size c)) 0 ex_thread (ex_list 2 4 ex_slots)
           ex_list_wf (no_faults_nil 2 ex_thread eq_refl) eq_refl).
Defined.

(** What [claim_list_init] makes of the memory of [l]. *)
Definition initialised (cap : Z) (l : ipm_claim_list) : ipm_claim_list :=
  mk_list (mutex_of Free) (mk_cond true true) 0 cap 0 (claims l).

Lemma claim_list_init_run t l cap :
  no_faults 8 t -> claim_list_init cap (t, l) = Ret IPM_RESULT_SUCCESS (thread_after 8 t, initialised cap l).
Proof.
  intros Hf. unfold claim_list_init. erewrite bind_Ret by
    (apply zoom_Ret, mutex_init_run; by eapply no_faults_le; [|exact Hf]; lia).
  simpl. erewrite bind_Ret by (apply zoom_Ret, cond_init_run; by apply (no_faults_after 5 3)).
  done.
Qed.

Lemma claim_list_uninit_run t l :
  no_faults 2 t -> list_mutex l = mutex_of Free -> list_cnd l = mk_cond true true ->
  claim_list_uninit (t, l) = Ret tt (thread_after 2 t, set_cnd zero_cond (set_mutex zero_mutex l)).
Proof.
  intros Hf Hm Hc. unfold claim_list_uninit. erewrite bind_Ret.
  2:{ apply zoom_Ret. cbn [fst snd]. rewrite Hm. apply mutex_destroy_run. by eapply no_faults_le; [|exact Hf]; lia. }
  erewrite bind_Ret.
  2:{ apply zoom_Ret. cbn [fst snd list_cnd set_mutex]. rewrite Hc. apply cond_destroy_run.
      by apply (no_faults_after 1 1). }
  done.
Qed.

Lemma initialised_wf cap l :
  0 <= cap <= Z.of_nat (length (claims l)) -> Z.of_nat (length (claims l)) + 1 < u32_mod ->
  list_wf (initialised cap l).
Proof. intros Hcap Hw. split; simpl; lia. Qed.

(** Without failures, initialisation turns an array of [cap] slots into a
    well-formed empty list with a free mutex and an initialised condition
    variable, whatever the memory held before; destruction leaves both
    synchronisation objects uninitialised. *)
Theorem claim_list_init_uninit t l cap :
  no_faults 10 t -> 0 <= cap <= Z.of_nat (length (claims l)) ->
  Z.of_nat (length (claims l)) + 1 < u32_mod ->
  exists l', claim_list_init cap (t, l) = Ret IPM_RESULT_SUCCESS (thread_after 8 t, l') /\
    list_wf l' /\ visible l' = [] /\ capacity l' = cap /\ claim_counter l' = 0 /\
    list_mutex l' = mutex_of Free /\ list_cnd l' = mk_cond true true /\ claims l' = claims l /\
    claim_list_uninit (thread_after 8 t, l') =
      Ret tt (thread_after 10 t, set_cnd zero_cond (set_mutex zero_mutex l')).
Proof.
  intros Hf Hcap Hw.
  exists (initialised cap l). split_and!; try done.
  - apply claim_list_init_run. by eapply no_faults_le; [|exact Hf]; lia.
  - by apply initialised_wf.
  - rewrite claim_list_uninit_run; try done. by apply (no_faults_after 8 2).
Qed.

Lemma claim_list_init_uninit_witness :
  exists l', claim_list_init 4 (ex_thread, mk_list zero_mutex zero_cond 0 0 0 ex_slots)
             = Ret IPM_RESULT_SUCCESS (ex_thread, l') /\ visible l' = [] /\ capacity l' = 4.
Proof.
  destruct (claim_list_init_uninit ex_thread (mk_list zero_mutex zero_cond 0 0 0 ex_slots) 4)
    as (l' & H1 & _ & H2 & H3 & _);
    [apply no_faults_nil; reflexivity | simpl; lia | simpl; word |].
  exists l'. split; [exact H1|]. split; [exact H2|exact H3].
Defined.
