(* ===== verification/Common.v ===== *)
(** * Context callbacks (include/ipm/ipm_common.h, source/ipm_common.c,
      source/internal.h)

    The user hands the library a record of callbacks for allocation and error
    reporting.  They are user code: here functions over a state [U] of the
    user's and over [errno], which a callback may change like any other C
    code.  The constants of ipm_common.h are here too.  [recorder] is the state of a user
    who keeps the allocations that are live and logs every callback, in order. *)

From S2P Require Import Prelude Errors Pthread Platform.

Definition IPM_MAX_NAME_LEN : Z := 256.
Definition IPM_MEMORY_PAGE_SIZE : Z := 4096.
Definition IPM_MEMORY_PAGE_SIZE_MASK : Z := 4096 - 1.
Definition IPM_DEFAULT_CLAIM_CAPACITY : Z := 64.

Definition NULL : Z := 0.

(** A callback returns a value and the user's new state and [errno]. *)
Definition callback (U A : Type) : Type := U -> Z -> A * U * Z.

Record ipm_context (U : Type) := mk_context {
  report_callback : option (string -> string -> Z -> string -> Z -> callback U unit);
  report_param : Z;
  alloc_callback : Z -> Z -> callback U Z;
  alloc_param : Z;
  free_callback : Z -> Z -> callback U unit;
  free_param : Z
}.
Arguments mk_context {U}.
Arguments report_callback {U}.
Arguments report_param {U}.
Arguments alloc_callback {U}.
Arguments alloc_param {U}.
Arguments free_callback {U}.
Arguments free_param {U}.

Definition INT_MAX : Z := 2 ^ 31 - 1.

(** [snprintf(buffer, n, ...)] stores at most [n - 1] characters of the text. *)
Definition snprintf (n : Z) (s : string) : string := String.substring 0 (Z.to_nat (n - 1)) s.

(** The place an error is reported from: [__FILE__], [__LINE__], [__func__]. *)
Record site := At { site_file : string; site_line : Z; site_func : string }.

Section common.
Context {U : Type}.

Definition call_user {A} (f : callback U A) : M (thread * U) A := fun s =>
  let '(a, u, e) := f s.2 (t_errno s.1) in Ret a (set_errno e s.1, u).

Definition ipm_alloc_real (context : ipm_context U) (size : Z) (loc : site) : M (thread * U) Z :=
  ptr ← call_user (alloc_callback context (alloc_param context) size);
  if ptr =? NULL then
    let buffer := snprintf 64 ("Could not allocate " +:+ pretty size +:+ " bytes") in
    _ ← match report_callback context with
        | Some report => call_user (report buffer (site_file loc) (site_line loc) (site_func loc)
                                      (report_param context))
        | None => mret tt
        end;
    mret NULL
  else mret ptr.

Definition ipm_free (context : ipm_context U) (ptr : Z) : M (thread * U) unit :=
  if ptr =? NULL then mret tt
  else call_user (free_callback context (free_param context) ptr).

(** [msg] is the text the format string and the arguments produce; a text
    longer than [INT_MAX] makes [vsnprintf] return a negative value. *)
Definition ipm_report_error (context : ipm_context U) (msg : string) (loc : site)
    : M (thread * U) unit :=
  match report_callback context with
  | None => mret tt
  | Some report =>
      let len := Z.of_nat (String.length msg) in
      let fmt_len := if INT_MAX <? len then -1 else len in
      if fmt_len <=? 0 then mret tt
      else
        buffer ← ipm_alloc_real context (fmt_len + 1) (At "source/ipm_common.c" 49 "ipm_report_error");
        if buffer =? NULL then mret tt
        else
          _ ← call_user (report msg (site_file loc) (site_line loc) (site_func loc)
                           (report_param context));
          ipm_free context buffer
  end.
End common.

(** ** Facts *)

Section facts.
Context {U : Type}.
Implicit Types (ctx : ipm_context U) (u : U).

(** Reporting always returns, and of the calling thread it can only change
    [errno]. *)
Definition same_thread (t t' : thread) : Prop :=
  t_tid t' = t_tid t /\ t_faults t' = t_faults t.

Lemma same_thread_refl t : same_thread t t.
Proof. done. Qed.
Lemma same_thread_trans t1 t2 t3 : same_thread t1 t2 -> same_thread t2 t3 -> same_thread t1 t3.
Proof. unfold same_thread. intros [? ?] [? ?]. split; congruence. Qed.

Lemma call_user_wp {A} (f : callback U A) t u (Q : A -> thread * U -> Prop) :
  (forall a t' u', same_thread t t' -> Q a (t', u')) -> wp (call_user f) (t, u) Q.
Proof.
  intros H. unfold wp, call_user; simpl. destruct (f u (t_errno t)) as [[a u'] e]. by apply H.
Qed.

Lemma ipm_alloc_wp ctx size loc t u (Q : Z -> thread * U -> Prop) :
  (forall p t' u', same_thread t t' -> Q p (t', u')) ->
  wp (ipm_alloc_real ctx size loc) (t, u) Q.
Proof.
  intros H. unfold ipm_alloc_real. apply wp_bind, call_user_wp. intros p t' u' Ht.
  destruct (p =? NULL); [|by apply H]. apply wp_bind.
  destruct (report_callback ctx); [apply call_user_wp; intros|]; apply H;
    eauto using same_thread_trans.
Qed.

Lemma ipm_free_wp ctx p t u (Q : unit -> thread * U -> Prop) :
  (forall t' u', same_thread t t' -> Q tt (t', u')) -> wp (ipm_free ctx p) (t, u) Q.
Proof.
  intros H. unfold ipm_free. destruct (p =? NULL); [by apply H|].
  apply call_user_wp. intros [] ? ?; apply H.
Qed.

Lemma ipm_report_error_wp ctx msg loc t u (Q : unit -> thread * U -> Prop) :
  (forall t' u', same_thread t t' -> Q tt (t', u')) -> wp (ipm_report_error ctx msg loc) (t, u) Q.
Proof.
  intros H. unfold ipm_report_error. destruct (report_callback ctx) as [report|]; [|by apply H].
  case_match; [by apply H|]. apply wp_bind, ipm_alloc_wp. intros p t1 u1 H1.
  destruct (p =? NULL); [by apply H|]. apply wp_bind, call_user_wp. intros ? t2 u2 H2.
  apply ipm_free_wp. intros t3 u3 H3. apply H. eauto using same_thread_trans.
Qed.
End facts.
#[export] Hint Resolve same_thread_refl same_thread_trans : ipm.

(** ** A recording user

    A concrete user state for the theorem below: the live allocations, the
    pointers the allocator will hand out (0 for failure) and every call of a
    callback so far, in order and with its arguments. *)
Inductive event :=
  | Allocated (size ptr : Z)
  | Freed (ptr : Z)
  | Reported (msg file : string) (line : Z) (func : string).

Record recorder := mk_recorder {
  live : gset Z;
  supply : list Z;
  events : list event
}.

Definition rec_alloc (param size : Z) : callback recorder Z := fun r e =>
  match supply r with
  | [] => (NULL, mk_recorder (live r) [] (events r ++ [Allocated size NULL]), e)
  | p :: ps => (p, mk_recorder (if p =? NULL then live r else {[p]} ∪ live r) ps
                     (events r ++ [Allocated size p]), e)
  end.
Definition rec_free (param ptr : Z) : callback recorder unit := fun r e =>
  (tt, mk_recorder (live r ∖ {[ptr]}) (supply r) (events r ++ [Freed ptr]), e).
Definition rec_report (msg file : string) (line : Z) (func : string) (param : Z)
    : callback recorder unit := fun r e =>
  (tt, mk_recorder (live r) (supply r) (events r ++ [Reported msg file line func]), e).
Definition rec_context (with_report : bool) : ipm_context recorder :=
  mk_context (if with_report then Some rec_report else None) 0 rec_alloc 0 rec_free 0.

(** C32. Error reporting neither leaks nor frees twice.  For every allocator and every
    text of 1 to [INT_MAX] characters, the callbacks it calls are, in order: the
    allocation of the text's length and one more byte, the report of the text with
    the place the caller named, and exactly one free of the pointer allocated; when
    the allocation fails, the failed allocation and one report of it, with the place
    in ipm_common.c, and no free.  The live allocations afterwards are those before,
    provided the pointer handed out is not live already; [errno] is as the callbacks
    leave it.  Without a report callback, or for an empty text, no callback is
    called at all. *)
Theorem report_error_balanced msg loc t r :
  Z.of_nat (String.length msg) <= INT_MAX ->
  List.hd NULL (supply r) ∉ live r ->
  let size := Z.of_nat (String.length msg) + 1 in
  let p := List.hd NULL (supply r) in
  ipm_report_error (rec_context false) msg loc (t, r) = Ret tt (t, r) /\
  (msg = EmptyString -> ipm_report_error (rec_context true) msg loc (t, r) = Ret tt (t, r)) /\
  (msg <> EmptyString ->
   ipm_report_error (rec_context true) msg loc (t, r) =
   Ret tt (t, mk_recorder (live r) (List.tl (supply r)) (events r ++
     if p =? NULL then
       [Allocated size NULL;
        Reported (snprintf 64 ("Could not allocate " +:+ pretty size +:+ " bytes"))
          "source/ipm_common.c" 49 "ipm_report_error"]
     else
       [Allocated size p; Reported msg (site_file loc) (site_line loc) (site_func loc); Freed p]))).
Proof.
  intros Hlen Hfresh size p. split; [done|]. split; [by intros ->|]. intros Hne.
  assert (0 < Z.of_nat (String.length msg)) by (destruct msg; [done|simpl; lia]).
  unfold ipm_report_error. cbn [rec_context report_callback].
  rewrite (proj2 (Z.ltb_ge _ _)), (proj2 (Z.leb_gt _ _)) by lia. fold size. clearbody size.
  destruct t as [tid e fs], r as [lv [|q ps] ev]; simpl in *; subst p.
  - unfold ipm_alloc_real, mbind, M_bind, call_user, rec_alloc. simpl. by rewrite <- app_assoc.
  - unfold ipm_alloc_real, mbind, M_bind, call_user, rec_alloc. simpl.
    destruct (Z.eqb_spec q NULL) as [->|Hp].
    + unfold set_errno; simpl. by rewrite <- app_assoc.
    + unfold mret, M_ret, ipm_free. rewrite !(proj2 (Z.eqb_neq q NULL) Hp).
      unfold call_user, set_errno; simpl. rewrite <- !app_assoc. simpl.
      do 2 f_equal. f_equal. set_solver.
Qed.

Lemma report_error_balanced_witness :
  ipm_report_error (rec_context true) "oops" (At "f.c" 1 "f")
    (mk_thread 1 0 [], mk_recorder {[8]} [16] []) =
  Ret tt (mk_thread 1 0 [],
          mk_recorder {[8]} [] [Allocated 5 16; Reported "oops" "f.c" 1 "f"; Freed 16]) /\
  ipm_report_error (rec_context true) "oops" (At "f.c" 1 "f") (mk_thread 1 0 [], mk_recorder {[8]} [] []) =
  Ret tt (mk_thread 1 0 [],
          mk_recorder {[8]} [] [Allocated 5 0; Reported "Could not allocate 5 bytes" "source/ipm_common.c" 49
                                                 "ipm_report_error"]).
Proof.
  assert (forall r, List.hd NULL (supply r) ∉ live r ->
    ipm_report_error (rec_context true) "oops" (At "f.c" 1 "f") (mk_thread 1 0 [], r) = _) as H
    by (intros r Hr; apply (report_error_balanced "oops" (At "f.c" 1 "f") (mk_thread 1 0 []) r);
        [simpl; unfold INT_MAX; lia | exact Hr | done]).
  split; [etransitivity; [apply H; set_solver|]; reflexivity
         |etransitivity; [apply H; set_solver|]; reflexivity].
Defined.
