(* ===== verification/Names.v ===== *)
(** * Names of shared memory objects (source/shared_memory.c,
      [make_block_name_based_on_id])

    The name of the shared memory object behind a block is printed with the
    format ["/%.*s-%#016lX"] into a buffer of [IPM_MAX_NAME_LEN + 32] bytes.
    The theorem of this file is that printing is never truncated and that the
    name determines the block name and the identifier. *)

From Stdlib Require Import Ascii.
From S2P Require Import Prelude Errors Pthread Platform Common.

(** ** The conversion [%#016lX] *)

Definition hex_digit (d : Z) : ascii :=
  default "0"%char (String.get (Z.to_nat d) "0123456789ABCDEF").

(** The digits of [n] in front of [acc], at most [fuel] of them; 16 are enough
    for a 64-bit value. *)
Fixpoint hex_digits (fuel : nat) (n : Z) (acc : string) : string :=
  match fuel with
  | O => acc
  | S fuel =>
      if n <? 16 then String (hex_digit n) acc
      else hex_digits fuel (n / 16) (String (hex_digit (n mod 16)) acc)
  end.

Fixpoint zeros (n : nat) (s : string) : string :=
  match n with O => s | S n => String "0" (zeros n s) end.

(** Pads [s] with zeroes on the left to [width] characters. *)
Definition zero_pad (width : nat) (s : string) : string := zeros (width - String.length s) s.

(** The alternative form prefixes a non-zero value with [0X]; the field is
    padded with zeroes to 16 characters, the prefix included. *)
Definition format_id (id : Z) : string :=
  let digits := hex_digits 16 id "" in
  if id =? 0 then zero_pad 16 digits else "0X" +:+ zero_pad 14 digits.

(** The precision of [%.*s] cuts the name at [IPM_MAX_NAME_LEN] characters. *)
Definition make_block_name_based_on_id (buffer_size : Z) (block_name : string) (id : Z) : string :=
  snprintf buffer_size
    ("/" +:+ String.substring 0 (Z.to_nat IPM_MAX_NAME_LEN) block_name +:+ "-" +:+ format_id id).

(** [char name_buffer[IPM_MAX_NAME_LEN + 32]] of the callers. *)
Definition NAME_BUFFER : Z := IPM_MAX_NAME_LEN + 32.
Definition object_name (block_name : string) (id : Z) : string :=
  make_block_name_based_on_id NAME_BUFFER block_name id.

Example object_name_1 : object_name "cool_block" 1 = "/cool_block-0X00000000000001".
Proof. reflexivity. Qed.

(** ** Strings as lists of characters *)

Lemma substring_all s n : (String.length s <= n)%nat -> String.substring 0 n s = s.
Proof.
  revert n. induction s as [|c s IH]; intros [|n] H; simpl in *; try done; [lia|].
  f_equal. apply IH. lia.
Qed.

Lemma length_string_app s1 s2 : String.length (s1 +:+ s2) = (String.length s1 + String.length s2)%nat.
Proof.
  induction s1 as [|c s1 IH]; [done|].
  change (String c s1 +:+ s2) with (String c (s1 +:+ s2)). simpl. by rewrite IH.
Qed.

Fixpoint string_all (P : ascii -> bool) (s : string) : bool :=
  match s with EmptyString => true | String c s => P c && string_all P s end.

Definition is_hex (c : ascii) : bool :=
  match String.index 0 (String c "") "0123456789ABCDEF" with Some _ => true | None => false end.

(** The value of a digit and of a string of digits, most significant first. *)
Definition hex_value1 (c : ascii) : Z :=
  match String.index 0 (String c "") "0123456789ABCDEF" with Some i => Z.of_nat i | None => 0 end.
Fixpoint hex_value (acc : Z) (s : string) : Z :=
  match s with EmptyString => acc | String c s => hex_value (16 * acc + hex_value1 c) s end.

(** Reads an identifier back. *)
Definition parse_id (s : string) : Z :=
  match s with
  | String "0" (String "X" s) => hex_value 0 s
  | s => hex_value 0 s
  end.

Lemma hex_digit_cases (P : Z -> ascii -> Prop) d :
  0 <= d < 16 ->
  P 0 "0"%char -> P 1 "1"%char -> P 2 "2"%char -> P 3 "3"%char -> P 4 "4"%char -> P 5 "5"%char ->
  P 6 "6"%char -> P 7 "7"%char -> P 8 "8"%char -> P 9 "9"%char -> P 10 "A"%char ->
  P 11 "B"%char -> P 12 "C"%char -> P 13 "D"%char -> P 14 "E"%char -> P 15 "F"%char ->
  P d (hex_digit d).
Proof.
  intros Hd **.
  assert (d = 0 \/ d = 1 \/ d = 2 \/ d = 3 \/ d = 4 \/ d = 5 \/ d = 6 \/ d = 7 \/ d = 8 \/ d = 9 \/
          d = 10 \/ d = 11 \/ d = 12 \/ d = 13 \/ d = 14 \/ d = 15) as Hc by lia.
  repeat destruct Hc as [->|Hc]; try assumption. by subst.
Qed.

Lemma hex_value1_digit d : 0 <= d < 16 -> hex_value1 (hex_digit d) = d.
Proof. intros Hd. by apply (hex_digit_cases (fun d c => hex_value1 c = d)). Qed.

Lemma is_hex_digit d : 0 <= d < 16 -> is_hex (hex_digit d) = true.
Proof. intros Hd. by apply (hex_digit_cases (fun d c => is_hex c = true)). Qed.

Lemma hex_digits_hex fuel n acc :
  0 <= n -> string_all is_hex acc = true -> string_all is_hex (hex_digits fuel n acc) = true.
Proof.
  revert n acc. induction fuel as [|fuel IH]; intros n acc Hn Hacc; [done|]. simpl.
  pose proof (Z.mod_pos_bound n 16). destruct (Z.ltb_spec n 16).
  - simpl. rewrite is_hex_digit by lia. done.
  - apply IH; [apply Z.div_pos; lia|]. simpl. rewrite is_hex_digit by lia. done.
Qed.

Lemma hex_digits_value fuel n acc :
  0 <= n < 16 ^ Z.of_nat fuel -> hex_value 0 (hex_digits fuel n acc) = hex_value n acc.
Proof.
  revert n acc. induction fuel as [|fuel IH]; intros n acc Hn.
  - replace n with 0 by (simpl in Hn; lia). done.
  - rewrite Nat2Z.inj_succ, Z.pow_succ_r in Hn by lia. simpl. destruct (Z.ltb_spec n 16).
    + simpl. rewrite hex_value1_digit by lia. done.
    + pose proof (Z.mod_pos_bound n 16). rewrite IH.
      2:{ split; [apply Z.div_pos; lia|]. apply Z.div_lt_upper_bound; lia. }
      simpl. rewrite hex_value1_digit by lia. by rewrite <- (Z.div_mod n 16) by lia.
Qed.

Lemma hex_value_zeros n s : hex_value 0 (zeros n s) = hex_value 0 s.
Proof. induction n; done. Qed.

Lemma length_hex_digits fuel n acc :
  (String.length (hex_digits fuel n acc) <= fuel + String.length acc)%nat.
Proof.
  revert n acc. induction fuel as [|fuel IH]; intros n acc; simpl; [lia|].
  case_match; simpl; [lia|]. specialize (IH (n / 16) (String (hex_digit (n mod 16)) acc)). simpl in IH. lia.
Qed.

Lemma length_zeros n s : String.length (zeros n s) = (n + String.length s)%nat.
Proof. induction n; simpl; lia. Qed.

Lemma zeros_hex n s : string_all is_hex s = true -> string_all is_hex (zeros n s) = true.
Proof. intros H. induction n; done. Qed.

Lemma hex_digits_16_value id : u64 id -> hex_value 0 (hex_digits 16 id "") = id.
Proof. intros H. rewrite hex_digits_value; [done|]. unfold u64, u64_mod in H. lia. Qed.

Lemma parse_format_id id : u64 id -> parse_id (format_id id) = id.
Proof.
  intros H. unfold format_id. destruct (Z.eqb_spec id 0) as [->|]; [reflexivity|].
  change (hex_value 0 (zero_pad 14 (hex_digits 16 id "")) = id).
  unfold zero_pad. by rewrite hex_value_zeros, hex_digits_16_value.
Qed.

Definition not_dash (c : ascii) : bool := negb (bool_decide (c = "-"%char)).

Lemma string_all_impl (P Q : ascii -> bool) s :
  (forall c, P c = true -> Q c = true) -> string_all P s = true -> string_all Q s = true.
Proof.
  intros HPQ. induction s as [|c s IH]; [done|]. simpl.
  intros [Hc Hs]%andb_true_iff. by rewrite (HPQ c Hc), IH.
Qed.

Lemma string_all_app P s1 s2 : string_all P (s1 +:+ s2) = string_all P s1 && string_all P s2.
Proof.
  induction s1 as [|c s1 IH]; [done|].
  change (String c s1 +:+ s2) with (String c (s1 +:+ s2)). simpl. by rewrite IH, andb_assoc.
Qed.

Lemma is_hex_not_dash c : is_hex c = true -> not_dash c = true.
Proof.
  intros H. unfold not_dash. case_bool_decide; [by subst|done].
Qed.

Lemma format_id_no_dash id : u64 id -> string_all not_dash (format_id id) = true.
Proof.
  intros [H0 _]. unfold format_id.
  assert (string_all not_dash (hex_digits 16 id "") = true) as Hd.
  { eapply string_all_impl; [apply is_hex_not_dash|]. by apply hex_digits_hex. }
  assert (forall n s, string_all not_dash s = true -> string_all not_dash (zeros n s) = true) as Hz.
  { intros n s Hs. by induction n. }
  destruct (id =? 0); [by apply Hz|]. rewrite string_all_app. by apply Hz.
Qed.

Lemma length_format_id id : (String.length (format_id id) <= 18)%nat.
Proof.
  unfold format_id, zero_pad. pose proof (length_hex_digits 16 id "") as H.
  generalize dependent (hex_digits 16 id ""). intros d H. change (String.length "") with 0%nat in H.
  destruct (id =? 0); rewrite ?length_string_app, length_zeros; simpl; lia.
Qed.

(** Two strings split at their last dash. *)
Lemma last_dash_inj a b f g :
  string_all not_dash f = true -> string_all not_dash g = true ->
  a +:+ String "-" f = b +:+ String "-" g -> a = b /\ f = g.
Proof.
  intros Hf Hg. revert b. induction a as [|c a IH]; intros [|d b] H.
  - by injection H.
  - injection H as <- ->. rewrite string_all_app in Hf.
    by apply andb_true_iff in Hf as [_ [Hf _]%andb_true_iff].
  - injection H as -> <-. rewrite string_all_app in Hg.
    by apply andb_true_iff in Hg as [_ [Hg _]%andb_true_iff].
  - change (String c (a +:+ String "-" f) = String d (b +:+ String "-" g)) in H.
    injection H as -> H. apply IH in H as [-> ->]. done.
Qed.

(** The name without the truncations, which never happen. *)
Lemma object_name_eq name id :
  Z.of_nat (String.length name) <= IPM_MAX_NAME_LEN ->
  object_name name id = String "/" (name +:+ String "-" (format_id id)).
Proof.
  unfold IPM_MAX_NAME_LEN. intros Hn. unfold object_name, make_block_name_based_on_id, snprintf.
  rewrite (substring_all name) by (unfold IPM_MAX_NAME_LEN; lia).
  apply substring_all. pose proof (length_format_id id).
  change (String.length (String "/" ?s)) with (S (String.length s)).
  rewrite length_string_app. change (String.length (String "-" ?s)) with (S (String.length s)). unfold NAME_BUFFER, IPM_MAX_NAME_LEN. simpl. lia.
Qed.

Lemma object_name_inj n1 i1 n2 i2 :
  Z.of_nat (String.length n1) <= IPM_MAX_NAME_LEN ->
  Z.of_nat (String.length n2) <= IPM_MAX_NAME_LEN -> u64 i1 -> u64 i2 ->
  object_name n1 i1 = object_name n2 i2 -> n1 = n2 /\ i1 = i2.
Proof.
  intros H1 H2 Hi1 Hi2. rewrite !object_name_eq by done. intros [= H].
  apply last_dash_inj in H as [-> H]; [|by apply format_id_no_dash..].
  split; [done|]. by rewrite <- (parse_format_id i1), H, parse_format_id.
Qed.

Definition not_slash (c : ascii) : bool := negb (bool_decide (c = "/"%char)).

Lemma format_id_no_slash id : u64 id -> string_all not_slash (format_id id) = true.
Proof.
  intros [H0 _]. unfold format_id.
  assert (string_all not_slash (hex_digits 16 id "") = true) as Hd.
  { eapply string_all_impl; [|by apply hex_digits_hex].
    intros c Hc. unfold not_slash. case_bool_decide; [by subst|done]. }
  assert (forall n s, string_all not_slash s = true -> string_all not_slash (zeros n s) = true) as Hz.
  { intros n s Hs. by induction n. }
  destruct (id =? 0); [by apply Hz|]. rewrite string_all_app. by apply Hz.
Qed.

(** C29. For block names of at most [IPM_MAX_NAME_LEN] characters the object name
    is never truncated by the buffer, starts with the only slash it contains
    when the block name has none, and determines both the block name and the
    identifier: the data and the claim list of any two blocks live in different
    shared memory objects. *)
Theorem object_name_injective n1 i1 n2 i2 :
  Z.of_nat (String.length n1) <= IPM_MAX_NAME_LEN ->
  Z.of_nat (String.length n2) <= IPM_MAX_NAME_LEN -> u64 i1 -> u64 i2 ->
  object_name n1 i1 = "/" +:+ n1 +:+ "-" +:+ format_id i1 /\
  (string_all not_slash n1 = true ->
   exists rest, object_name n1 i1 = String "/" rest /\ string_all not_slash rest = true) /\
  (object_name n1 i1 = object_name n2 i2 <-> n1 = n2 /\ i1 = i2).
Proof.
  intros H1 H2 Hi1 Hi2. split_and!.
  - by apply object_name_eq.
  - intros Hs. eexists. split; [by apply object_name_eq|].
    rewrite string_all_app, Hs. simpl. by apply format_id_no_slash.
  - split; [by apply object_name_inj|by intros [-> ->]].
Qed.

Lemma object_name_injective_witness :
  object_name "cool_block" 1 <> object_name "cool_block" 2.
Proof.
  destruct (object_name_injective "cool_block" 1 "cool_block" 2) as (_ & _ & H);
    [unfold IPM_MAX_NAME_LEN; simpl; lia | unfold IPM_MAX_NAME_LEN; simpl; lia | word | word |].
  intros E. apply H in E as [_ E]. lia.
Defined.
