(* ===== verification/World.v ===== *)
(** * Shared memory objects, descriptors and mappings

    The state [source/shared_memory.c] and [source/ipm_memory.c] act on: the
    system-wide names and objects of POSIX shared memory and, for the calling
    process, its thread, its descriptors and its mapped pages.  Each system
    call the library makes is a definition that follows its documented
    behaviour; failures that this state does not determine come from the fault
    schedule of the thread (see [Pthread]).

    An object is its size and its contents.  Contents are typed by how the
    library uses them: the first page holds an [ipm_shared_memory_header], the
    bytes from the second page on hold, in the claim block, an
    [ipm_claim_list].  (The data block's bytes from the second page on belong
    to the library's user and are never accessed by the library.)  Memory is
    reached through addresses: an access is defined only if the page of the
    address is mapped, to the right page of an object large enough.

    Where the kernel places a mapping, and the text of [strerror], are
    parameters (class [Env]). *)

From S2P Require Import Prelude Errors Pthread Platform Claims Common Names.

(** ** Contents *)

Record ipm_shared_memory_header := mk_header {
  segment_mutex : ipm_mut;
  refcount : Z;      (* uint32_t *)
  block_size : Z;
  id_counter : Z;
  block_id : Z;
  hdr_block_name : string
}.
Definition zero_header : ipm_shared_memory_header := mk_header zero_mutex 0 0 0 0 "".

(** [sizeof(ipm_claim_list)] and [sizeof(ipm_memory_claim)] of the 64-bit Linux
    ABI: a 40-byte mutex, a 48-byte condition variable and three words; five
    words. *)
Definition sizeof_claim_list : Z := 40 + 48 + 3 * 8.
Definition sizeof_claim : Z := 5 * 8.

(** How many claims fit into an object of [size] bytes behind the header page
    and the fixed part of the list. *)
Definition slots_of (size : Z) : nat :=
  Z.to_nat ((size - IPM_MEMORY_PAGE_SIZE - sizeof_claim_list) / sizeof_claim).

Definition zero_list : ipm_claim_list := mk_list zero_mutex zero_cond 0 0 0 [].

Record shm_object := mk_object {
  so_size : Z;
  so_header : ipm_shared_memory_header;
  so_list : ipm_claim_list
}.

Definition set_so_header (h : ipm_shared_memory_header) (o : shm_object) : shm_object :=
  mk_object (so_size o) h (so_list o).
Definition set_so_list (l : ipm_claim_list) (o : shm_object) : shm_object :=
  mk_object (so_size o) (so_header o) l.

(** Truncation keeps the contents and extends them with zeroes. *)
Definition truncate_object (size : Z) (o : shm_object) : shm_object :=
  mk_object size (so_header o)
    (set_claims (resize (slots_of size) zero_claim (claims (so_list o))) (so_list o)).

(** ** Address space *)

(** The target of a mapped page: object, page index within it, writable. *)
Record page := mk_page { pg_obj : nat; pg_index : Z; pg_write : bool }.

(** [n] pages from page number [base] on, showing object [o] from page [off] on. *)
Definition map_pages (base n : Z) (o : nat) (off : Z) (wr : bool) (m : gmap Z page) : gmap Z page :=
  foldr (fun i m => <[base + i := mk_page o (off + i) wr]> m) m (seqZ 0 n).
Definition unmap_pages (base n : Z) (m : gmap Z page) : gmap Z page :=
  foldr (fun i m => delete (base + i) m) m (seqZ 0 n).

(** The environment: the state of the user's callbacks, the kernel's choice
    of a place for [n] pages near the page [hint] ([None] when there is no
    room), and the text of an error number. *)
Class Env := {
  user : Type;
  os_place : gmap Z page -> Z -> Z -> option Z;
  os_strerror : Z -> string
}.

(** What [mmap] documents of the place it chooses: pages that are not mapped,
    above address 0 and below the end of the address space. *)
Class EnvLaws (E : Env) := {
  os_place_free : forall m hint n p, os_place m hint n = Some p ->
    0 < p /\ (p + n) * IPM_MEMORY_PAGE_SIZE < u64_mod /\
    forall i, 0 <= i < n -> m !! (p + i) = None
}.

Section world.
Context {E : Env}.

Record world := mk_world {
  w_thread : thread;
  w_user : user;
  w_names : gmap string nat;
  w_objs : gmap nat shm_object;
  w_fds : gmap nat nat;
  w_pages : gmap Z page
}.

Definition set_thread (t : thread) (w : world) : world :=
  mk_world t (w_user w) (w_names w) (w_objs w) (w_fds w) (w_pages w).
Definition set_user (u : user) (w : world) : world :=
  mk_world (w_thread w) u (w_names w) (w_objs w) (w_fds w) (w_pages w).
Definition set_names (n : gmap string nat) (w : world) : world :=
  mk_world (w_thread w) (w_user w) n (w_objs w) (w_fds w) (w_pages w).
Definition set_objs (o : gmap nat shm_object) (w : world) : world :=
  mk_world (w_thread w) (w_user w) (w_names w) o (w_fds w) (w_pages w).
Definition set_fds (f : gmap nat nat) (w : world) : world :=
  mk_world (w_thread w) (w_user w) (w_names w) (w_objs w) f (w_pages w).
Definition set_pages (p : gmap Z page) (w : world) : world :=
  mk_world (w_thread w) (w_user w) (w_names w) (w_objs w) (w_fds w) p.

Definition set_obj (o : nat) (ob : shm_object) (w : world) : world :=
  set_objs (<[o := ob]> (w_objs w)) w.



(** ** Errors and user callbacks *)

Definition w_errno : M world Z := gets (fun w => t_errno (w_thread w)).
Definition strerror : M world string := e ← w_errno; mret (os_strerror e).

Definition on_user {A} (m : M (thread * user) A) : M world A :=
  zoom (fun w => (w_thread w, w_user w)) (fun s w => set_user s.2 (set_thread s.1 w)) m.

Definition IPM_ERROR (context : ipm_context user) (msg : string) (loc : site) : M world unit :=
  on_user (ipm_report_error context msg loc).
Definition ipm_alloc (context : ipm_context user) (size : Z) (loc : site) : M world Z :=
  on_user (ipm_alloc_real context size loc).
Definition ipm_release (context : ipm_context user) (ptr : Z) : M world unit :=
  on_user (ipm_free context ptr).

(** A system call fails with -1 and [errno]. *)
Definition sys_fail (e : Z) : M world Z :=
  _ ← modify (fun w => set_thread (set_errno e (w_thread w)) w); mret (-1).
Definition sys_call (m : M world Z) : M world Z :=
  f ← zoom w_thread set_thread next_fault;
  if f =? 0 then m else sys_fail f.

(** ** Descriptors and names *)

(** The lowest descriptor that is not open. *)
Definition lowest_fd (fds : gmap nat nat) : nat :=
  match list_find (fun i => fds !! i = None) (seq 0 (S (base.size fds))) with
  | Some (_, i) => i
  | None => 0%nat
  end.

Definition open_fd (o : nat) : M world Z :=
  w ← get;
  let fd := lowest_fd (w_fds w) in
  _ ← put (set_fds (<[fd := o]> (w_fds w)) w);
  mret (Z.of_nat fd).

Definition fd_object (w : world) (fd : Z) : option nat :=
  if fd <? 0 then None else w_fds w !! Z.to_nat fd.

(** The name of a new object in the model; it is never reused. *)
Definition fresh_object (objs : gmap nat shm_object) : nat := fresh (dom objs).

(** [shm_open(name, O_RDWR | (creat ? O_CREAT : 0) | (excl ? O_EXCL : 0), mode)] *)
Definition shm_open (name : string) (creat excl : bool) : M world Z :=
  sys_call (
    w ← get;
    match w_names w !! name with
    | Some o => if creat && excl then sys_fail EEXIST else open_fd o
    | None =>
        if creat then
          let o := fresh_object (w_objs w) in
          _ ← put (set_names (<[name := o]> (w_names w)) (set_obj o (mk_object 0 zero_header zero_list) w));
          open_fd o
        else sys_fail ENOENT
    end).

Definition shm_unlink (name : string) : M world Z :=
  sys_call (
    w ← get;
    match w_names w !! name with
    | Some _ => _ ← put (set_names (delete name (w_names w)) w); mret 0
    | None => sys_fail ENOENT
    end).

Definition close (fd : Z) : M world Z :=
  w ← get;
  match fd_object w fd with
  | Some _ => _ ← put (set_fds (delete (Z.to_nat fd) (w_fds w)) w); mret 0
  | None => sys_fail EBADF
  end.

Definition ftruncate (fd len : Z) : M world Z :=
  sys_call (
    w ← get;
    match fd_object w fd with
    | None => sys_fail EBADF
    | Some o =>
        if len <? 0 then sys_fail EINVAL
        else match w_objs w !! o with
             | None => undef
             | Some ob => _ ← put (set_obj o (truncate_object len ob) w); mret 0
             end
    end).

(** ** Mappings *)

Definition MAP_FAILED : Z := wrap64 (-1).
Definition pages_of (len : Z) : Z := (len + (IPM_MEMORY_PAGE_SIZE - 1)) / IPM_MEMORY_PAGE_SIZE.

Definition mmap (hint len : Z) (wr : bool) (fd off : Z) : M world Z :=
  r ← sys_call (
    w ← get;
    if (len =? 0) || negb (off mod IPM_MEMORY_PAGE_SIZE =? 0) then sys_fail EINVAL
    else match fd_object w fd with
    | None => sys_fail EBADF
    | Some o =>
        match os_place (w_pages w) (hint / IPM_MEMORY_PAGE_SIZE) (pages_of len) with
        | None => sys_fail ENOMEM
        | Some p =>
            _ ← put (set_pages (map_pages p (pages_of len) o (off / IPM_MEMORY_PAGE_SIZE) wr (w_pages w)) w);
            mret (p * IPM_MEMORY_PAGE_SIZE)
        end
    end);
  mret (wrap64 r).

Definition munmap (addr len : Z) : M world Z :=
  w ← get;
  if negb (addr mod IPM_MEMORY_PAGE_SIZE =? 0) || (len =? 0) then sys_fail EINVAL
  else
    _ ← put (set_pages (unmap_pages (addr / IPM_MEMORY_PAGE_SIZE) (pages_of len) (w_pages w)) w);
    mret 0.

(** ** Memory accesses *)

(** The object whose page [index] is mapped at [addr], if the access does not
    fault. *)
Definition object_at (index : Z) (write : bool) (addr : Z) (w : world) : option nat :=
  if negb (addr mod IPM_MEMORY_PAGE_SIZE =? 0) then None
  else match w_pages w !! (addr / IPM_MEMORY_PAGE_SIZE) with
       | None => None
       | Some pg =>
           match w_objs w !! pg_obj pg with
           | None => None
           | Some ob =>
               if (pg_index pg =? index) && implb write (pg_write pg) &&
                  (index * IPM_MEMORY_PAGE_SIZE <? so_size ob)
               then Some (pg_obj pg) else None
           end
       end.

(** Code that works on one object through an address. *)
Definition on_object {A} (index : Z) (addr : Z) (m : M (thread * shm_object) A) : M world A := fun w =>
  match object_at index true addr w with
  | None => Undef
  | Some o =>
      match w_objs w !! o with
      | None => Undef
      | Some ob => zoom (fun w => (w_thread w, ob)) (fun s w => set_obj o s.2 (set_thread s.1 w)) m w
      end
  end.

Definition on_header {A} (addr : Z) (m : M (thread * ipm_shared_memory_header) A) : M world A :=
  on_object 0 addr (zoom (fun s => (s.1, so_header s.2)) (fun s' s => (s'.1, set_so_header s'.2 s.2)) m).
Definition on_list {A} (addr : Z) (m : LM A) : M world A :=
  on_object 1 addr (zoom (fun s => (s.1, so_list s.2)) (fun s' s => (s'.1, set_so_list s'.2 s.2)) m).

(** Reads and writes of header fields. *)
Definition read_header (addr : Z) : M world ipm_shared_memory_header := on_header addr get_obj.
Definition write_header (addr : Z) (f : ipm_shared_memory_header -> ipm_shared_memory_header) : M world unit :=
  on_header addr (modify (fun s => (s.1, f s.2))).

Definition set_segment_mutex (m : ipm_mut) (h : ipm_shared_memory_header) : ipm_shared_memory_header :=
  mk_header m (refcount h) (block_size h) (id_counter h) (block_id h) (hdr_block_name h).
Definition set_refcount (r : Z) (h : ipm_shared_memory_header) : ipm_shared_memory_header :=
  mk_header (segment_mutex h) r (block_size h) (id_counter h) (block_id h) (hdr_block_name h).
Definition set_block_size (s : Z) (h : ipm_shared_memory_header) : ipm_shared_memory_header :=
  mk_header (segment_mutex h) (refcount h) s (id_counter h) (block_id h) (hdr_block_name h).
Definition set_id_counter (i : Z) (h : ipm_shared_memory_header) : ipm_shared_memory_header :=
  mk_header (segment_mutex h) (refcount h) (block_size h) i (block_id h) (hdr_block_name h).
Definition set_block_id (i : Z) (h : ipm_shared_memory_header) : ipm_shared_memory_header :=
  mk_header (segment_mutex h) (refcount h) (block_size h) (id_counter h) i (hdr_block_name h).
Definition set_hdr_name (n : string) (h : ipm_shared_memory_header) : ipm_shared_memory_header :=
  mk_header (segment_mutex h) (refcount h) (block_size h) (id_counter h) (block_id h) n.

Definition on_segment_mutex {A} (addr : Z) (m : M (thread * ipm_mut) A) : M world A :=
  on_header addr (zoom (fun s => (s.1, segment_mutex s.2))
                    (fun s' s => (s'.1, set_segment_mutex s'.2 s.2)) m).

(** [atomic_fetch_add(&header->id_counter, 1)] and the two on [refcount]. *)
Definition fetch_add_id (addr : Z) : M world Z :=
  h ← read_header addr;
  _ ← write_header addr (set_id_counter (wrap64 (id_counter h + 1)));
  mret (id_counter h).
Definition fetch_add_refcount (addr : Z) : M world Z :=
  h ← read_header addr;
  _ ← write_header addr (set_refcount (wrap32 (refcount h + 1)));
  mret (refcount h).
Definition fetch_sub_refcount (addr : Z) : M world Z :=
  h ← read_header addr;
  _ ← write_header addr (set_refcount (wrap32 (refcount h - 1)));
  mret (refcount h).
End world.

(** ** Lemmas *)

Section pages.
Implicit Types (m : gmap Z page) (o : nat).

Lemma lookup_foldr_insert (f : Z -> page) base l m k :
  foldr (fun i m => <[base + i := f i]> m) m l !! k =
  if decide (k - base ∈ l) then Some (f (k - base)) else m !! k.
Proof.
  induction l as [|i l IH]; cbn [foldr].
  - rewrite decide_False; [done|]. apply not_elem_of_nil.
  - destruct (decide (base + i = k)) as [<-|Hne].
    + rewrite lookup_insert_eq, decide_True by (apply elem_of_cons; left; lia).
      by replace (base + i - base) with i by lia.
    + rewrite lookup_insert_ne, IH by done.
      apply decide_ext. rewrite elem_of_cons. intuition lia.
Qed.

Lemma lookup_foldr_delete base l m k :
  foldr (fun i m => delete (base + i) m) m l !! k =
  if decide (k - base ∈ l) then None else m !! k.
Proof.
  induction l as [|i l IH]; cbn [foldr].
  - rewrite decide_False; [done|]. apply not_elem_of_nil.
  - destruct (decide (base + i = k)) as [<-|Hne].
    + rewrite lookup_delete_eq, decide_True by (apply elem_of_cons; left; lia). done.
    + rewrite lookup_delete_ne, IH by done.
      apply decide_ext. rewrite elem_of_cons. intuition lia.
Qed.

Lemma lookup_map_pages base n o off wr m k :
  map_pages base n o off wr m !! k =
  if decide (base <= k < base + n) then Some (mk_page o (off + (k - base)) wr) else m !! k.
Proof.
  unfold map_pages. rewrite (lookup_foldr_insert (fun i => mk_page o (off + i) wr)).
  apply decide_ext. rewrite elem_of_seqZ. lia.
Qed.

Lemma lookup_unmap_pages base n m k :
  unmap_pages base n m !! k = if decide (base <= k < base + n) then None else m !! k.
Proof.
  unfold unmap_pages. rewrite lookup_foldr_delete. apply decide_ext. rewrite elem_of_seqZ. lia.
Qed.

(** Unmapping what was mapped on free pages restores the address space. *)
Lemma unmap_map_pages base n o off wr m :
  (forall i, 0 <= i < n -> m !! (base + i) = None) ->
  unmap_pages base n (map_pages base n o off wr m) = m.
Proof.
  intros Hfree. apply map_eq. intros k. rewrite lookup_unmap_pages, lookup_map_pages.
  case_decide; [|done]. specialize (Hfree (k - base)).
  replace (base + (k - base)) with k in Hfree by lia. symmetry. apply Hfree. lia.
Qed.

Lemma unmap_map_pages_ne base n o off wr base' n' m :
  (base' + n' <= base \/ base + n <= base') ->
  unmap_pages base n (map_pages base' n' o off wr m) = map_pages base' n' o off wr (unmap_pages base n m).
Proof.
  intros Hd. apply map_eq. intros k.
  rewrite lookup_unmap_pages, !lookup_map_pages, lookup_unmap_pages.
  repeat case_decide; (done || lia).
Qed.
End pages.

Section world_lemmas.
Context {E : Env}.
Implicit Types (w : world) (o : nat) (ob : shm_object) (a : Z).

Lemma set_obj_id o ob w : w_objs w !! o = Some ob -> set_obj o ob w = w.
Proof. intros H. destruct w. unfold set_obj, set_objs; simpl in *. by rewrite insert_id. Qed.
Lemma set_thread_id w : set_thread (w_thread w) w = w.
Proof. by destruct w. Qed.
Lemma set_user_id w : set_user (w_user w) w = w.
Proof. by destruct w. Qed.
Lemma set_obj_set_obj o ob ob' w : set_obj o ob (set_obj o ob' w) = set_obj o ob w.
Proof. unfold set_obj, set_objs; simpl. by rewrite insert_insert_eq. Qed.

(** [a] is the address of a mapped header page of object [o]. *)
Record header_mapped w a o ob : Prop := {
  hm_aligned : a mod IPM_MEMORY_PAGE_SIZE = 0;
  hm_page : w_pages w !! (a / IPM_MEMORY_PAGE_SIZE) = Some (mk_page o 0 true);
  hm_obj : w_objs w !! o = Some ob;
  hm_size : 0 < so_size ob
}.

(** [a] is the address of a mapped claim list of object [o]. *)
Record list_mapped w a o ob : Prop := {
  lm_aligned : a mod IPM_MEMORY_PAGE_SIZE = 0;
  lm_page : w_pages w !! (a / IPM_MEMORY_PAGE_SIZE) = Some (mk_page o 1 true);
  lm_obj : w_objs w !! o = Some ob;
  lm_size : IPM_MEMORY_PAGE_SIZE < so_size ob
}.

Lemma header_mapped_at w a o ob : header_mapped w a o ob -> object_at 0 true a w = Some o.
Proof.
  intros [Ha Hp Ho Hs]. unfold object_at. rewrite Ha, Hp, Z.eqb_refl. simpl. rewrite Ho.
  by rewrite (proj2 (Z.ltb_lt _ _)) by lia.
Qed.

Lemma list_mapped_at w a o ob : list_mapped w a o ob -> object_at 1 true a w = Some o.
Proof.
  intros [Ha Hp Ho Hs]. unfold object_at. rewrite Ha, Hp, Z.eqb_refl. cbn [negb pg_obj]. rewrite Ho.
  cbn [pg_index pg_write implb]. rewrite Z.eqb_refl. simpl.
  by rewrite (proj2 (Z.ltb_lt _ _)) by lia.
Qed.

Lemma on_header_run {A} w a o ob (m : M (thread * ipm_shared_memory_header) A) r t h :
  header_mapped w a o ob -> m (w_thread w, so_header ob) = Ret r (t, h) ->
  on_header a m w = Ret r (set_obj o (set_so_header h ob) (set_thread t w)).
Proof.
  intros Hm Hr. unfold on_header, on_object. rewrite (header_mapped_at _ _ _ _ Hm), (hm_obj _ _ _ _ Hm).
  erewrite zoom_Ret by (erewrite zoom_Ret by exact Hr; reflexivity). done.
Qed.

Lemma on_list_run {A} w a o ob (m : LM A) r t l :
  list_mapped w a o ob -> m (w_thread w, so_list ob) = Ret r (t, l) ->
  on_list a m w = Ret r (set_obj o (set_so_list l ob) (set_thread t w)).
Proof.
  intros Hm Hr. unfold on_list, on_object. rewrite (list_mapped_at _ _ _ _ Hm), (lm_obj _ _ _ _ Hm).
  erewrite zoom_Ret by (erewrite zoom_Ret by exact Hr; reflexivity). done.
Qed.

Lemma read_header_run w a o ob :
  header_mapped w a o ob -> read_header a w = Ret (so_header ob) w.
Proof.
  intros Hm. unfold read_header. erewrite on_header_run by done.
  rewrite set_thread_id. f_equal. apply set_obj_id. destruct ob. apply Hm.
Qed.

Lemma write_header_run w a o ob f :
  header_mapped w a o ob ->
  write_header a f w = Ret tt (set_obj o (set_so_header (f (so_header ob)) ob) w).
Proof.
  intros Hm. unfold write_header. erewrite on_header_run by done. cbn [fst snd]. by rewrite set_thread_id.
Qed.

(** The mapping survives changes of the header's contents. *)
Lemma header_mapped_set w a o ob h t :
  header_mapped w a o ob ->
  header_mapped (set_obj o (set_so_header h ob) (set_thread t w)) a o (set_so_header h ob).
Proof. intros [Ha Hp Ho Hs]. split; simpl; try done. apply lookup_insert_eq. Qed.

Lemma on_segment_mutex_run {A} w a o ob (m : M (thread * ipm_mut) A) r t mx :
  header_mapped w a o ob -> m (w_thread w, segment_mutex (so_header ob)) = Ret r (t, mx) ->
  on_segment_mutex a m w =
  Ret r (set_obj o (set_so_header (set_segment_mutex mx (so_header ob)) ob) (set_thread t w)).
Proof.
  intros Hm Hr. unfold on_segment_mutex. eapply on_header_run; [done|].
  by erewrite zoom_Ret by exact Hr.
Qed.

(** A system call with no injected failure. *)
Definition world_after_call w : world := set_thread (thread_after_call (w_thread w)) w.

Lemma sys_call_run (m : M world Z) w :
  sys_call m w =
  if List.hd 0 (t_faults (w_thread w)) =? 0 then m (world_after_call w)
  else Ret (-1) (set_thread (set_errno (List.hd 0 (t_faults (w_thread w)))
                              (thread_after_call (w_thread w))) w).
Proof.
  unfold sys_call, zoom, mbind, M_bind, world_after_call, thread_after_call, next_fault.
  destruct w as [[tid e [|f fs]] u n ob fd pg]; simpl; [done|]. by destruct (f =? 0).
Qed.

Lemma sys_call_nofault (m : M world Z) w n :
  no_faults (S n) (w_thread w) -> sys_call m w = m (world_after_call w).
Proof. intros [H _]%no_faults_S. by rewrite sys_call_run, H. Qed.

(** Reporting an error changes at most the user's state and [errno]. *)
Lemma on_user_report ctx msg loc w :
  exists t u, IPM_ERROR ctx msg loc w = Ret tt (set_user u (set_thread t w)) /\
    same_thread (w_thread w) t.
Proof.
  unfold IPM_ERROR, on_user.
  assert (wp (ipm_report_error ctx msg loc) (w_thread w, w_user w)
            (fun _ s => same_thread (w_thread w) s.1)) as H
    by (apply ipm_report_error_wp; auto).
  apply wp_run in H as ([] & [t u] & Hr & Ht). exists t, u.
  split; [|exact Ht]. unfold zoom. cbn beta. by rewrite Hr.
Qed.

Lemma lowest_fd_free (fds : gmap nat nat) : fds !! lowest_fd fds = None.
Proof.
  unfold lowest_fd. destruct (list_find _ _) as [[j i]|] eqn:F.
  - by apply list_find_Some in F as (_ & H & _).
  - exfalso. apply list_find_None in F. rewrite Forall_forall in F.
    assert (list_to_set (C := gset nat) (seq 0 (S (base.size fds))) ⊆ dom fds) as Hsub.
    { intros i Hi%elem_of_list_to_set. apply elem_of_dom.
      specialize (F i Hi). by destruct (fds !! i); [eauto|]. }
    apply subseteq_size in Hsub. rewrite size_list_to_set in Hsub by apply NoDup_seq.
    rewrite length_seq, size_dom in Hsub. lia.
Qed.

(** *** System calls that succeed *)

Definition opened_new (name : string) w : world :=
  let o := fresh_object (w_objs w) in
  set_fds (<[lowest_fd (w_fds w) := o]> (w_fds w))
    (set_names (<[name := o]> (w_names w))
       (set_obj o (mk_object 0 zero_header zero_list) (world_after_call w))).

Lemma shm_open_new_run w name n :
  no_faults (S n) (w_thread w) -> w_names w !! name = None ->
  shm_open name true true w = Ret (Z.of_nat (lowest_fd (w_fds w))) (opened_new name w).
Proof.
  intros Hf Hn. unfold shm_open. rewrite (sys_call_nofault _ _ n) by done.
  erewrite bind_Ret by done. simpl. by rewrite Hn.
Qed.

Lemma shm_open_exists_run w name o n :
  no_faults (S n) (w_thread w) -> w_names w !! name = Some o ->
  shm_open name true true w =
  Ret (-1) (set_thread (set_errno EEXIST (thread_after_call (w_thread w))) w).
Proof.
  intros Hf Hn. unfold shm_open. rewrite (sys_call_nofault _ _ n) by done.
  erewrite bind_Ret by done. simpl. by rewrite Hn.
Qed.

Lemma shm_open_old_run w name o n :
  no_faults (S n) (w_thread w) -> w_names w !! name = Some o ->
  shm_open name false false w =
  Ret (Z.of_nat (lowest_fd (w_fds w)))
    (set_fds (<[lowest_fd (w_fds w) := o]> (w_fds w)) (world_after_call w)).
Proof.
  intros Hf Hn. unfold shm_open. rewrite (sys_call_nofault _ _ n) by done.
  erewrite bind_Ret by done. simpl. by rewrite Hn.
Qed.

Lemma shm_open_absent_run w name n :
  no_faults (S n) (w_thread w) -> w_names w !! name = None ->
  shm_open name false false w =
  Ret (-1) (set_thread (set_errno ENOENT (thread_after_call (w_thread w))) w).
Proof.
  intros Hf Hn. unfold shm_open. rewrite (sys_call_nofault _ _ n) by done.
  erewrite bind_Ret by done. simpl. by rewrite Hn.
Qed.

Lemma shm_unlink_run w name o n :
  no_faults (S n) (w_thread w) -> w_names w !! name = Some o ->
  shm_unlink name w = Ret 0 (set_names (delete name (w_names w)) (world_after_call w)).
Proof.
  intros Hf Hn. unfold shm_unlink. rewrite (sys_call_nofault _ _ n) by done.
  erewrite bind_Ret by done. simpl. by rewrite Hn.
Qed.

Lemma fd_object_nat w fd : fd_object w (Z.of_nat fd) = w_fds w !! fd.
Proof. unfold fd_object. rewrite (proj2 (Z.ltb_ge _ _)) by lia. by rewrite Nat2Z.id. Qed.

Lemma close_run w fd o :
  fd_object w fd = Some o ->
  close fd w = Ret 0 (set_fds (delete (Z.to_nat fd) (w_fds w)) w).
Proof. intros H. unfold close. erewrite bind_Ret by done. by rewrite H. Qed.

Lemma ftruncate_run w fd o ob len n :
  no_faults (S n) (w_thread w) -> fd_object w fd = Some o -> w_objs w !! o = Some ob -> 0 <= len ->
  ftruncate fd len w = Ret 0 (set_obj o (truncate_object len ob) (world_after_call w)).
Proof.
  intros Hf Hfd Ho Hl. unfold ftruncate. rewrite (sys_call_nofault _ _ n) by done.
  erewrite bind_Ret by done. change (fd_object (world_after_call w) fd) with (fd_object w fd).
  rewrite Hfd, (proj2 (Z.ltb_ge _ _)) by done. simpl. by rewrite Ho.
Qed.

Lemma mmap_run {L : EnvLaws E} w hint len wr fd o off p n :
  no_faults (S n) (w_thread w) -> 0 < len -> off mod IPM_MEMORY_PAGE_SIZE = 0 ->
  fd_object w fd = Some o ->
  os_place (w_pages w) (hint / IPM_MEMORY_PAGE_SIZE) (pages_of len) = Some p ->
  mmap hint len wr fd off w =
  Ret (p * IPM_MEMORY_PAGE_SIZE)
    (set_pages (map_pages p (pages_of len) o (off / IPM_MEMORY_PAGE_SIZE) wr (w_pages w))
       (world_after_call w)).
Proof.
  intros Hf Hl Hoff Hfd Hp. pose proof (os_place_free _ _ _ _ Hp) as (Hp0 & Hp1 & _).
  assert (1 <= pages_of len) as Hpg.
  { unfold pages_of, IPM_MEMORY_PAGE_SIZE. apply Z.div_le_lower_bound; lia. }
  unfold mmap. erewrite bind_Ret.
  2:{ rewrite (sys_call_nofault _ _ n) by done. erewrite bind_Ret by done.
      rewrite (proj2 (Z.eqb_neq len 0)), Hoff by lia. cbn [orb negb Z.eqb].
      change (fd_object (world_after_call w) fd) with (fd_object w fd). rewrite Hfd.
      change (w_pages (world_after_call w)) with (w_pages w). by rewrite Hp. }
  unfold mret, M_ret. f_equal. apply wrap64_small. unfold IPM_MEMORY_PAGE_SIZE in *. split; lia.
Qed.

Lemma munmap_run w a len :
  a mod IPM_MEMORY_PAGE_SIZE = 0 -> 0 < len ->
  munmap a len w = Ret 0 (set_pages (unmap_pages (a / IPM_MEMORY_PAGE_SIZE) (pages_of len) (w_pages w)) w).
Proof.
  intros Ha Hl. unfold munmap. erewrite bind_Ret by done. rewrite Ha, (proj2 (Z.eqb_neq len 0)) by lia.
  done.
Qed.

Lemma pages_of_mult n : 0 <= n -> pages_of (n * IPM_MEMORY_PAGE_SIZE) = n.
Proof.
  intros Hn. unfold pages_of, IPM_MEMORY_PAGE_SIZE. symmetry.
  apply Z.div_unique with (4096 - 1); lia.
Qed.

Lemma page_addr_mod p : (p * IPM_MEMORY_PAGE_SIZE) mod IPM_MEMORY_PAGE_SIZE = 0.
Proof. apply Z.mod_mul. done. Qed.
Lemma page_addr_div p : (p * IPM_MEMORY_PAGE_SIZE) / IPM_MEMORY_PAGE_SIZE = p.
Proof. apply Z.div_mul. done. Qed.

Lemma MAP_FAILED_place {L : EnvLaws E} m hint n p :
  os_place m hint n = Some p -> 0 < n -> (p * IPM_MEMORY_PAGE_SIZE =? MAP_FAILED) = false.
Proof.
  intros Hp Hn. apply os_place_free in Hp as (_ & Hp & _). apply Z.eqb_neq.
  unfold MAP_FAILED, wrap64, IPM_MEMORY_PAGE_SIZE, u64_mod in *.
  change ((-1) mod 2 ^ 64) with (2 ^ 64 - 1). lia.
Qed.

Lemma NULL_place {L : EnvLaws E} m hint n p :
  os_place m hint n = Some p -> (p * IPM_MEMORY_PAGE_SIZE =? NULL) = false.
Proof.
  intros Hp. apply os_place_free in Hp as (Hp & _ & _). apply Z.eqb_neq.
  unfold NULL, IPM_MEMORY_PAGE_SIZE. lia.
Qed.

(** *** Running through a header

    [with_header w o ob t h] is [w] with header [h] in object [o] and thread
    [t].  Accesses through a mapped header page move between such worlds. *)
Definition with_header w o ob (t : thread) (h : ipm_shared_memory_header) : world :=
  set_obj o (set_so_header h ob) (set_thread t w).

Section with_header.
Variables (w : world) (a : Z) (o : nat) (ob : shm_object).
Hypothesis Hm : header_mapped w a o ob.
Implicit Types (t : thread) (h : ipm_shared_memory_header).

Lemma with_header_init : with_header w o ob (w_thread w) (so_header ob) = w.
Proof using Hm.
  unfold with_header. rewrite set_thread_id. apply set_obj_id. destruct ob. apply Hm.
Qed.

Lemma with_header_mapped t h : header_mapped (with_header w o ob t h) a o (set_so_header h ob).
Proof using Hm. by apply header_mapped_set. Qed.

Lemma read_header_wh t h : read_header a (with_header w o ob t h) = Ret h (with_header w o ob t h).
Proof using Hm. apply (read_header_run _ _ _ _ (with_header_mapped t h)). Qed.

Lemma write_header_wh t h f :
  write_header a f (with_header w o ob t h) = Ret tt (with_header w o ob t (f h)).
Proof using Hm.
  rewrite (write_header_run _ _ _ _ _ (with_header_mapped t h)).
  unfold with_header. by rewrite set_obj_set_obj.
Qed.

Lemma on_segment_mutex_wh {A} t h (m : M (thread * ipm_mut) A) r t' mx :
  m (t, segment_mutex h) = Ret r (t', mx) ->
  on_segment_mutex a m (with_header w o ob t h) = Ret r (with_header w o ob t' (set_segment_mutex mx h)).
Proof using Hm.
  intros Hr. rewrite (on_segment_mutex_run _ _ _ _ _ _ _ _ (with_header_mapped t h) Hr).
  unfold with_header. unfold set_thread at 1; simpl.
  change (mk_world t' (w_user w) (w_names w) (<[o:=set_so_header h ob]> (w_objs w)) (w_fds w) (w_pages w))
    with (set_obj o (set_so_header h ob) (set_thread t' w)).
  by rewrite set_obj_set_obj.
Qed.

Lemma fetch_add_id_wh t h :
  fetch_add_id a (with_header w o ob t h) =
  Ret (id_counter h) (with_header w o ob t (set_id_counter (wrap64 (id_counter h + 1)) h)).
Proof using Hm.
  unfold fetch_add_id. erewrite bind_Ret by apply read_header_wh.
  by erewrite bind_Ret by apply write_header_wh.
Qed.

Lemma fetch_add_refcount_wh t h :
  fetch_add_refcount a (with_header w o ob t h) =
  Ret (refcount h) (with_header w o ob t (set_refcount (wrap32 (refcount h + 1)) h)).
Proof using Hm.
  unfold fetch_add_refcount. erewrite bind_Ret by apply read_header_wh.
  by erewrite bind_Ret by apply write_header_wh.
Qed.

Lemma fetch_sub_refcount_wh t h :
  fetch_sub_refcount a (with_header w o ob t h) =
  Ret (refcount h) (with_header w o ob t (set_refcount (wrap32 (refcount h - 1)) h)).
Proof using Hm.
  unfold fetch_sub_refcount. erewrite bind_Ret by apply read_header_wh.
  by erewrite bind_Ret by apply write_header_wh.
Qed.
End with_header.

(** *** Running on a claim list *)
Definition with_list w o ob (t : thread) (l : ipm_claim_list) : world :=
  set_obj o (set_so_list l ob) (set_thread t w).

Section with_list.
Variables (w : world) (a : Z) (o : nat) (ob : shm_object).
Hypothesis Hm : list_mapped w a o ob.
Implicit Types (t : thread) (l : ipm_claim_list).

Lemma with_list_init : with_list w o ob (w_thread w) (so_list ob) = w.
Proof using Hm.
  unfold with_list. rewrite set_thread_id. apply set_obj_id. destruct ob. apply Hm.
Qed.

Lemma with_list_mapped t l : list_mapped (with_list w o ob t l) a o (set_so_list l ob).
Proof using Hm. destruct Hm. split; try done. apply lookup_insert_eq. Qed.

Lemma on_list_wl {A} t l (m : LM A) r t' l' :
  m (t, l) = Ret r (t', l') -> on_list a m (with_list w o ob t l) = Ret r (with_list w o ob t' l').
Proof using Hm.
  intros Hr. rewrite (on_list_run _ _ _ _ _ _ _ _ (with_list_mapped t l) Hr).
  unfold with_list, set_obj, set_objs; simpl. by rewrite insert_insert_eq.
Qed.

(** The outcomes that do not return. *)
Lemma on_list_wl_undef {A} t l (m : LM A) :
  m (t, l) = Undef -> on_list a m (with_list w o ob t l) = Undef.
Proof using Hm.
  intros Hr. unfold on_list, on_object.
  rewrite (list_mapped_at _ _ _ _ (with_list_mapped t l)), (lm_obj _ _ _ _ (with_list_mapped t l)).
  unfold zoom; simpl. by rewrite Hr.
Qed.

Lemma on_list_wl_abort {A} t l (m : LM A) s :
  m (t, l) = Abort s -> on_list a m (with_list w o ob t l) = Abort (with_list w o ob s.1 s.2).
Proof using Hm.
  intros Hr. unfold on_list, on_object.
  rewrite (list_mapped_at _ _ _ _ (with_list_mapped t l)), (lm_obj _ _ _ _ (with_list_mapped t l)).
  unfold zoom; simpl. rewrite Hr. unfold with_list, set_obj, set_objs; simpl. by rewrite insert_insert_eq.
Qed.

Lemma on_list_wl_hang {A} t l (m : LM A) s :
  m (t, l) = Hang s -> on_list a m (with_list w o ob t l) = Hang (with_list w o ob s.1 s.2).
Proof using Hm.
  intros Hr. unfold on_list, on_object.
  rewrite (list_mapped_at _ _ _ _ (with_list_mapped t l)), (lm_obj _ _ _ _ (with_list_mapped t l)).
  unfold zoom; simpl. rewrite Hr. unfold with_list, set_obj, set_objs; simpl. by rewrite insert_insert_eq.
Qed.
End with_list.
End world_lemmas.
