(* ===== verification/SharedMemory.v ===== *)
(** * Shared memory blocks (source/shared_memory.h, source/shared_memory.c)

    A block is a shared memory object with a header page, mapped twice by each
    process that uses it: the header page, and the memory behind it.  The
    operations are translated statement by statement.  A block handle passed
    by pointer is passed by value and returned; [shared_memory_block_close]
    and [shared_memory_block_clean] overwrite the handle with a pattern, and no
    caller reads it afterwards, so they return no handle. *)

From S2P Require Import Prelude Errors Pthread Platform Claims Common Names World.

Record ipm_shared_memory_block := mk_block {
  b_access_id : Z;
  b_size : Z;
  b_header : Z;                     (* address of the header page *)
  b_memory : Z;                     (* address of the memory *)
  b_has_ownership : bool;
  b_access_mode : ipm_access_mode;
  b_mem_fd : Z
}.

(** The error numbers of the system calls as the code translates them. *)
Definition shm_open_create_error (errno : Z) : ipm_result :=
  switch errno
    [(EACCES, IPM_RESULT_ERR_ACCESS); (EINVAL, IPM_RESULT_ERR_BAD_VALUE);
     (EMFILE, IPM_RESULT_ERR_MAX_FDS); (ENFILE, IPM_RESULT_ERR_MAX_FDS_SYS);
     (ENAMETOOLONG, IPM_RESULT_ERR_NAME_TOO_LONG)]
    IPM_RESULT_ERR_OS_UNEXPECTED.
Definition shm_open_open_error (errno : Z) : ipm_result :=
  switch errno
    [(EACCES, IPM_RESULT_ERR_ACCESS); (EINVAL, IPM_RESULT_ERR_BAD_VALUE);
     (EMFILE, IPM_RESULT_ERR_MAX_FDS); (ENFILE, IPM_RESULT_ERR_MAX_FDS_SYS);
     (ENAMETOOLONG, IPM_RESULT_ERR_NAME_TOO_LONG); (ENOENT, IPM_RESULT_ERR_DOES_NOT_EXIST)]
    IPM_RESULT_ERR_OS_UNEXPECTED.
Definition ftruncate_create_error (errno : Z) : ipm_result :=
  switch errno
    [(EACCES, IPM_RESULT_ERR_ACCESS); (EBADF, IPM_RESULT_ERR_INVALID_FD);
     (EINVAL, IPM_RESULT_ERR_INVALID_FD); (EPERM, IPM_RESULT_ERR_BAD_FS);
     (EROFS, IPM_RESULT_ERR_BAD_FS)]
    IPM_RESULT_ERR_OS_UNEXPECTED.
Definition ftruncate_resize_error (errno : Z) : ipm_result :=
  switch errno
    [(EACCES, IPM_RESULT_ERR_ACCESS); (EFBIG, IPM_RESULT_ERR_OS_OUT_OF_MEMORY);
     (EINVAL, IPM_RESULT_ERR_OS_OUT_OF_MEMORY); (EPERM, IPM_RESULT_ERR_BAD_FS);
     (EROFS, IPM_RESULT_ERR_BAD_FS); (EBADF, IPM_RESULT_ERR_BAD_VALUE)]
    IPM_RESULT_ERR_OS_UNEXPECTED.
Definition mmap_error (errno : Z) : ipm_result :=
  switch errno
    [(EACCES, IPM_RESULT_ERR_ACCESS); (EAGAIN, IPM_RESULT_ERR_OS_OUT_OF_MEMORY);
     (ENOMEM, IPM_RESULT_ERR_OS_OUT_OF_MEMORY); (EINVAL, IPM_RESULT_ERR_BAD_VALUE);
     (ENFILE, IPM_RESULT_ERR_MAX_FDS_SYS)]
    IPM_RESULT_ERR_OS_UNEXPECTED.

Section blocks.
Context {E : Env}.
Variable NDEBUG : bool.

Definition in_shm (line : Z) (func : string) : site := At "source/shared_memory.c" line func.
Definition is_writable (a : ipm_access_mode) : bool :=
  negb (bool_decide (a = IPM_ACCESS_MODE_READ_ONLY)).

(** [memcpy(header->block_name, name, strlen(name)); header->block_name[strlen(name)] = 0;]
    into an array of [IPM_MAX_NAME_LEN + 1] characters. *)
Definition store_name (hdr : Z) (name : string) : M world unit :=
  if Z.of_nat (String.length name) <=? IPM_MAX_NAME_LEN
  then write_header hdr (set_hdr_name name) else undef.

(** [memcmp(header->block_name, name, strlen(name)) != 0] *)
Definition name_differs (stored name : string) : bool := negb (String.prefix name stored).

Definition shared_memory_block_create (context : ipm_context user) (block_name : string) (id size : Z)
    (access : ipm_access_mode) : M world (ipm_result * option ipm_shared_memory_block) :=
  let name_len := Z.of_nat (String.length block_name) in
  let err r := mret (r, None) in
  let at_line n := in_shm n "shared_memory_block_create" in
  _ ← cassert NDEBUG (Z.land size IPM_MEMORY_PAGE_SIZE_MASK =? 0);
  _ ← cassert NDEBUG (0 <? size);
  _ ← cassert NDEBUG (name_len <=? IPM_MAX_NAME_LEN);
  let name_buffer := object_name block_name id in
  fd ← shm_open name_buffer true true;
  if fd <? 0 then
    e ← w_errno;
    if e =? EEXIST then err IPM_RESULT_ERR_EXISTS
    else
      why ← strerror;
      _ ← IPM_ERROR context ("Could not open block with id " +:+ format_id id +:+ ", reason: " +:+ why) (at_line 33);
      e ← w_errno; err (shm_open_create_error e)
  else
  truc_res ← ftruncate fd (to_off_t (wrap64 (size + IPM_MEMORY_PAGE_SIZE)));
  if truc_res <? 0 then
    why ← strerror;
    _ ← IPM_ERROR context ("Could not truncate shared memory's FD to " +:+ pretty (wrap64 (size + IPM_MEMORY_PAGE_SIZE))
                            +:+ " bytes, reason: " +:+ why) (at_line 54);
    _ ← close fd;
    _ ← shm_unlink name_buffer;
    e ← w_errno; err (ftruncate_create_error e)
  else
  block_memory ← mmap NULL size (is_writable access) fd IPM_MEMORY_PAGE_SIZE;
  if block_memory =? MAP_FAILED then
    _ ← close fd;
    why ← strerror;
    _ ← IPM_ERROR context ("Could not map shared memory to memory, reason: " +:+ why) (at_line 75);
    _ ← shm_unlink name_buffer;
    e ← w_errno; err (mmap_error e)
  else
  header ← mmap NULL IPM_MEMORY_PAGE_SIZE true fd 0;
  if header =? NULL then
    _ ← close fd;
    why ← strerror;
    _ ← IPM_ERROR context ("Could not map shared memory to memory, reason: " +:+ why) (at_line 96);
    _ ← munmap block_memory size;
    _ ← shm_unlink name_buffer;
    e ← w_errno; err (mmap_error e)
  else
  _ ← write_header header (set_block_id id);
  _ ← write_header header (set_block_size size);
  _ ← write_header header (set_id_counter 1);
  res ← on_segment_mutex header ipm_mutex_init;
  if negb (bool_decide (res = IPM_RESULT_SUCCESS)) then
    _ ← close fd;
    why ← strerror;
    _ ← IPM_ERROR context ("Could not create block mutex, reason: " +:+ why) (at_line 123);
    _ ← munmap header IPM_MEMORY_PAGE_SIZE;
    _ ← munmap block_memory size;
    _ ← shm_unlink name_buffer;
    err res
  else
  _ ← store_name header block_name;
  access_id ← fetch_add_id header;
  _ ← write_header header (set_refcount 1);
  mret (IPM_RESULT_SUCCESS, Some (mk_block access_id size header block_memory false access fd)).

(** [while (header->refcount == 0) sched_yield();]  Each element of [others] is
    what the other processes do to the object while this one yields; when they
    never raise the count the loop does not end. *)
Fixpoint wait_for_creator (hdr : Z) (others : list (shm_object -> shm_object)) : M world unit :=
  h ← read_header hdr;
  if negb (refcount h =? 0) then mret tt
  else match others with
       | [] => hang
       | f :: others => _ ← on_object 0 hdr (modify (fun s => (s.1, f s.2))); wait_for_creator hdr others
       end.

Definition shared_memory_block_open (others : list (shm_object -> shm_object))
    (context : ipm_context user) (block_name : string) (id : Z) (access : ipm_access_mode)
    : M world (ipm_result * option ipm_shared_memory_block) :=
  let name_len := Z.of_nat (String.length block_name) in
  let err r := mret (r, None) in
  let at_line n := in_shm n "shared_memory_block_open" in
  _ ← cassert NDEBUG (name_len <=? IPM_MAX_NAME_LEN);
  let name_buffer := object_name block_name id in
  fd ← shm_open name_buffer false false;
  if fd <? 0 then
    e ← w_errno;
    if e =? EEXIST then err IPM_RESULT_ERR_EXISTS
    else
      why ← strerror;
      _ ← IPM_ERROR context ("Could not open block with id " +:+ format_id id +:+ ", reason: " +:+ why) (at_line 160);
      e ← w_errno; err (shm_open_open_error e)
  else
  header ← mmap NULL IPM_MEMORY_PAGE_SIZE true fd 0;
  if header =? NULL then
    why ← strerror;
    _ ← IPM_ERROR context ("Could not map shared memory to memory, reason: " +:+ why) (at_line 182);
    e ← w_errno; err (mmap_error e)
  else
  h ← read_header header;
  let size := block_size h in
  block_memory ← mmap NULL size (is_writable access) fd IPM_MEMORY_PAGE_SIZE;
  if block_memory =? MAP_FAILED then
    _ ← close fd;
    _ ← munmap header IPM_MEMORY_PAGE_SIZE;
    why ← strerror;
    _ ← IPM_ERROR context ("Could not map shared memory to memory, reason: " +:+ why) (at_line 205);
    e ← w_errno; err (mmap_error e)
  else
  _ ← wait_for_creator header others;
  h ← read_header header;
  if negb (block_id h =? id) then
    _ ← close fd;
    h ← read_header header;
    _ ← IPM_ERROR context ("Block id (" +:+ format_id (block_id h) +:+ ") did not match the specified id ("
                            +:+ format_id id +:+ ")") (at_line 231);
    _ ← munmap header IPM_MEMORY_PAGE_SIZE;
    _ ← munmap block_memory size;
    err IPM_RESULT_ERR_BAD_ID
  else
  h ← read_header header;
  if name_differs (hdr_block_name h) block_name then
    _ ← close fd;
    h ← read_header header;
    _ ← IPM_ERROR context ("Block id (" +:+ block_name +:+ ") did not match the specified id ("
          +:+ String.substring 0 (Z.to_nat IPM_MAX_NAME_LEN) (hdr_block_name h) +:+ ")") (at_line 239);
    _ ← munmap header IPM_MEMORY_PAGE_SIZE;
    _ ← munmap block_memory size;
    err IPM_RESULT_ERR_BAD_ID
  else
  _ ← fetch_add_refcount header;
  access_id ← fetch_add_id header;
  mret (IPM_RESULT_SUCCESS, Some (mk_block access_id size header block_memory false access fd)).

(** [callback] is the call [callback(param)], if there is one. *)
Definition shared_memory_block_close (context : ipm_context user) (block : ipm_shared_memory_block)
    (callback : option (M world unit)) : M world ipm_result :=
  _ ← cassert NDEBUG (negb (b_has_ownership block));
  let header := b_header block in
  let mem := b_memory block in
  _ ← close (b_mem_fd block);
  refs ← fetch_sub_refcount header;
  if refs =? 1 then
    _ ← match callback with Some f => f | None => mret tt end;
    _ ← on_segment_mutex header ipm_mutex_destroy;
    h ← read_header header;
    let id := block_id h in
    let name_buffer := object_name (hdr_block_name h) id in
    h ← read_header header;
    _ ← munmap mem (block_size h);
    _ ← munmap header IPM_MEMORY_PAGE_SIZE;
    res ← shm_unlink name_buffer;
    if res <? 0 then
      why ← strerror;
      _ ← IPM_ERROR context ("Could not unlink memory block " +:+ name_buffer +:+ "-" +:+ format_id id
                              +:+ ", reason: " +:+ why) (in_shm 287 "shared_memory_block_close");
      e ← w_errno;
      mret (switch e [(EACCES, IPM_RESULT_ERR_ACCESS)] IPM_RESULT_ERR_OS_UNEXPECTED)
    else mret IPM_RESULT_SUCCESS
  else
    h ← read_header header;
    _ ← munmap mem (block_size h);
    _ ← munmap header IPM_MEMORY_PAGE_SIZE;
    mret IPM_RESULT_SUCCESS.

Definition shared_memory_block_clean (block : ipm_shared_memory_block) : M world ipm_result :=
  _ ← cassert NDEBUG (negb (b_has_ownership block));
  let header := b_header block in
  let mem := b_memory block in
  _ ← close (b_mem_fd block);
  h ← read_header header;
  _ ← munmap mem (block_size h);
  _ ← munmap header IPM_MEMORY_PAGE_SIZE;
  mret IPM_RESULT_SUCCESS.

Definition set_ownership (v : bool) (b : ipm_shared_memory_block) : ipm_shared_memory_block :=
  mk_block (b_access_id b) (b_size b) (b_header b) (b_memory b) v (b_access_mode b) (b_mem_fd b).

Definition acquire_memory_block_whole (context : ipm_context user) (block : ipm_shared_memory_block)
    : M world (ipm_result * ipm_shared_memory_block) :=
  if b_has_ownership block then
    _ ← IPM_ERROR context "Already has block ownership" (in_shm 311 "acquire_memory_block_whole");
    mret (IPM_RESULT_ERR_ALREADY_LOCKED, block)
  else
    wait_res ← on_segment_mutex (b_header block) ipm_mutex_lock;
    if negb (bool_decide (wait_res = IPM_RESULT_SUCCESS)) then
      why ← strerror;
      _ ← IPM_ERROR context ("Could not wait on block mutex, reason: " +:+ why)
            (in_shm 317 "acquire_memory_block_whole");
      mret (wait_res, block)
    else mret (IPM_RESULT_SUCCESS, set_ownership true block).

Definition release_memory_block_whole (context : ipm_context user) (block : ipm_shared_memory_block)
    : M world (ipm_result * ipm_shared_memory_block) :=
  if b_has_ownership block then
    _ ← IPM_ERROR context "Does not have ownership of the block!" (in_shm 328 "release_memory_block_whole");
    mret (IPM_RESULT_ERR_NOT_LOCKED, block)
  else
    _ ← on_segment_mutex (b_header block) ipm_mutex_unlock;
    mret (IPM_RESULT_SUCCESS, set_ownership false block).

Definition set_mapping (size memory : Z) (a : ipm_access_mode) (b : ipm_shared_memory_block)
    : ipm_shared_memory_block :=
  mk_block (b_access_id b) size (b_header b) memory (b_has_ownership b) a (b_mem_fd b).

Definition shared_memory_block_update_mapping (context : ipm_context user)
    (block : ipm_shared_memory_block) (access_mode : ipm_access_mode)
    : M world (ipm_result * ipm_shared_memory_block) :=
  h ← read_header (b_header block);
  let new_size := block_size h in
  if (b_size block =? new_size) && bool_decide (access_mode = b_access_mode block) &&
     negb (b_memory block =? NULL)
  then mret (IPM_RESULT_SUCCESS, block)
  else
    let old_ptr := b_memory block in
    _ ← munmap (b_memory block) (b_size block);
    let block := set_mapping (b_size block) NULL (b_access_mode block) block in
    new_ptr ← mmap old_ptr new_size (is_writable access_mode) (b_mem_fd block) IPM_MEMORY_PAGE_SIZE;
    if new_ptr =? MAP_FAILED then
      why ← strerror;
      _ ← IPM_ERROR context ("Could not map the updated shared memory block, reason: " +:+ why)
            (in_shm 352 "shared_memory_block_update_mapping");
      mret (IPM_RESULT_ERR_OS_OUT_OF_MEMORY, set_mapping 0 NULL IPM_ACCESS_MODE_READ_ONLY block)
    else
      mret (IPM_RESULT_SUCCESS, set_mapping new_size NULL access_mode block).

Definition shared_memory_block_resize (context : ipm_context user) (block : ipm_shared_memory_block)
    (new_size : Z) : M world (ipm_result * ipm_shared_memory_block) :=
  let header := b_header block in
  h ← read_header header;
  _ ← cassert NDEBUG (block_size h <=? new_size);
  _ ← cassert NDEBUG (Z.land new_size IPM_MEMORY_PAGE_SIZE_MASK =? 0);
  _ ← cassert NDEBUG (0 <? new_size);
  sem_res ← on_segment_mutex header ipm_mutex_lock;
  if negb (bool_decide (sem_res = IPM_RESULT_SUCCESS)) then
    why ← strerror;
    _ ← IPM_ERROR context ("Could not wait for semaphore to lock the memory segment, reason: " +:+ why)
          (in_shm 375 "shared_memory_block_resize");
    mret (sem_res, block)
  else
  h ← read_header header;
  if new_size =? block_size h then
    _ ← on_segment_mutex header ipm_mutex_unlock;
    if negb (new_size =? b_size block)
    then shared_memory_block_update_mapping context block (b_access_mode block)
    else mret (IPM_RESULT_SUCCESS, block)
  else
  res ← ftruncate (b_mem_fd block) (to_off_t (wrap64 (IPM_MEMORY_PAGE_SIZE + new_size)));
  if res <? 0 then
    _ ← on_segment_mutex header ipm_mutex_unlock;
    why ← strerror;
    _ ← IPM_ERROR context ("Could not truncate file to " +:+ pretty (wrap64 (IPM_MEMORY_PAGE_SIZE + new_size))
                            +:+ " bytes, reason: " +:+ why) (in_shm 395 "shared_memory_block_resize");
    e ← w_errno; mret (ftruncate_resize_error e, block)
  else
  _ ← write_header header (set_block_size new_size);
  _ ← on_segment_mutex header ipm_mutex_unlock;
  shared_memory_block_update_mapping context block (b_access_mode block).
End blocks.

(** ** Lemmas *)

Lemma land_page_mask size :
  Z.land size IPM_MEMORY_PAGE_SIZE_MASK = size mod IPM_MEMORY_PAGE_SIZE.
Proof.
  change IPM_MEMORY_PAGE_SIZE_MASK with (Z.ones 12). rewrite Z.land_ones by lia. done.
Qed.

Lemma prefix_refl s : String.prefix s s = true.
Proof. induction s as [|c s IH]; [done|]. simpl. by destruct (Ascii.ascii_dec c c). Qed.

(** A valid block size: a positive number of pages the file offsets can express. *)
Definition block_pages (size k : Z) : Prop :=
  size = k * IPM_MEMORY_PAGE_SIZE /\ 0 < k /\ size + IPM_MEMORY_PAGE_SIZE < 2 ^ 63.

Section lemmas.
Context {E : Env} {L : EnvLaws E}.
Implicit Types (w : world) (ctx : ipm_context user) (b : ipm_shared_memory_block).

(** The object [shared_memory_block_create] makes. *)
Definition created_object (name : string) (id size : Z) : shm_object :=
  mk_object (size + IPM_MEMORY_PAGE_SIZE) (mk_header (mutex_of Free) 1 size 2 id name)
    (set_claims (resize (slots_of (size + IPM_MEMORY_PAGE_SIZE)) zero_claim []) zero_list).

Definition created_block w (size p1 p2 : Z) (access : ipm_access_mode) : ipm_shared_memory_block :=
  mk_block 1 size (p2 * IPM_MEMORY_PAGE_SIZE) (p1 * IPM_MEMORY_PAGE_SIZE) false access
    (Z.of_nat (lowest_fd (w_fds w))).

Definition created_world w (name : string) (id size p1 p2 : Z) (access : ipm_access_mode) : world :=
  let o := fresh_object (w_objs w) in
  mk_world (thread_after 9 (w_thread w)) (w_user w)
    (<[object_name name id := o]> (w_names w))
    (<[o := created_object name id size]> (w_objs w))
    (<[lowest_fd (w_fds w) := o]> (w_fds w))
    (map_pages p2 1 o 0 true (map_pages p1 (pages_of size) o 1 (is_writable access) (w_pages w))).

Lemma to_off_t_small z : 0 <= z < 2 ^ 63 -> to_off_t (wrap64 z) = z.
Proof.
  intros H. rewrite wrap64_small by word. unfold to_off_t. by rewrite (proj2 (Z.ltb_lt _ _)) by lia.
Qed.

(** The part of [shared_memory_block_create] that fills in the header. *)
Lemma create_header_run w a o ob name (id size : Z) (mem fd : Z) access
    (fail : ipm_result -> M world (ipm_result * option ipm_shared_memory_block)) :
  header_mapped w a o ob -> no_faults 5 (w_thread w) -> so_header ob = zero_header ->
  Z.of_nat (String.length name) <= IPM_MAX_NAME_LEN ->
  (_ ← write_header a (set_block_id id);
   _ ← write_header a (set_block_size size);
   _ ← write_header a (set_id_counter 1);
   res ← on_segment_mutex a ipm_mutex_init;
   if negb (bool_decide (res = IPM_RESULT_SUCCESS)) then fail res
   else
   _ ← store_name a name;
   access_id ← fetch_add_id a;
   _ ← write_header a (set_refcount 1);
   mret (IPM_RESULT_SUCCESS, Some (mk_block access_id size a mem false access fd))) w =
  Ret (IPM_RESULT_SUCCESS, Some (mk_block 1 size a mem false access fd))
      (with_header w o ob (thread_after 5 (w_thread w)) (mk_header (mutex_of Free) 1 size 2 id name)).
Proof.
  intros Hm Hf Hz Hname. rewrite <- (with_header_init w a o ob Hm) at 1. rewrite Hz.
  do 3 (erewrite bind_Ret by (by apply write_header_wh)).
  erewrite bind_Ret by (eapply on_segment_mutex_wh; [exact Hm|by apply mutex_init_run]).
  rewrite bool_decide_true by done. cbn [negb].
  unfold store_name. rewrite (proj2 (Z.leb_le _ _)) by done.
  erewrite bind_Ret by (by apply write_header_wh).
  erewrite bind_Ret by (by apply fetch_add_id_wh).
  by erewrite bind_Ret by (by apply write_header_wh).
Qed.

Lemma create_run nd ctx name id size k access w p1 p2 :
  no_faults 9 (w_thread w) -> w_names w !! object_name name id = None -> block_pages size k ->
  Z.of_nat (String.length name) <= IPM_MAX_NAME_LEN ->
  os_place (w_pages w) 0 (pages_of size) = Some p1 ->
  os_place (map_pages p1 (pages_of size) (fresh_object (w_objs w)) 1 (is_writable access) (w_pages w)) 0 1
    = Some p2 ->
  shared_memory_block_create nd ctx name id size access w =
  Ret (IPM_RESULT_SUCCESS, Some (created_block w size p1 p2 access))
      (created_world w name id size p1 p2 access).
Proof.
  intros Hf Hn (Hsz & Hk & Hmax) Hname Hp1 Hp2.
  assert (Hpg : pages_of size = k) by (rewrite Hsz; apply pages_of_mult; lia).
  assert (0 < size) as Hpos by (unfold IPM_MEMORY_PAGE_SIZE in *; lia).
  unfold shared_memory_block_create.
  erewrite bind_Ret by (apply cassert_true; rewrite land_page_mask, Hsz, page_addr_mod; done).
  do 2 erewrite bind_Ret by (apply cassert_true; lia).
  erewrite bind_Ret by (eapply (shm_open_new_run _ _ 8); done).
  rewrite (proj2 (Z.ltb_ge _ _)) by lia.
  set (o := fresh_object (w_objs w)) in *.
  rewrite to_off_t_small by (unfold IPM_MEMORY_PAGE_SIZE in *; lia).
  erewrite bind_Ret.
  2:{ eapply (ftruncate_run _ _ o _ _ 7); [exact (no_faults_after 1 8 _ Hf)| | |].
      - rewrite fd_object_nat. apply lookup_insert_eq.
      - apply lookup_insert_eq.
      - unfold IPM_MEMORY_PAGE_SIZE; lia. }
  change (0 <? 0) with false. cbv iota.
  erewrite bind_Ret.
  2:{ eapply (mmap_run _ _ _ _ _ o _ p1 6); [exact (no_faults_after 2 7 _ Hf)|lia|done| |done].
      rewrite fd_object_nat. apply lookup_insert_eq. }
  rewrite (MAP_FAILED_place _ _ _ _ Hp1) by lia.
  erewrite bind_Ret.
  2:{ eapply (mmap_run _ _ _ _ _ o _ p2 5); [exact (no_faults_after 3 6 _ Hf)|done|done| |exact Hp2].
      rewrite fd_object_nat. apply lookup_insert_eq. }
  rewrite (NULL_place _ _ _ _ Hp2).
  erewrite (create_header_run _ _ o (truncate_object (size + IPM_MEMORY_PAGE_SIZE)
                                       (mk_object 0 zero_header zero_list))).
  - f_equal. unfold created_world, with_header, set_obj, set_objs, set_pages. simpl.
    fold o. by rewrite !insert_insert_eq.
  - split; [apply page_addr_mod| |apply lookup_insert_eq|].
    + rewrite page_addr_div. cbn [w_pages set_pages]. rewrite lookup_map_pages, decide_True by (change (pages_of IPM_MEMORY_PAGE_SIZE) with 1; lia).
      by rewrite Z.sub_diag.
    + simpl. unfold IPM_MEMORY_PAGE_SIZE in *. lia.
  - exact (no_faults_after 4 5 _ Hf).
  - done.
  - done.
Qed.

(** *** Closing *)

(** A handle [b] in use: its header page is mapped to object [o] with contents
    [ob], its descriptor is open, and its memory address is a page address. *)
Record block_in w b (o : nat) (ob : shm_object) : Prop := {
  bi_header : header_mapped w (b_header b) o ob;
  bi_fd : exists o', fd_object w (b_mem_fd b) = Some o';
  bi_own : b_has_ownership b = false;
  bi_aligned : b_memory b mod IPM_MEMORY_PAGE_SIZE = 0;
  bi_size : 0 < block_size (so_header ob)
}.

(** A handle stays good whatever changes in its object, if neither size becomes zero. *)
Lemma block_in_same w w' b o ob ob' :
  block_in w b o ob -> w_pages w' = w_pages w -> w_fds w' = w_fds w -> w_objs w' !! o = Some ob' ->
  (0 < so_size ob -> 0 < so_size ob') -> (0 < block_size (so_header ob) -> 0 < block_size (so_header ob')) ->
  block_in w' b o ob'.
Proof.
  intros [[Ha Hp Ho Hs] [o' Hfd] Hown Hal Hsz] Hpg Hfds Ho' Hso Hbs. split; try done; [|exists o'|auto].
  - split; [done|by rewrite Hpg|done|auto].
  - unfold fd_object in *. by rewrite Hfds.
Qed.

(** The pages left after both mappings of [b] are removed, with the size the
    header records. *)
Definition closed_pages b (size : Z) (m : gmap Z page) : gmap Z page :=
  unmap_pages (b_header b / IPM_MEMORY_PAGE_SIZE) 1
    (unmap_pages (b_memory b / IPM_MEMORY_PAGE_SIZE) (pages_of size) m).

Definition close_fd (fd : Z) w : world := set_fds (delete (Z.to_nat fd) (w_fds w)) w.

Lemma close_fd_mapped w fd a o ob : header_mapped w a o ob -> header_mapped (close_fd fd w) a o ob.
Proof. by intros [? ? ? ?]. Qed.

Lemma unmap_both_run {A} b size (k : M world A) w :
  b_header b mod IPM_MEMORY_PAGE_SIZE = 0 -> b_memory b mod IPM_MEMORY_PAGE_SIZE = 0 -> 0 < size ->
  (_ ← munmap (b_memory b) size; _ ← munmap (b_header b) IPM_MEMORY_PAGE_SIZE; k) w =
  k (set_pages (closed_pages b size (w_pages w)) w).
Proof.
  intros Hh Hm Hs. erewrite bind_Ret by (by apply munmap_run).
  erewrite bind_Ret by (by apply munmap_run). done.
Qed.

(** Closing a handle that is not the last one. *)
Lemma close_shared_run nd ctx b cb w o ob :
  block_in w b o ob -> refcount (so_header ob) <> 1 ->
  shared_memory_block_close nd ctx b cb w =
  Ret IPM_RESULT_SUCCESS
    (set_pages (closed_pages b (block_size (so_header ob)) (w_pages w))
      (with_header (close_fd (b_mem_fd b) w) o ob (w_thread w)
         (set_refcount (wrap32 (refcount (so_header ob) - 1)) (so_header ob)))).
Proof.
  intros [Hh [o' Hfd] Hown Ha Hs] Hr.
  pose proof (close_fd_mapped _ (b_mem_fd b) _ _ _ Hh) as Hh'.
  unfold shared_memory_block_close. rewrite Hown.
  erewrite bind_Ret by (by apply cassert_true).
  erewrite bind_Ret by (eapply close_run; exact Hfd). fold (close_fd (b_mem_fd b) w).
  rewrite <- (with_header_init _ _ _ _ Hh') at 1.
  erewrite bind_Ret by (by apply fetch_sub_refcount_wh).
  rewrite (proj2 (Z.eqb_neq _ _) Hr).
  erewrite bind_Ret by (by apply read_header_wh).
  rewrite unmap_both_run by (done || apply Hh). done.
Qed.

(** Closing the last handle: the callback runs on the claim list, the mutex is
    destroyed and the name removed. *)
Lemma close_last_run nd ctx b (cb : option (M world unit)) w o ob ob' t' name' :
  block_in w b o ob -> refcount (so_header ob) = 1 ->
  segment_mutex (so_header ob) = mutex_of Free ->
  name' = object_name (hdr_block_name (so_header ob)) (block_id (so_header ob)) ->
  is_Some (w_names w !! name') ->
  default (mret tt : M world unit) cb (with_header (close_fd (b_mem_fd b) w) o ob (w_thread w) (set_refcount 0 (so_header ob)))
    = Ret tt (with_header (close_fd (b_mem_fd b) w) o ob' t' (set_refcount 0 (so_header ob))) ->
  so_size ob' = so_size ob -> no_faults 2 t' ->
  shared_memory_block_close nd ctx b cb w =
  Ret IPM_RESULT_SUCCESS
    (set_names (delete name' (w_names w))
      (set_pages (closed_pages b (block_size (so_header ob)) (w_pages w))
        (with_header (close_fd (b_mem_fd b) w) o ob' (thread_after 2 t')
           (set_segment_mutex zero_mutex (set_refcount 0 (so_header ob)))))).
Proof.
  intros [Hh [o' Hfd] Hown Ha Hs] Hr Hmx -> [on Hn] Hcb Hsz Hf.
  pose proof (close_fd_mapped _ (b_mem_fd b) _ _ _ Hh) as Hh'.
  set (w1 := close_fd (b_mem_fd b) w) in *.
  assert (header_mapped (set_obj o ob' w1) (b_header b) o ob') as Hh2.
  { destruct Hh' as [? ? ? ?]. split; try done; [apply lookup_insert_eq|by rewrite Hsz]. }
  assert (forall t h, with_header w1 o ob' t h = with_header (set_obj o ob' w1) o ob' t h) as Hwh.
  { intros t h. unfold with_header, set_obj, set_objs; simpl. by rewrite insert_insert_eq. }
  unfold shared_memory_block_close. rewrite Hown.
  erewrite bind_Ret by (by apply cassert_true).
  erewrite bind_Ret by (eapply close_run; exact Hfd). fold (close_fd (b_mem_fd b) w). fold w1.
  rewrite <- (with_header_init _ _ _ _ Hh') at 1.
  erewrite bind_Ret by (by apply fetch_sub_refcount_wh). rewrite Hr, Z.eqb_refl.
  change (wrap32 (1 - 1)) with 0.
  erewrite bind_Ret by (destruct cb; exact Hcb). rewrite !Hwh.
  erewrite bind_Ret by (eapply on_segment_mutex_wh; [exact Hh2|]; simpl; rewrite Hmx;
    apply mutex_destroy_run; eapply no_faults_le; [|exact Hf]; lia).
  do 2 erewrite bind_Ret by (by apply read_header_wh).
  rewrite unmap_both_run by (done || apply Hh).
  erewrite bind_Ret by (eapply (shm_unlink_run _ _ on 0); [exact (no_faults_after 1 1 _ Hf)|exact Hn]).
  done.
Qed.

(** *** Opening *)

(** The world after mapping both parts of object [o]. *)
Definition mapped_world w (o : nat) (size p1 p2 : Z) (access : ipm_access_mode) : world :=
  mk_world (thread_after 3 (w_thread w)) (w_user w) (w_names w) (w_objs w)
    (<[lowest_fd (w_fds w) := o]> (w_fds w))
    (map_pages p2 (pages_of size) o 1 (is_writable access) (map_pages p1 1 o 0 true (w_pages w))).

Definition opened_header (h : ipm_shared_memory_header) : ipm_shared_memory_header :=
  set_id_counter (wrap64 (id_counter h + 1)) (set_refcount (wrap32 (refcount h + 1)) h).

Definition opened_block w (h : ipm_shared_memory_header) (p1 p2 : Z) (access : ipm_access_mode)
    : ipm_shared_memory_block :=
  mk_block (id_counter h) (block_size h) (p1 * IPM_MEMORY_PAGE_SIZE) (p2 * IPM_MEMORY_PAGE_SIZE)
    false access (Z.of_nat (lowest_fd (w_fds w))).

(** [p1] and [p2] are where the header page and the memory go. *)
Record open_places w (o : nat) (size p1 p2 : Z) : Prop := {
  op_header : os_place (w_pages w) 0 1 = Some p1;
  op_memory : os_place (map_pages p1 1 o 0 true (w_pages w)) 0 (pages_of size) = Some p2
}.

(** The first page of [p1] still shows the header after the second mapping. *)
Lemma mapped_world_header w o ob size p1 p2 access :
  open_places w o size p1 p2 -> w_objs w !! o = Some ob -> 0 < so_size ob -> 0 < size ->
  header_mapped (mapped_world w o size p1 p2 access) (p1 * IPM_MEMORY_PAGE_SIZE) o ob.
Proof.
  intros [Hp1 Hp2] Ho Hs Hsz.
  apply os_place_free in Hp1 as (H1 & _ & _). apply os_place_free in Hp2 as (_ & _ & Hfree).
  split; [apply page_addr_mod| |done|done].
  rewrite page_addr_div. cbn [mapped_world w_pages]. rewrite lookup_map_pages. case_decide as Hin.
  - specialize (Hfree (p1 - p2)). replace (p2 + (p1 - p2)) with p1 in Hfree by lia.
    rewrite lookup_map_pages, decide_True in Hfree by lia. discriminate Hfree. lia.
  - rewrite lookup_map_pages, decide_True by lia. by rewrite Z.sub_diag.
Qed.

Lemma open_run nd others ctx name id access w o ob p1 p2 :
  no_faults 3 (w_thread w) -> Z.of_nat (String.length name) <= IPM_MAX_NAME_LEN ->
  w_names w !! object_name name id = Some o -> w_objs w !! o = Some ob -> 0 < so_size ob ->
  let h := so_header ob in
  0 < block_size h -> refcount h <> 0 -> block_id h = id -> hdr_block_name h = name ->
  open_places w o (block_size h) p1 p2 ->
  shared_memory_block_open nd others ctx name id access w =
  Ret (IPM_RESULT_SUCCESS, Some (opened_block w h p1 p2 access))
      (with_header (mapped_world w o (block_size h) p1 p2 access) o ob
         (thread_after 3 (w_thread w)) (opened_header h)).
Proof.
  intros Hf Hlen Hn Ho Hso h Hsz Hr Hid Hname Hpl. pose proof Hpl as [Hp1 Hp2].
  unfold shared_memory_block_open.
  erewrite bind_Ret by (apply cassert_true; lia).
  erewrite bind_Ret by (eapply (shm_open_old_run _ _ o 2); done).
  rewrite (proj2 (Z.ltb_ge _ _)) by lia.
  erewrite bind_Ret.
  2:{ eapply (mmap_run _ _ _ _ _ o _ p1 1); [exact (no_faults_after 1 2 _ Hf)|done|done| |exact Hp1].
      rewrite fd_object_nat. apply lookup_insert_eq. }
  rewrite (NULL_place _ _ _ _ Hp1).
  erewrite bind_Ret.
  2:{ apply (read_header_run _ _ o ob). split; [apply page_addr_mod| |exact Ho|done].
      rewrite page_addr_div. cbn [w_pages set_pages].
      rewrite lookup_map_pages, decide_True by (change (pages_of IPM_MEMORY_PAGE_SIZE) with 1; lia).
      by rewrite Z.sub_diag. }
  erewrite bind_Ret.
  2:{ eapply (mmap_run _ _ _ _ _ o _ p2 0); [exact (no_faults_after 2 1 _ Hf)|done|done| |exact Hp2].
      rewrite fd_object_nat. apply lookup_insert_eq. }
  rewrite (MAP_FAILED_place _ _ _ _ Hp2) by
    (apply Z.div_str_pos; unfold IPM_MEMORY_PAGE_SIZE; lia).
  fold h. pose proof (mapped_world_header w o ob (block_size h) p1 p2 access Hpl Ho Hso Hsz) as Hm.
  match goal with |- _ ?w' = _ => change w' with (mapped_world w o (block_size h) p1 p2 access) end.
  erewrite bind_Ret.
  2:{ destruct others; simpl; (erewrite bind_Ret by (by eapply read_header_run));
        fold h; by rewrite (proj2 (Z.eqb_neq _ _) Hr). }
  do 2 (erewrite bind_Ret by (by eapply read_header_run); fold h;
        rewrite ?Hid, ?Z.eqb_refl; cbn [negb]).
  unfold name_differs. rewrite Hname, prefix_refl. cbn [negb].
  rewrite <- (with_header_init _ _ _ _ Hm) at 1.
  erewrite bind_Ret by (by apply fetch_add_refcount_wh).
  by erewrite bind_Ret by (by apply fetch_add_id_wh).
Qed.
End lemmas.
