(* ===== verification/Memory.v ===== *)
(** * The public interface (include/ipm/ipm_memory.h, source/ipm_memory.c,
      source/ipm_memory_internal.h)

    A handle combines the two blocks of a memory: the data block and the block
    of the claim list.  Each function is one definition over the calling
    process's [world]; a handle passed by pointer is passed by value and
    returned where the function changes it.  The name in a handle is the buffer
    [strncpy] leaves in memory that was allocated and not cleared. *)

From S2P Require Import Prelude Errors Pthread Platform Claims Common Names World SharedMemory.

Definition IPM_MEMORY_BLOCK_REAL_MEMORY : Z := 1.
Definition IPM_MEMORY_BLOCK_ACTIVE_CALIMS : Z := 2.

Definition round_size (size : Z) : Z :=
  let remainder := size mod IPM_MEMORY_PAGE_SIZE in
  if negb (remainder =? 0) then wrap64 (size + (IPM_MEMORY_PAGE_SIZE - remainder)) else size.

(** ** The name in a handle

    [char block_name[IPM_MAX_NAME_LEN + 1]] in memory from the allocation callback,
    which need not clear it: [None] is a byte nobody has written.  [strncpy] copies
    at most [n] characters and fills up to [n] with zeros; [c_string] is the text that
    [%s] reads, undefined where it meets a byte that was not written or the end of
    the buffer. *)
Definition name_buffer : Type := list (option Ascii.ascii).

Fixpoint strncpy (n : nat) (s : string) (buffer : name_buffer) : name_buffer :=
  match n, buffer with
  | S n, _ :: buffer =>
      match s with
      | EmptyString => Some Ascii.zero :: strncpy n EmptyString buffer
      | String c s => Some c :: strncpy n s buffer
      end
  | _, _ => buffer
  end.

Fixpoint c_string (buffer : name_buffer) : option string :=
  match buffer with
  | Some c :: buffer =>
      if Ascii.eqb c Ascii.zero then Some EmptyString else String c <$> c_string buffer
  | _ => None
  end.

Definition copy_name (s : string) : name_buffer :=
  let buffer := replicate (Z.to_nat (IPM_MAX_NAME_LEN + 1)) None in
  strncpy (length buffer - 1) s buffer.

Record ipm_memory {E : Env} := mk_memory {
  self_ptr : Z;                                (* the allocation holding the handle *)
  ctx : ipm_context user;
  mem_block_name : name_buffer;
  real_memory : ipm_shared_memory_block;
  active_claims : ipm_shared_memory_block
}.

(** [ipm_memory_info_T]; [info_ctx] and [info_name] stand for the pointers to the
    handle's context and to the name in it. *)
Record ipm_memory_info {E : Env} := mk_info {
  info_ctx : ipm_context user;
  info_memory_access_mode : ipm_access_mode;
  info_access_id : Z;
  info_name : name_buffer;
  info_block_size : Z;
  info_mapping_address : Z;
  info_active_claims : Z
}.

(** [sizeof(struct ipm_memory_T)] of the 64-bit Linux ABI: six pointers, a name
    buffer padded to 264 bytes, two blocks of 48 bytes. *)
Definition sizeof_memory : Z := 6 * 8 + 264 + 2 * 48.

Section memory.
Context {E : Env}.
Variable NDEBUG : bool.

Definition in_mem (line : Z) (func : string) : site := At "source/ipm_memory.c" line func.
Definition ok (r : ipm_result) : bool := bool_decide (r = IPM_RESULT_SUCCESS).
Definition reason (r : ipm_result) : string := result_str r +:+ " (" +:+ result_msg r +:+ ")".
Definition quoted (s : string) : string :=
  let q := String (Ascii.ascii_of_nat 34) EmptyString in q +:+ s +:+ q.
Definition has_slash (s : string) : bool := negb (string_all not_slash s).

Definition set_real (b : ipm_shared_memory_block) (m : ipm_memory) : ipm_memory :=
  mk_memory _ (self_ptr m) (ctx m) (mem_block_name m) b (active_claims m).

(** The size of the claim block and the number of claims it can hold. *)
Definition claim_size : Z :=
  round_size (sizeof_claim_list + IPM_DEFAULT_CLAIM_CAPACITY * sizeof_claim).
Definition real_claim_capacity : Z := (claim_size - sizeof_claim_list) / sizeof_claim.

(** [IPM_ERROR] with the name of the handle among its arguments: [ipm_report_error]
    formats the text, and so reads the name, only where the context reports. *)
Definition IPM_ERROR_named (memory : ipm_memory) (msg : string -> string) (loc : site) : M world unit :=
  match report_callback (ctx memory) with
  | None => mret tt
  | Some _ => name ← unwrap (c_string (mem_block_name memory)); IPM_ERROR (ctx memory) (msg name) loc
  end.

(** [context], [p_memory] are pointers the asserts require to be non-null; the
    model has no null for them.  [access] is one of the two modes by its type. *)
Definition ipm_memory_create (context : ipm_context user) (block_size : Z) (block_name : string)
    (access : ipm_access_mode) : M world (ipm_result * option ipm_memory) :=
  let at_line n := in_mem n "ipm_memory_create" in
  _ ← cassert NDEBUG (0 <? block_size);
  _ ← cassert NDEBUG (negb (has_slash block_name));
  _ ← cassert NDEBUG (Z.of_nat (String.length block_name) <=? IPM_MAX_NAME_LEN);
  this ← ipm_alloc context sizeof_memory (at_line 31);
  if this =? NULL then mret (IPM_RESULT_ERR_OS_OUT_OF_MEMORY, None)
  else
  let proper_size := round_size block_size in
  _ ← cassert NDEBUG (0 <? proper_size);
  _ ← cassert NDEBUG (Z.land proper_size IPM_MEMORY_PAGE_SIZE_MASK =? 0);
  '(res, claims_block) ← shared_memory_block_create NDEBUG context block_name
      IPM_MEMORY_BLOCK_ACTIVE_CALIMS claim_size IPM_ACCESS_MODE_READ_WRITE;
  match claims_block with
  | None =>
      _ ← IPM_ERROR context ("Could not create the shared memory block claim list " +:+ block_name
                              +:+ ", reason: " +:+ reason res) (at_line 48);
      _ ← ipm_release context this;
      mret (res, None)
  | Some claims_block =>
  res ← on_list (b_memory claims_block) (claim_list_init real_claim_capacity);
  if negb (ok res) then
    _ ← IPM_ERROR context ("Could not initialize the claims list for the memory block " +:+ block_name
                            +:+ ", reason: " +:+ reason res) (at_line 57);
    _ ← shared_memory_block_close NDEBUG context claims_block None;
    _ ← ipm_release context this;
    mret (res, None)
  else
  '(res, real_block) ← shared_memory_block_create NDEBUG context block_name
      IPM_MEMORY_BLOCK_REAL_MEMORY proper_size access;
  match real_block with
  | None =>
      _ ← IPM_ERROR context ("Could not create the shared memory block " +:+ block_name
                              +:+ ", reason: " +:+ reason res) (at_line 68);
      _ ← on_list (b_memory claims_block) claim_list_uninit;
      _ ← shared_memory_block_close NDEBUG context claims_block None;
      _ ← ipm_release context this;
      mret (res, None)
  | Some real_block =>
      mret (IPM_RESULT_SUCCESS,
            Some (mk_memory _ this context (copy_name block_name) real_block claims_block))
  end
  end.

(** [others_real] and [others_claims] are what other processes do while this one
    waits for the creator of the respective block. *)
Definition ipm_memory_open (others_real others_claims : list (shm_object -> shm_object))
    (context : ipm_context user) (block_name : string) (access : ipm_access_mode)
    : M world (ipm_result * option ipm_memory) :=
  let at_line n := in_mem n "ipm_memory_open" in
  _ ← cassert NDEBUG (negb (has_slash block_name));
  _ ← cassert NDEBUG (Z.of_nat (String.length block_name) <=? IPM_MAX_NAME_LEN);
  this ← ipm_alloc context sizeof_memory (at_line 89);
  if this =? NULL then mret (IPM_RESULT_ERR_OS_OUT_OF_MEMORY, None)
  else
  '(res, real_block) ← shared_memory_block_open NDEBUG others_real context block_name
      IPM_MEMORY_BLOCK_REAL_MEMORY access;
  match real_block with
  | None =>
      _ ← IPM_ERROR context ("Could not open the shared memory block " +:+ block_name
                              +:+ ", reason: " +:+ reason res) (at_line 102);
      _ ← ipm_release context this;
      mret (res, None)
  | Some real_block =>
  '(res, claims_block) ← shared_memory_block_open NDEBUG others_claims context block_name
      IPM_MEMORY_BLOCK_ACTIVE_CALIMS IPM_ACCESS_MODE_READ_WRITE;
  match claims_block with
  | None =>
      _ ← IPM_ERROR context ("Could not open the shared memory block claim list " +:+ block_name
                              +:+ ", reason: " +:+ reason res) (at_line 112);
      _ ← shared_memory_block_close NDEBUG context real_block None;
      _ ← ipm_release context this;
      mret (res, None)
  | Some claims_block =>
      mret (IPM_RESULT_SUCCESS,
            Some (mk_memory _ this context (copy_name block_name) real_block claims_block))
  end
  end.

(** ** Claims *)

(** The loop of [ipm_memory_claim_region] on the claim list, with the mutex
    held.  Each element of [wakes] is what the other processes do to the list
    during one sleep on the condition variable; when the list of wake-ups ends
    the process sleeps forever.  [None] means granted, [Some r] that the wait
    failed with [r]. *)
Fixpoint claim_wait (claim : ipm_memory_claim) (wakes : list (ipm_claim_list -> ipm_claim_list))
    : LM (option ipm_result) :=
  l ← get_list;
  i ← scan_loop (claims_conflict claim) (claims l) (count l);
  if (i =? count l) && negb (count l =? capacity l) then mret None
  else
    res ← ipm_condition_wait list_cnd list_mutex set_mutex (head wakes);
    if negb (ok res) then mret (Some res)
    else match wakes with
         | [] => hang
         | _ :: wakes => claim_wait claim wakes
         end.

Definition ipm_memory_claim_region (wakes : list (ipm_claim_list -> ipm_claim_list)) (memory : ipm_memory)
    (access : ipm_access_mode) (offset count : Z) : M world (ipm_result * option Z) :=
  let at_line n := in_mem n "ipm_memory_claim_region" in
  _ ← cassert NDEBUG (0 <? count);
  if negb (is_writable (b_access_mode (real_memory memory))) && is_writable access then
    _ ← IPM_ERROR (ctx memory) "Memory block was opened as read-only and can not be claimed for read only access" (at_line 211);
    mret (IPM_RESULT_ERR_BAD_ACCESS, None)
  else if b_size (real_memory memory) <? wrap64 (offset + count) then
    _ ← IPM_ERROR (ctx memory) ("Memory block has the size of " +:+ pretty (b_size (real_memory memory))
          +:+ ", so region [" +:+ pretty offset +:+ ", " +:+ pretty (wrap64 (offset + count))
          +:+ ") can not be claimed") (at_line 216);
    mret (IPM_RESULT_ERR_BAD_VALUE, None)
  else
  let list := b_memory (active_claims memory) in
  _ ← cassert NDEBUG (negb (list =? NULL));
  res ← on_list list (on_mutex ipm_mutex_lock);
  if negb (ok res) then
    _ ← IPM_ERROR (ctx memory) ("Could not lock access list mutex, reason: " +:+ reason res) (at_line 226);
    mret (res, None)
  else
  id ← on_list list fetch_add_counter;
  let claim := mk_claim id (b_access_id (real_memory memory)) access offset count in
  waited ← on_list list (claim_wait claim wakes);
  match waited with
  | Some res =>
      _ ← IPM_ERROR (ctx memory) ("Could not wait on condition variable, reason: " +:+ reason res) (at_line 259);
      _ ← on_list list (on_mutex ipm_mutex_unlock);
      mret (IPM_RESULT_SUCCESS, None)
  | None =>
      res ← on_list list (claim_add_to_list NDEBUG claim);
      _ ← on_list list (on_mutex ipm_mutex_unlock);
      _ ← (if negb (ok res)
           then IPM_ERROR (ctx memory) ("Could not add memory claim to list, reason: " +:+ reason res) (at_line 270)
           else mret tt);
      mret (res, Some (claim_id claim))
  end.

Definition ipm_memory_release_region (memory : ipm_memory) (id : Z) : M world ipm_result :=
  let at_line n := in_mem n "ipm_memory_release_region" in
  let list := b_memory (active_claims memory) in
  _ ← cassert NDEBUG (negb (list =? NULL));
  res ← on_list list (on_mutex ipm_mutex_lock);
  if negb (ok res) then
    _ ← IPM_ERROR (ctx memory) ("Could not lock access list mutex, reason: " +:+ reason res) (at_line 285);
    mret res
  else
  res ← on_list list (claim_remove_from_list NDEBUG id);
  _ ← on_list list (on_mutex ipm_mutex_unlock);
  if negb (ok res) then
    _ ← IPM_ERROR (ctx memory) ("Could not add memory claim to list, reason: " +:+ reason res) (at_line 295);
    mret res
  else
    _ ← on_list list (on_cnd ipm_condition_signal);
    mret res.

(** [for (int i = 0; i < (int)list->count; ++i) ...]: the body removes a claim of
    process [proc] and steps back, or steps on.  A removal lowers the count and
    a step forward raises [i], so [count] rounds are enough (see
    [release_loop_run]); [(int)] of a count beyond [INT_MAX] is negative. *)
Definition to_int (z : Z) : Z := let u := wrap32 z in if u <? 2 ^ 31 then u else u - u32_mod.

Fixpoint release_loop (fuel : nat) (proc : Z) (i : Z) : LM unit :=
  l ← get_list;
  if negb (i <? to_int (count l)) then mret tt
  else match fuel with
  | O => hang
  | S fuel =>
      c ← unwrap (claims l !! Z.to_nat i);
      if proc_id c =? proc then
        _ ← claim_remove_from_list NDEBUG (claim_id c);
        release_loop fuel proc (i - 1 + 1)
      else release_loop fuel proc (i + 1)
  end.

Definition release_all_loop (proc : Z) : LM unit :=
  l ← get_list; release_loop (Z.to_nat (count l)) proc 0.

Definition ipm_memory_release_all (memory : ipm_memory) : M world ipm_result :=
  let list := b_memory (active_claims memory) in
  res ← on_list list (on_mutex ipm_mutex_lock);
  if negb (ok res) then
    _ ← IPM_ERROR (ctx memory) ("Could not lock the claim list mutex, reason: " +:+ reason res)
          (in_mem 312 "ipm_memory_release_all");
    mret res
  else
  _ ← on_list list (release_all_loop (b_access_id (real_memory memory)));
  _ ← on_list list (on_mutex ipm_mutex_unlock);
  mret res.

(** [while (list->count) claim_remove_from_list(list->claims[list->count - 1].claim_id, list);] *)
Fixpoint remove_all_loop (fuel : nat) : LM unit :=
  l ← get_list;
  if count l =? 0 then mret tt
  else match fuel with
  | O => hang
  | S fuel =>
      c ← unwrap (claims l !! Z.to_nat (count l - 1));
      _ ← claim_remove_from_list NDEBUG (claim_id c);
      remove_all_loop fuel
  end.

Definition remove_all_claims : LM unit := l ← get_list; remove_all_loop (Z.to_nat (count l)).

Definition ipm_memory_remove_all_active_claims (memory : ipm_memory) : M world ipm_result :=
  let list := b_memory (active_claims memory) in
  res ← on_list list (on_mutex ipm_mutex_lock);
  if negb (ok res) then
    _ ← IPM_ERROR (ctx memory) ("Could not lock the claim list mutex, reason: " +:+ reason res)
          (in_mem 340 "ipm_memory_remove_all_active_claims");
    mret res
  else
  _ ← on_list list remove_all_claims;
  _ ← on_list list (on_mutex ipm_mutex_unlock);
  mret res.

(** ** Closing *)

Definition claim_list_dtor_wrapper (ptr : Z) : M world unit := on_list ptr claim_list_uninit.

Definition ipm_memory_close (memory : ipm_memory) : M world unit :=
  _ ← ipm_memory_release_all memory;
  let list := b_memory (active_claims memory) in
  _ ← shared_memory_block_close NDEBUG (ctx memory) (active_claims memory)
        (Some (claim_list_dtor_wrapper list));
  _ ← shared_memory_block_close NDEBUG (ctx memory) (real_memory memory) None;
  ipm_release (ctx memory) (self_ptr memory).

Definition ipm_memory_clean (memory : ipm_memory) : M world unit :=
  _ ← shared_memory_block_clean NDEBUG (active_claims memory);
  _ ← shared_memory_block_clean NDEBUG (real_memory memory);
  ipm_release (ctx memory) (self_ptr memory).

(** ** Queries and remapping *)

Definition ipm_memory_get_info (memory : ipm_memory) : M world ipm_memory_info :=
  l ← on_list (b_memory (active_claims memory)) get_list;
  let real := real_memory memory in
  mret (mk_info _ (ctx memory) (b_access_mode real) (b_access_id real) (mem_block_name memory)
          (b_size real) (b_memory real) (count l)).

Definition ipm_memory_sync (memory : ipm_memory) : M world (ipm_result * ipm_memory) :=
  '(res, real) ← shared_memory_block_update_mapping (ctx memory) (real_memory memory)
                   (b_access_mode (real_memory memory));
  _ ← (if negb (ok res)
       then IPM_ERROR_named memory (fun name => "Memory sync for block " +:+ quoted name +:+ " failed, reason: "
                                     +:+ reason res) (in_mem 163 "ipm_memory_sync")
       else mret tt);
  mret (res, set_real real memory).

Definition ipm_memory_resize_grow (memory : ipm_memory) (new_size : Z) : M world (ipm_result * ipm_memory) :=
  let at_line n := in_mem n "ipm_memory_resize_grow" in
  let new_size := round_size new_size in
  if new_size <? b_size (real_memory memory) then
    _ ← IPM_ERROR (ctx memory) ("Can not decrease the size of the memory block from "
          +:+ pretty (b_size (real_memory memory)) +:+ " to " +:+ pretty new_size) (at_line 173);
    mret (IPM_RESULT_ERR_BAD_VALUE, memory)
  else
  '(res, real) ← shared_memory_block_resize NDEBUG (ctx memory) (real_memory memory) new_size;
  let memory := set_real real memory in
  if negb (ok res) then
    _ ← IPM_ERROR_named memory (fun name => "Memory resizing to " +:+ pretty (b_size (real_memory memory))
          +:+ " bytes for block " +:+ quoted name +:+ " failed, reason: " +:+ reason res) (at_line 179);
    _ ← (if b_memory (real_memory memory) =? NULL
         then IPM_ERROR (ctx memory)
                "Failure with resizing made it so that the block mapping is no longer valid" (at_line 182)
         else mret tt);
    mret (res, memory)
  else mret (IPM_RESULT_SUCCESS, memory).

Definition ipm_memory_change_access (memory : ipm_memory) (access_mode : ipm_access_mode)
    : M world (ipm_result * ipm_memory) :=
  '(res, real) ← shared_memory_block_update_mapping (ctx memory) (real_memory memory) access_mode;
  _ ← (if negb (ok res)
       then IPM_ERROR_named memory (fun name => "Memory access change for block " +:+ quoted name
              +:+ " failed, reason: " +:+ reason res) (in_mem 194 "ipm_memory_change_access")
       else mret tt);
  mret (res, set_real real memory).

Definition ipm_memory_ref_count (memory : ipm_memory) : M world Z :=
  h ← read_header (b_header (real_memory memory)); mret (refcount h).

Definition ipm_memory_pointer (memory : ipm_memory) : Z := b_memory (real_memory memory).

Definition internal_ipm_memory_clam_list (memory : ipm_memory) : Z := b_memory (active_claims memory).
End memory.

(** ** Lemmas: sizes *)

Lemma round_size_fits size :
  0 <= size <= u64_mod - IPM_MEMORY_PAGE_SIZE ->
  exists k, round_size size = k * IPM_MEMORY_PAGE_SIZE /\
    size <= round_size size < size + IPM_MEMORY_PAGE_SIZE /\ u64 (round_size size).
Proof.
  unfold round_size, IPM_MEMORY_PAGE_SIZE. intros H.
  pose proof (Z.div_mod size 4096 ltac:(lia)) as Hd. pose proof (Z.mod_pos_bound size 4096 ltac:(lia)) as Hb.
  destruct (Z.eqb_spec (size mod 4096) 0) as [He|He]; cbn [negb].
  - exists (size / 4096). word.
  - exists (size / 4096 + 1). rewrite wrap64_small by word. word.
Qed.

Lemma round_size_wraps size :
  u64_mod - IPM_MEMORY_PAGE_SIZE < size < u64_mod -> round_size size = 0.
Proof.
  unfold round_size, IPM_MEMORY_PAGE_SIZE. intros H.
  pose proof (Z.div_mod size 4096 ltac:(lia)) as Hd. pose proof (Z.mod_pos_bound size 4096 ltac:(lia)) as Hb.
  assert (size / 4096 = 2 ^ 52 - 1) as Hq.
  { unfold u64_mod in H. lia. }
  rewrite (proj2 (Z.eqb_neq _ _)) by (unfold u64_mod in H; lia). cbn [negb].
  replace (size + (4096 - size mod 4096)) with u64_mod by (unfold u64_mod in *; lia). done.
Qed.

(** ** Lemmas: names *)

(** Names are C strings: no zero among their characters. *)
Fixpoint no_nul (s : string) : bool :=
  match s with EmptyString => true | String c s => negb (Ascii.eqb c Ascii.zero) && no_nul s end.

(** A copied text is read back if a byte was left to end it, and otherwise the read
    runs into the bytes behind those copied. *)
Lemma c_string_strncpy n s b :
  no_nul s = true -> (n <= length b)%nat ->
  c_string (strncpy n s b) =
  if (String.length s <? n)%nat then Some s else String.append (String.substring 0 n s) <$> c_string (drop n b).
Proof.
  revert s b. induction n as [|n IH]; intros [|c s] [|x b] Hs Hb; simpl in *; try lia; try done.
  1-2: by match goal with |- _ = _ <$> ?o => destruct o end.
  - apply andb_true_iff in Hs as [Hc Hs]. apply negb_true_iff in Hc. rewrite Hc, IH by (done || lia).
    change (S (String.length s) <? S n)%nat with (String.length s <? n)%nat.
    destruct (String.length s <? n)%nat; [done|]. by destruct (c_string _).
Qed.

(** What a handle keeps of its name: shorter ones whole, longer ones without an end. *)
Lemma copy_name_read s :
  no_nul s = true ->
  c_string (copy_name s) = if Z.of_nat (String.length s) <? IPM_MAX_NAME_LEN then Some s else None.
Proof.
  intros Hs. unfold copy_name. rewrite length_replicate.
  change (Z.to_nat (IPM_MAX_NAME_LEN + 1) - 1)%nat with (Z.to_nat IPM_MAX_NAME_LEN).
  rewrite c_string_strncpy by (done || (rewrite length_replicate; unfold IPM_MAX_NAME_LEN; lia)).
  rewrite drop_replicate. change (Z.to_nat (IPM_MAX_NAME_LEN + 1) - Z.to_nat IPM_MAX_NAME_LEN)%nat with 1%nat.
  destruct (Nat.ltb_spec (String.length s) (Z.to_nat IPM_MAX_NAME_LEN));
    destruct (Z.ltb_spec (Z.of_nat (String.length s)) IPM_MAX_NAME_LEN); done || lia.
Qed.

(** ** Lemmas: the loops on the claim list *)

Section loops.
Variable NDEBUG : bool.
Implicit Types (l : ipm_claim_list) (v : list ipm_memory_claim).

(** What every operation on the claims keeps of the rest of the list. *)
Definition same_sync l l' : Prop :=
  list_mutex l' = list_mutex l /\ list_cnd l' = list_cnd l /\
  capacity l' = capacity l /\ claim_counter l' = claim_counter l.

Lemma same_sync_removed p l : same_sync l (removed p l).
Proof. done. Qed.
Lemma same_sync_trans l1 l2 l3 : same_sync l1 l2 -> same_sync l2 l3 -> same_sync l1 l3.
Proof. unfold same_sync. intros (?&?&?&?) (?&?&?&?). split_and!; congruence. Qed.
Lemma same_sync_refl l : same_sync l l.
Proof. done. Qed.

Lemma remove_all_loop_run n t l :
  list_wf l -> Z.to_nat (count l) = n -> NDEBUG = true \/ count l < capacity l ->
  exists l', remove_all_loop NDEBUG n (t, l) = Ret tt (t, l') /\
    list_wf l' /\ count l' = 0 /\ same_sync l l' /\ claims l' ⊆ claims l.
Proof.
  revert l. induction n as [|n IH]; intros l Hwf Hn Hnd; pose proof Hwf as [Hc Hs Hw].
  - exists l. split_and!; try done; [|lia]. simpl. erewrite bind_Ret by done. simpl.
    by rewrite (proj2 (Z.eqb_eq _ _)) by lia.
  - simpl. erewrite bind_Ret by done. simpl. rewrite (proj2 (Z.eqb_neq _ _)) by lia.
    assert (Z.to_nat (count l - 1) < length (claims l))%nat as Hlt by lia.
    destruct (lookup_lt_is_Some_2 _ _ Hlt) as [c Hcl]. rewrite Hcl.
    erewrite bind_Ret by done.
    assert (claim_id c ∈ map claim_id (visible l)) as Hin.
    { apply list_elem_of_fmap. exists c. split; [done|]. apply list_elem_of_lookup.
      exists (Z.to_nat (count l - 1)). rewrite visible_lookup by lia. done. }
    apply rem_pos_lt in Hin as Hp. rewrite length_visible in Hp by done.
    erewrite bind_Ret by (apply claim_remove_run; [done|lia|done|by apply rem_pos_lt]).
    destruct (IH (removed (rem_pos (claim_id c) (visible l)) l)) as (l' & Hr & Hwf' & H0 & Hss & Hslots).
    + by apply removed_wf.
    + simpl. lia.
    + simpl. destruct Hnd; [by left|right; lia].
    + exists l'. split_and!; try done. etransitivity; [exact Hslots|apply removed_slots_from].
Qed.

(** Claims with the same identifier belong to the same process. *)
Definition ids_of_one_process v : Prop :=
  forall c d, c ∈ v -> d ∈ v -> claim_id c = claim_id d -> proc_id c = proc_id d.

Lemma ids_of_one_process_sub v v' : v' ⊆ v -> ids_of_one_process v -> ids_of_one_process v'.
Proof. intros Hs H c d Hc Hd. apply H; by apply Hs. Qed.

Lemma to_int_small z : 0 <= z < 2 ^ 31 -> to_int z = z.
Proof.
  intros H. unfold to_int. rewrite wrap32_small by word. by rewrite (proj2 (Z.ltb_lt _ _)) by lia.
Qed.

(** Removing the claim at [i] leaves the claims before [i] where they are. *)
Lemma visible_removed_before p v j :
  (j < p)%nat -> (p < length v)%nat -> visible_removed p v !! j = v !! j.
Proof.
  intros Hj Hp. unfold visible_removed. case_decide.
  - rewrite lookup_take_lt; [done|lia].
  - rewrite lookup_app_l.
    + rewrite list_lookup_delete_lt by done. apply lookup_take_lt. lia.
    + rewrite length_delete by (apply lookup_lt_is_Some_2; rewrite length_take; lia).
      rewrite length_take. lia.
Qed.

(** With identifiers that determine the process, the claim the loop looks at is
    the one that [claim_remove_from_list] finds. *)
Lemma rem_pos_own proc v i c :
  ids_of_one_process v -> v !! i = Some c -> proc_id c = proc ->
  (forall j d, (j < i)%nat -> v !! j = Some d -> proc_id d <> proc) ->
  rem_pos (claim_id c) v = i.
Proof.
  intros Hids Hi Hp Hbefore. eapply find_pos_first; [exact Hi|apply Z.eqb_refl|].
  intros j d Hj Hlt. apply Z.eqb_neq. intros Heq. apply (Hbefore j d Hlt Hj). rewrite <- Hp.
  symmetry. apply Hids; [by eapply list_elem_of_lookup_2..|done].
Qed.

Lemma release_loop_run fuel proc i t l :
  list_wf l -> count l < 2 ^ 31 -> 0 <= i <= count l -> fuel = Z.to_nat (count l - i) ->
  NDEBUG = true \/ count l < capacity l ->
  exists l', release_loop NDEBUG fuel proc i (t, l) = Ret tt (t, l') /\
    list_wf l' /\ same_sync l l' /\ visible l' ⊆ visible l /\ count l' <= count l /\ claims l' ⊆ claims l /\
    (ids_of_one_process (visible l) ->
     (forall j d, (j < Z.to_nat i)%nat -> visible l !! j = Some d -> proc_id d <> proc) ->
     Forall (fun d => proc_id d <> proc) (visible l')).
Proof.
  revert i l. induction fuel as [|fuel IH]; intros i l Hwf Hmax Hi Hfuel Hnd;
    pose proof Hwf as [Hc Hs Hw]; cbn [release_loop]; (erewrite bind_Ret by done); cbn [snd];
    rewrite to_int_small by lia.
  - rewrite (proj2 (Z.ltb_ge _ _)) by lia. exists l. split_and!; try done.
    intros _ Hbefore. apply Forall_lookup. intros j d Hj. apply (Hbefore j); [|done].
    apply lookup_lt_Some in Hj. rewrite length_visible in Hj by done. lia.
  - rewrite (proj2 (Z.ltb_lt _ _)) by lia. cbn [negb].
    assert (Z.to_nat i < length (visible l))%nat as Hlt by (rewrite length_visible by done; lia).
    destruct (lookup_lt_is_Some_2 _ _ Hlt) as [c Hci].
    rewrite length_visible in Hlt by done.
    rewrite <- visible_lookup, Hci by done. erewrite bind_Ret by done.
    destruct (Z.eqb_spec (proc_id c) proc) as [Hp|Hp].
    + set (q := rem_pos (claim_id c) (visible l)).
      assert (q < Z.to_nat (count l))%nat as Hq.
      { rewrite <- length_visible by done. apply rem_pos_lt, list_elem_of_fmap. exists c. split; [done|].
        by eapply list_elem_of_lookup_2. }
      erewrite bind_Ret by (apply claim_remove_run; [done|lia|done|by rewrite length_visible]).
      fold q. replace (i - 1 + 1) with i by lia.
      assert (visible (removed q l) = visible_removed q (visible l)) as Hvr by (by apply visible_removed_eq).
      assert (visible (removed q l) ⊆ visible l) as Hsub.
      { rewrite Hvr. apply visible_removed_subset. by rewrite length_visible. }
      destruct (IH i (removed q l)) as (l' & Hr & Hwf' & Hss & Hsub' & Hcnt & Hslots & Hall);
        [by apply removed_wf|simpl; lia|simpl; lia|simpl; lia|simpl; destruct Hnd; [by left|right; lia]|].
      exists l'. split_and!; try done; [by etransitivity|simpl in Hcnt; lia|etransitivity; [exact Hslots|apply removed_slots_from]|].
      intros Hids Hbefore. apply Hall; [by eapply ids_of_one_process_sub|].
      assert (q = Z.to_nat i) as Hqi by (by eapply rem_pos_own).
      intros j d Hj. rewrite Hvr, Hqi, visible_removed_before by (rewrite ?length_visible; done).
      by apply Hbefore.
    + destruct (IH (i + 1) l) as (l' & Hr & Hwf' & Hss & Hsub' & Hcnt & Hslots & Hall); try done; try lia.
      exists l'. split_and!; try done. intros Hids Hbefore. apply Hall; [done|].
      intros j d Hj Hd. destruct (decide (j = Z.to_nat i)) as [->|]; [congruence|].
      apply (Hbefore j); [lia|done].
Qed.

Lemma release_all_run proc t l :
  list_wf l -> count l < 2 ^ 31 -> NDEBUG = true \/ count l < capacity l ->
  exists l', release_all_loop NDEBUG proc (t, l) = Ret tt (t, l') /\
    list_wf l' /\ same_sync l l' /\ visible l' ⊆ visible l /\ count l' <= count l /\ claims l' ⊆ claims l /\
    (ids_of_one_process (visible l) -> Forall (fun d => proc_id d <> proc) (visible l')).
Proof.
  intros Hwf Hmax Hnd. pose proof Hwf as [Hc _ _].
  unfold release_all_loop. erewrite bind_Ret by done. cbn [snd].
  destruct (release_loop_run (Z.to_nat (count l)) proc 0 t l) as (l' & Hr & Hwf' & Hss & Hsub & Hcnt & Hslots & Hall);
    [done|done|lia|lia|done|].
  exists l'. split_and!; try done. intros Hids. apply Hall; [done|]. intros j d Hj. simpl in Hj. lia.
Qed.
End loops.

(** ** Lemmas: waiting for a region *)

Section waiting.
Implicit Types (l : ipm_claim_list) (c : ipm_memory_claim).

(** The condition under which the loop of [ipm_memory_claim_region] ends. *)
Definition grantable c l : bool :=
  forallb (fun d => negb (claims_conflict c d)) (visible l) && negb (count l =? capacity l).

(** Reference: the state in which a claim is granted, if the other processes
    bring one about; [tid] holds the mutex whenever it looks at the list. *)
Fixpoint first_grant (tid : Z) c (wakes : list (ipm_claim_list -> ipm_claim_list)) l
    : option ipm_claim_list :=
  if grantable c l then Some l
  else match wakes with
       | [] => None
       | f :: wakes =>
           first_grant tid c wakes (set_mutex (mutex_of (Held tid)) (f (set_mutex (mutex_of Free) l)))
       end.

(** What a sleeping process relies on: the others keep the list well formed and
    leave the mutex free when they are done. *)
Definition ready l : Prop :=
  list_wf l /\ list_mutex l = mutex_of Free /\ list_cnd l = mk_cond true true.
Definition well_behaved (f : ipm_claim_list -> ipm_claim_list) : Prop :=
  forall l, ready l -> ready (f l).

(** The same with the mutex held by [tid]. *)
Definition locked (tid : Z) l : Prop :=
  list_wf l /\ list_mutex l = mutex_of (Held tid) /\ list_cnd l = mk_cond true true.

Lemma ready_locked tid l : ready l -> locked tid (set_mutex (mutex_of (Held tid)) l).
Proof. intros (Hwf & _ & Hcnd). split_and!; [by destruct Hwf|done|done]. Qed.
Lemma locked_ready tid l : locked tid l -> ready (set_mutex (mutex_of Free) l).
Proof. intros (Hwf & _ & Hcnd). split_and!; [by destruct Hwf|done|done]. Qed.

Lemma find_pos_end_iff (p : ipm_memory_claim -> bool) v :
  find_pos p v = length v <-> forallb (fun d => negb (p d)) v = true.
Proof.
  induction v as [|d v IH]; [done|]. rewrite find_pos_cons. simpl.
  destruct (p d); simpl; [split; [lia|done]|]. rewrite <- IH. lia.
Qed.

Lemma grantable_scan c l :
  list_wf l ->
  ((Z.of_nat (find_pos (claims_conflict c) (visible l)) =? count l) && negb (count l =? capacity l)) =
  grantable c l.
Proof.
  intros Hwf. unfold grantable. f_equal. apply eq_true_iff_eq.
  rewrite <- find_pos_end_iff, Z.eqb_eq, length_visible by done.
  destruct Hwf as [Hc _ _]. lia.
Qed.

(** A sleep with the mutex held releases it, lets the others act, and takes it again. *)
Lemma cond_wait_sleep t l sleep :
  no_faults 1 t -> locked (t_tid t) l ->
  pthread_cond_wait list_cnd list_mutex set_mutex sleep (t, l) =
  match sleep with
  | None => Hang (thread_after_call t, set_mutex (mutex_of Free) l)
  | Some f => zoom (fun s => (s.1, list_mutex s.2)) (fun s' s => (s'.1, set_mutex s'.2 s.2)) mutex_acquire
                (thread_after_call t, f (set_mutex (mutex_of Free) l))
  end.
Proof.
  intros Hf (_ & Hm & Hc). unfold pthread_cond_wait.
  rewrite pthread_call_run, (proj1 (no_faults_S 0 t Hf)). cbn [Z.eqb].
  erewrite bind_Ret by done. cbn [snd]. rewrite Hc. cbn [negb c_init].
  erewrite bind_Ret.
  2:{ unfold zoom; cbn [fst snd]. rewrite Hm. unfold mutex_release, mbind, M_bind; cbn -[decide].
      rewrite decide_True by done. reflexivity. }
  by destruct sleep.
Qed.

Lemma condition_wait_after t l f :
  no_faults 1 t -> locked (t_tid t) l -> well_behaved f ->
  ipm_condition_wait list_cnd list_mutex set_mutex (Some f) (t, l) =
  Ret IPM_RESULT_SUCCESS
    (thread_after_call t, set_mutex (mutex_of (Held (t_tid t))) (f (set_mutex (mutex_of Free) l))).
Proof.
  intros Hf Hl Hwb. pose proof (Hwb _ (locked_ready _ _ Hl)) as (_ & Hm' & _).
  unfold ipm_condition_wait.
  erewrite bind_Ret.
  2:{ rewrite cond_wait_sleep by done. unfold zoom; cbn [fst snd]. rewrite Hm'. reflexivity. }
  done.
Qed.

Lemma condition_wait_run t l f :
  t_faults t = [] -> locked (t_tid t) l -> well_behaved f ->
  ipm_condition_wait list_cnd list_mutex set_mutex (Some f) (t, l) =
  Ret IPM_RESULT_SUCCESS (t, set_mutex (mutex_of (Held (t_tid t))) (f (set_mutex (mutex_of Free) l))).
Proof.
  intros Hf Hl Hwb. rewrite condition_wait_after by (done || by apply no_faults_nil).
  by rewrite thread_after_call_nil.
Qed.

Lemma condition_wait_forever t l :
  t_faults t = [] -> locked (t_tid t) l ->
  exists s, ipm_condition_wait list_cnd list_mutex set_mutex None (t, l) = Hang s.
Proof.
  intros Hf Hl. eexists. unfold ipm_condition_wait, mbind, M_bind. rewrite cond_wait_sleep by (done || by apply no_faults_nil). reflexivity.
Qed.

(** The loop computes the reference: it returns in the first granting state and
    sleeps forever if there is none. *)
Lemma claim_wait_run t c wakes l :
  t_faults t = [] -> locked (t_tid t) l -> Forall well_behaved wakes ->
  match first_grant (t_tid t) c wakes l with
  | Some l' => claim_wait c wakes (t, l) = Ret None (t, l') /\ locked (t_tid t) l' /\ grantable c l' = true
  | None => exists s, claim_wait c wakes (t, l) = Hang s
  end.
Proof.
  intros Hf. revert l. induction wakes as [|f wakes IH]; intros l Hl Hall; pose proof Hl as (Hwf & _ & _);
    pose proof Hwf as [Hc Hs Hw]; cbn [first_grant claim_wait];
    (destruct (grantable c l) eqn:Hg;
     [split_and!; [|done|done]|]).
  1,3: erewrite bind_Ret by done; cbn [snd]; erewrite bind_Ret by (apply scan_loop_run; lia);
    fold (visible l); by rewrite grantable_scan, Hg by done.
  - destruct (condition_wait_forever _ _ Hf Hl) as [s Hs']. exists s.
    erewrite bind_Ret by done; cbn [snd]; erewrite bind_Ret by (apply scan_loop_run; lia);
    fold (visible l); rewrite grantable_scan, Hg by done. cbn [head].
    unfold mbind, M_bind. by rewrite Hs'.
  - apply Forall_cons in Hall as [Hwb Hall].
    specialize (IH (set_mutex (mutex_of (Held (t_tid t))) (f (set_mutex (mutex_of Free) l)))).
    specialize (IH (ready_locked _ _ (Hwb _ (locked_ready _ _ Hl))) Hall).
    assert (claim_wait c (f :: wakes) (t, l) = 
            claim_wait c wakes (t, set_mutex (mutex_of (Held (t_tid t))) (f (set_mutex (mutex_of Free) l)))) as Heq.
    { cbn [claim_wait]. erewrite bind_Ret by done; cbn [snd]. erewrite bind_Ret by (apply scan_loop_run; lia).
      fold (visible l). rewrite grantable_scan, Hg by done. cbn [head].
      erewrite bind_Ret by (by apply condition_wait_run). done. }
    rewrite <- Heq in IH. exact IH.
Qed.

(** The list as the process sees it after [k] sleeps. *)
Fixpoint looked (tid : Z) (wakes : list (ipm_claim_list -> ipm_claim_list)) (k : nat) l {struct k} : ipm_claim_list :=
  match k with
  | O => l
  | S k =>
      match wakes with
      | [] => l
      | f :: wakes => looked tid wakes k (set_mutex (mutex_of (Held tid)) (f (set_mutex (mutex_of Free) l)))
      end
  end.

Lemma condition_wait_fails t l sleep e fs :
  t_faults t = e :: fs -> e <> 0 ->
  ipm_condition_wait list_cnd list_mutex set_mutex sleep (t, l) =
  Ret (cond_wait_error (t_errno t)) (thread_after_call t, l).
Proof.
  intros Hf He. unfold ipm_condition_wait, pthread_cond_wait. erewrite bind_Ret.
  2:{ rewrite pthread_call_run, Hf. cbn [List.hd]. rewrite (proj2 (Z.eqb_neq _ _) He). reflexivity. }
  by rewrite (proj2 (Z.eqb_neq _ _) He).
Qed.

Lemma cond_wait_error_fails e : ok (cond_wait_error e) = false.
Proof. apply bool_decide_false. unfold cond_wait_error, switch. by repeat case_match. Qed.

(** A look at the list that does not end the loop. *)
Lemma claim_wait_look c wakes t l :
  list_wf l -> grantable c l = false ->
  claim_wait c wakes (t, l) =
  (res ← ipm_condition_wait list_cnd list_mutex set_mutex (head wakes);
   if negb (ok res) then mret (Some res)
   else match wakes with [] => hang | _ :: wakes => claim_wait c wakes end) (t, l).
Proof.
  intros Hwf Hg. pose proof Hwf as [Hc Hs Hw].
  destruct wakes; cbn [claim_wait]; (erewrite bind_Ret by done); cbn [snd];
    (erewrite bind_Ret by (apply scan_loop_run; lia)); fold (visible l); by rewrite grantable_scan, Hg by done.
Qed.

(** The wait fails after [k] sleeps: the loop ends with the failure, the mutex held. *)
Lemma claim_wait_fails t c wakes k l e :
  t_faults t = replicate k 0 ++ [e] -> e <> 0 -> locked (t_tid t) l -> Forall well_behaved wakes ->
  (k <= length wakes)%nat -> (forall j, (j <= k)%nat -> grantable c (looked (t_tid t) wakes j l) = false) ->
  exists r t', claim_wait c wakes (t, l) = Ret (Some r) (t', looked (t_tid t) wakes k l) /\
    t_tid t' = t_tid t /\ t_faults t' = [] /\ locked (t_tid t) (looked (t_tid t) wakes k l).
Proof.
  intros Hf He. revert t wakes l Hf.
  induction k as [|k IH]; intros t wakes l Hf Hl Hall Hk Hg; pose proof Hl as (Hwf & _ & _);
    rewrite claim_wait_look by (done || (apply (Hg 0%nat); lia)).
  - exists (cond_wait_error (t_errno t)), (thread_after_call t). split_and!; [|done| |done].
    + erewrite bind_Ret by (apply (condition_wait_fails _ _ _ e []); [exact Hf|done]).
      by rewrite cond_wait_error_fails.
    + unfold thread_after_call; simpl. by rewrite Hf.
  - destruct wakes as [|f wakes]; [simpl in Hk; lia|]. apply Forall_cons in Hall as [Hwb Hall].
    set (l' := set_mutex (mutex_of (Held (t_tid t))) (f (set_mutex (mutex_of Free) l))).
    pose proof (ready_locked (t_tid t) _ (Hwb _ (locked_ready _ _ Hl))) as Hl'. fold l' in Hl'.
    destruct (IH (thread_after_call t) wakes l') as (r & t' & Hr & Ht' & Hf' & Hlk).
    + unfold thread_after_call; simpl. by rewrite Hf.
    + done.
    + done.
    + simpl in Hk. lia.
    + intros j Hj. apply (Hg (S j)). lia.
    + exists r, t'. split_and!; [|done..]. erewrite bind_Ret.
      2:{ apply condition_wait_after; [unfold no_faults; rewrite Hf; by constructor|done|done]. }
      exact Hr.
Qed.
End waiting.
