(* ===== verification/Machine.v ===== *)
(** * A concrete environment

    An instance of the environment the model is parametric in: the user records
    every callback ([recorder] of file [Common]) and the kernel places
    a mapping behind all others.  The examples and witnesses of the files that
    follow run the code in it. *)

From S2P Require Import Prelude Errors Pthread Platform Claims Common Names World SharedMemory Memory.

(** The first page behind every mapped one, page 16 at least. *)
Definition top_page (m : gmap Z page) : Z := map_fold (fun k _ acc => Z.max (k + 1) acc) 16 m.

Definition place_on_top (m : gmap Z page) (hint n : Z) : option Z :=
  if (top_page m + n) * IPM_MEMORY_PAGE_SIZE <? u64_mod then Some (top_page m) else None.

#[global] Instance linux : Env :=
  {| user := recorder; os_place := place_on_top; os_strerror := fun e => "error " +:+ pretty e |}.

Lemma top_page_above m :
  16 <= top_page m /\ forall k, is_Some (m !! k) -> k < top_page m.
Proof.
  unfold top_page. induction m as [|k x m Hk Hfresh IH] using map_first_key_ind.
  - rewrite map_fold_empty. split; [lia|]. intros k [x Hx]. by rewrite lookup_empty in Hx.
  - rewrite map_fold_insert_L by (lia || done). destruct IH as [Hge IH]. split; [lia|].
    intros j [y Hy]. destruct (decide (j = k)) as [->|Hne]; [lia|].
    rewrite lookup_insert_ne in Hy by done. specialize (IH j ltac:(eauto)). lia.
Qed.

#[global] Instance linux_laws : EnvLaws linux.
Proof.
  constructor. intros m hint n p Hp. cbn in Hp. unfold place_on_top in Hp.
  destruct (Z.ltb_spec ((top_page m + n) * IPM_MEMORY_PAGE_SIZE) u64_mod) as [Hlt|]; [|done].
  injection Hp as <-. destruct (top_page_above m) as [Hge Habove]. split_and!; [lia|done|].
  intros i Hi. destruct (m !! (top_page m + i)) eqn:Hl; [|done].
  assert (top_page m + i < top_page m) by (apply Habove; eauto). lia.
Qed.

(** A machine with nothing on it, process [tid] and an allocator with eight
    pointers to hand out. *)
Definition fresh_user : recorder := mk_recorder ∅ [1000; 2000; 3000; 4000; 5000; 6000; 7000; 8000] [].
(** The user once a handle is allocated. *)
Definition paid : recorder :=
  mk_recorder {[1000]} [2000; 3000; 4000; 5000; 6000; 7000; 8000] [Allocated sizeof_memory 1000].
Definition boot (tid : Z) : world :=
  mk_world (mk_thread tid 0 []) fresh_user ∅ ∅ ∅ ∅.
Definition context : ipm_context (@user linux) := rec_context true.

(** The value and the final state of a run that returns. *)
Definition value {S A} (o : outcome S A) : option A := match o with Ret a _ => Some a | _ => None end.
Definition final {S A} (o : outcome S A) : option S := match o with Ret _ s => Some s | _ => None end.

(** A process with one memory of 5000 bytes, rounded to two pages. *)
Definition demo_run : outcome world (ipm_result * option (@ipm_memory linux)) :=
  ipm_memory_create true context 5000 "demo" IPM_ACCESS_MODE_READ_WRITE (boot 1).
Definition demo_world : world := default (boot 1) (final demo_run).
Definition no_block : ipm_shared_memory_block := mk_block 0 0 0 0 false IPM_ACCESS_MODE_READ_ONLY 0.
Definition demo_memory : @ipm_memory linux :=
  match value demo_run with
  | Some (_, Some m) => m
  | _ => mk_memory _ 0 context (copy_name "") no_block no_block
  end.
(** The object of its claim list is the first one created. *)
Definition demo_object : shm_object :=
  default (mk_object 0 zero_header zero_list) (w_objs demo_world !! 0%nat).

(** Another process that starts on the machine of [w]. *)
Definition join (tid : Z) (w : world) : world :=
  mk_world (mk_thread tid 0 []) fresh_user (w_names w) (w_objs w) ∅ ∅.
Definition silent : ipm_context (@user linux) := rec_context false.
