(* ===== verification/Typing.v ===== *)
(** * Typing: the values stay within their C types

    The model writes machine integers as [Z]; that every stored value stays
    within the width of its C type, whatever an operation does and however it
    ends, is a property and proved here.  [preserves P m Q] says that [m] keeps
    [P] of the state on every outcome (a return, a failed assertion and a run
    that blocks alike) and returns only values that satisfy [Q].  The invariant
    of the world also says that names, descriptors and mapped pages designate
    objects that exist.  No assumption is made about faults, errors of the
    system calls, contents of the shared memory or the user's callbacks. *)

From S2P Require Import Prelude Errors Pthread Platform Claims Common Names World SharedMemory Memory Machine.

(** ** Preservation *)

Definition preserves {S A} (P : S -> Prop) (m : M S A) (Q : A -> Prop) : Prop :=
  forall s, P s ->
  match m s with
  | Ret a s' => P s' /\ Q a
  | Abort s' | Hang s' => P s'
  | Undef => True
  end.

Section rules.
Context {S : Type}.
Implicit Types (P : S -> Prop).

Lemma pres_ret {A} P (a : A) (Q : A -> Prop) : Q a -> preserves P (mret a) Q.
Proof. intros HQ s HP. by split. Qed.

Lemma pres_bind {A B} P (m : M S A) (f : A -> M S B) Q R :
  preserves P m Q -> (forall a, Q a -> preserves P (f a) R) -> preserves P (m ≫= f) R.
Proof.
  intros Hm Hf s HP. unfold mbind, M_bind. specialize (Hm s HP).
  destruct (m s); try done. destruct Hm as [HP' HQ]. by apply (Hf _ HQ).
Qed.

Lemma pres_weaken {A} P (m : M S A) (Q Q' : A -> Prop) :
  preserves P m Q -> (forall a, Q a -> Q' a) -> preserves P m Q'.
Proof. intros Hm HQ s HP. specialize (Hm s HP). destruct (m s); intuition auto. Qed.

Lemma pres_get P : preserves P get P.
Proof. by intros s HP. Qed.
Lemma pres_put P s' : P s' -> preserves P (put s') (fun _ => True).
Proof. by intros HP s _. Qed.
Lemma pres_gets {A} P (f : S -> A) Q : (forall s, P s -> Q (f s)) -> preserves P (gets f) Q.
Proof. intros HQ s HP. split; auto. Qed.
Lemma pres_modify P f : (forall s, P s -> P (f s)) -> preserves P (modify f) (fun _ => True).
Proof. intros Hf s HP. split; auto. Qed.
Lemma pres_undef {A} P (Q : A -> Prop) : preserves P undef Q.
Proof. done. Qed.
Lemma pres_hang {A} P (Q : A -> Prop) : preserves P hang Q.
Proof. by intros s HP. Qed.
Lemma pres_abort {A} P (Q : A -> Prop) : preserves P abort Q.
Proof. by intros s HP. Qed.
Lemma pres_cassert P nd b : preserves P (cassert nd b) (fun _ => True).
Proof. unfold cassert. destruct (nd || b); [by apply pres_ret|apply pres_abort]. Qed.
Lemma pres_unwrap {A} P (o : option A) (Q : A -> Prop) :
  (forall a, o = Some a -> Q a) -> preserves P (unwrap o) Q.
Proof. intros HQ. destruct o; [apply pres_ret; auto|apply pres_undef]. Qed.

Lemma pres_zoom {T A} (P : S -> Prop) (P' : T -> Prop) g p (m : M T A) Q :
  (forall s, P s -> P' (g s)) -> (forall s t, P s -> P' t -> P (p t s)) ->
  preserves P' m Q -> preserves P (zoom g p m) Q.
Proof.
  intros Hg Hp Hm s HP. unfold zoom. specialize (Hm (g s) (Hg s HP)).
  destruct (m (g s)); intuition auto.
Qed.

(** A part of the state that the invariant does not speak about. *)
Lemma pres_zoom_frame {T A} P g p (m : M T A) :
  (forall s t, P s -> P (p t s)) -> preserves P (zoom g p m) (fun _ => True).
Proof. intros Hp s HP. unfold zoom. destruct (m (g s)); auto. Qed.
End rules.

Create HintDb typed discriminated.
#[export] Hint Resolve pres_get pres_hang pres_undef pres_abort pres_cassert : typed.

(** One step of a preservation proof: the first operation of a sequence by a hint,
    or with no claim about its value; conditionals by cases. *)
Ltac pres_step :=
  lazymatch goal with
  | |- preserves _ (let _ := _ in _) _ => cbv zeta
  | |- preserves _ (mret _) _ => apply pres_ret
  | |- preserves _ (_ ≫= _) _ =>
      first [eapply pres_bind; [solve [eauto 4 with typed]|intros ? ?]
            |apply (pres_bind _ _ _ (fun _ => True)); [|intros ? _]]
  | |- preserves _ (unwrap _) _ => apply pres_unwrap; intros
  | |- preserves _ (if ?b then _ else _) _ => destruct b eqn:?
  | |- preserves _ (match ?x with _ => _ end) _ => destruct x eqn:?
  | |- preserves _ _ _ => first [solve [eauto 4 with typed]
                               |eapply pres_weaken; [solve [eauto 4 with typed]|intros ? ?]]
  end.
Ltac pres := repeat pres_step; try done.

Lemma u64_one : u64 1.
Proof. split; [lia|done]. Qed.
Lemma u32_one : u32 1.
Proof. split; [lia|done]. Qed.
Lemma u64_zero : u64 0.
Proof. split; [lia|done]. Qed.
#[export] Hint Resolve u64_one u32_one u64_zero : typed.

(** ** Types of the shared data *)

Record claim_typed (c : ipm_memory_claim) : Prop := {
  ct_id : u64 (claim_id c);
  ct_proc : u64 (proc_id c);
  ct_offset : u64 (offset c);
  ct_size : u64 (size c)
}.

Record list_typed (l : ipm_claim_list) : Prop := {
  lt_count : u64 (count l);
  lt_capacity : u64 (capacity l);
  lt_counter : u64 (claim_counter l);
  lt_claims : Forall claim_typed (claims l)
}.

(** The name is an array of [IPM_MAX_NAME_LEN + 1] characters, terminated. *)
Record header_typed (h : ipm_shared_memory_header) : Prop := {
  ht_refcount : u32 (refcount h);
  ht_block_size : u64 (block_size h);
  ht_id_counter : u64 (id_counter h);
  ht_block_id : u64 (block_id h);
  ht_name : Z.of_nat (String.length (hdr_block_name h)) <= IPM_MAX_NAME_LEN
}.

(** The size of an object is an [off_t]. *)
Record object_typed (o : shm_object) : Prop := {
  ot_size : 0 <= so_size o < 2 ^ 63;
  ot_header : header_typed (so_header o);
  ot_list : list_typed (so_list o)
}.

Lemma zero_typed : claim_typed zero_claim /\ header_typed zero_header /\ list_typed zero_list.
Proof. split_and!; split; try (by vm_compute); constructor. Qed.

(** ** The claim list *)

Section claim_list.
Variable NDEBUG : bool.

Definition list_state (s : thread * ipm_claim_list) : Prop := list_typed s.2.

Lemma get_list_typed : preserves list_state get_list list_typed.
Proof. by apply pres_gets. Qed.
Lemma update_list_typed f :
  (forall l, list_typed l -> list_typed (f l)) -> preserves list_state (update_list f) (fun _ => True).
Proof. intros Hf. apply pres_modify. intros [t l]. apply Hf. Qed.
Lemma on_mutex_typed {A} (m : M (thread * ipm_mut) A) : preserves list_state (on_mutex m) (fun _ => True).
Proof. apply pres_zoom_frame. by intros s t []. Qed.
Lemma on_cnd_typed {A} (m : M (thread * ipm_cnd) A) : preserves list_state (on_cnd m) (fun _ => True).
Proof. apply pres_zoom_frame. by intros s t []. Qed.

Lemma set_count_typed n l : u64 n -> list_typed l -> list_typed (set_count n l).
Proof. by intros ? []. Qed.
Lemma set_counter_typed n l : u64 n -> list_typed l -> list_typed (set_counter n l).
Proof. by intros ? []. Qed.
Lemma set_claims_typed cs l : Forall claim_typed cs -> list_typed l -> list_typed (set_claims cs l).
Proof. by intros ? []. Qed.

Lemma scan_loop_typed {S} (P : S -> Prop) p cs n : u64 n -> preserves P (scan_loop p cs n) u64.
Proof.
  intros Hn. unfold scan_loop. destruct (scan p cs _ 0) as [pos| |] eqn:Hs; [|pres|pres].
  apply pres_ret. enough (pos < Z.to_nat (Z.min n u32_mod))%nat by word.
  clear -Hs. enough (pos < 0 + Z.to_nat (Z.min n u32_mod))%nat by lia. revert Hs.
  generalize (Z.to_nat (Z.min n u32_mod)), 0%nat.
  intros k. induction k as [|k IH]; intros i Hs; simpl in Hs; [done|].
  destruct (cs !! i) as [c|]; [|done]. destruct (p c); [by simplify_eq; lia|].
  specialize (IH _ Hs). lia.
Qed.

Lemma memmove_typed dst src n cs cs' :
  Forall claim_typed cs -> memmove dst src n cs = Some cs' -> Forall claim_typed cs'.
Proof.
  unfold memmove. intros Hcs Hm. repeat case_match; simplify_eq; [done|].
  rewrite !Forall_app. split_and!; [by apply Forall_take|by apply Forall_take, Forall_drop|by apply Forall_drop].
Qed.

Lemma store_typed pos c cs cs' :
  claim_typed c -> Forall claim_typed cs -> store pos c cs = Some cs' -> Forall claim_typed cs'.
Proof. unfold store. intros Hc Hcs Hs. case_match; simplify_eq. by apply Forall_insert. Qed.
End claim_list.

#[export] Hint Resolve get_list_typed on_mutex_typed on_cnd_typed set_count_typed set_counter_typed
  set_claims_typed scan_loop_typed lt_count lt_capacity lt_counter lt_claims : typed.
#[export] Hint Resolve wrap64_range wrap32_range u32_u64 : typed.
#[export] Hint Extern 4 (preserves _ (update_list _) _) => apply update_list_typed; intros : typed.

Section claim_list_operations.
Variable NDEBUG : bool.
Abbreviation ok_result := (fun _ : ipm_result => True).

Lemma fetch_sub_count_typed : preserves list_state fetch_sub_count u64.
Proof. unfold fetch_sub_count. pres. eauto with typed. Qed.
Lemma fetch_add_count_typed : preserves list_state fetch_add_count u64.
Proof. unfold fetch_add_count. pres. eauto with typed. Qed.
Lemma fetch_add_counter_typed : preserves list_state fetch_add_counter u64.
Proof. unfold fetch_add_counter. pres. eauto with typed. Qed.
#[local] Hint Resolve fetch_sub_count_typed fetch_add_count_typed fetch_add_counter_typed : typed.

Lemma claim_add_typed c :
  claim_typed c -> preserves list_state (claim_add_to_list NDEBUG c) ok_result.
Proof.
  intros Hc. unfold claim_add_to_list. pres_step. pres_step. pres_step; [pres|].
  pres_step. eapply (pres_bind _ _ _ (Forall claim_typed)).
  { pres_step; [|apply pres_ret; eauto with typed].
    apply pres_unwrap. intros cs. apply memmove_typed. eauto with typed. }
  intros cs Hcs. eapply (pres_bind _ _ _ (Forall claim_typed)).
  { apply pres_unwrap. intros cs'. by apply store_typed. }
  intros cs' Hcs'. pres.
Qed.

Lemma claim_remove_typed id : preserves list_state (claim_remove_from_list NDEBUG id) ok_result.
Proof.
  unfold claim_remove_from_list. pres_step. cbv zeta. pres_step. pres_step. pres_step; [pres|].
  pres_step. pres_step; [pres|]. eapply (pres_bind _ _ _ (Forall claim_typed)).
  { pres_step; [|apply pres_ret; eauto with typed].
    apply pres_unwrap. intros cs. apply memmove_typed. eauto with typed. }
  intros cs Hcs. pres.
Qed.

#[local] Hint Resolve claim_remove_typed : typed.

Lemma claim_list_init_typed cap : u64 cap -> preserves list_state (claim_list_init cap) ok_result.
Proof.
  intros Hcap. unfold claim_list_init. pres.
  apply update_list_typed. intros l [_ _ _ Hcs]. by split.
Qed.

Lemma claim_list_uninit_typed : preserves list_state claim_list_uninit (fun _ => True).
Proof. unfold claim_list_uninit. pres. Qed.

Lemma release_loop_typed fuel proc i : preserves list_state (release_loop NDEBUG fuel proc i) (fun _ => True).
Proof.
  revert i. induction fuel as [|fuel IH]; intros i; cbn [release_loop]; pres.
Qed.

Lemma remove_all_loop_typed fuel : preserves list_state (remove_all_loop NDEBUG fuel) (fun _ => True).
Proof.
  induction fuel as [|fuel IH]; cbn [remove_all_loop]; pres.
Qed.

(** What the other processes do to the list during a sleep. *)
Definition typed_wakes (wakes : list (ipm_claim_list -> ipm_claim_list)) : Prop :=
  Forall (fun f => forall l, list_typed l -> list_typed (f l)) wakes.

Lemma condition_wait_typed sleep :
  (forall f, sleep = Some f -> forall l, list_typed l -> list_typed (f l)) ->
  preserves list_state (ipm_condition_wait list_cnd list_mutex set_mutex sleep) ok_result.
Proof.
  intros Hf. unfold ipm_condition_wait. eapply (pres_bind _ _ _ (fun _ => True)); [|intros; pres].
  assert (forall m : M (thread * ipm_mut) Z, preserves list_state
    (zoom (fun s : thread * ipm_claim_list => (s.1, list_mutex s.2)) (fun s' s => (s'.1, set_mutex s'.2 s.2)) m)
    (fun _ => True)) as Hmx by (intros m; apply pres_zoom_frame; by intros s t []).
  assert (forall m, preserves list_state m (fun _ => True) ->
    preserves list_state (pthread_call m) (fun _ : Z => True)) as Hcall.
  { intros m Hm. unfold pthread_call. eapply (pres_bind _ _ _ (fun _ => True)).
    - unfold on_thread. by apply pres_zoom_frame.
    - intros. pres. }
  unfold pthread_cond_wait. apply Hcall. apply (pres_bind _ _ _ list_typed); [by apply pres_gets|].
  intros l Hl. pres_step; [by apply pres_ret|]. eapply pres_bind; [apply Hmx|]. intros r _. pres_step; [by apply pres_ret|].
  pres_step; [|pres]. eapply pres_bind; [apply pres_modify|intros; apply Hmx].
  intros [t l']. by apply Hf.
Qed.

Lemma claim_wait_typed c wakes :
  typed_wakes wakes -> preserves list_state (claim_wait c wakes) (fun _ => True).
Proof.
  induction wakes as [|f wakes IH]; intros Hw; cbn [claim_wait].
  all: pres_step; pres_step; pres_step; [by apply pres_ret|].
  all: eapply pres_bind; [apply condition_wait_typed|intros; pres].
  - done.
  - simpl. intros g [= <-]. by apply Forall_cons in Hw as [Hw _].
  - apply IH. by apply Forall_cons in Hw as [_ Hw].
Qed.
End claim_list_operations.
#[export] Hint Resolve fetch_add_counter_typed claim_add_typed claim_remove_typed claim_list_init_typed
  claim_list_uninit_typed release_loop_typed remove_all_loop_typed claim_wait_typed : typed.

(** ** The world *)

Section world_typing.
Context {E : Env}.
Implicit Types (w : world).

Record world_typed w : Prop := {
  wt_objs : forall o ob, w_objs w !! o = Some ob -> object_typed ob;
  wt_names : forall n o, w_names w !! n = Some o -> is_Some (w_objs w !! o);
  wt_fds : forall fd o, w_fds w !! fd = Some o -> is_Some (w_objs w !! o);
  wt_pages : forall a pg, w_pages w !! a = Some pg -> is_Some (w_objs w !! pg_obj pg)
}.

Lemma set_thread_typed t w : world_typed w -> world_typed (set_thread t w).
Proof. by intros []. Qed.
Lemma set_user_typed u w : world_typed w -> world_typed (set_user u w).
Proof. by intros []. Qed.

Lemma set_obj_typed o ob w : object_typed ob -> world_typed w -> world_typed (set_obj o ob w).
Proof.
  intros Hob [Ho Hn Hf Hp].
  assert (forall o', is_Some (w_objs w !! o') -> is_Some (<[o:=ob]> (w_objs w) !! o')) as Hkeep.
  { intros o' H'. apply lookup_insert_is_Some'. by right. }
  split; cbn [set_obj set_objs w_objs w_names w_fds w_pages]; intros; eauto.
  destruct (decide (o = o0)) as [->|Hne].
  - rewrite lookup_insert_eq in *. by simplify_eq.
  - rewrite lookup_insert_ne in * by done. eauto.
Qed.

Lemma set_names_typed n w :
  (forall k o, n !! k = Some o -> is_Some (w_objs w !! o)) -> world_typed w -> world_typed (set_names n w).
Proof. by intros ? []. Qed.
Lemma set_fds_typed f w :
  (forall k o, f !! k = Some o -> is_Some (w_objs w !! o)) -> world_typed w -> world_typed (set_fds f w).
Proof. by intros ? []. Qed.
Lemma set_pages_typed p w :
  (forall k pg, p !! k = Some pg -> is_Some (w_objs w !! pg_obj pg)) -> world_typed w ->
  world_typed (set_pages p w).
Proof. by intros ? []. Qed.

Lemma truncate_typed len ob : 0 <= len < 2 ^ 63 -> object_typed ob -> object_typed (truncate_object len ob).
Proof.
  intros Hl [_ Hh [Hc Hk Hn Hcs]]. split; [done|done|]. split; [done..|].
  cbn [truncate_object so_list set_claims claims]. apply Forall_resize; [apply zero_typed|done].
Qed.

(** *** Accesses *)

Abbreviation safe m Q := (preserves world_typed m Q).
Abbreviation any := (fun _ => True).

Lemma on_user_typed {A} (m : M (thread * user) A) : safe (on_user m) any.
Proof. apply pres_zoom_frame. intros w s Hw. by apply set_user_typed, set_thread_typed. Qed.
Lemma IPM_ERROR_typed c msg loc : safe (IPM_ERROR c msg loc) any.
Proof. apply on_user_typed. Qed.
Lemma ipm_alloc_typed c n loc : safe (ipm_alloc c n loc) any.
Proof. apply on_user_typed. Qed.
Lemma ipm_release_typed c p : safe (ipm_release c p) any.
Proof. apply on_user_typed. Qed.
Lemma w_errno_typed : safe w_errno any.
Proof. by apply pres_gets. Qed.
Lemma strerror_typed : safe strerror any.
Proof. unfold strerror. eapply pres_bind; [apply w_errno_typed|intros; by apply pres_ret]. Qed.

Lemma on_object_typed {A} i a (m : M (thread * shm_object) A) Q :
  preserves (fun s => object_typed s.2) m Q -> safe (on_object i a m) Q.
Proof.
  intros Hm w Hw. unfold on_object. destruct (object_at i true a w) as [o|]; [|done].
  destruct (w_objs w !! o) as [ob|] eqn:Ho; [|done]. revert w Hw Ho. 
  intros w Hw Ho. unfold zoom. specialize (Hm (w_thread w, ob) (wt_objs _ Hw _ _ Ho)).
  destruct (m (w_thread w, ob)); cbn beta; [destruct Hm as [? ?]; split; [|done]|..|done|];
    by apply set_obj_typed, set_thread_typed.
Qed.

Lemma on_header_typed {A} a (m : M (thread * ipm_shared_memory_header) A) Q :
  preserves (fun s => header_typed s.2) m Q -> safe (on_header a m) Q.
Proof.
  intros Hm. apply on_object_typed. eapply pres_zoom; [..|exact Hm].
  - by intros s [].
  - intros s t [] ?. by split.
Qed.

Lemma on_list_typed {A} a (m : LM A) Q : preserves list_state m Q -> safe (on_list a m) Q.
Proof.
  intros Hm. apply on_object_typed. eapply pres_zoom; [..|exact Hm].
  - by intros s [].
  - intros s t [] ?. by split.
Qed.

Lemma read_header_typed a : safe (read_header a) header_typed.
Proof. apply on_header_typed. by apply pres_gets. Qed.
Lemma write_header_typed a f :
  (forall h, header_typed h -> header_typed (f h)) -> safe (write_header a f) any.
Proof. intros Hf. apply on_header_typed, pres_modify. intros [t h]. apply Hf. Qed.
Lemma on_segment_mutex_typed {A} a (m : M (thread * ipm_mut) A) : safe (on_segment_mutex a m) any.
Proof. apply on_header_typed, pres_zoom_frame. by intros s t []. Qed.

Lemma set_refcount_typed r h : u32 r -> header_typed h -> header_typed (set_refcount r h).
Proof. by intros ? []. Qed.
Lemma set_block_size_typed r h : u64 r -> header_typed h -> header_typed (set_block_size r h).
Proof. by intros ? []. Qed.
Lemma set_id_counter_typed r h : u64 r -> header_typed h -> header_typed (set_id_counter r h).
Proof. by intros ? []. Qed.
Lemma set_block_id_typed r h : u64 r -> header_typed h -> header_typed (set_block_id r h).
Proof. by intros ? []. Qed.
Lemma set_hdr_name_typed n h :
  Z.of_nat (String.length n) <= IPM_MAX_NAME_LEN -> header_typed h -> header_typed (set_hdr_name n h).
Proof. by intros ? []. Qed.

(** *** System calls *)

Lemma sys_fail_typed e : safe (sys_fail e) (eq (-1)).
Proof.
  unfold sys_fail. eapply pres_bind; [apply pres_modify|intros; by apply pres_ret].
  intros w. apply set_thread_typed.
Qed.

Lemma sys_call_typed m (Q : Z -> Prop) : safe m Q -> Q (-1) -> safe (sys_call m) Q.
Proof.
  intros Hm HQ. unfold sys_call. eapply pres_bind; [apply (pres_zoom_frame _ w_thread set_thread)|].
  - intros w t. apply set_thread_typed.
  - intros f _. pres_step; [done|]. eapply pres_weaken; [apply sys_fail_typed|by intros _ <-].
Qed.

Lemma open_fd_typed o w0 :
  world_typed w0 -> is_Some (w_objs w0 !! o) ->
  match open_fd o w0 with Ret fd w' => world_typed w' /\ 0 <= fd | _ => False end.
Proof.
  intros Hw Ho. unfold open_fd, mbind, M_bind. cbn. split; [|lia].
  apply set_fds_typed; [|done]. intros k o'. rewrite lookup_insert_Some.
  intros [[_ <-]|[_ H]]; [done|]. by eapply wt_fds.
Qed.

(** A descriptor, or -1. *)
Definition fd_typed (fd : Z) : Prop := -1 <= fd.

(** A new object is one that no name, descriptor or page designated. *)
Lemma create_object_typed name o w :
  world_typed w ->
  world_typed (set_names (<[name := o]> (w_names w)) (set_obj o (mk_object 0 zero_header zero_list) w)).
Proof.
  intros Hw. destruct zero_typed as (_ & Hh & Hl).
  assert (world_typed (set_obj o (mk_object 0 zero_header zero_list) w)) as Hw'
    by (apply set_obj_typed; [split; [simpl; lia|done..]|done]).
  apply set_names_typed; [|done]. intros k o'. rewrite lookup_insert_Some. intros [[_ <-]|[_ Hk]].
  - cbn. rewrite lookup_insert_eq. eauto.
  - by apply (wt_names _ Hw' k).
Qed.

Lemma shm_open_typed name cr ex : safe (shm_open name cr ex) fd_typed.
Proof.
  apply sys_call_typed; [|unfold fd_typed; lia]. intros w Hw. erewrite bind_Ret by done.
  assert (forall fd, 0 <= fd -> fd_typed fd) as Hfd by (unfold fd_typed; lia).
  destruct (w_names w !! name) as [o|] eqn:Hn.
  - destruct (cr && ex); [cbn; split; [by apply set_thread_typed|unfold fd_typed; lia]|].
    pose proof (open_fd_typed o w Hw (wt_names _ Hw _ _ Hn)) as H.
    destruct (open_fd o w); try done. destruct H; auto.
  - destruct cr; [|cbn; split; [by apply set_thread_typed|unfold fd_typed; lia]].
    cbv zeta. set (o := fresh_object _). set (w1 := set_names _ _). erewrite bind_Ret by done.
    assert (is_Some (w_objs w1 !! o)) as Ho by (cbn; rewrite lookup_insert_eq; eauto).
    pose proof (open_fd_typed o w1 (create_object_typed name o w Hw) Ho) as H.
    destruct (open_fd o w1); try done. destruct H; auto.
Qed.

Lemma shm_unlink_typed name : safe (shm_unlink name) any.
Proof.
  apply sys_call_typed; [|done]. apply (pres_bind _ _ _ world_typed); [apply pres_get|].
  intros w Hw. destruct (w_names w !! name).
  - eapply pres_bind; [apply pres_put|intros; by apply pres_ret]. apply set_names_typed; [|done].
    intros k o Hk. apply lookup_delete_Some in Hk as [_ Hk]. by eapply wt_names.
  - eapply pres_weaken; [apply sys_fail_typed|done].
Qed.

Lemma close_typed fd : safe (close fd) any.
Proof.
  apply (pres_bind _ _ _ world_typed); [apply pres_get|].
  intros w Hw. destruct (fd_object w fd).
  - eapply pres_bind; [apply pres_put|intros; by apply pres_ret]. apply set_fds_typed; [|done].
    intros k o Hk. apply lookup_delete_Some in Hk as [_ Hk]. by eapply wt_fds.
  - eapply pres_weaken; [apply sys_fail_typed|done].
Qed.

Lemma to_off_t_typed z : u64 z -> to_off_t z < 2 ^ 63.
Proof. intros Hz. unfold to_off_t. destruct (Z.ltb_spec z (2 ^ 63)); word. Qed.

Lemma ftruncate_typed fd len : len < 2 ^ 63 -> safe (ftruncate fd len) any.
Proof.
  intros Hlen. apply sys_call_typed; [|done]. apply (pres_bind _ _ _ world_typed); [apply pres_get|].
  intros w Hw. destruct (fd_object w fd) as [o|]; [|eapply pres_weaken; [apply sys_fail_typed|done]].
  destruct (Z.ltb_spec len 0); [eapply pres_weaken; [apply sys_fail_typed|done]|].
  destruct (w_objs w !! o) as [ob|] eqn:Ho; [|apply pres_undef].
  eapply pres_bind; [apply pres_put|intros; by apply pres_ret].
  apply set_obj_typed; [|done]. apply truncate_typed; [lia|by eapply wt_objs].
Qed.

Lemma fd_object_exists w fd o : world_typed w -> fd_object w fd = Some o -> is_Some (w_objs w !! o).
Proof. unfold fd_object. intros Hw H. case_match; [done|]. by eapply wt_fds. Qed.

Lemma mmap_typed hint len wr fd off : safe (mmap hint len wr fd off) u64.
Proof.
  unfold mmap. apply (pres_bind _ _ _ any); [|intros r _; apply pres_ret, wrap64_range].
  apply sys_call_typed; [|done]. apply (pres_bind _ _ _ world_typed); [apply pres_get|].
  intros w Hw. assert (forall e, safe (sys_fail e) any) as Hfail
    by (intros e; eapply pres_weaken; [apply sys_fail_typed|done]).
  pres_step; [apply Hfail|]. destruct (fd_object w fd) as [o|] eqn:Hfd; [|apply Hfail].
  destruct (os_place _ _ _) as [p|]; [|apply Hfail].
  eapply pres_bind; [apply pres_put|intros; by apply pres_ret]. apply set_pages_typed; [|done].
  intros k pg. rewrite lookup_map_pages. case_decide; [|by apply wt_pages].
  intros [= <-]. by eapply fd_object_exists.
Qed.

Lemma munmap_typed a len : safe (munmap a len) any.
Proof.
  apply (pres_bind _ _ _ world_typed); [apply pres_get|]. intros w Hw.
  pres_step; [eapply pres_weaken; [apply sys_fail_typed|done]|].
  eapply pres_bind; [apply pres_put|intros; by apply pres_ret]. apply set_pages_typed; [|done].
  intros k pg. rewrite lookup_unmap_pages. case_decide; [done|by apply wt_pages].
Qed.

(** *** Counters *)

Lemma fetch_add_id_typed a : safe (fetch_add_id a) u64.
Proof.
  unfold fetch_add_id. eapply pres_bind; [apply read_header_typed|]. intros h Hh.
  eapply pres_bind; [apply write_header_typed|intros; apply pres_ret, Hh].
  intros h'. apply set_id_counter_typed, wrap64_range.
Qed.
Lemma fetch_add_refcount_typed a : safe (fetch_add_refcount a) u32.
Proof.
  unfold fetch_add_refcount. eapply pres_bind; [apply read_header_typed|]. intros h Hh.
  eapply pres_bind; [apply write_header_typed|intros; apply pres_ret, Hh].
  intros h'. apply set_refcount_typed, wrap32_range.
Qed.
Lemma fetch_sub_refcount_typed a : safe (fetch_sub_refcount a) u32.
Proof.
  unfold fetch_sub_refcount. eapply pres_bind; [apply read_header_typed|]. intros h Hh.
  eapply pres_bind; [apply write_header_typed|intros; apply pres_ret, Hh].
  intros h'. apply set_refcount_typed, wrap32_range.
Qed.
End world_typing.
#[export] Hint Resolve IPM_ERROR_typed ipm_alloc_typed ipm_release_typed w_errno_typed strerror_typed
  on_list_typed read_header_typed on_segment_mutex_typed set_refcount_typed set_block_size_typed
  set_id_counter_typed set_block_id_typed set_hdr_name_typed shm_open_typed shm_unlink_typed close_typed
  mmap_typed munmap_typed fetch_add_id_typed fetch_add_refcount_typed fetch_sub_refcount_typed
  ht_refcount ht_block_size ht_id_counter ht_block_id ht_name : typed.
#[export] Hint Extern 4 (preserves _ (write_header _ _) _) => apply write_header_typed; intros : typed.
#[export] Hint Extern 4 (preserves _ (ftruncate _ _) _) =>
  apply ftruncate_typed, to_off_t_typed, wrap64_range : typed.

(** ** Blocks and memories *)

Record block_typed (b : ipm_shared_memory_block) : Prop := {
  bt_access_id : u64 (b_access_id b);
  bt_size : u64 (b_size b);
  bt_header : u64 (b_header b);
  bt_memory : u64 (b_memory b);
  bt_fd : 0 <= b_mem_fd b
}.

Definition opt_typed {A} (P : A -> Prop) (o : option A) : Prop :=
  match o with Some a => P a | None => True end.

Section blocks_typing.
Context {E : Env}.
Variable NDEBUG : bool.
Abbreviation safe m Q := (preserves world_typed m Q).
Abbreviation any := (fun _ => True).

(** A result and, on success, a block. *)
Definition new_block_typed (r : ipm_result * option ipm_shared_memory_block) : Prop :=
  opt_typed block_typed r.2.
(** A result and the block as the call leaves it. *)
Definition old_block_typed (r : ipm_result * ipm_shared_memory_block) : Prop := block_typed r.2.

Lemma store_name_typed a name : safe (store_name a name) any.
Proof.
  unfold store_name. destruct (Z.leb_spec (Z.of_nat (String.length name)) IPM_MAX_NAME_LEN); [|apply pres_undef].
  apply write_header_typed. intros h. by apply set_hdr_name_typed.
Qed.
#[local] Hint Resolve store_name_typed : typed.

Lemma block_create_typed c name id size access :
  u64 id -> u64 size -> safe (shared_memory_block_create NDEBUG c name id size access) new_block_typed.
Proof.
  intros Hid Hsize. unfold shared_memory_block_create. pres.
  unfold new_block_typed, fd_typed in *. split; try done; simpl. lia.
Qed.

(** What the other processes do to an object while this one waits. *)
Definition typed_others (others : list (shm_object -> shm_object)) : Prop :=
  Forall (fun f => forall o, object_typed o -> object_typed (f o)) others.

Lemma wait_for_creator_typed a others : typed_others others -> safe (wait_for_creator a others) any.
Proof.
  induction others as [|f others IH]; intros Ho; cbn [wait_for_creator]; pres.
  - apply on_object_typed, pres_modify. intros [t o]. by apply Forall_cons in Ho as [Hf _]; apply Hf.
  - apply Forall_cons in Ho as [_ Ho]. by apply IH.
Qed.
#[local] Hint Resolve wait_for_creator_typed : typed.

Lemma block_open_typed others c name id access :
  typed_others others -> safe (shared_memory_block_open NDEBUG others c name id access) new_block_typed.
Proof.
  intros Ho. unfold shared_memory_block_open. pres.
  unfold new_block_typed, fd_typed in *. split; simpl; eauto with typed. lia.
Qed.

Lemma block_close_typed c b callback :
  opt_typed (fun f => safe f any) callback -> safe (shared_memory_block_close NDEBUG c b callback) any.
Proof. intros Hc. unfold shared_memory_block_close. destruct callback; pres. Qed.

Lemma block_clean_typed b : safe (shared_memory_block_clean NDEBUG b) any.
Proof. unfold shared_memory_block_clean. pres. Qed.

Lemma block_acquire_typed c b :
  block_typed b -> safe (acquire_memory_block_whole c b) old_block_typed.
Proof. intros Hb. unfold acquire_memory_block_whole. pres. by destruct Hb. Qed.
Lemma block_release_typed c b :
  block_typed b -> safe (release_memory_block_whole c b) old_block_typed.
Proof. intros Hb. unfold release_memory_block_whole. pres. by destruct Hb. Qed.

Lemma set_mapping_typed n p a b : u64 n -> u64 p -> block_typed b -> block_typed (set_mapping n p a b).
Proof. by intros ? ? []. Qed.
#[local] Hint Resolve set_mapping_typed bt_size : typed.

Lemma block_update_typed c b a :
  block_typed b -> safe (shared_memory_block_update_mapping c b a) old_block_typed.
Proof. intros Hb. unfold shared_memory_block_update_mapping. pres; unfold old_block_typed, NULL; simpl; eauto 6 with typed. Qed.
#[local] Hint Resolve block_update_typed : typed.

Lemma block_resize_typed c b n :
  u64 n -> block_typed b -> safe (shared_memory_block_resize NDEBUG c b n) old_block_typed.
Proof. intros Hn Hb. unfold shared_memory_block_resize. pres. Qed.
End blocks_typing.
#[export] Hint Resolve block_create_typed block_open_typed block_close_typed block_clean_typed
  block_update_typed block_resize_typed : typed.

Section memory_typing.
Context {E : Env}.
Variable NDEBUG : bool.
Abbreviation safe m Q := (preserves world_typed m Q).
Abbreviation any := (fun _ => True).

Record memory_typed (m : ipm_memory) : Prop := {
  mt_name : Z.of_nat (length (mem_block_name m)) = IPM_MAX_NAME_LEN + 1;
  mt_real : block_typed (real_memory m);
  mt_claims : block_typed (active_claims m)
}.
Definition new_memory_typed (r : ipm_result * option ipm_memory) : Prop := opt_typed memory_typed r.2.
Definition old_memory_typed (r : ipm_result * ipm_memory) : Prop := memory_typed r.2.

Lemma length_strncpy n s b : length (strncpy n s b) = length b.
Proof. revert s b. induction n as [|n IH]; intros [|c s] [|x b]; simpl; auto. Qed.

Lemma copy_name_typed s : Z.of_nat (length (copy_name s)) = IPM_MAX_NAME_LEN + 1.
Proof. unfold copy_name. by rewrite length_strncpy, length_replicate. Qed.

Lemma error_named_typed m f loc : safe (IPM_ERROR_named m f loc) any.
Proof. unfold IPM_ERROR_named. pres. Qed.

Lemma round_size_typed n : u64 n -> u64 (round_size n).
Proof. intros Hn. unfold round_size. case_match; [apply wrap64_range|done]. Qed.

Lemma set_real_typed b m : block_typed b -> memory_typed m -> memory_typed (set_real b m).
Proof. by intros ? []. Qed.
#[local] Hint Resolve copy_name_typed error_named_typed round_size_typed set_real_typed mt_name mt_real mt_claims bt_access_id
  bt_size bt_memory : typed.

Lemma memory_create_typed c n name a :
  u64 n -> safe (ipm_memory_create NDEBUG c n name a) new_memory_typed.
Proof.
  intros Hn. unfold ipm_memory_create.
  pose proof (round_size_typed n Hn). assert (u64 claim_size) by (by vm_compute).
  assert (u64 real_claim_capacity) by (by vm_compute).
  assert (u64 IPM_MEMORY_BLOCK_ACTIVE_CALIMS /\ u64 IPM_MEMORY_BLOCK_REAL_MEMORY) as [? ?] by (by vm_compute).
  pres; try apply block_close_typed; try done. split; simpl; eauto with typed.
Qed.

Lemma memory_open_typed oreal oclaims c name a :
  typed_others oreal -> typed_others oclaims ->
  safe (ipm_memory_open NDEBUG oreal oclaims c name a) new_memory_typed.
Proof.
  intros Hr Hc. unfold ipm_memory_open. pres; try apply block_close_typed; try done.
  split; simpl; eauto with typed.
Qed.

Lemma claim_region_typed wakes m a off n :
  typed_wakes wakes -> memory_typed m -> u64 off -> u64 n ->
  safe (ipm_memory_claim_region NDEBUG wakes m a off n) (fun r => opt_typed u64 r.2).
Proof.
  intros Hw Hm Ho Hn. unfold ipm_memory_claim_region. pres.
  - apply on_list_typed. by apply claim_add_typed; split; simpl; eauto with typed.
Qed.

Lemma release_region_typed m id : safe (ipm_memory_release_region NDEBUG m id) any.
Proof. unfold ipm_memory_release_region. pres. Qed.

Lemma release_all_typed m : safe (ipm_memory_release_all NDEBUG m) any.
Proof.
  unfold ipm_memory_release_all. pres. apply on_list_typed. unfold release_all_loop. pres.
Qed.

Lemma remove_all_typed m : safe (ipm_memory_remove_all_active_claims NDEBUG m) any.
Proof.
  unfold ipm_memory_remove_all_active_claims. pres. apply on_list_typed. unfold remove_all_claims. pres.
Qed.
#[local] Hint Resolve release_all_typed : typed.

Lemma memory_close_typed m : safe (ipm_memory_close NDEBUG m) any.
Proof.
  unfold ipm_memory_close. pres; apply block_close_typed; simpl; try done. apply on_list_typed, claim_list_uninit_typed.
Qed.

Lemma memory_clean_typed m : safe (ipm_memory_clean NDEBUG m) any.
Proof. unfold ipm_memory_clean. pres. Qed.

Record info_typed (i : ipm_memory_info) : Prop := {
  it_access_id : u64 (info_access_id i);
  it_name : Z.of_nat (length (info_name i)) = IPM_MAX_NAME_LEN + 1;
  it_size : u64 (info_block_size i);
  it_address : u64 (info_mapping_address i);
  it_claims : u64 (info_active_claims i)
}.

Lemma get_info_typed m : memory_typed m -> safe (ipm_memory_get_info m) info_typed.
Proof. intros Hm. unfold ipm_memory_get_info. pres. split; simpl; eauto with typed. Qed.

Lemma memory_sync_typed m : memory_typed m -> safe (ipm_memory_sync m) old_memory_typed.
Proof. intros Hm. unfold ipm_memory_sync. pres; unfold old_memory_typed; simpl; eauto with typed. Qed.

Lemma memory_resize_typed m n :
  u64 n -> memory_typed m -> safe (ipm_memory_resize_grow NDEBUG m n) old_memory_typed.
Proof.
  intros Hn Hm. pose proof (round_size_typed n Hn). unfold ipm_memory_resize_grow. cbv zeta.
  pres; unfold old_memory_typed; simpl; eauto with typed.
Qed.

Lemma memory_access_typed m a : memory_typed m -> safe (ipm_memory_change_access m a) old_memory_typed.
Proof. intros Hm. unfold ipm_memory_change_access. pres; unfold old_memory_typed; simpl; eauto with typed. Qed.

Lemma memory_ref_count_typed m : safe (ipm_memory_ref_count m) u32.
Proof. unfold ipm_memory_ref_count. pres. eauto with typed. Qed.
End memory_typing.

(** ** Programs over the public interface *)

Section programs.
Context {E : Env}.
Variable NDEBUG : bool.

(** The calls a process can make, with what the other processes do meanwhile. *)
Inductive call :=
| Create (c : ipm_context user) (n : Z) (name : string) (a : ipm_access_mode)
| Open (oreal oclaims : list (shm_object -> shm_object)) (c : ipm_context user) (name : string) (a : ipm_access_mode)
| Claim (wakes : list (ipm_claim_list -> ipm_claim_list)) (m : ipm_memory) (a : ipm_access_mode) (off n : Z)
| Release (m : ipm_memory) (id : Z)
| Release_all (m : ipm_memory)
| Remove_all (m : ipm_memory)
| Close (m : ipm_memory)
| Clean (m : ipm_memory)
| Get_info (m : ipm_memory)
| Sync (m : ipm_memory)
| Resize (m : ipm_memory) (n : Z)
| Change_access (m : ipm_memory) (a : ipm_access_mode)
| Ref_count (m : ipm_memory).

(** What a call hands back: a result, a claim's identifier, a handle, information
    or a count. *)
Inductive reply :=
| Done
| Result (r : ipm_result)
| Claimed (r : ipm_result) (id : option Z)
| Handle (r : ipm_result) (m : option ipm_memory)
| Info (i : ipm_memory_info)
| Refs (n : Z).

Definition perform (k : call) : M world reply :=
  match k with
  | Create c n name a => '(r, m) ← ipm_memory_create NDEBUG c n name a; mret (Handle r m)
  | Open oreal oclaims c name a => '(r, m) ← ipm_memory_open NDEBUG oreal oclaims c name a; mret (Handle r m)
  | Claim wakes m a off n => '(r, id) ← ipm_memory_claim_region NDEBUG wakes m a off n; mret (Claimed r id)
  | Release m id => r ← ipm_memory_release_region NDEBUG m id; mret (Result r)
  | Release_all m => r ← ipm_memory_release_all NDEBUG m; mret (Result r)
  | Remove_all m => r ← ipm_memory_remove_all_active_claims NDEBUG m; mret (Result r)
  | Close m => _ ← ipm_memory_close NDEBUG m; mret Done
  | Clean m => _ ← ipm_memory_clean NDEBUG m; mret Done
  | Get_info m => i ← ipm_memory_get_info m; mret (Info i)
  | Sync m => '(r, m) ← ipm_memory_sync m; mret (Handle r (Some m))
  | Resize m n => '(r, m) ← ipm_memory_resize_grow NDEBUG m n; mret (Handle r (Some m))
  | Change_access m a => '(r, m) ← ipm_memory_change_access m a; mret (Handle r (Some m))
  | Ref_count m => n ← ipm_memory_ref_count m; mret (Refs n)
  end.

Definition reply_typed (r : reply) : Prop :=
  match r with
  | Done | Result _ => True
  | Claimed _ id => opt_typed u64 id
  | Handle _ m => opt_typed memory_typed m
  | Info i => info_typed i
  | Refs n => u32 n
  end.

(** Arguments of the C types; handles as an earlier call returned them. *)
Definition call_typed (k : call) : Prop :=
  match k with
  | Create _ n _ _ => u64 n
  | Open oreal oclaims _ _ _ => typed_others oreal /\ typed_others oclaims
  | Claim wakes m _ off n => typed_wakes wakes /\ memory_typed m /\ u64 off /\ u64 n
  | Resize m n => u64 n /\ memory_typed m
  | Get_info m | Sync m | Change_access m _ => memory_typed m
  | _ => True
  end.

(** A program: each call may depend on the replies so far, as long as its
    arguments have their types when those replies have. *)
Inductive program :=
| Stop
| Then (k : call) (next : reply -> program).

Fixpoint run_program (p : program) : M world (list reply) :=
  match p with
  | Stop => mret []
  | Then k next => r ← perform k; rs ← run_program (next r); mret (r :: rs)
  end.

Fixpoint program_typed (p : program) : Prop :=
  match p with
  | Stop => True
  | Then k next => call_typed k /\ forall r, reply_typed r -> program_typed (next r)
  end.

Lemma perform_typed k : call_typed k -> preserves world_typed (perform k) reply_typed.
Proof.
  destruct k; cbn [call_typed perform]; intros Hk; destruct_and?;
    (eapply pres_bind;
      [eauto using memory_create_typed, memory_open_typed, claim_region_typed, release_region_typed,
        release_all_typed, remove_all_typed, memory_close_typed, memory_clean_typed, get_info_typed,
        memory_sync_typed, memory_resize_typed, memory_access_typed, memory_ref_count_typed
      |intros x Hx; repeat match goal with x : _ * _ |- _ => destruct x end; by apply pres_ret]).
Qed.

Lemma run_program_typed p :
  program_typed p -> preserves world_typed (run_program p) (Forall reply_typed).
Proof.
  induction p as [|k next IH]; intros Hp; cbn [run_program].
  - by apply pres_ret.
  - destruct Hp as [Hk Hnext]. eapply pres_bind; [by apply perform_typed|]. intros r Hr.
    eapply pres_bind; [by apply IH, Hnext|]. intros rs Hrs. apply pres_ret. by constructor.
Qed.
End programs.

(** Every program over the public interface, whatever it does with the replies
    and however its calls end, keeps all values within their C types: counters,
    sizes, offsets and addresses within 64 bits, the reference count within 32,
    names within their buffers, object sizes within [off_t]; names, descriptors
    and mapped pages keep designating objects that exist; and every reply (a
    claim's identifier, a handle, the information on a memory, a reference count)
    has its type.  This holds for every schedule of failures, every behaviour of
    the user's callbacks and every contents of the shared memory. *)
Theorem programs_typed {E : Env} nd (p : program) (w : world) :
  program_typed p -> world_typed w ->
  match run_program nd p w with
  | Ret rs w' => world_typed w' /\ Forall reply_typed rs
  | Abort w' | Hang w' => world_typed w'
  | Undef => True
  end.
Proof. intros Hp Hw. by apply (run_program_typed nd p Hp w). Qed.

(** Creates a memory, claims a region of it twice over, gives the first claim back,
    grows the memory and closes it. *)
Definition demo_program : @program linux :=
  Then (Create context 5000 "demo" IPM_ACCESS_MODE_READ_WRITE) (fun r =>
  match r with
  | Handle _ (Some m) =>
      Then (Claim [] m IPM_ACCESS_MODE_READ_WRITE 0 100) (fun r1 =>
      match r1 with
      | Claimed _ (Some id) =>
          Then (Claim [] m IPM_ACCESS_MODE_READ_ONLY 200 100) (fun _ =>
          Then (Release m id) (fun _ =>
          Then (Resize m 20000) (fun r2 =>
          match r2 with
          | Handle _ (Some m') => Then (Get_info m') (fun _ => Then (Close m') (fun _ => Stop))
          | _ => Stop
          end)))
      | _ => Stop
      end)
  | _ => Stop
  end).

Lemma demo_program_typed : program_typed demo_program.
Proof.
  split; [split; [lia|done]|]. intros [| | |r [m|]| |] Hm; try done.
  split; [split_and!; (done || (split; [lia|done]) || constructor)|].
  intros [| |r1 [id|]| | |] Hid; try done.
  split; [split_and!; (done || (split; [lia|done]) || constructor)|]. intros _ _.
  split; [done|]. intros _ _. split; [split; [split; [lia|done]|done]|].
  intros [| | |r2 [m'|]| |] Hm'; try done.
Qed.

Lemma boot_typed tid : world_typed (boot tid).
Proof. split; cbn; intros ? ? H; by rewrite lookup_empty in H. Qed.

Definition returns {S A} (o : outcome S A) : bool := match o with Ret _ _ => true | _ => false end.

Lemma programs_typed_witness :
  exists w', final (run_program true demo_program (boot 1)) = Some w' /\ world_typed w'.
Proof.
  pose proof (programs_typed true demo_program (boot 1) demo_program_typed (boot_typed 1)) as H.
  assert (returns (run_program true demo_program (boot 1)) = true) as Hr by (vm_compute; reflexivity).
  destruct (run_program true demo_program (boot 1)) as [rs w'|w'| |w']; [|discriminate Hr..].
  exists w'. split; [reflexivity|apply H].
Defined.
