(* ===== verification/Regions.v ===== *)
(** * Claiming and releasing regions

    Theorems about [ipm_memory_claim_region], [ipm_memory_release_region],
    [ipm_memory_release_all] and [ipm_memory_remove_all_active_claims], from the
    lemmas of files [Claims] and [Memory].  The first half follows a claim through its
    waiting, one lemma for each way it can go. *)

From S2P Require Import Prelude Errors Pthread Platform Claims Common Names World SharedMemory Memory Machine.

(** ** A handle in use *)

Section regions.
Context {E : Env}.
Variable NDEBUG : bool.
Implicit Types (w : world) (m : ipm_memory) (l : ipm_claim_list).

(** The claim list of handle [m] is mapped in [w] as object [o] with contents
    [ob], it is initialised and its mutex free, and no failures are scheduled. *)
Record usable w m (o : nat) (ob : shm_object) : Prop := {
  us_list : list_mapped w (b_memory (active_claims m)) o ob;
  us_addr : b_memory (active_claims m) <> NULL;
  us_ready : ready (so_list ob);
  us_faults : t_faults (w_thread w) = []
}.

(** The claim a call asks for. *)
Definition request m l (a : ipm_access_mode) (off n : Z) : ipm_memory_claim :=
  mk_claim (claim_counter l) (b_access_id (real_memory m)) a off n.

(** The guards of [ipm_memory_claim_region]. *)
Definition permitted m (a : ipm_access_mode) (off n : Z) : bool :=
  (is_writable (b_access_mode (real_memory m)) || negb (is_writable a)) &&
  (wrap64 (off + n) <=? b_size (real_memory m)).

(** The list as the waiting loop first sees it: locked, the identifier taken. *)
Definition asked (tid : Z) l : ipm_claim_list :=
  set_counter (wrap64 (claim_counter l + 1)) (set_mutex (mutex_of (Held tid)) l).

Lemma asked_locked tid l : ready l -> locked tid (asked tid l).
Proof. intros ([? ? ?] & _ & ?). by split_and!. Qed.

Lemma lock_run w m o ob :
  usable w m o ob ->
  on_list (b_memory (active_claims m)) (on_mutex ipm_mutex_lock) w =
  Ret IPM_RESULT_SUCCESS
    (with_list w o ob (w_thread w) (set_mutex (mutex_of (Held (t_tid (w_thread w)))) (so_list ob))).
Proof.
  intros [Hl _ (_ & Hm & _) Hf]. rewrite <- (with_list_init _ _ _ _ Hl) at 1.
  apply (on_list_wl _ _ _ _ Hl). rewrite lock_list_run by auto with ipm.
  by rewrite thread_after_call_nil.
Qed.

Lemma unlock_run w m o ob l :
  usable w m o ob -> list_mutex l = mutex_of (Held (t_tid (w_thread w))) ->
  on_list (b_memory (active_claims m)) (on_mutex ipm_mutex_unlock) (with_list w o ob (w_thread w) l) =
  Ret IPM_RESULT_SUCCESS (with_list w o ob (w_thread w) (set_mutex (mutex_of Free) l)).
Proof.
  intros [Hl _ _ Hf] Hm. apply (on_list_wl _ _ _ _ Hl). rewrite unlock_list_run by auto with ipm.
  by rewrite thread_after_call_nil.
Qed.

(** Everything but the user's state and the thread's [errno] is as it was. *)
Definition reported w w' : Prop :=
  exists t u, w' = set_user u (set_thread t w) /\ same_thread (w_thread w) t.

(** The call once the mutex is locked, from the end of the waiting loop on. *)
Definition after_waiting m c (waited : option ipm_result) : M world (ipm_result * option Z) :=
  let list := b_memory (active_claims m) in
  let at_line n := in_mem n "ipm_memory_claim_region" in
  match waited with
  | Some res =>
      _ ← IPM_ERROR (ctx m) ("Could not wait on condition variable, reason: " +:+ reason res) (at_line 259);
      _ ← on_list list (on_mutex ipm_mutex_unlock);
      mret (IPM_RESULT_SUCCESS, None)
  | None =>
      res ← on_list list (claim_add_to_list NDEBUG c);
      _ ← on_list list (on_mutex ipm_mutex_unlock);
      _ ← (if negb (ok res)
           then IPM_ERROR (ctx m) ("Could not add memory claim to list, reason: " +:+ reason res) (at_line 270)
           else mret tt);
      mret (res, Some (claim_id c))
  end.

(** The list once an identifier is taken. *)
Definition counted l : ipm_claim_list := set_counter (wrap64 (claim_counter l + 1)) l.

Lemma counted_locked tid l : locked tid l -> locked tid (counted l).
Proof. intros ([? ? ?] & ? & ?). by split_and!. Qed.

(** The call on the claim list of a handle, whatever state its mutex is in. *)
Section entering.
Variables (wakes : list (ipm_claim_list -> ipm_claim_list)) (m : ipm_memory) (a : ipm_access_mode) (off n : Z).
Variables (w : world) (o : nat) (ob : shm_object).
Hypothesis Hl : list_mapped w (b_memory (active_claims m)) o ob.
Hypothesis Hnull : b_memory (active_claims m) <> NULL.
Hypothesis Hn : NDEBUG = true \/ 0 < n.
Hypothesis Hp : permitted m a off n = true.

Let lock : outcome (thread * ipm_claim_list) ipm_result := on_mutex ipm_mutex_lock (w_thread w, so_list ob).

Lemma claim_region_unlocked r t1 l1 :
  lock = Ret r (t1, l1) -> r <> IPM_RESULT_SUCCESS ->
  exists w', ipm_memory_claim_region NDEBUG wakes m a off n w = Ret (r, None) w' /\
    reported (with_list w o ob t1 l1) w'.
Proof using Hl Hnull Hn Hp.
  intros Hlock Hr. apply andb_true_iff in Hp as [Hacc Hsize]. unfold ipm_memory_claim_region.
  erewrite bind_Ret by (destruct Hn as [->|]; [apply cassert_ndebug|apply cassert_true; lia]).
  replace (negb _ && _) with false by (destruct (is_writable a), (is_writable _); done).
  rewrite (proj2 (Z.ltb_ge _ _)) by lia.
  erewrite bind_Ret by (apply cassert_true; by rewrite (proj2 (Z.eqb_neq _ _))).
  erewrite bind_Ret by (rewrite <- (with_list_init _ _ _ _ Hl) at 1; apply (on_list_wl _ _ _ _ Hl); exact Hlock).
  unfold ok. rewrite bool_decide_false by done. cbn [negb].
  match goal with |- context [IPM_ERROR ?c ?msg ?s] =>
    destruct (on_user_report c msg s (with_list w o ob t1 l1)) as (t & u & Hrep & Ht) end.
  erewrite bind_Ret by exact Hrep. eexists. split; [reflexivity|]. by exists t, u.
Qed.

Lemma claim_region_blocked s :
  lock = Hang s -> exists w', ipm_memory_claim_region NDEBUG wakes m a off n w = Hang w'.
Proof using Hl Hnull Hn Hp.
  intros Hlock. apply andb_true_iff in Hp as [Hacc Hsize]. unfold ipm_memory_claim_region.
  erewrite bind_Ret by (destruct Hn as [->|]; [apply cassert_ndebug|apply cassert_true; lia]).
  replace (negb _ && _) with false by (destruct (is_writable a), (is_writable _); done).
  rewrite (proj2 (Z.ltb_ge _ _)) by lia.
  erewrite bind_Ret by (apply cassert_true; by rewrite (proj2 (Z.eqb_neq _ _))).
  destruct s as [t l]. pose proof (on_list_wl_hang _ _ _ _ Hl _ _ _ _ Hlock) as Hh.
  rewrite (with_list_init _ _ _ _ Hl) in Hh. unfold mbind at 1, M_bind at 1. rewrite Hh. by eexists.
Qed.

Lemma claim_region_waits t1 l1 :
  lock = Ret IPM_RESULT_SUCCESS (t1, l1) ->
  let c := request m l1 a off n in
  ipm_memory_claim_region NDEBUG wakes m a off n w =
  (on_list (b_memory (active_claims m)) (claim_wait c wakes) ≫= after_waiting m c)
    (with_list w o ob t1 (counted l1)).
Proof using Hl Hnull Hn Hp.
  intros Hlock c. apply andb_true_iff in Hp as [Hacc Hsize]. unfold ipm_memory_claim_region.
  erewrite bind_Ret by (destruct Hn as [->|]; [apply cassert_ndebug|apply cassert_true; lia]).
  replace (negb _ && _) with false by (destruct (is_writable a), (is_writable _); done).
  rewrite (proj2 (Z.ltb_ge _ _)) by lia.
  erewrite bind_Ret by (apply cassert_true; by rewrite (proj2 (Z.eqb_neq _ _))).
  erewrite bind_Ret by (rewrite <- (with_list_init _ _ _ _ Hl) at 1; apply (on_list_wl _ _ _ _ Hl); exact Hlock).
  unfold ok. rewrite bool_decide_true by done. cbn [negb].
  by erewrite bind_Ret by (apply (on_list_wl _ _ _ _ Hl); reflexivity).
Qed.

(** The claim is added and the mutex unlocked. *)
Lemma claim_region_decided t1 l1 :
  lock = Ret IPM_RESULT_SUCCESS (t1, l1) -> t_faults t1 = [] -> locked (t_tid t1) l1 -> Forall well_behaved wakes ->
  let c := request m l1 a off n in
  match first_grant (t_tid t1) c wakes (counted l1) with
  | Some l =>
      ipm_memory_claim_region NDEBUG wakes m a off n w =
      Ret (IPM_RESULT_SUCCESS, Some (claim_id c)) (with_list w o ob t1 (set_mutex (mutex_of Free) (added c l))) /\
      locked (t_tid t1) l /\ grantable c l = true
  | None => exists w', ipm_memory_claim_region NDEBUG wakes m a off n w = Hang w'
  end.
Proof using Hl Hnull Hn Hp.
  intros Hlock Hf Hlk Hwb c. rewrite (claim_region_waits _ _ Hlock). fold c.
  pose proof (claim_wait_run t1 c wakes _ Hf (counted_locked _ _ Hlk) Hwb) as Hwait.
  destruct (first_grant _ _ _ _) as [l|].
  - destruct Hwait as (Hr & Hlkl & Hg). split; [|done].
    erewrite bind_Ret by (apply (on_list_wl _ _ _ _ Hl); exact Hr).
    pose proof Hlkl as (Hwf & Hm & _). cbn [after_waiting].
    assert (count l < capacity l).
    { destruct Hwf as [Hc _ _]. unfold grantable in Hg. apply andb_true_iff in Hg as [_ Hg].
      apply negb_true_iff, Z.eqb_neq in Hg. lia. }
    erewrite bind_Ret by (apply (on_list_wl _ _ _ _ Hl); by apply claim_add_run).
    erewrite bind_Ret by (apply (on_list_wl _ _ _ _ Hl), unlock_list_run; [by apply no_faults_nil|done]).
    by rewrite thread_after_call_nil.
  - destruct Hwait as [s Hr]. destruct s as [t l]. eexists. unfold mbind at 1, M_bind at 1.
    by rewrite (on_list_wl_hang _ _ _ _ Hl _ _ _ _ Hr).
Qed.

(** A wait fails, after [k] that did not: the mutex is unlocked, and the call says
    it succeeded. *)
Lemma claim_region_wait_fails t1 l1 k e :
  lock = Ret IPM_RESULT_SUCCESS (t1, l1) -> t_faults t1 = replicate k 0 ++ [e] -> e <> 0 ->
  locked (t_tid t1) l1 -> Forall well_behaved wakes -> (k <= length wakes)%nat ->
  let c := request m l1 a off n in
  (forall j, (j <= k)%nat -> grantable c (looked (t_tid t1) wakes j (counted l1)) = false) ->
  exists t u, ipm_memory_claim_region NDEBUG wakes m a off n w =
      Ret (IPM_RESULT_SUCCESS, None)
        (set_user u (with_list w o ob t (set_mutex (mutex_of Free) (looked (t_tid t1) wakes k (counted l1))))) /\
    t_tid t = t_tid t1 /\ ready (set_mutex (mutex_of Free) (looked (t_tid t1) wakes k (counted l1))).
Proof using Hl Hnull Hn Hp.
  intros Hlock Hf He Hlk Hwb Hk c Hg. rewrite (claim_region_waits _ _ Hlock). fold c.
  destruct (claim_wait_fails t1 c wakes k _ e Hf He (counted_locked _ _ Hlk) Hwb Hk Hg)
    as (r & t2 & Hr & Ht2 & Hf2 & Hlk2).
  erewrite bind_Ret by (apply (on_list_wl _ _ _ _ Hl); exact Hr). cbn [after_waiting].
  set (lk := looked _ _ _ _) in *. pose proof Hlk2 as (_ & Hm2 & _).
  match goal with |- context [IPM_ERROR ?c ?msg ?s] =>
    destruct (on_user_report c msg s (with_list w o ob t2 lk)) as (t3 & u & Hrep & Htid & Hft) end.
  erewrite bind_Ret by exact Hrep.
  change (set_user u (set_thread t3 (with_list w o ob t2 lk))) with (with_list (set_user u w) o ob t3 lk).
  assert (list_mapped (set_user u w) (b_memory (active_claims m)) o ob) as Hl' by (by destruct Hl).
  erewrite bind_Ret.
  2:{ apply (on_list_wl _ _ _ _ Hl'), unlock_list_run.
      - apply no_faults_nil. rewrite Hft. exact Hf2.
      - rewrite Hm2. do 2 f_equal. rewrite <- Ht2. symmetry. exact Htid. }
  eexists _, u. split; [reflexivity|]. split; [|by apply (locked_ready (t_tid t1))].
  rewrite <- Ht2. exact Htid.
Qed.
End entering.

Lemma claim_region_run wakes m a off n w o ob :
  usable w m o ob -> NDEBUG = true \/ 0 < n -> permitted m a off n = true -> Forall well_behaved wakes ->
  let tid := t_tid (w_thread w) in
  let c := request m (so_list ob) a off n in
  match first_grant tid c wakes (asked tid (so_list ob)) with
  | Some l =>
      ipm_memory_claim_region NDEBUG wakes m a off n w =
      Ret (IPM_RESULT_SUCCESS, Some (claim_id c))
        (with_list w o ob (w_thread w) (set_mutex (mutex_of Free) (added c l))) /\
      locked tid l /\ grantable c l = true
  | None => exists w', ipm_memory_claim_region NDEBUG wakes m a off n w = Hang w'
  end.
Proof.
  intros [Hl Hnull Hrdy Hf] Hn Hp Hwb tid c. pose proof Hrdy as (_ & Hm & _).
  apply (claim_region_decided wakes m a off n w o ob Hl Hnull Hn Hp (w_thread w)
           (set_mutex (mutex_of (Held tid)) (so_list ob))); [|done|by apply ready_locked|done].
  rewrite lock_list_run by auto with ipm. by rewrite thread_after_call_nil.
Qed.

(** A refused request reports an error and leaves everything but the user's
    state and [errno] alone. *)
Lemma claim_region_refused wakes m a off n w :
  NDEBUG = true \/ 0 < n -> permitted m a off n = false ->
  exists w', ipm_memory_claim_region NDEBUG wakes m a off n w =
    Ret (if is_writable a && negb (is_writable (b_access_mode (real_memory m)))
         then IPM_RESULT_ERR_BAD_ACCESS else IPM_RESULT_ERR_BAD_VALUE, None) w' /\ reported w w'.
Proof.
  intros Hn Hp. unfold ipm_memory_claim_region.
  erewrite bind_Ret by (destruct Hn as [->|]; [apply cassert_ndebug|apply cassert_true; lia]).
  unfold permitted in Hp. rewrite (andb_comm (is_writable a)).
  destruct (negb (is_writable (b_access_mode (real_memory m))) && is_writable a) eqn:Ha.
  - match goal with |- context [IPM_ERROR ?c ?msg ?s] =>
      destruct (on_user_report c msg s w) as (t & u & Hr & Ht) end.
    erewrite bind_Ret by exact Hr. eexists. split; [reflexivity|]. by exists t, u.
  - assert (is_writable (b_access_mode (real_memory m)) || negb (is_writable a) = true) as Hacc
      by (by destruct (is_writable a), (is_writable _)).
    rewrite Hacc in Hp. cbn [andb] in Hp. rewrite (proj2 (Z.ltb_lt _ _)) by lia.
    match goal with |- context [IPM_ERROR ?c ?msg ?s] =>
      destruct (on_user_report c msg s w) as (t & u & Hr & Ht) end.
    erewrite bind_Ret by exact Hr. eexists. split; [reflexivity|]. by exists t, u.
Qed.

(** *** Releasing *)

Lemma locked_removed p tid l : removed p (set_mutex (mutex_of (Held tid)) l) =
  set_mutex (mutex_of (Held tid)) (removed p l).
Proof. done. Qed.

Lemma set_free_free l : list_mutex l = mutex_of Free -> set_mutex (mutex_of Free) l = l.
Proof. intros <-. apply set_mutex_id. Qed.

Lemma signal_run w m o ob t l :
  list_mapped w (b_memory (active_claims m)) o ob -> t_faults t = [] -> list_cnd l = mk_cond true true ->
  on_list (b_memory (active_claims m)) (on_cnd ipm_condition_signal) (with_list w o ob t l) =
  Ret IPM_RESULT_SUCCESS (with_list w o ob t l).
Proof.
  intros Hl Hf Hc. apply (on_list_wl _ _ _ _ Hl).
  unfold on_cnd. erewrite zoom_Ret.
  2:{ cbn [fst snd]. rewrite Hc. unfold ipm_condition_signal, cond_signal, signal_cond, pthread_cond_signal.
      erewrite bind_Ret by (rewrite pthread_call_run, Hf, thread_after_call_nil by done; reflexivity).
      reflexivity. }
  cbn [fst snd]. do 2 f_equal. rewrite <- Hc. by destruct l.
Qed.

(** The call once the mutex is locked, from the removal on. *)
Definition after_removal m (res : ipm_result) : M world ipm_result :=
  let list := b_memory (active_claims m) in
  _ ← on_list list (on_mutex ipm_mutex_unlock);
  if negb (ok res) then
    _ ← IPM_ERROR (ctx m) ("Could not add memory claim to list, reason: " +:+ reason res)
          (in_mem 295 "ipm_memory_release_region");
    mret res
  else
    _ ← on_list list (on_cnd ipm_condition_signal);
    mret res.

Section giving_back.
Variables (m : ipm_memory) (id : Z) (w : world) (o : nat) (ob : shm_object).
Hypothesis Hl : list_mapped w (b_memory (active_claims m)) o ob.
Hypothesis Hnull : b_memory (active_claims m) <> NULL.

Let lock : outcome (thread * ipm_claim_list) ipm_result := on_mutex ipm_mutex_lock (w_thread w, so_list ob).
Let run : outcome world ipm_result := ipm_memory_release_region NDEBUG m id w.

Lemma release_region_unlocked r t1 l1 :
  lock = Ret r (t1, l1) -> r <> IPM_RESULT_SUCCESS ->
  exists w', run = Ret r w' /\ reported (with_list w o ob t1 l1) w'.
Proof using Hl Hnull.
  intros Hlock Hr. unfold run, ipm_memory_release_region.
  erewrite bind_Ret by (apply cassert_true; by rewrite (proj2 (Z.eqb_neq _ _))).
  erewrite bind_Ret by (rewrite <- (with_list_init _ _ _ _ Hl) at 1; apply (on_list_wl _ _ _ _ Hl); exact Hlock).
  unfold ok. rewrite bool_decide_false by done. cbn [negb].
  match goal with |- context [IPM_ERROR ?c ?msg ?s] =>
    destruct (on_user_report c msg s (with_list w o ob t1 l1)) as (t & u & Hrep & Ht) end.
  erewrite bind_Ret by exact Hrep. eexists. split; [reflexivity|]. by exists t, u.
Qed.

Lemma release_region_blocked s : lock = Hang s -> exists w', run = Hang w'.
Proof using Hl Hnull.
  intros Hlock. unfold run, ipm_memory_release_region.
  erewrite bind_Ret by (apply cassert_true; by rewrite (proj2 (Z.eqb_neq _ _))).
  destruct s as [t l]. pose proof (on_list_wl_hang _ _ _ _ Hl _ _ _ _ Hlock) as Hh.
  rewrite (with_list_init _ _ _ _ Hl) in Hh. unfold mbind at 1, M_bind at 1. rewrite Hh. by eexists.
Qed.

Section holding.
Variables (t1 : thread) (l1 : ipm_claim_list).
Hypothesis Hlock : lock = Ret IPM_RESULT_SUCCESS (t1, l1).
Hypothesis Hlk : locked (t_tid t1) l1.

Lemma release_region_removes :
  run = (on_list (b_memory (active_claims m)) (claim_remove_from_list NDEBUG id) ≫= after_removal m)
    (with_list w o ob t1 l1).
Proof using Hl Hnull Hlock.
  unfold run, ipm_memory_release_region.
  erewrite bind_Ret by (apply cassert_true; by rewrite (proj2 (Z.eqb_neq _ _))).
  erewrite bind_Ret by (rewrite <- (with_list_init _ _ _ _ Hl) at 1; apply (on_list_wl _ _ _ _ Hl); exact Hlock).
  unfold ok at 1. by rewrite bool_decide_true by done.
Qed.

Lemma release_region_removed :
  t_faults t1 = [] -> NDEBUG = true \/ count l1 < capacity l1 -> id ∈ map claim_id (visible l1) ->
  run = Ret IPM_RESULT_SUCCESS
    (with_list w o ob t1 (set_mutex (mutex_of Free) (removed (rem_pos id (visible l1)) l1))).
Proof using Hl Hnull Hlock Hlk.
  intros Hf Hnd Hid. rewrite release_region_removes. destruct Hlk as (Hwf & Hm & Hc).
  pose proof (rem_pos_lt _ _ Hid) as Hp. rewrite length_visible in Hp by done.
  erewrite bind_Ret.
  2:{ apply (on_list_wl _ _ _ _ Hl). apply claim_remove_run; [done|lia|done|by apply rem_pos_lt]. }
  unfold after_removal.
  erewrite bind_Ret by (apply (on_list_wl _ _ _ _ Hl), unlock_list_run; [by apply no_faults_nil|done]).
  rewrite thread_after_call_nil by done. unfold ok. rewrite bool_decide_true by done. cbn [negb].
  by erewrite bind_Ret by (by apply signal_run).
Qed.

Lemma release_region_unknown :
  NDEBUG = true \/ count l1 < capacity l1 -> 0 < count l1 -> id ∉ map claim_id (visible l1) -> run = Undef.
Proof using Hl Hnull Hlock Hlk.
  intros Hnd Hpos Hid. rewrite release_region_removes. destruct Hlk as (Hwf & Hm & Hc).
  unfold mbind at 1, M_bind at 1.
  rewrite (on_list_wl_undef _ _ _ _ Hl); [done|]. apply claim_remove_unknown; [done..|].
  apply Forall_forall. intros c Hcv <-. apply Hid, list_elem_of_fmap. eauto.
Qed.

Lemma release_region_asserts :
  NDEBUG = false -> count l1 = 0 \/ count l1 = capacity l1 ->
  run = Abort (with_list w o ob t1 (set_count (wrap64 (count l1 - 1)) l1)).
Proof using Hl Hnull Hlock Hlk.
  intros Hnd Hcnt. rewrite release_region_removes. destruct Hlk as ([Hc Hs Hw] & _).
  assert (claim_remove_from_list NDEBUG id (t1, l1) = Abort (t1, set_count (wrap64 (count l1 - 1)) l1)) as Hr.
  { unfold claim_remove_from_list, fetch_sub_count, get_list. rewrite Hnd.
    unfold mbind, M_bind; simpl. rewrite wrap32_small by word.
    replace (_ && _) with false; [done|]. symmetry. apply andb_false_iff.
    destruct Hcnt; [right|left]; apply Z.ltb_ge; lia. }
  unfold mbind at 1, M_bind at 1. by rewrite (on_list_wl_abort _ _ _ _ Hl _ _ _ _ Hr).
Qed.

Lemma release_region_empty :
  NDEBUG = true -> t_faults t1 = [] -> count l1 = 0 ->
  exists w', run = Ret IPM_RESULT_ERR_INVALID_CLAIM w' /\
    reported (with_list w o ob t1 (set_mutex (mutex_of Free) (set_count (2 ^ 64 - 1) l1))) w'.
Proof using Hl Hnull Hlock Hlk.
  intros Hnd Hf H0. rewrite release_region_removes. destruct Hlk as (Hwf & Hm & Hc).
  erewrite bind_Ret.
  2:{ apply (on_list_wl _ _ _ _ Hl). unfold claim_remove_from_list, fetch_sub_count, get_list. rewrite Hnd.
      unfold mbind, M_bind; simpl. rewrite H0. reflexivity. }
  unfold after_removal.
  erewrite bind_Ret by (apply (on_list_wl _ _ _ _ Hl), unlock_list_run; [by apply no_faults_nil|exact Hm]).
  rewrite thread_after_call_nil by done. unfold ok. rewrite bool_decide_false by done. cbn [negb].
  match goal with |- context [IPM_ERROR ?c ?msg ?s] =>
    destruct (on_user_report c msg s (with_list w o ob t1 (set_mutex (mutex_of Free) (set_count (2 ^ 64 - 1) l1))))
      as (t & u & Hr & Ht) end.
  erewrite bind_Ret by exact Hr. eexists. split; [reflexivity|]. by exists t, u.
Qed.
End holding.
End giving_back.

(** Locking a free mutex when no failures are scheduled. *)
Lemma usable_lock w m o ob :
  usable w m o ob ->
  let l1 := set_mutex (mutex_of (Held (t_tid (w_thread w)))) (so_list ob) in
  on_mutex ipm_mutex_lock (w_thread w, so_list ob) = Ret IPM_RESULT_SUCCESS (w_thread w, l1) /\
  locked (t_tid (w_thread w)) l1.
Proof.
  intros [_ _ Hrdy Hf] l1. pose proof Hrdy as (_ & Hm & _). split; [|by apply ready_locked].
  rewrite lock_list_run by auto with ipm. by rewrite thread_after_call_nil.
Qed.

Lemma release_region_run m id w o ob :
  let l := so_list ob in
  usable w m o ob -> NDEBUG = true \/ count l < capacity l -> id ∈ map claim_id (visible l) ->
  ipm_memory_release_region NDEBUG m id w =
  Ret IPM_RESULT_SUCCESS (with_list w o ob (w_thread w) (removed (rem_pos id (visible l)) l)).
Proof.
  intros l Hu Hnd Hid. destruct (usable_lock _ _ _ _ Hu) as [Hlock Hlk]. destruct Hu as [Hl Hnull (_ & Hm & _) Hf].
  rewrite (release_region_removed m id w o ob Hl Hnull _ _ Hlock Hlk Hf Hnd Hid).
  change (visible (set_mutex _ ?x)) with (visible x). rewrite locked_removed, set_mutex_set.
  by rewrite set_free_free.
Qed.

(** What [ipm_memory_release_region] does to a list when there is nothing to
    release, in a build without assertions: the count wraps around. *)
Lemma release_nothing_run m id w o ob :
  NDEBUG = true -> usable w m o ob -> count (so_list ob) = 0 ->
  exists w', ipm_memory_release_region NDEBUG m id w = Ret IPM_RESULT_ERR_INVALID_CLAIM w' /\
    reported (with_list w o ob (w_thread w) (set_count (2 ^ 64 - 1) (so_list ob))) w'.
Proof.
  intros Hnd Hu H0. destruct (usable_lock _ _ _ _ Hu) as [Hlock Hlk]. destruct Hu as [Hl Hnull (_ & Hm & _) Hf].
  destruct (release_region_empty m id w o ob Hl Hnull _ _ Hlock Hlk Hnd Hf H0) as (w' & Hr & Hrep).
  exists w'. split; [exact Hr|]. revert Hrep. rewrite <- (set_free_free (so_list ob) Hm) at 2. done.
Qed.

(** Both bulk operations lock the list, run a loop that keeps the
    synchronisation objects, and unlock it. *)
Lemma bulk_run m w o ob (loop : LM unit) (err : ipm_result -> M world ipm_result) l' :
  usable w m o ob ->
  loop (w_thread w, set_mutex (mutex_of (Held (t_tid (w_thread w)))) (so_list ob)) = Ret tt (w_thread w, l') ->
  list_mutex l' = mutex_of (Held (t_tid (w_thread w))) ->
  (res ← on_list (b_memory (active_claims m)) (on_mutex ipm_mutex_lock);
   if negb (ok res) then err res
   else
     _ ← on_list (b_memory (active_claims m)) loop;
     _ ← on_list (b_memory (active_claims m)) (on_mutex ipm_mutex_unlock);
     mret res) w =
  Ret IPM_RESULT_SUCCESS (with_list w o ob (w_thread w) (set_mutex (mutex_of Free) l')).
Proof.
  intros Hu Hloop Hm. pose proof Hu as [Hl _ _ _].
  erewrite bind_Ret by (by apply lock_run). unfold ok. rewrite (bool_decide_true (_ = _)) by done. cbn [negb].
  erewrite bind_Ret by (apply (on_list_wl _ _ _ _ Hl); exact Hloop).
  by erewrite bind_Ret by (by apply unlock_run).
Qed.

Lemma memory_release_all_run m w o ob :
  let l := so_list ob in
  let proc := b_access_id (real_memory m) in
  usable w m o ob -> count l < 2 ^ 31 -> NDEBUG = true \/ count l < capacity l ->
  exists l', ipm_memory_release_all NDEBUG m w =
    Ret IPM_RESULT_SUCCESS (with_list w o ob (w_thread w) l') /\
    ready l' /\ capacity l' = capacity l /\ claim_counter l' = claim_counter l /\
    visible l' ⊆ visible l /\ count l' <= count l /\ claims l' ⊆ claims l /\
    (ids_of_one_process (visible l) -> Forall (fun d => proc_id d <> proc) (visible l')).
Proof.
  intros l proc Hu Hmax Hnd. pose proof Hu as [Hl Hnull (Hwf & Hm & Hc) Hf].
  destruct (release_all_run NDEBUG proc (w_thread w)
              (set_mutex (mutex_of (Held (t_tid (w_thread w)))) l))
    as (l' & Hr & Hwf' & (Hm' & Hc' & Hcap & Hctr) & Hsub & Hcnt & Hslots & Hall); [by destruct Hwf|done..|].
  exists (set_mutex (mutex_of Free) l'). split_and!; try done.
  - unfold ipm_memory_release_all. by apply bulk_run.
  - split_and!; [by destruct Hwf'|done|simpl; by rewrite Hc'].
Qed.

Lemma memory_remove_all_run m w o ob :
  let l := so_list ob in
  usable w m o ob -> NDEBUG = true \/ count l < capacity l ->
  exists l', ipm_memory_remove_all_active_claims NDEBUG m w =
    Ret IPM_RESULT_SUCCESS (with_list w o ob (w_thread w) l') /\
    ready l' /\ capacity l' = capacity l /\ claim_counter l' = claim_counter l /\ visible l' = [] /\
    claims l' ⊆ claims l.
Proof.
  intros l Hu Hnd. pose proof Hu as [Hl Hnull (Hwf & Hm & Hc) Hf].
  destruct (remove_all_loop_run NDEBUG (Z.to_nat (count l)) (w_thread w)
              (set_mutex (mutex_of (Held (t_tid (w_thread w)))) l))
    as (l' & Hr & Hwf' & H0 & (Hm' & Hc' & Hcap & Hctr) & Hslots); [by destruct Hwf|done..|].
  exists (set_mutex (mutex_of Free) l'). split_and!; try done.
  - unfold ipm_memory_remove_all_active_claims. apply bulk_run; try done.
  - split_and!; [by destruct Hwf'|done|simpl; by rewrite Hc'].
  - unfold visible. simpl. rewrite H0. done.
Qed.
End regions.

(** ** Consequences for the claims *)

Section claims.
Context {E : Env}.
Implicit Types (w : world) (m : ipm_memory) (l : ipm_claim_list) (c d : ipm_memory_claim).

Lemma usable_with_list w m o ob l :
  usable w m o ob -> ready l -> usable (with_list w o ob (w_thread w) l) m o (set_so_list l ob).
Proof. intros [Hl ? ? ?] Hr. split; try done. by apply with_list_mapped. Qed.

Lemma first_grant_grantable tid c wakes l l' :
  first_grant tid c wakes l = Some l' -> grantable c l' = true.
Proof.
  revert l. induction wakes as [|f wakes IH]; intros l; simpl;
    destruct (grantable c l) eqn:Hg; intros Heq; simplify_eq; try done. by eapply IH.
Qed.

Lemma grantable_no_conflict c l d :
  grantable c l = true -> d ∈ visible l -> claims_conflict c d = false.
Proof.
  unfold grantable. intros [Hall _]%andb_true_iff Hd. rewrite forallb_forall in Hall.
  apply negb_true_iff, Hall. by apply list_elem_of_In.
Qed.

Lemma grantable_room c l : list_wf l -> grantable c l = true -> count l < capacity l.
Proof.
  intros [Hc _ _]. unfold grantable. intros [_ Hg]%andb_true_iff.
  apply negb_true_iff, Z.eqb_neq in Hg. lia.
Qed.

Lemma added_ready tid c l :
  locked tid l -> count l < capacity l -> ready (set_mutex (mutex_of Free) (added c l)).
Proof.
  intros (Hwf & _ & Hc) Hlt. destruct (added_wf c l Hwf Hlt). by split_and!.
Qed.

(** No two claims of different processes overlap unless both only read. *)
Definition exclusive (v : list ipm_memory_claim) : Prop :=
  forall c d, c ∈ v -> d ∈ v -> ~ region_conflict c d.

Lemma region_conflict_irrefl c : ~ region_conflict c c.
Proof. intros (H & _). done. Qed.

Lemma region_conflict_sym c d : region_conflict c d -> region_conflict d c.
Proof.
  intros (Hp & Hw & b & Hc & Hd). split_and!; [congruence|tauto|by exists b].
Qed.

(** A claim of no bytes conflicts with nothing. *)
Lemma region_conflict_empty c d : size c <= 0 -> ~ region_conflict c d.
Proof. intros Hs (_ & _ & b & Hc & _). unfold covers in Hc. lia. Qed.

(** A claim that the code grants next to [d] is not in conflict with it. *)
Lemma no_conflict_region c d :
  claim_ok c -> claim_ok d -> claims_conflict c d = false -> ~ region_conflict c d.
Proof.
  intros Hc Hd Hf (Hp & Hw & _). destruct (claims_conflict_false c d Hc Hd Hf) as [?|[? ?]]; tauto.
Qed.

Lemma elem_visible_added c v sp d :
  d ∈ visible_added c v sp -> d = c \/ d ∈ v \/ (d = sp /\ ins_pos c v <> length v).
Proof.
  unfold visible_added. case_decide as Hp; rewrite elem_of_app.
  - intros [H|H]; [auto|]. left. by apply list_elem_of_singleton.
  - rewrite elem_of_cons, elem_of_app, list_elem_of_singleton.
    intros [H|[->|[H| ->]]]; auto.
    + right; left. eapply elem_of_submseteq; [exact H|]. apply sublist_submseteq, sublist_take.
    + right; left. eapply elem_of_submseteq; [exact H|]. apply sublist_submseteq.
      etransitivity; [apply sublist_take|apply sublist_drop].
Qed.

Lemma exclusive_added c v sp :
  claim_ok c -> Forall claim_ok v -> exclusive v ->
  Forall (fun d => claims_conflict c d = false) v ->
  ins_pos c v = length v \/ size sp <= 0 ->
  exclusive (visible_added c v sp).
Proof.
  intros Hc Hv Hex Hno Hsp. rewrite !Forall_forall in *.
  assert (forall d, d ∈ visible_added c v sp -> d ∈ c :: v \/ size d <= 0) as Hin.
  { intros d [->|[Hd|[-> Hne]]]%elem_visible_added; [left; left|left; by right|right; tauto]. }
  assert (forall d, d ∈ v -> ~ region_conflict c d) as Hcd.
  { intros d Hd. apply no_conflict_region; auto. }
  intros d1 d2 [H1|H1]%Hin [H2|H2]%Hin; try by apply region_conflict_empty.
  - apply elem_of_cons in H1 as [->|H1]; apply elem_of_cons in H2 as [->|H2]; auto using region_conflict_irrefl.
    intros Hr%region_conflict_sym. by apply (Hcd _ H1).
  - intros Hr%region_conflict_sym. by apply region_conflict_empty in Hr.
Qed.
End claims.

(** ** The demonstration memory *)

Lemma demo_usable : usable demo_world demo_memory 0 demo_object.
Proof.
  split; [split; vm_compute; reflexivity|vm_compute; congruence| |vm_compute; reflexivity].
  split_and!; [|vm_compute; reflexivity..].
  split; [vm_compute; split; congruence|vm_compute; congruence|vm_compute; reflexivity].
Qed.

(** The demonstration memory with given claims in its list. *)
Definition demo_list (cs : list ipm_memory_claim) : ipm_claim_list :=
  mk_list (mutex_of Free) (mk_cond true true) (Z.of_nat (length cs)) 99 (Z.of_nat (length cs))
    (resize 99 zero_claim cs).
Definition demo_with (cs : list ipm_memory_claim) : world :=
  with_list demo_world 0 demo_object (w_thread demo_world) (demo_list cs).
Definition demo_object_with (cs : list ipm_memory_claim) : shm_object :=
  set_so_list (demo_list cs) demo_object.

Lemma demo_with_usable cs :
  (length cs <= 99)%nat -> usable (demo_with cs) demo_memory 0 (demo_object_with cs).
Proof.
  intros Hlen. refine (usable_with_list demo_world demo_memory 0 demo_object (demo_list cs) demo_usable _).
  split_and!; [|reflexivity..]. split; cbn [demo_list count capacity claims]; rewrite ?length_resize; word.
Qed.
Definition demo_claim (id proc : Z) (a : ipm_access_mode) (off n : Z) : ipm_memory_claim :=
  mk_claim id proc a off n.

(** ** Theorems *)

(** C3. Claiming a region, branch by branch, on a handle whose claim list is mapped.
    An empty region makes a build with assertions abort.  A request the handle does
    not permit (a write claim on a read-only handle, or a region whose end, as a
    64-bit number, lies behind the block) returns [IPM_RESULT_ERR_BAD_ACCESS] or
    [IPM_RESULT_ERR_BAD_VALUE] and changes nothing but the user's state and [errno].
    If the list's mutex cannot be locked, the call reports and returns what
    [ipm_mutex_lock] said, and takes neither an identifier nor a claim; it hangs if
    locking hangs.  Once the mutex is locked, on a consistent list, the call sleeps
    as long as the other processes leave a conflicting claim or a full list behind,
    forever if they always do; in the first state with neither it succeeds with the
    identifier it took from the claim counter, the claim is active, it conflicts with
    no claim active at that moment, and the list is consistent and unlocked.  If a
    wait fails instead, after any number of sleeps, the call leaves the list as it is
    at that moment, consistent and unlocked, without a claim and with the identifier
    used up, and yet returns [IPM_RESULT_SUCCESS], without an identifier. *)
Theorem claim_region_functional {E : Env} nd wakes m a off n w o ob :
  list_mapped w (b_memory (active_claims m)) o ob -> b_memory (active_claims m) <> NULL ->
  let run := ipm_memory_claim_region nd wakes m a off n w in
  let lock := on_mutex ipm_mutex_lock (w_thread w, so_list ob) in
  (nd = false -> n <= 0 -> run = Abort w) /\
  (nd = true \/ 0 < n -> permitted m a off n = false ->
   exists w', run =
     Ret (if is_writable a && negb (is_writable (b_access_mode (real_memory m)))
          then IPM_RESULT_ERR_BAD_ACCESS else IPM_RESULT_ERR_BAD_VALUE, None) w' /\ reported w w') /\
  (nd = true \/ 0 < n -> permitted m a off n = true ->
   (forall s, lock = Hang s -> exists w', run = Hang w') /\
   (forall r t1 l1, lock = Ret r (t1, l1) -> r <> IPM_RESULT_SUCCESS ->
    exists w', run = Ret (r, None) w' /\ reported (with_list w o ob t1 l1) w') /\
   (forall t1 l1, lock = Ret IPM_RESULT_SUCCESS (t1, l1) ->
    locked (t_tid t1) l1 -> Forall well_behaved wakes ->
    let c := request m l1 a off n in
    (t_faults t1 = [] ->
     match first_grant (t_tid t1) c wakes (counted l1) with
     | None => exists w', run = Hang w'
     | Some l => exists l',
         run = Ret (IPM_RESULT_SUCCESS, Some (claim_counter l1)) (with_list w o ob t1 l') /\
         ready l' /\ count l' = count l + 1 /\
         visible l' = visible_added c (visible l) (spare l) /\ c ∈ visible l' /\
         Forall (fun d => claims_conflict c d = false) (visible l)
     end) /\
    (forall k e, t_faults t1 = replicate k 0 ++ [e] -> e <> 0 -> (k <= length wakes)%nat ->
     (forall j, (j <= k)%nat -> grantable c (looked (t_tid t1) wakes j (counted l1)) = false) ->
     let l' := set_mutex (mutex_of Free) (looked (t_tid t1) wakes k (counted l1)) in
     exists t u, run = Ret (IPM_RESULT_SUCCESS, None) (set_user u (with_list w o ob t l')) /\
       t_tid t = t_tid t1 /\ ready l'))).
Proof.
  intros Hl Hnull run lock. split_and!.
  - intros -> Hn. unfold run, ipm_memory_claim_region. apply bind_Abort. unfold cassert. simpl.
    by rewrite (proj2 (Z.ltb_ge _ _)).
  - intros Hn. by apply claim_region_refused.
  - intros Hn Hp. split_and!.
    + intros s Hs. by eapply claim_region_blocked.
    + intros r t1 l1 Hs Hr. by eapply claim_region_unlocked.
    + intros t1 l1 Hs Hlk Hwb c. split; [|intros k e Hf He Hk Hg l'; by eapply claim_region_wait_fails].
      intros Hf. pose proof (claim_region_decided nd wakes m a off n w o ob Hl Hnull Hn Hp t1 l1 Hs Hf Hlk Hwb) as Hrun.
      cbn zeta in Hrun. fold c run in Hrun. destruct (first_grant (t_tid t1) c wakes (counted l1)) as [l|]; [|done].
      destruct Hrun as (Hr & Hlkl & Hg). pose proof Hlkl as (Hwf & _ & _).
      pose proof (grantable_room _ _ Hwf Hg) as Hlt. pose proof (visible_added_eq c l Hwf Hlt) as Hv.
      exists (set_mutex (mutex_of Free) (added c l)). split_and!; [done|by eapply added_ready|done|done| |].
      * change (c ∈ visible (added c l)). rewrite Hv. unfold visible_added.
        case_decide; rewrite elem_of_app, ?elem_of_cons, ?list_elem_of_singleton; auto.
      * apply Forall_forall. intros d Hd. by eapply grantable_no_conflict.
Qed.

(** Another process that releases the claim it held while this one sleeps. *)
Definition release_last : ipm_claim_list -> ipm_claim_list := fun l =>
  if 0 <? count l then removed (Z.to_nat (count l) - 1) l else l.

Lemma release_last_well_behaved : well_behaved release_last.
Proof.
  intros l (Hwf & Hm & Hc). unfold release_last. destruct (Z.ltb_spec 0 (count l)); [|done].
  split_and!; [apply removed_wf; [done|lia]|done|done].
Qed.

Definition demo_reader : list ipm_memory_claim := [demo_claim 0 2 IPM_ACCESS_MODE_READ_ONLY 0 64].

(** The demonstration process with a failure scheduled for the wait, and one that
    another process keeps from locking. *)
Definition demo_faulty : world := set_thread (mk_thread 1 0 [0; EINVAL]) (demo_with demo_reader).

Lemma claim_region_functional_witness :
  (exists l', ipm_memory_claim_region false [release_last] demo_memory IPM_ACCESS_MODE_READ_WRITE 16 8
                (demo_with demo_reader) =
              Ret (IPM_RESULT_SUCCESS, Some 1)
                (with_list (demo_with demo_reader) 0 (demo_object_with demo_reader)
                   (w_thread (demo_with demo_reader)) l') /\ count l' = 1) /\
  (exists t u l', ipm_memory_claim_region false [] demo_memory IPM_ACCESS_MODE_READ_WRITE 16 8 demo_faulty =
      Ret (IPM_RESULT_SUCCESS, None) (set_user u (with_list demo_faulty 0 (demo_object_with demo_reader) t l')) /\
    ready l').
Proof.
  pose proof (demo_with_usable demo_reader ltac:(simpl; lia)) as [Hl Hnull Hrdy Hf].
  pose proof (ready_locked 1 _ Hrdy) as Hlk.
  split.
  - destruct (claim_region_functional false [release_last] demo_memory IPM_ACCESS_MODE_READ_WRITE 16 8
              (demo_with demo_reader) 0 (demo_object_with demo_reader) Hl Hnull) as (_ & _ & H).
    destruct (H (or_intror eq_refl) ltac:(vm_compute; reflexivity)) as (_ & _ & H').
    destruct (H' (mk_thread 1 0 []) (set_mutex (mutex_of (Held 1)) (demo_list demo_reader)) ltac:(vm_compute; reflexivity) Hlk
                (Forall_cons_2 _ _ _ release_last_well_behaved (Forall_nil_2 _))) as [Hg _].
    specialize (Hg eq_refl).
    destruct (first_grant _ _ _ _) as [l|] eqn:Hfg; [|vm_compute in Hfg; discriminate Hfg].
    destruct Hg as (l' & H1 & _ & H2 & _). exists l'. split; [exact H1|]. rewrite H2.
    vm_compute in Hfg. injection Hfg as <-. reflexivity.
  - assert (list_mapped demo_faulty (b_memory (active_claims demo_memory)) 0 (demo_object_with demo_reader)) as Hl'
      by (split; vm_compute; reflexivity).
    destruct (claim_region_functional false [] demo_memory IPM_ACCESS_MODE_READ_WRITE 16 8
              demo_faulty 0 (demo_object_with demo_reader) Hl' Hnull) as (_ & _ & H).
    destruct (H (or_intror eq_refl) ltac:(vm_compute; reflexivity)) as (_ & _ & H').
    destruct (H' (mk_thread 1 0 [EINVAL]) (set_mutex (mutex_of (Held 1)) (demo_list demo_reader)) ltac:(vm_compute; reflexivity) Hlk (Forall_nil_2 _)) as [_ Hw].
    destruct (Hw 0%nat EINVAL eq_refl ltac:(discriminate) ltac:(simpl; lia)) as (t & u & H1 & _ & H2).
    { intros j Hj. assert (j = 0%nat) as -> by lia. vm_compute. reflexivity. }
    exists t, u. eexists. split; [exact H1|exact H2].
Defined.

(** Mutual exclusion is kept by a grant: if every active claim of the list a
    process finds when it stops waiting is a proper region and no two of them
    conflict, then the same holds after its claim is granted, provided the claim
    starts no earlier than the active ones or the spare slot holds no bytes. *)
Theorem claim_region_exclusive {E : Env} nd wakes m a off n w o ob l :
  usable w m o ob -> 0 < n -> u64 off -> off + n <= b_size (real_memory m) ->
  b_size (real_memory m) < u64_mod -> permitted m a off n = true -> Forall well_behaved wakes ->
  let tid := t_tid (w_thread w) in
  let c := request m (so_list ob) a off n in
  first_grant tid c wakes (asked tid (so_list ob)) = Some l ->
  Forall claim_ok (visible l) -> exclusive (visible l) ->
  ins_pos c (visible l) = length (visible l) \/ size (spare l) <= 0 ->
  exists l', ipm_memory_claim_region nd wakes m a off n w =
      Ret (IPM_RESULT_SUCCESS, Some (claim_id c)) (with_list w o ob (w_thread w) l') /\
    ready l' /\ exclusive (visible l').
Proof.
  intros Hu Hn Hoff Hend Hsz Hp Hwb tid c Hg Hok Hex Hsp.
  pose proof (claim_region_run nd wakes m a off n w o ob Hu (or_intror Hn) Hp Hwb) as Hrun.
  cbn zeta in Hrun. fold tid c in Hrun. rewrite Hg in Hrun. destruct Hrun as (Hr & Hlk & Hgr).
  pose proof Hlk as (Hwf & _ & _). pose proof (grantable_room _ _ Hwf Hgr) as Hlt.
  exists (set_mutex (mutex_of Free) (added c l)). split_and!; [done|by eapply added_ready|].
  change (exclusive (visible (added c l))). rewrite visible_added_eq by done.
  apply exclusive_added; try done.
  - split; simpl; [done|done|lia].
  - apply Forall_forall. intros d Hd. by eapply grantable_no_conflict.
Qed.

Lemma claim_region_exclusive_witness :
  exists l', ipm_memory_claim_region false [release_last] demo_memory IPM_ACCESS_MODE_READ_WRITE 16 8
               (demo_with demo_reader) =
             Ret (IPM_RESULT_SUCCESS, Some 1)
               (with_list (demo_with demo_reader) 0 (demo_object_with demo_reader)
                  (w_thread (demo_with demo_reader)) l') /\ exclusive (visible l').
Proof.
  destruct (first_grant (t_tid (w_thread (demo_with demo_reader)))
      (request demo_memory (so_list (demo_object_with demo_reader)) IPM_ACCESS_MODE_READ_WRITE 16 8)
      [release_last] (asked (t_tid (w_thread (demo_with demo_reader))) (so_list (demo_object_with demo_reader))))
    as [l|] eqn:Hl; [|vm_compute in Hl; discriminate Hl].
  assert (visible l = []) as Hv by (vm_compute in Hl; injection Hl as <-; reflexivity).
  destruct (claim_region_exclusive false [release_last] demo_memory IPM_ACCESS_MODE_READ_WRITE 16 8
              (demo_with demo_reader) 0 (demo_object_with demo_reader) l) as (l' & H1 & _ & H2).
  - apply demo_with_usable. simpl. lia.
  - lia.
  - unfold u64, u64_mod; lia.
  - vm_compute; discriminate.
  - vm_compute; reflexivity.
  - vm_compute; reflexivity.
  - constructor; [apply release_last_well_behaved|constructor].
  - exact Hl.
  - rewrite Hv. constructor.
  - rewrite Hv. intros x y Hx. inversion Hx.
  - left. rewrite Hv. reflexivity.
  - exists l'. split; [exact H1|exact H2].
Defined.

(** C30. The bounds check of [ipm_memory_claim_region].  As long as the end of the
    region is representable the check is exact: a region is refused with
    [IPM_RESULT_ERR_BAD_VALUE] exactly when it does not lie in the block.  When
    [offset + count] exceeds [2^64] only the wrapped value is compared, and on a
    memory without claims such a region is granted although it reaches beyond
    the block. *)
Theorem claim_region_bounds {E : Env} nd m a off n w o ob :
  usable w m o ob -> u64 off -> u64 n -> 0 < n ->
  is_writable (b_access_mode (real_memory m)) = true ->
  count (so_list ob) = 0 -> 0 < capacity (so_list ob) ->
  (off + n < u64_mod ->
   if b_size (real_memory m) <? off + n
   then exists w', ipm_memory_claim_region nd [] m a off n w = Ret (IPM_RESULT_ERR_BAD_VALUE, None) w'
   else exists w', ipm_memory_claim_region nd [] m a off n w =
          Ret (IPM_RESULT_SUCCESS, Some (claim_counter (so_list ob))) w') /\
  (u64_mod <= off + n -> off + n - u64_mod <= b_size (real_memory m) ->
   exists w', ipm_memory_claim_region nd [] m a off n w =
     Ret (IPM_RESULT_SUCCESS, Some (claim_counter (so_list ob))) w').
Proof.
  intros Hu Hoff Hn Hpos Hacc H0 Hcap.
  assert (permitted m a off n = true -> exists w', ipm_memory_claim_region nd [] m a off n w =
     Ret (IPM_RESULT_SUCCESS, Some (claim_counter (so_list ob))) w') as Hgrant.
  { intros Hp. pose proof (claim_region_run nd [] m a off n w o ob Hu (or_intror Hpos) Hp (Forall_nil_2 _)) as H.
    cbn zeta in H. cbn [first_grant] in H.
    replace (grantable _ _) with true in H; [|symmetry].
    - destruct H as (H & _). eexists. exact H.
    - unfold grantable, visible. cbn [asked set_counter set_mutex count capacity]. rewrite H0.
      rewrite (proj2 (Z.eqb_neq 0 _)) by lia. done. }
  split.
  - intros Hend. destruct (Z.ltb_spec (b_size (real_memory m)) (off + n)) as [Hlt|Hge].
    + destruct (claim_region_refused nd [] m a off n w) as (w' & Hr & _); [by right| |].
      * unfold permitted. rewrite Hacc, wrap64_small by word. simpl. by apply Z.leb_gt.
      * rewrite Hacc, andb_false_r in Hr. by exists w'.
    + apply Hgrant. unfold permitted. rewrite Hacc, wrap64_small by word. simpl. by apply Z.leb_le.
  - intros Hover Hfit. apply Hgrant. unfold permitted. rewrite Hacc, wrap64_add_over by done. simpl.
    by apply Z.leb_le.
Qed.

Lemma claim_region_bounds_witness :
  exists w', ipm_memory_claim_region false [] demo_memory IPM_ACCESS_MODE_READ_WRITE 4096 (2 ^ 64 - 1) demo_world =
             Ret (IPM_RESULT_SUCCESS, Some 0) w'.
Proof.
  destruct (claim_region_bounds false demo_memory IPM_ACCESS_MODE_READ_WRITE 4096 (2 ^ 64 - 1)
              demo_world 0 demo_object) as [_ H].
  - apply demo_usable.
  - unfold u64, u64_mod; lia.
  - unfold u64, u64_mod; lia.
  - lia.
  - vm_compute; reflexivity.
  - vm_compute; reflexivity.
  - vm_compute; reflexivity.
  - destruct H as [w' H]; [vm_compute; discriminate|vm_compute; discriminate|].
    exists w'. exact H.
Defined.

(** C26. Releasing a region, branch by branch, on a handle whose claim list is mapped.
    If the list's mutex cannot be locked, the call reports and returns what
    [ipm_mutex_lock] said and releases nothing; it hangs if locking hangs.  Once the
    mutex is locked, on a consistent list: an active identifier is removed as
    [visible_removed] says, and the list stays consistent and unlocked; an identifier
    that is not active makes the behaviour undefined when the list is not empty; on
    an empty list a build without assertions returns [IPM_RESULT_ERR_INVALID_CLAIM]
    but leaves the count at [2^64 - 1].  A build with assertions aborts, the mutex
    locked and the count lowered, on an empty list and also on a full one, whatever
    the identifier. *)
Theorem release_region_functional {E : Env} nd m id w o ob :
  list_mapped w (b_memory (active_claims m)) o ob -> b_memory (active_claims m) <> NULL ->
  let run := ipm_memory_release_region nd m id w in
  let lock := on_mutex ipm_mutex_lock (w_thread w, so_list ob) in
  (forall s, lock = Hang s -> exists w', run = Hang w') /\
  (forall r t1 l1, lock = Ret r (t1, l1) -> r <> IPM_RESULT_SUCCESS ->
   exists w', run = Ret r w' /\ reported (with_list w o ob t1 l1) w') /\
  (forall t1 l, lock = Ret IPM_RESULT_SUCCESS (t1, l) -> locked (t_tid t1) l ->
   (nd = false -> count l = 0 \/ count l = capacity l ->
    run = Abort (with_list w o ob t1 (set_count (wrap64 (count l - 1)) l))) /\
   (nd = true \/ count l < capacity l -> 0 < count l -> id ∉ map claim_id (visible l) -> run = Undef) /\
   (t_faults t1 = [] ->
    (nd = true \/ count l < capacity l -> id ∈ map claim_id (visible l) ->
     exists l', run = Ret IPM_RESULT_SUCCESS (with_list w o ob t1 l') /\
       ready l' /\ count l' = count l - 1 /\
       visible l' = visible_removed (rem_pos id (visible l)) (visible l)) /\
    (nd = true -> count l = 0 ->
     exists w', run = Ret IPM_RESULT_ERR_INVALID_CLAIM w' /\
       reported (with_list w o ob t1 (set_mutex (mutex_of Free) (set_count (2 ^ 64 - 1) l))) w'))).
Proof.
  intros Hl Hnull run lock. split_and!.
  - intros s Hs. by eapply release_region_blocked.
  - intros r t1 l1 Hs Hr. by eapply release_region_unlocked.
  - intros t1 l Hs Hlk. split_and!.
    + intros Hnd Hcnt. by eapply release_region_asserts.
    + intros Hnd Hpos Hid. by eapply release_region_unknown.
    + intros Hf. split.
      * intros Hnd Hid. pose proof (rem_pos_lt _ _ Hid) as Hp. pose proof Hlk as (Hwf & Hm & Hc).
        rewrite length_visible in Hp by done.
        exists (set_mutex (mutex_of Free) (removed (rem_pos id (visible l)) l)). split_and!.
        -- by apply (release_region_removed nd m id w o ob Hl Hnull t1 l).
        -- destruct (removed_wf (rem_pos id (visible l)) l Hwf ltac:(lia)). by split_and!.
        -- done.
        -- by apply (visible_removed_eq (rem_pos id (visible l)) l).
      * intros Hnd H0. by apply (release_region_empty nd m id w o ob Hl Hnull t1 l).
Qed.

Definition demo_two : list ipm_memory_claim :=
  [demo_claim 0 1 IPM_ACCESS_MODE_READ_ONLY 0 8; demo_claim 1 2 IPM_ACCESS_MODE_READ_ONLY 8 8].

Lemma release_region_functional_witness :
  (exists l', ipm_memory_release_region false demo_memory 1 (demo_with demo_two) =
     Ret IPM_RESULT_SUCCESS
       (with_list (demo_with demo_two) 0 (demo_object_with demo_two) (w_thread (demo_with demo_two)) l') /\
     map claim_id (visible l') = [0]) /\
  ipm_memory_release_region false demo_memory 9 (demo_with demo_two) = Undef /\
  exists w', ipm_memory_release_region false demo_memory 0 (demo_with []) = Abort w'.
Proof.
  pose proof (demo_with_usable demo_two ltac:(simpl; lia)) as Hu.
  destruct (usable_lock _ _ _ _ Hu) as [Hlock Hlk]. destruct Hu as [Hl Hnull Hrdy Hf].
  pose proof (demo_with_usable [] ltac:(simpl; lia)) as Hu0.
  destruct (usable_lock _ _ _ _ Hu0) as [Hlock0 Hlk0]. destruct Hu0 as [Hl0 _ _ _].
  split_and!.
  - destruct (release_region_functional false demo_memory 1 (demo_with demo_two) 0 (demo_object_with demo_two) Hl Hnull)
      as (_ & _ & H). destruct (H _ _ Hlock Hlk) as (_ & _ & H'). destruct (H' Hf) as [Hr _].
    destruct Hr as (l' & H1 & _ & _ & H2);
      [right; vm_compute; reflexivity|apply (bool_decide_unpack _); vm_compute; exact I|].
    exists l'. split; [exact H1|]. rewrite H2. vm_compute. reflexivity.
  - destruct (release_region_functional false demo_memory 9 (demo_with demo_two) 0 (demo_object_with demo_two) Hl Hnull)
      as (_ & _ & H). destruct (H _ _ Hlock Hlk) as (_ & Hr & _). apply Hr;
      [right; vm_compute; reflexivity|vm_compute; reflexivity|apply (bool_decide_unpack _); vm_compute; exact I].
  - destruct (release_region_functional false demo_memory 0 (demo_with []) 0 (demo_object_with []) Hl0 Hnull)
      as (_ & _ & H). destruct (H _ _ Hlock0 Hlk0) as (Hr & _ & _).
    eexists. apply Hr; [reflexivity|left; vm_compute; reflexivity].
Defined.

(** A wrapped count makes the next scan of the list leave the array. *)
Lemma scan_all {p : ipm_memory_claim -> bool} cs n :
  Forall (fun c => p c = false) cs -> (length cs < n)%nat -> scan p cs n 0 = Out_of_bounds.
Proof.
  intros Hall Hn. assert (forall k pos, (pos <= length cs)%nat -> (length cs < pos + k)%nat ->
    scan p cs k pos = Out_of_bounds) as H; [|apply H; lia].
  induction k as [|k IH]; intros pos Hpos Hk; [lia|]. simpl.
  destruct (cs !! pos) as [c|] eqn:Hc; [|done].
  rewrite (proj1 (Forall_lookup _ _) Hall _ _ Hc). apply IH; [|lia].
  apply lookup_lt_Some in Hc. lia.
Qed.

Lemma scan_loop_out {S} (p : ipm_memory_claim -> bool) cs n (s : S) :
  Forall (fun c => p c = false) cs -> Z.of_nat (length cs) < u32_mod -> u32_mod <= n ->
  scan_loop p cs n s = Undef.
Proof.
  intros Hall Hlen Hn. unfold scan_loop. rewrite Z.min_r by done.
  rewrite scan_all; [done|done|lia].
Qed.

(** An invalid release is not harmless.  In a build without assertions a
    release on an empty list reports an invalid claim, as documented, but the
    next permitted claim then runs off the end of the claim array: unless some
    stale slot conflicts with it, its behaviour is undefined. *)
Theorem release_nothing_corrupts {E : Env} m id a off n w o ob :
  usable w m o ob -> count (so_list ob) = 0 -> permitted m a off n = true ->
  Forall (fun d => claims_conflict (request m (so_list ob) a off n) d = false) (claims (so_list ob)) ->
  (exists w', ipm_memory_release_region true m id w = Ret IPM_RESULT_ERR_INVALID_CLAIM w') /\
  (_ ← ipm_memory_release_region true m id; ipm_memory_claim_region true [] m a off n) w = Undef.
Proof.
  intros Hu H0 Hp Hno. pose proof Hu as [Hl Hnull (Hwf & Hm & Hc) Hf]. pose proof Hwf as [_ _ Hw].
  destruct (release_nothing_run true m id w o ob eq_refl Hu H0) as (w' & Hr & t & u & -> & Ht & Hft).
  split; [by eexists|]. erewrite bind_Ret by exact Hr.
  match goal with |- _ ?x = _ => change x with
    (with_list (set_user u w) o ob t (set_count (2 ^ 64 - 1) (so_list ob))) end.
  assert (list_mapped (set_user u w) (b_memory (active_claims m)) o ob) as Hl' by (by destruct Hl).
  apply andb_true_iff in Hp as [Hacc Hsize]. unfold ipm_memory_claim_region.
  erewrite bind_Ret by apply cassert_ndebug.
  replace (negb _ && _) with false by (destruct (is_writable a), (is_writable _); done).
  rewrite (proj2 (Z.ltb_ge _ _)) by lia. erewrite bind_Ret by apply cassert_ndebug.
  erewrite bind_Ret.
  2:{ apply (on_list_wl _ _ _ _ Hl'). apply lock_list_run; [|done]. apply no_faults_nil. simpl in Hft. congruence. }
  unfold ok. rewrite (bool_decide_true (_ = _)) by done. cbn [negb].
  erewrite bind_Ret by (apply (on_list_wl _ _ _ _ Hl'); reflexivity).
  unfold mbind at 1, M_bind at 1. rewrite (on_list_wl_undef _ _ _ _ Hl'); [done|].
  cbn [claim_wait]. erewrite bind_Ret by done. unfold mbind, M_bind. cbn [snd set_counter set_count set_mutex claims count].
  rewrite scan_loop_out; [done|done|lia|word].
Qed.

Lemma release_nothing_corrupts_witness :
  (_ ← ipm_memory_release_region true demo_memory 0;
   ipm_memory_claim_region true [] demo_memory IPM_ACCESS_MODE_READ_ONLY 0 8) demo_world = Undef.
Proof.
  apply (release_nothing_corrupts demo_memory 0 IPM_ACCESS_MODE_READ_ONLY 0 8 demo_world 0 demo_object).
  - apply demo_usable.
  - vm_compute; reflexivity.
  - vm_compute; reflexivity.
  - apply (bool_decide_unpack _). vm_compute. exact I.
Defined.

(** C20. [ipm_memory_release_all] leaves no claim of its process behind: for every
    list whose identifiers determine the process (as those the claim counter
    hands out do) it terminates, succeeds, leaves the list consistent and
    unlocked, invents no claim, and no claim of the handle's process is active
    afterwards. *)
Theorem release_all_functional {E : Env} nd m w o ob :
  let l := so_list ob in
  usable w m o ob -> count l < 2 ^ 31 -> nd = true \/ count l < capacity l ->
  ids_of_one_process (visible l) ->
  exists l', ipm_memory_release_all nd m w =
      Ret IPM_RESULT_SUCCESS (with_list w o ob (w_thread w) l') /\
    ready l' /\ capacity l' = capacity l /\ claim_counter l' = claim_counter l /\
    visible l' ⊆ visible l /\
    Forall (fun d => proc_id d <> b_access_id (real_memory m)) (visible l').
Proof.
  intros l Hu Hmax Hnd Hids.
  destruct (memory_release_all_run nd m w o ob) as (l' & Hr & ? & ? & ? & ? & _ & _ & Hall); [done..|].
  exists l'. split_and!; try done. by apply Hall.
Qed.

(** The claims of a list with pairwise different identifiers. *)
Lemma ids_NoDup v : NoDup (map claim_id v) -> ids_of_one_process v.
Proof.
  intros Hnd c d Hc Hd Heq. apply list_elem_of_lookup in Hc as [i Hi], Hd as [j Hj].
  assert (i = j) as <-; [|congruence].
  eapply NoDup_lookup; [exact Hnd| |].
  - by rewrite list_lookup_fmap, Hi.
  - rewrite list_lookup_fmap, Hj. simpl. by rewrite Heq.
Qed.

Lemma release_all_functional_witness :
  exists l', ipm_memory_release_all false demo_memory (demo_with demo_two) =
      Ret IPM_RESULT_SUCCESS (with_list (demo_with demo_two) 0 (demo_object_with demo_two)
        (w_thread (demo_with demo_two)) l') /\
    Forall (fun d => proc_id d <> 1) (visible l').
Proof.
  destruct (release_all_functional false demo_memory (demo_with demo_two) 0 (demo_object_with demo_two))
    as (l' & H1 & _ & _ & _ & _ & H2).
  - apply demo_with_usable. simpl. lia.
  - vm_compute; reflexivity.
  - right. vm_compute; reflexivity.
  - apply ids_NoDup. apply (bool_decide_unpack _). vm_compute. exact I.
  - exists l'. split; [exact H1|exact H2].
Defined.

(** [ipm_memory_remove_all_active_claims] empties the list of a memory of any
    size: it terminates, succeeds, and no claim is active afterwards; the list
    is consistent and unlocked. *)
Theorem remove_all_functional {E : Env} nd m w o ob :
  let l := so_list ob in
  usable w m o ob -> nd = true \/ count l < capacity l ->
  exists l', ipm_memory_remove_all_active_claims nd m w =
      Ret IPM_RESULT_SUCCESS (with_list w o ob (w_thread w) l') /\
    ready l' /\ capacity l' = capacity l /\ claim_counter l' = claim_counter l /\ visible l' = [].
Proof.
  intros l Hu Hnd. destruct (memory_remove_all_run nd m w o ob Hu Hnd) as (l' & Hr & ? & ? & ? & ? & _). by exists l'.
Qed.

Lemma remove_all_functional_witness :
  exists l', ipm_memory_remove_all_active_claims false demo_memory (demo_with demo_two) =
      Ret IPM_RESULT_SUCCESS (with_list (demo_with demo_two) 0 (demo_object_with demo_two)
        (w_thread (demo_with demo_two)) l') /\ visible l' = [].
Proof.
  destruct (remove_all_functional false demo_memory (demo_with demo_two) 0 (demo_object_with demo_two))
    as (l' & H1 & _ & _ & _ & H2).
  - apply demo_with_usable. simpl. lia.
  - right. vm_compute; reflexivity.
  - exists l'. split; [exact H1|exact H2].
Defined.

(** *** Releasing everything next to the claims of others *)

Section bystanders.
Variable NDEBUG : bool.
Implicit Types (l : ipm_claim_list) (v others mine : list ipm_memory_claim).

(** Removing the first claim of a suffix leaves the prefix and claims of the suffix. *)
Lemma visible_removed_suffix others c mine :
  exists mine', visible_removed (length others) (others ++ c :: mine) = others ++ mine' /\
    mine' ⊆ c :: mine.
Proof.
  unfold visible_removed. rewrite length_app. simpl. rewrite Nat.add_succ_r. simpl. rewrite Nat.sub_0_r.
  destruct mine as [|d mine]; simpl.
  - exists []. rewrite decide_True by lia. rewrite Nat.add_0_r, take_app_length, app_nil_r.
    split; [done|set_solver].
  - rewrite decide_False by lia.
    rewrite take_app_ge by lia. replace (length others + S (length mine) - length others)%nat
      with (S (length mine)) by lia. cbn [take].
    rewrite length_app, length_cons, length_take. cbn [length].
    rewrite (delete_middle others (take (length mine) (d :: mine)) c).
    exists (take (length mine) (d :: mine) ++
            drop (length mine) (c :: take (length mine) (d :: mine))).
    split.
    + rewrite <- app_assoc. do 2 f_equal. rewrite drop_app_ge by lia. f_equal. lia.
    + intros x [Hx|Hx]%elem_of_app.
      * apply elem_of_cons. right. eapply elem_of_submseteq; [exact Hx|].
        apply sublist_submseteq, sublist_take.
      * eapply elem_of_submseteq; [exact Hx|]. apply sublist_submseteq.
        etransitivity; [apply sublist_drop|]. apply sublist_skip, sublist_take.
Qed.

Lemma release_loop_suffix fuel proc i t l others mine :
  list_wf l -> count l < 2 ^ 31 -> 0 <= i <= Z.of_nat (length others) -> fuel = Z.to_nat (count l - i) ->
  NDEBUG = true \/ count l < capacity l -> ids_of_one_process (visible l) ->
  visible l = others ++ mine -> Forall (fun d => proc_id d <> proc) others ->
  Forall (fun d => proc_id d = proc) mine ->
  exists l', release_loop NDEBUG fuel proc i (t, l) = Ret tt (t, l') /\
    list_wf l' /\ same_sync l l' /\ visible l' = others.
Proof.
  revert i l mine. induction fuel as [|fuel IH];
    intros i l mine Hwf Hmax Hi Hfuel Hnd Hids Hv Hoth Hmine;
    pose proof Hwf as [Hc Hs Hw]; pose proof (length_visible _ Hwf) as Hlen; rewrite Hv, length_app in Hlen;
    cbn [release_loop]; (erewrite bind_Ret by done); cbn [snd]; rewrite to_int_small by lia.
  - rewrite (proj2 (Z.ltb_ge _ _)) by lia. exists l. split_and!; try done.
    destruct mine; [by rewrite app_nil_r in Hv|simpl in Hlen; lia].
  - rewrite (proj2 (Z.ltb_lt _ _)) by lia. cbn [negb].
    destruct (decide (i < Z.of_nat (length others))) as [Hlt|Hge].
    + destruct (lookup_lt_is_Some_2 others (Z.to_nat i) ltac:(lia)) as [c Hci].
      rewrite <- visible_lookup, Hv, lookup_app_l, Hci by lia. erewrite bind_Ret by done.
      rewrite (proj2 (Z.eqb_neq _ _)) by (by eapply (proj1 (Forall_lookup _ _) Hoth)).
      apply (IH (i + 1) l mine); try done; lia.
    + destruct mine as [|c mine]; [simpl in Hlen; lia|]. apply Forall_cons in Hmine as [Hpc Hmine].
      assert (Z.to_nat i = length others) as Hio by lia.
      assert (visible l !! Z.to_nat i = Some c) as Hci
        by (rewrite Hv, Hio; by apply list_lookup_middle).
      assert (rem_pos (claim_id c) (visible l) = Z.to_nat i) as Hrp.
      { eapply (rem_pos_own proc); [done|exact Hci|done|]. intros j d Hj.
        rewrite Hv, lookup_app_l by lia. by apply (proj1 (Forall_lookup _ _) Hoth). }
      rewrite <- visible_lookup, Hci by (simpl in Hlen; lia). erewrite bind_Ret by done.
      rewrite (proj2 (Z.eqb_eq _ _) Hpc).
      erewrite bind_Ret by (apply claim_remove_run; [done|lia|done|
        rewrite Hrp, length_visible by done; simpl in Hlen; lia]).
      rewrite Hrp. replace (i - 1 + 1) with i by lia.
      destruct (visible_removed_suffix others c mine) as (mine' & Heq & Hsub).
      destruct (IH i (removed (Z.to_nat i) l) mine') as (l' & Hr & Hrest);
        [apply removed_wf; [done|simpl in Hlen; lia]|simpl; lia|done|simpl; lia
        |simpl; destruct Hnd; [by left|right; lia]| | |done| |].
      * rewrite visible_removed_eq by (done || (simpl in Hlen; lia)).
        eapply ids_of_one_process_sub; [|exact Hids]. apply visible_removed_subset.
        rewrite length_visible by done. simpl in Hlen. lia.
      * rewrite visible_removed_eq, Hv, Hio by (done || (simpl in Hlen; lia)). exact Heq.
      * apply Forall_forall. intros x Hx%Hsub. apply elem_of_cons in Hx as [->|Hx]; [done|].
        by eapply (proj1 (Forall_forall _ _) Hmine).
      * by exists l'.
Qed.
End bystanders.

(** The claims of two processes, the caller's first: both are gone. *)
Lemma release_loop_first NDEBUG proc t l a b :
  list_wf l -> NDEBUG = true \/ count l < capacity l -> visible l = [a; b] ->
  proc_id a = proc -> proc_id b <> proc -> claim_id a <> claim_id b ->
  exists l', release_loop NDEBUG 2 proc 0 (t, l) = Ret tt (t, l') /\
    list_wf l' /\ same_sync l l' /\ visible l' = [].
Proof.
  intros Hwf Hnd Hv Ha Hb Hid. pose proof Hwf as [Hc Hs Hw].
  pose proof (length_visible _ Hwf) as Hlen. rewrite Hv in Hlen. simpl in Hlen.
  cbn [release_loop]. erewrite bind_Ret by done. cbn [snd].
  rewrite to_int_small, (proj2 (Z.ltb_lt _ _)) by lia. cbn [negb].
  rewrite <- visible_lookup, Hv by lia. cbn [Z.to_nat lookup list_lookup]. erewrite bind_Ret by done.
  rewrite (proj2 (Z.eqb_eq _ _) Ha).
  assert (rem_pos (claim_id a) (visible l) = 0%nat) as Hp.
  { rewrite Hv. unfold rem_pos. rewrite find_pos_cons. unfold has_id. by rewrite Z.eqb_refl. }
  erewrite bind_Ret by (apply claim_remove_run; [done|lia|done|rewrite Hp, Hv; simpl; lia]).
  rewrite Hp. change (0 - 1 + 1) with 0.
  destruct (release_loop_suffix NDEBUG 1 proc 0 t (removed 0 l) [] [a]) as (l' & Hr & Hwf' & Hss & Hv');
    [apply removed_wf; [done|lia]|simpl; lia|done|simpl; lia|simpl; destruct Hnd; [by left|right; lia]
    | | |constructor|by constructor|].
  - rewrite visible_removed_eq, Hv by (done || lia).
    intros c d ->%list_elem_of_singleton ->%list_elem_of_singleton; done.
  - rewrite visible_removed_eq, Hv by (done || lia). done.
  - by exists l'.
Qed.

(** What [ipm_memory_release_all] does to the claims of other processes depends
    on the order of the list.  When the caller's claims are the last ones the
    others' remain exactly as they were; but with one claim of the caller in
    front of one claim of another process, both are gone afterwards. *)
Theorem release_all_bystanders {E : Env} nd m w o ob :
  let l := so_list ob in
  let proc := b_access_id (real_memory m) in
  usable w m o ob -> count l < 2 ^ 31 -> nd = true \/ count l < capacity l ->
  ids_of_one_process (visible l) ->
  (forall others mine, visible l = others ++ mine ->
   Forall (fun d => proc_id d <> proc) others -> Forall (fun d => proc_id d = proc) mine ->
   exists l', ipm_memory_release_all nd m w = Ret IPM_RESULT_SUCCESS (with_list w o ob (w_thread w) l') /\
     ready l' /\ visible l' = others) /\
  (forall a b, visible l = [a; b] -> proc_id a = proc -> proc_id b <> proc ->
   exists l', ipm_memory_release_all nd m w = Ret IPM_RESULT_SUCCESS (with_list w o ob (w_thread w) l') /\
     ready l' /\ visible l' = []).
Proof.
  intros l proc Hu Hmax Hnd Hids. pose proof Hu as [Hl Hnull (Hwf & Hm & Hc) Hf].
  pose proof Hwf as [Hcnt _ _].
  set (lk := set_mutex (mutex_of (Held (t_tid (w_thread w)))) l).
  assert (list_wf lk) as Hwfk by (by destruct Hwf).
  assert (forall l' v, release_loop nd (Z.to_nat (count l)) proc 0 (w_thread w, lk) = Ret tt (w_thread w, l') ->
    list_wf l' -> same_sync lk l' -> visible l' = v ->
    exists l', ipm_memory_release_all nd m w = Ret IPM_RESULT_SUCCESS (with_list w o ob (w_thread w) l') /\
     ready l' /\ visible l' = v) as Hfinish.
  { intros l' v Hr Hwf' (Hm' & Hc' & _) Hv. exists (set_mutex (mutex_of Free) l'). split_and!; try done.
    - unfold ipm_memory_release_all. by apply bulk_run.
    - split_and!; [by destruct Hwf'|done|simpl; by rewrite Hc']. }
  split.
  - intros others mine Hv Ho Hmi.
    destruct (release_loop_suffix nd (Z.to_nat (count l)) proc 0 (w_thread w) lk others mine)
      as (l' & Hr & Hwf' & Hss & Hv'); try done; [lia|simpl; lia|]. by eapply Hfinish.
  - intros a b Hv Ha Hb. pose proof (length_visible l Hwf) as Hlen. rewrite Hv in Hlen. simpl in Hlen.
    destruct (release_loop_first nd proc (w_thread w) lk a b) as (l' & Hr & Hwf' & Hss & Hv'); try done.
    { intros Heq. apply Hb. rewrite <- Ha. symmetry. apply Hids; [rewrite Hv; auto using list_elem_of_here, list_elem_of_further..|done]. }
    eapply Hfinish; [|done..]. by rewrite <- Hlen.
Qed.

Lemma release_all_bystanders_witness :
  exists l', ipm_memory_release_all false demo_memory (demo_with demo_two) =
      Ret IPM_RESULT_SUCCESS (with_list (demo_with demo_two) 0 (demo_object_with demo_two)
        (w_thread (demo_with demo_two)) l') /\ visible l' = [].
Proof.
  destruct (release_all_bystanders false demo_memory (demo_with demo_two) 0 (demo_object_with demo_two))
    as [_ H].
  - apply demo_with_usable. simpl. lia.
  - vm_compute; reflexivity.
  - right. vm_compute; reflexivity.
  - apply ids_NoDup. apply (bool_decide_unpack _). vm_compute. exact I.
  - destruct (H (demo_claim 0 1 IPM_ACCESS_MODE_READ_ONLY 0 8) (demo_claim 1 2 IPM_ACCESS_MODE_READ_ONLY 8 8))
      as (l' & H1 & _ & H2); [vm_compute; reflexivity|vm_compute; reflexivity|vm_compute; discriminate|].
    exists l'. split; [exact H1|exact H2].
Defined.
