(* ===== verification/Lifecycle.v ===== *)
(** * The life of a shared memory block

    Theorems about creating, opening, closing, locking and remapping a block
    (source/shared_memory.c), from the runs of file [SharedMemory]. *)

From S2P Require Import Prelude Errors Pthread Platform Claims Common Names World SharedMemory Memory Machine.

Section blocks.
Context {E : Env} {L : EnvLaws E}.
Implicit Types (w : world) (c : ipm_context user) (b : ipm_shared_memory_block).

(** Where the kernel puts the memory and the header of a new block. *)
Record create_places w (size p1 p2 : Z) (access : ipm_access_mode) : Prop := {
  cp_memory : os_place (w_pages w) 0 (pages_of size) = Some p1;
  cp_header : os_place (map_pages p1 (pages_of size) (fresh_object (w_objs w)) 1
                          (is_writable access) (w_pages w)) 0 1 = Some p2
}.

(** The second mapping is disjoint from the first. *)
Lemma places_disjoint m o off wr p1 n1 p2 n2 hint :
  os_place (map_pages p1 n1 o off wr m) hint n2 = Some p2 -> 0 < n1 -> 0 < n2 ->
  p2 + n2 <= p1 \/ p1 + n1 <= p2.
Proof.
  intros (_ & _ & Hfree)%os_place_free Hn1 Hn2.
  destruct (decide (p2 + n2 <= p1)); [by left|]. destruct (decide (p1 + n1 <= p2)); [by right|].
  exfalso. specialize (Hfree (Z.max 0 (p1 - p2)) ltac:(lia)).
  rewrite lookup_map_pages, decide_True in Hfree by lia. discriminate.
Qed.

(** The pages of the second mapping were free before the first. *)
Lemma places_free m o off wr p1 n1 p2 n2 hint :
  os_place (map_pages p1 n1 o off wr m) hint n2 = Some p2 ->
  forall i, 0 <= i < n2 -> m !! (p2 + i) = None.
Proof.
  intros (_ & _ & Hfree)%os_place_free i Hi. specialize (Hfree i Hi).
  rewrite lookup_map_pages in Hfree. by case_decide.
Qed.

Lemma block_pages_pos size k : block_pages size k -> 0 < size /\ pages_of size = k.
Proof.
  intros (-> & Hk & _). split; [unfold IPM_MEMORY_PAGE_SIZE; lia|apply pages_of_mult; lia].
Qed.

Lemma created_header_mapped w name id size k p1 p2 access :
  block_pages size k -> create_places w size p1 p2 access ->
  header_mapped (created_world w name id size p1 p2 access) (p2 * IPM_MEMORY_PAGE_SIZE)
    (fresh_object (w_objs w)) (created_object name id size).
Proof.
  intros Hsz [Hp1 Hp2]. destruct (block_pages_pos _ _ Hsz) as [Hpos _].
  split; [apply page_addr_mod| |apply lookup_insert_eq|simpl; unfold IPM_MEMORY_PAGE_SIZE; lia].
  rewrite page_addr_div. simpl. rewrite lookup_map_pages, decide_True by lia. by rewrite Z.sub_diag.
Qed.

Lemma created_block_in w name id size k p1 p2 access :
  block_pages size k -> create_places w size p1 p2 access ->
  block_in (created_world w name id size p1 p2 access) (created_block w size p1 p2 access)
    (fresh_object (w_objs w)) (created_object name id size).
Proof.
  intros Hsz Hpl. pose proof (created_header_mapped w name id _ _ _ _ _ Hsz Hpl) as Hm.
  destruct (block_pages_pos _ _ Hsz) as [Hpos _].
  split; [exact Hm| |done|apply page_addr_mod|done].
  exists (fresh_object (w_objs w)). simpl. rewrite fd_object_nat. apply lookup_insert_eq.
Qed.

(** Undoing both mappings of a new block restores the address space. *)
Lemma closed_created_pages w size k p1 p2 access name id :
  block_pages size k -> create_places w size p1 p2 access ->
  closed_pages (created_block w size p1 p2 access) size
    (w_pages (created_world w name id size p1 p2 access)) = w_pages w.
Proof.
  intros Hsz [Hp1 Hp2]. destruct (block_pages_pos _ _ Hsz) as [Hpos Hk].
  assert (0 < pages_of size) as Hn by (destruct Hsz as (_ & ? & _); lia).
  pose proof (places_disjoint _ _ _ _ _ _ _ _ _ Hp2 Hn ltac:(lia)) as Hd.
  unfold closed_pages. cbn [created_block created_world b_header b_memory w_pages].
  rewrite !page_addr_div, unmap_map_pages_ne by lia.
  rewrite (unmap_map_pages p1) by (by apply os_place_free in Hp1 as (_ & _ & ?)).
  apply unmap_map_pages. intros i Hi. by apply (places_free _ _ _ _ _ _ _ _ _ Hp2).
Qed.

(** Closing the block a process has just created. *)
Lemma create_close_run nd c name id size k access w p1 p2 :
  no_faults 11 (w_thread w) -> block_pages size k -> create_places w size p1 p2 access ->
  w_names w !! object_name name id = None ->
  exists w', shared_memory_block_close nd c (created_block w size p1 p2 access) None
      (created_world w name id size p1 p2 access) = Ret IPM_RESULT_SUCCESS w' /\
    w_names w' = w_names w /\ w_fds w' = w_fds w /\ w_pages w' = w_pages w /\ w_user w' = w_user w /\
    (forall o, o <> fresh_object (w_objs w) -> w_objs w' !! o = w_objs w !! o).
Proof.
  intros Hf Hsz Hpl Hn. set (o := fresh_object (w_objs w)).
  erewrite (close_last_run _ _ _ None _ o (created_object name id size) (created_object name id size)
              (thread_after 9 (w_thread w))).
  - eexists. split; [reflexivity|]. split_and!.
    + simpl. rewrite delete_insert_id; done.
    + cbn [w_fds set_names set_pages with_header set_obj set_thread set_objs close_fd set_fds created_world
             created_block b_mem_fd]. rewrite Nat2Z.id.
      apply delete_insert_id, lowest_fd_free.
    + cbn [w_pages set_names set_pages]. by eapply closed_created_pages.
    + done.
    + intros o' Ho'. cbn [w_objs set_names set_pages with_header set_obj set_objs set_thread close_fd set_fds created_world].
      rewrite !lookup_insert_ne by done. done.
  - by eapply created_block_in.
  - done.
  - done.
  - done.
  - simpl. rewrite lookup_insert_eq. eauto.
  - reflexivity.
  - done.
  - by apply (no_faults_after 9 2).
Qed.

(** ** A second handle *)

(** The world after [shared_memory_block_open] of object [o]. *)
Definition opened_world w (o : nat) (ob : shm_object) (p1 p2 : Z) (access : ipm_access_mode) : world :=
  with_header (mapped_world w o (block_size (so_header ob)) p1 p2 access) o ob
    (thread_after 3 (w_thread w)) (opened_header (so_header ob)).

Lemma opened_block_in w o ob p1 p2 access :
  open_places w o (block_size (so_header ob)) p1 p2 -> w_objs w !! o = Some ob -> 0 < so_size ob ->
  0 < block_size (so_header ob) ->
  block_in (opened_world w o ob p1 p2 access) (opened_block w (so_header ob) p1 p2 access) o
    (set_so_header (opened_header (so_header ob)) ob).
Proof.
  intros Hpl Ho Hs Hsz. pose proof (mapped_world_header w o ob _ p1 p2 access Hpl Ho Hs Hsz) as Hm.
  split; [by apply with_header_mapped| |done|apply page_addr_mod|done].
  exists o. simpl. rewrite fd_object_nat. apply lookup_insert_eq.
Qed.

Lemma closed_opened_pages w o ob p1 p2 access :
  open_places w o (block_size (so_header ob)) p1 p2 -> 0 < block_size (so_header ob) ->
  closed_pages (opened_block w (so_header ob) p1 p2 access) (block_size (so_header ob))
    (w_pages (opened_world w o ob p1 p2 access)) = w_pages w.
Proof.
  intros [Hp1 Hp2] Hsz. unfold closed_pages.
  cbn [opened_block opened_world with_header set_obj set_objs set_thread mapped_world b_header b_memory w_pages].
  rewrite !page_addr_div.
  rewrite (unmap_map_pages p2) by (by apply os_place_free in Hp2 as (_ & _ & ?)).
  apply unmap_map_pages. by apply os_place_free in Hp1 as (_ & _ & ?).
Qed.

Lemma open_close_run nd c w o ob p1 p2 access :
  open_places w o (block_size (so_header ob)) p1 p2 -> w_objs w !! o = Some ob -> 0 < so_size ob ->
  0 < block_size (so_header ob) -> 0 < refcount (so_header ob) -> refcount (so_header ob) + 1 < u32_mod ->
  exists w', shared_memory_block_close nd c (opened_block w (so_header ob) p1 p2 access) None
      (opened_world w o ob p1 p2 access) = Ret IPM_RESULT_SUCCESS w' /\
    w_names w' = w_names w /\ w_fds w' = w_fds w /\ w_pages w' = w_pages w /\ w_user w' = w_user w /\
    w_objs w' = <[o := set_so_header (set_id_counter (wrap64 (id_counter (so_header ob) + 1))
                                        (so_header ob)) ob]> (w_objs w).
Proof.
  intros Hpl Ho Hs Hsz Hr Hmax. set (h := so_header ob) in *.
  assert (refcount (opened_header h) = refcount h + 1) as Hrc.
  { unfold opened_header. simpl. apply wrap32_small. word. }
  erewrite close_shared_run; [|by apply opened_block_in|change (refcount (opened_header h) <> 1); rewrite Hrc; lia].
  eexists. split; [reflexivity|]. split_and!; try done.
  - cbn [w_fds set_pages with_header set_obj set_thread set_objs close_fd set_fds opened_world mapped_world
           opened_block b_mem_fd]. rewrite Nat2Z.id. apply delete_insert_id, lowest_fd_free.
  - by apply (closed_opened_pages w o ob).
  - cbn [w_objs set_pages with_header set_obj set_objs set_thread close_fd set_fds opened_world mapped_world].
    rewrite insert_insert_eq. f_equal. cbn [set_so_header so_header]. fold h.
    rewrite Hrc, Z.add_simpl_r, wrap32_small by word.
    unfold set_so_header, opened_header, set_refcount, set_id_counter. by destruct h.
Qed.

(** ** Failures *)

Lemma create_exists_run nd c name id size k access w o :
  no_faults 1 (w_thread w) -> block_pages size k ->
  Z.of_nat (String.length name) <= IPM_MAX_NAME_LEN ->
  w_names w !! object_name name id = Some o ->
  shared_memory_block_create nd c name id size access w =
  Ret (IPM_RESULT_ERR_EXISTS, None) (set_thread (set_errno EEXIST (thread_after_call (w_thread w))) w).
Proof.
  intros Hf Hsz Hname Hn. destruct (block_pages_pos _ _ Hsz) as [Hpos _]. destruct Hsz as (Hsz & _ & _).
  unfold shared_memory_block_create.
  erewrite bind_Ret by (apply cassert_true; rewrite land_page_mask, Hsz, page_addr_mod; done).
  do 2 erewrite bind_Ret by (apply cassert_true; lia).
  erewrite bind_Ret by (eapply (shm_open_exists_run _ _ o 0); done). done.
Qed.

(** A process whose [n]-th system call from now fails with [e], and no other. *)
Definition fails_at (n : nat) (e : Z) w : Prop :=
  t_faults (w_thread w) = replicate n 0 ++ [e] /\ e <> 0.

Lemma fails_at_no_faults n e w k : fails_at n e w -> (k <= n)%nat -> no_faults k (w_thread w).
Proof.
  intros [Hf _] Hk. unfold no_faults. rewrite Hf, take_app_le by (by rewrite length_replicate).
  rewrite take_replicate. apply Forall_replicate. done.
Qed.

Lemma sys_call_fault (m : M world Z) w e fs :
  t_faults (w_thread w) = e :: fs -> e <> 0 ->
  sys_call m w = Ret (-1) (set_thread (set_errno e (thread_after_call (w_thread w))) w).
Proof. intros Hf He. rewrite sys_call_run, Hf. cbn [List.hd]. by rewrite (proj2 (Z.eqb_neq _ _) He). Qed.

Lemma mmap_fault hint len wr fd off w e fs :
  t_faults (w_thread w) = e :: fs -> e <> 0 ->
  mmap hint len wr fd off w = Ret MAP_FAILED (set_thread (set_errno e (thread_after_call (w_thread w))) w).
Proof. intros Hf He. unfold mmap. by erewrite bind_Ret by (by eapply sys_call_fault). Qed.

(** [w'] has the names, descriptors and mappings of [w], and its objects but for
    one that has no name. *)
Definition undone w w' : Prop :=
  w_names w' = w_names w /\ w_fds w' = w_fds w /\ w_pages w' = w_pages w /\
  (forall o, o <> fresh_object (w_objs w) -> w_objs w' !! o = w_objs w !! o).

(** [w] is on its way from [w0]: the new object has name [name] and descriptor
    [fd], nothing is scheduled to fail any more. *)
Record half_way w0 (name : string) w : Prop := {
  hw_names : w_names w = <[name := fresh_object (w_objs w0)]> (w_names w0);
  hw_fresh : w_names w0 !! name = None;
  hw_fds : w_fds w = <[lowest_fd (w_fds w0) := fresh_object (w_objs w0)]> (w_fds w0);
  hw_pages : w_pages w = w_pages w0;
  hw_objs : forall o, o <> fresh_object (w_objs w0) -> w_objs w !! o = w_objs w0 !! o;
  hw_faults : t_faults (w_thread w) = []
}.

Lemma half_way_report w0 name w c msg loc :
  half_way w0 name w -> exists w', IPM_ERROR c msg loc w = Ret tt w' /\ half_way w0 name w'.
Proof.
  intros [? ? ? ? ? ?]. destruct (on_user_report c msg loc w) as (t & u & Hr & _ & Hft).
  eexists. split; [exact Hr|]. split; try done. simpl. congruence.
Qed.

(** Either order of the clean-up code undoes the creation. *)
Lemma half_way_undo w0 name w c (msg : string -> string) loc {A} (f : Z -> A) :
  half_way w0 name w ->
  let fd := Z.of_nat (lowest_fd (w_fds w0)) in
  (exists w', (why ← strerror; _ ← IPM_ERROR c (msg why) loc; _ ← close fd; _ ← shm_unlink name;
               e ← w_errno; mret (f e)) w = Ret (f (t_errno (w_thread w'))) w' /\ undone w0 w') /\
  (exists w', (_ ← close fd; why ← strerror; _ ← IPM_ERROR c (msg why) loc; _ ← shm_unlink name;
               e ← w_errno; mret (f e)) w = Ret (f (t_errno (w_thread w'))) w' /\ undone w0 w').
Proof.
  intros Hw fd.
  assert (forall w1, half_way w0 name w1 -> close fd w1 = Ret 0 (set_fds (w_fds w0) w1)) as Hclose.
  { intros w1 [_ _ Hfds _ _ _].
    rewrite (close_run _ _ (fresh_object (w_objs w0))).
    - unfold fd. rewrite Nat2Z.id, Hfds, delete_insert_id by apply lowest_fd_free. done.
    - unfold fd. rewrite fd_object_nat, Hfds. apply lookup_insert_eq. }
  assert (forall w1, half_way w0 name w1 -> exists w2,
    shm_unlink name (set_fds (w_fds w0) w1) = Ret 0 w2 /\ undone w0 w2) as Hunlink.
  { intros w1 [Hn Hfr _ Hp Ho Hf]. eexists. split.
    - eapply (shm_unlink_run _ _ (fresh_object (w_objs w0)) 0); [by apply no_faults_nil|].
      simpl. rewrite Hn. apply lookup_insert_eq.
    - split_and!; try done. simpl. rewrite Hn. by apply delete_insert_id. }
  split.
  - set (why := os_strerror (t_errno (w_thread w))).
    destruct (half_way_report _ _ _ c (msg why) loc Hw) as (w1 & Hr & Hw1).
    destruct (Hunlink _ Hw1) as (w2 & Hu & Hd). exists w2. split; [|done].
    erewrite bind_Ret by reflexivity. erewrite bind_Ret by exact Hr. erewrite bind_Ret by (by apply Hclose).
    by erewrite bind_Ret by exact Hu.
  - set (why := os_strerror (t_errno (w_thread w))).
    destruct (on_user_report c (msg why) loc (set_fds (w_fds w0) w)) as (t & u & Hr & _ & Hft).
    assert (half_way w0 name (set_user u (set_thread t w))) as Hw1.
    { destruct Hw as [? ? ? ? ? Hf]. split; try done. simpl in *. congruence. }
    destruct (Hunlink _ Hw1) as (w2 & Hu & Hd). exists w2. split; [|done].
    erewrite bind_Ret by (by apply Hclose). erewrite bind_Ret by reflexivity. erewrite bind_Ret by exact Hr.
    by erewrite bind_Ret by exact Hu.
Qed.

Lemma create_fails_undone nd c name id size k access w n e :
  fails_at n e w -> n = 1%nat \/ n = 2%nat -> block_pages size k ->
  Z.of_nat (String.length name) <= IPM_MAX_NAME_LEN -> w_names w !! object_name name id = None ->
  exists r w', shared_memory_block_create nd c name id size access w = Ret (r, None) w' /\
    r <> IPM_RESULT_SUCCESS /\ undone w w'.
Proof.
  intros Hf Hcases Hsz Hname Hn. destruct (block_pages_pos _ _ Hsz) as [Hpos Hk].
  destruct Hsz as (Hsz & Hk0 & Hmax). pose proof Hf as [Hfs He].
  unfold shared_memory_block_create.
  erewrite bind_Ret by (apply cassert_true; rewrite land_page_mask, Hsz, page_addr_mod; done).
  do 2 erewrite bind_Ret by (apply cassert_true; lia).
  erewrite bind_Ret by (eapply (shm_open_new_run _ _ 0); [eapply fails_at_no_faults; [done|lia]|done]).
  rewrite (proj2 (Z.ltb_ge (Z.of_nat _) _)) by lia.
  set (o := fresh_object (w_objs w)).
  rewrite to_off_t_small by (unfold IPM_MEMORY_PAGE_SIZE in *; lia).
  destruct Hcases as [-> | ->]; simpl in Hfs.
  - erewrite bind_Ret.
    2:{ eapply sys_call_fault; [|exact He]. simpl. rewrite Hfs. reflexivity. }
    change (-1 <? 0) with true. cbv iota.
    edestruct (half_way_undo w (object_name name id)) as [(w' & Hr & Hd) _]; cycle 1.
    { eexists _, w'. split; [exact Hr|]. split; [|exact Hd].
      unfold ftruncate_create_error, switch. by repeat case_match. }
    split; try done; simpl; [|by rewrite Hfs].
    intros o' Ho'. by rewrite lookup_insert_ne.
  - erewrite bind_Ret.
    2:{ eapply (ftruncate_run _ _ o _ _ 0); [| | |].
        - simpl. unfold no_faults, thread_after_call. simpl. rewrite Hfs. by constructor.
        - rewrite fd_object_nat. apply lookup_insert_eq.
        - apply lookup_insert_eq.
        - unfold IPM_MEMORY_PAGE_SIZE; lia. }
    change (0 <? 0) with false. cbv iota.
    erewrite bind_Ret by (eapply mmap_fault; [simpl; rewrite Hfs; reflexivity|exact He]).
    rewrite Z.eqb_refl.
    edestruct (half_way_undo w (object_name name id)) as [_ (w' & Hr & Hd)]; cycle 1.
    { eexists _, w'. split; [exact Hr|]. split; [|exact Hd].
      unfold mmap_error, switch. by repeat case_match. }
    split; try done; simpl; [|by rewrite Hfs].
    intros o' Ho'. by rewrite !lookup_insert_ne.
Qed.

(** A failed mapping of the header is not noticed: the code compares the result
    with the null pointer, not with [MAP_FAILED]. *)
Lemma on_header_map_failed {A} (m : M (thread * ipm_shared_memory_header) A) w :
  on_header MAP_FAILED m w = Undef.
Proof. done. Qed.

Lemma create_header_fails nd c name id size k access w p1 e :
  fails_at 3 e w -> block_pages size k -> Z.of_nat (String.length name) <= IPM_MAX_NAME_LEN ->
  w_names w !! object_name name id = None -> os_place (w_pages w) 0 (pages_of size) = Some p1 ->
  shared_memory_block_create nd c name id size access w = Undef.
Proof.
  intros Hf Hsz Hname Hn Hp1. destruct (block_pages_pos _ _ Hsz) as [Hpos Hk].
  destruct Hsz as (Hsz & Hk0 & Hmax). pose proof Hf as [Hfs He]. simpl in Hfs.
  unfold shared_memory_block_create.
  erewrite bind_Ret by (apply cassert_true; rewrite land_page_mask, Hsz, page_addr_mod; done).
  do 2 erewrite bind_Ret by (apply cassert_true; lia).
  erewrite bind_Ret by (eapply (shm_open_new_run _ _ 0); [eapply fails_at_no_faults; [done|lia]|done]).
  rewrite (proj2 (Z.ltb_ge (Z.of_nat _) _)) by lia. set (o := fresh_object (w_objs w)).
  rewrite to_off_t_small by (unfold IPM_MEMORY_PAGE_SIZE in *; lia).
  erewrite bind_Ret.
  2:{ eapply (ftruncate_run _ _ o _ _ 1); [| | |].
      - simpl. unfold no_faults, thread_after_call. simpl. rewrite Hfs. by repeat constructor.
      - rewrite fd_object_nat. apply lookup_insert_eq.
      - apply lookup_insert_eq.
      - unfold IPM_MEMORY_PAGE_SIZE; lia. }
  change (0 <? 0) with false. cbv iota.
  erewrite bind_Ret.
  2:{ eapply (mmap_run _ _ _ _ _ o _ p1 0); [|lia|done| |done].
      - simpl. unfold no_faults, thread_after_call. simpl. rewrite Hfs. by repeat constructor.
      - rewrite fd_object_nat. apply lookup_insert_eq. }
  rewrite (MAP_FAILED_place _ _ _ _ Hp1) by lia.
  erewrite bind_Ret by (eapply mmap_fault; [simpl; rewrite Hfs; reflexivity|exact He]).
  done.
Qed.

(** ** Opening *)

Lemma open_absent_run nd others c name id access w :
  no_faults 1 (w_thread w) -> Z.of_nat (String.length name) <= IPM_MAX_NAME_LEN ->
  w_names w !! object_name name id = None -> report_callback c = None ->
  exists w', shared_memory_block_open nd others c name id access w =
    Ret (IPM_RESULT_ERR_DOES_NOT_EXIST, None) w' /\
    w_names w' = w_names w /\ w_fds w' = w_fds w /\ w_pages w' = w_pages w /\ w_objs w' = w_objs w.
Proof.
  intros Hf Hname Hn Hc. unfold shared_memory_block_open.
  erewrite bind_Ret by (apply cassert_true; lia).
  erewrite bind_Ret by (eapply (shm_open_absent_run _ _ 0); done).
  unfold mbind at 1, M_bind at 1. cbn [gets w_errno]. eexists. split.
  { unfold IPM_ERROR, on_user, ipm_report_error. rewrite Hc. reflexivity. }
  done.
Qed.

(** A block whose creator has not filled in the header yet: the size read there
    is still zero, and the mapping fails before the code waits for the creator. *)
Lemma open_too_early nd others c name id access w o ob p1 :
  no_faults 3 (w_thread w) -> Z.of_nat (String.length name) <= IPM_MAX_NAME_LEN ->
  w_names w !! object_name name id = Some o -> w_objs w !! o = Some ob -> 0 < so_size ob ->
  block_size (so_header ob) = 0 -> os_place (w_pages w) 0 1 = Some p1 -> report_callback c = None ->
  exists w', shared_memory_block_open nd others c name id access w = Ret (IPM_RESULT_ERR_BAD_VALUE, None) w'.
Proof.
  intros Hf Hname Hn Ho Hs Hz Hp1 Hc. unfold shared_memory_block_open.
  erewrite bind_Ret by (apply cassert_true; lia).
  erewrite bind_Ret by (eapply (shm_open_old_run _ _ o 2); done).
  rewrite (proj2 (Z.ltb_ge _ _)) by lia.
  erewrite bind_Ret.
  2:{ eapply (mmap_run _ _ _ _ _ o _ p1 1); [exact (no_faults_after 1 2 _ Hf)|done|done| |exact Hp1].
      rewrite fd_object_nat. apply lookup_insert_eq. }
  rewrite (NULL_place _ _ _ _ Hp1).
  erewrite bind_Ret.
  2:{ apply (read_header_run _ _ o ob). split; [apply page_addr_mod| |exact Ho|done].
      rewrite page_addr_div. cbn [w_pages set_pages].
      rewrite lookup_map_pages, decide_True by (change (pages_of IPM_MEMORY_PAGE_SIZE) with 1; lia).
      by rewrite Z.sub_diag. }
  rewrite Hz. erewrite bind_Ret.
  2:{ unfold mmap. erewrite bind_Ret; [reflexivity|].
      rewrite (sys_call_nofault _ _ 0) by exact (no_faults_after 2 1 _ Hf). reflexivity. }
  change (wrap64 (-1) =? MAP_FAILED) with true. cbv iota.
  erewrite bind_Ret.
  2:{ apply (close_run _ _ o). rewrite fd_object_nat. simpl. apply lookup_insert_eq. }
  erewrite bind_Ret by (apply munmap_run; [apply page_addr_mod|done]).
  eexists. erewrite bind_Ret by reflexivity. unfold IPM_ERROR, on_user, ipm_report_error. rewrite Hc. reflexivity.
Qed.

(** ** Remapping *)

(** [b_memory] and [b_size] designate a mapping that can be removed. *)
Definition remappable b : Prop := b_memory b mod IPM_MEMORY_PAGE_SIZE = 0 /\ 0 < b_size b.

Lemma update_unchanged_run c b access w o ob :
  header_mapped w (b_header b) o ob -> b_size b = block_size (so_header ob) ->
  access = b_access_mode b -> b_memory b <> NULL ->
  shared_memory_block_update_mapping c b access w = Ret (IPM_RESULT_SUCCESS, b) w.
Proof.
  intros Hm Hsz -> Hnull. unfold shared_memory_block_update_mapping.
  erewrite bind_Ret by (by eapply read_header_run).
  rewrite Hsz, Z.eqb_refl, bool_decide_true, (proj2 (Z.eqb_neq _ _) Hnull) by done. done.
Qed.

(** The world after a remapping to page [p]. *)
Definition remapped w b (o' : nat) (size : Z) (access : ipm_access_mode) (p : Z) : world :=
  set_pages (map_pages p (pages_of size) o' 1 (is_writable access)
               (unmap_pages (b_memory b / IPM_MEMORY_PAGE_SIZE) (pages_of (b_size b)) (w_pages w)))
    (world_after_call w).

Lemma update_changed_run c b access w o ob o' p :
  header_mapped w (b_header b) o ob -> no_faults 1 (w_thread w) -> remappable b ->
  fd_object w (b_mem_fd b) = Some o' -> 0 < block_size (so_header ob) ->
  b_size b <> block_size (so_header ob) \/ access <> b_access_mode b \/ b_memory b = NULL ->
  os_place (unmap_pages (b_memory b / IPM_MEMORY_PAGE_SIZE) (pages_of (b_size b)) (w_pages w))
    (b_memory b / IPM_MEMORY_PAGE_SIZE) (pages_of (block_size (so_header ob))) = Some p ->
  shared_memory_block_update_mapping c b access w =
  Ret (IPM_RESULT_SUCCESS, set_mapping (block_size (so_header ob)) NULL access b)
    (remapped w b o' (block_size (so_header ob)) access p).
Proof.
  intros Hm Hf [Ha Hs] Hfd Hsz Hch Hp. unfold shared_memory_block_update_mapping.
  erewrite bind_Ret by (by eapply read_header_run).
  replace (_ && negb _) with false; [|symmetry].
  2:{ destruct Hch as [H|[H|H]].
      - by rewrite (proj2 (Z.eqb_neq _ _) H).
      - rewrite (bool_decide_false _ H). by rewrite andb_false_r.
      - rewrite H. by rewrite andb_false_r. }
  erewrite bind_Ret by (by apply munmap_run).
  erewrite bind_Ret by (by eapply (mmap_run _ _ _ _ _ o' _ p 0)).
  rewrite (MAP_FAILED_place _ _ _ _ Hp) by (apply Z.div_str_pos; unfold IPM_MEMORY_PAGE_SIZE; lia).
  done.
Qed.

(** ** The lock on a whole block *)

Lemma acquire_run c b w o ob :
  header_mapped w (b_header b) o ob -> no_faults 1 (w_thread w) -> b_has_ownership b = false ->
  segment_mutex (so_header ob) = mutex_of Free ->
  acquire_memory_block_whole c b w =
  Ret (IPM_RESULT_SUCCESS, set_ownership true b)
    (with_header w o ob (thread_after_call (w_thread w))
       (set_segment_mutex (mutex_of (Held (t_tid (w_thread w)))) (so_header ob))).
Proof.
  intros Hm Hf Hown Hmx. unfold acquire_memory_block_whole. rewrite Hown.
  rewrite <- (with_header_init _ _ _ _ Hm) at 1.
  erewrite bind_Ret by (eapply on_segment_mutex_wh; [exact Hm|rewrite Hmx; by rewrite mutex_lock_run]).
  rewrite bool_decide_true by done. done.
Qed.

(** Releasing a block that is owned reports an error and keeps the lock. *)
Lemma release_owned_run c b w :
  b_has_ownership b = true ->
  exists w', release_memory_block_whole c b w = Ret (IPM_RESULT_ERR_NOT_LOCKED, b) w' /\
    w_objs w' = w_objs w.
Proof.
  intros Hown. unfold release_memory_block_whole. rewrite Hown.
  match goal with |- context [IPM_ERROR ?c ?msg ?s] =>
    destruct (on_user_report c msg s w) as (t & u & Hr & Ht) end.
  erewrite bind_Ret by exact Hr. by eexists.
Qed.

(** ** Growing *)

(** The object after growing the memory to [size] bytes. *)
Definition grown_object (size : Z) (ob : shm_object) : shm_object :=
  set_so_header (set_block_size size (so_header ob)) (truncate_object (IPM_MEMORY_PAGE_SIZE + size) ob).

(** The object is truncated to another size and its header updated; what follows is the
    new mapping.  Only an assertion keeps the size from decreasing. *)
Lemma resize_truncates nd c b w o ob size k :
  header_mapped w (b_header b) o ob -> t_faults (w_thread w) = [] ->
  fd_object w (b_mem_fd b) = Some o -> block_pages size k ->
  nd = true \/ block_size (so_header ob) <= size -> block_size (so_header ob) <> size ->
  segment_mutex (so_header ob) = mutex_of Free ->
  shared_memory_block_resize nd c b size w =
  shared_memory_block_update_mapping c b (b_access_mode b) (set_obj o (grown_object size ob) w).
Proof.
  intros Hm Hf Hfd Hpg Hgrow Hne Hmx. destruct (block_pages_pos _ _ Hpg) as [Hpos _].
  destruct Hpg as (Hsz & _ & Hmax). set (t := w_thread w) in *.
  assert (thread_after_call t = t) as Ht by (by apply thread_after_call_nil).
  unfold shared_memory_block_resize.
  erewrite bind_Ret by (by eapply read_header_run).
  erewrite bind_Ret by (destruct Hgrow as [->|?]; [done|apply cassert_true; lia]).
  erewrite bind_Ret by (apply cassert_true; rewrite land_page_mask, Hsz, page_addr_mod; done).
  erewrite bind_Ret by (apply cassert_true; lia).
  erewrite bind_Ret.
  2:{ rewrite <- (with_header_init _ _ _ _ Hm) at 1. eapply on_segment_mutex_wh; [exact Hm|].
      fold t. rewrite Hmx, mutex_lock_run, Ht by (by apply no_faults_nil). reflexivity. }
  rewrite bool_decide_true by done. cbn [negb].
  erewrite bind_Ret by (by apply read_header_wh).
  rewrite (proj2 (Z.eqb_neq _ _)) by (simpl; lia).
  rewrite to_off_t_small by (unfold IPM_MEMORY_PAGE_SIZE in *; lia).
  erewrite bind_Ret.
  2:{ eapply (ftruncate_run _ _ o _ _ 0); [by apply no_faults_nil|exact Hfd|apply lookup_insert_eq|
      unfold IPM_MEMORY_PAGE_SIZE; lia]. }
  change (0 <? 0) with false. cbv iota.
  set (obt := truncate_object (IPM_MEMORY_PAGE_SIZE + size) ob).
  assert (header_mapped (set_obj o obt w) (b_header b) o obt) as Hmt.
  { destruct Hm as [? ? ? ?]. split; try done; [apply lookup_insert_eq|]. simpl. unfold IPM_MEMORY_PAGE_SIZE; lia. }
  match goal with |- _ ?x = _ =>
    replace x with (with_header (set_obj o obt w) o obt t
      (set_segment_mutex (mutex_of (Held (t_tid t))) (so_header ob))) end.
  2:{ unfold with_header, set_obj, set_objs, world_after_call, set_thread. simpl. fold t. rewrite Ht.
      by rewrite !insert_insert_eq. }
  erewrite bind_Ret by (by apply write_header_wh).
  erewrite bind_Ret.
  2:{ eapply on_segment_mutex_wh; [exact Hmt|]. cbn [segment_mutex set_block_size set_segment_mutex].
      rewrite mutex_unlock_run, decide_True, Ht by (auto || by apply no_faults_nil). reflexivity. }
  match goal with |- _ ?x = _ => replace x with (set_obj o (grown_object size ob) w) end; [done|].
  assert (set_segment_mutex (mutex_of Free) (set_block_size size
    (set_segment_mutex (mutex_of (Held (t_tid t))) (so_header ob))) = set_block_size size (so_header ob)) as ->
    by (rewrite <- Hmx; by destruct (so_header ob)).
  unfold with_header, set_obj, set_objs, set_thread, grown_object. simpl. rewrite insert_insert_eq. by destruct w.
Qed.

(** When the block has the size already, only this handle may have to follow. *)
Lemma resize_follows nd c b w o ob size :
  header_mapped w (b_header b) o ob -> t_faults (w_thread w) = [] -> block_size (so_header ob) = size ->
  Z.land size IPM_MEMORY_PAGE_SIZE_MASK = 0 -> 0 < size -> segment_mutex (so_header ob) = mutex_of Free ->
  shared_memory_block_resize nd c b size w =
  (if size =? b_size b then mret (IPM_RESULT_SUCCESS, b)
   else shared_memory_block_update_mapping c b (b_access_mode b)) w.
Proof.
  intros Hm Hf Hbs Hsz Hpos Hmx. set (t := w_thread w) in *.
  assert (thread_after_call t = t) as Ht by (by apply thread_after_call_nil).
  unfold shared_memory_block_resize.
  erewrite bind_Ret by (by eapply read_header_run).
  do 3 erewrite bind_Ret by (apply cassert_true; rewrite ?Hsz; lia).
  erewrite bind_Ret.
  2:{ rewrite <- (with_header_init _ _ _ _ Hm) at 1. eapply on_segment_mutex_wh; [exact Hm|].
      fold t. rewrite Hmx, mutex_lock_run, Ht by (by apply no_faults_nil). reflexivity. }
  rewrite bool_decide_true by done. cbn [negb].
  erewrite bind_Ret by (by apply read_header_wh).
  rewrite (proj2 (Z.eqb_eq _ _)) by (simpl; lia).
  erewrite bind_Ret.
  2:{ eapply on_segment_mutex_wh; [exact Hm|]. cbn [segment_mutex set_segment_mutex].
      rewrite mutex_unlock_run, decide_True, Ht by (auto || by apply no_faults_nil). reflexivity. }
  match goal with |- context [with_header ?w0 ?o0 ?ob0 ?t0 ?h0] => replace (with_header w0 o0 ob0 t0 h0) with w end.
  - by destruct (size =? b_size b).
  - assert (set_segment_mutex (mutex_of Free) (set_segment_mutex (mutex_of (Held (t_tid t))) (so_header ob)) =
      so_header ob) as -> by (rewrite <- Hmx; by destruct (so_header ob)).
    symmetry. by eapply with_header_init.
Qed.

Lemma resize_run nd c b w o ob size k p :
  header_mapped w (b_header b) o ob -> t_faults (w_thread w) = [] -> remappable b ->
  fd_object w (b_mem_fd b) = Some o -> block_pages size k -> block_size (so_header ob) < size ->
  segment_mutex (so_header ob) = mutex_of Free -> b_size b <> size ->
  os_place (unmap_pages (b_memory b / IPM_MEMORY_PAGE_SIZE) (pages_of (b_size b)) (w_pages w))
    (b_memory b / IPM_MEMORY_PAGE_SIZE) (pages_of size) = Some p ->
  shared_memory_block_resize nd c b size w =
  Ret (IPM_RESULT_SUCCESS, set_mapping size NULL (b_access_mode b) b)
    (remapped (set_obj o (grown_object size ob) w) b o size (b_access_mode b) p).
Proof.
  intros Hm Hf Hrm Hfd Hpg Hgrow Hmx Hbs Hp. destruct (block_pages_pos _ _ Hpg) as [Hpos _].
  rewrite (resize_truncates nd c b w o ob size k) by (done || lia || (right; lia)).
  rewrite (update_changed_run _ _ _ _ o (grown_object size ob) o p); try done.
  - destruct Hm as [? ? ? ?]. split; try done; [apply lookup_insert_eq|]. simpl. unfold IPM_MEMORY_PAGE_SIZE; lia.
  - by apply no_faults_nil.
  - by left.
Qed.
End blocks.

(** ** Theorems *)

(** C22. Creating a block.  When the name is free and nothing fails, the call
    succeeds: the new object has one header page and the requested pages behind
    it, its header records the size, the identifier, the name, one reference and
    the next access identifier, its mutex is free, both mappings and the
    descriptor are in place, and the handle has access identifier 1.  When the
    name is taken the call returns [IPM_RESULT_ERR_EXISTS] and changes only
    [errno].  When truncating the object or mapping its memory fails, the call
    returns an error and names, descriptors and mappings are those before it. *)
Theorem block_create_functional {E : Env} {L : EnvLaws E} nd c name id size k access w :
  block_pages size k -> Z.of_nat (String.length name) <= IPM_MAX_NAME_LEN ->
  (forall p1 p2, no_faults 9 (w_thread w) -> w_names w !! object_name name id = None ->
   create_places w size p1 p2 access ->
   shared_memory_block_create nd c name id size access w =
     Ret (IPM_RESULT_SUCCESS, Some (created_block w size p1 p2 access))
         (created_world w name id size p1 p2 access) /\
   block_in (created_world w name id size p1 p2 access) (created_block w size p1 p2 access)
     (fresh_object (w_objs w)) (created_object name id size)) /\
  (forall o, no_faults 1 (w_thread w) -> w_names w !! object_name name id = Some o ->
   exists w', shared_memory_block_create nd c name id size access w = Ret (IPM_RESULT_ERR_EXISTS, None) w' /\
     w' = set_thread (w_thread w') w) /\
  (forall n e, fails_at n e w -> n = 1%nat \/ n = 2%nat -> w_names w !! object_name name id = None ->
   exists r w', shared_memory_block_create nd c name id size access w = Ret (r, None) w' /\
     r <> IPM_RESULT_SUCCESS /\ undone w w').
Proof.
  intros Hsz Hname. split_and!.
  - intros p1 p2 Hf Hn Hpl. split; [|by eapply created_block_in].
    destruct Hpl. by eapply create_run.
  - intros o Hf Hn. eexists. split; [by eapply create_exists_run|done].
  - intros n e Hf Hn Hnames. by eapply create_fails_undone.
Qed.

Lemma block_create_functional_witness :
  (exists b w', shared_memory_block_create false context "data" 1 8192 IPM_ACCESS_MODE_READ_WRITE (boot 1) =
     Ret (IPM_RESULT_SUCCESS, Some b) w' /\ b_access_id b = 1) /\
  (exists r w', shared_memory_block_create false context "data" 1 8192 IPM_ACCESS_MODE_READ_WRITE
       (set_thread (mk_thread 1 0 [0; 0; ENOMEM]) (boot 1)) = Ret (r, None) w' /\
     r <> IPM_RESULT_SUCCESS /\ undone (set_thread (mk_thread 1 0 [0; 0; ENOMEM]) (boot 1)) w').
Proof.
  assert (block_pages 8192 2) as Hsz by (unfold block_pages, IPM_MEMORY_PAGE_SIZE; lia).
  split.
  - destruct (block_create_functional false context "data" 1 8192 2 IPM_ACCESS_MODE_READ_WRITE (boot 1))
      as [H _]; [exact Hsz|vm_compute; discriminate|].
    destruct (H 16 18) as [H1 _]; [apply no_faults_nil; reflexivity|reflexivity|split; vm_compute; reflexivity|].
    eexists _, _. split; [exact H1|reflexivity].
  - destruct (block_create_functional false context "data" 1 8192 2 IPM_ACCESS_MODE_READ_WRITE
                (set_thread (mk_thread 1 0 [0; 0; ENOMEM]) (boot 1)))
      as [_ [_ H]]; [exact Hsz|vm_compute; discriminate|].
    apply (H 2%nat ENOMEM); [split; [reflexivity|vm_compute; discriminate]|right; reflexivity|reflexivity].
Defined.

(** A failure to map the header of a new block is not detected: the result is
    compared with the null pointer although a failed mapping is reported as
    [MAP_FAILED], so the header is written through an invalid address. *)
Theorem block_create_header_unchecked {E : Env} {L : EnvLaws E} nd c name id size k access w p1 e :
  fails_at 3 e w -> block_pages size k -> Z.of_nat (String.length name) <= IPM_MAX_NAME_LEN ->
  w_names w !! object_name name id = None -> os_place (w_pages w) 0 (pages_of size) = Some p1 ->
  shared_memory_block_create nd c name id size access w = Undef.
Proof. intros Hf Hsz Hname Hn Hp1. by eapply create_header_fails. Qed.

Lemma block_create_header_unchecked_witness :
  shared_memory_block_create false context "data" 1 8192 IPM_ACCESS_MODE_READ_WRITE
    (set_thread (mk_thread 1 0 [0; 0; 0; ENOMEM]) (boot 1)) = Undef.
Proof.
  apply (block_create_header_unchecked false context "data" 1 8192 2 IPM_ACCESS_MODE_READ_WRITE
           (set_thread (mk_thread 1 0 [0; 0; 0; ENOMEM]) (boot 1)) 16 ENOMEM).
  - split; [reflexivity|vm_compute; discriminate].
  - unfold block_pages, IPM_MEMORY_PAGE_SIZE; lia.
  - vm_compute; discriminate.
  - reflexivity.
  - vm_compute; reflexivity.
Defined.

(** Opening a block.  An existing, completed block with the requested name and
    identifier is mapped: the call succeeds, the reference count and the access
    identifier counter of its header go up by one and nothing else of the object
    changes, and the handle has the size of the block and an access identifier of
    its own.  A name that does not exist gives [IPM_RESULT_ERR_DOES_NOT_EXIST]
    (when reporting does not overwrite [errno]) and changes no shared state. *)
Theorem block_open_functional {E : Env} {L : EnvLaws E} nd others c name id access w :
  Z.of_nat (String.length name) <= IPM_MAX_NAME_LEN ->
  (forall o ob p1 p2, no_faults 3 (w_thread w) -> w_names w !! object_name name id = Some o ->
   w_objs w !! o = Some ob -> 0 < so_size ob ->
   let h := so_header ob in
   0 < block_size h -> refcount h <> 0 -> block_id h = id -> hdr_block_name h = name ->
   open_places w o (block_size h) p1 p2 ->
   let b := opened_block w h p1 p2 access in
   let w' := opened_world w o ob p1 p2 access in
   shared_memory_block_open nd others c name id access w = Ret (IPM_RESULT_SUCCESS, Some b) w' /\
   block_in w' b o (set_so_header (opened_header h) ob) /\
   b_size b = block_size h /\ b_access_id b = id_counter h /\
   w_objs w' = <[o := set_so_header (opened_header h) ob]> (w_objs w)) /\
  (no_faults 1 (w_thread w) -> w_names w !! object_name name id = None -> report_callback c = None ->
   exists w', shared_memory_block_open nd others c name id access w =
     Ret (IPM_RESULT_ERR_DOES_NOT_EXIST, None) w' /\
     w_names w' = w_names w /\ w_fds w' = w_fds w /\ w_pages w' = w_pages w /\ w_objs w' = w_objs w).
Proof.
  intros Hname. split.
  - intros o ob p1 p2 Hf Hn Ho Hs h Hsz Hr Hid Hnm Hpl b w'. split_and!; try done.
    + by apply open_run.
    + by apply opened_block_in.
  - intros Hf Hn Hc. by apply open_absent_run.
Qed.

(** The claim block of the demonstration memory. *)
Lemma block_open_functional_witness :
  (exists b w', shared_memory_block_open false [] context "demo" 2 IPM_ACCESS_MODE_READ_WRITE (join 2 demo_world) =
     Ret (IPM_RESULT_SUCCESS, Some b) w' /\ b_access_id b = 2 /\
     (refcount ∘ so_header <$> w_objs w' !! 0%nat) = Some 2) /\
  (exists w', shared_memory_block_open false [] silent "other" 2 IPM_ACCESS_MODE_READ_WRITE (join 2 demo_world) =
     Ret (IPM_RESULT_ERR_DOES_NOT_EXIST, None) w').
Proof.
  split.
  - destruct (block_open_functional false [] context "demo" 2 IPM_ACCESS_MODE_READ_WRITE (join 2 demo_world))
      as [H _]; [vm_compute; discriminate|].
    destruct (H 0%nat demo_object 16 17) as (H1 & _ & _ & H2 & H3);
      [apply no_faults_nil; reflexivity|vm_compute; reflexivity|vm_compute; reflexivity|vm_compute; reflexivity
      |vm_compute; reflexivity|vm_compute; discriminate|vm_compute; reflexivity|vm_compute; reflexivity
      |split; vm_compute; reflexivity|].
    eexists _, _. split; [exact H1|]. split; [rewrite H2; vm_compute; reflexivity|].
    rewrite H3. vm_compute. reflexivity.
  - destruct (block_open_functional false [] silent "other" 2 IPM_ACCESS_MODE_READ_WRITE (join 2 demo_world))
      as [_ H]; [vm_compute; discriminate|].
    destruct H as (w' & H1 & _); [apply no_faults_nil; reflexivity|vm_compute; reflexivity|reflexivity|].
    exists w'. exact H1.
Defined.

(** A block that is still being created can not be opened.  Before the creator
    has written the size, the opening process reads a size of zero and its mapping
    fails with [IPM_RESULT_ERR_BAD_VALUE]; the loop that waits for the creator comes
    only after that mapping, so whatever the creator does meanwhile ([others]) is
    never waited for. *)
Theorem block_open_too_early {E : Env} {L : EnvLaws E} nd others c name id access w o ob p1 :
  no_faults 3 (w_thread w) -> Z.of_nat (String.length name) <= IPM_MAX_NAME_LEN ->
  w_names w !! object_name name id = Some o -> w_objs w !! o = Some ob -> 0 < so_size ob ->
  block_size (so_header ob) = 0 -> os_place (w_pages w) 0 1 = Some p1 -> report_callback c = None ->
  exists w', shared_memory_block_open nd others c name id access w = Ret (IPM_RESULT_ERR_BAD_VALUE, None) w'.
Proof. intros. by eapply open_too_early. Qed.

(** The machine when a creator has truncated its object and not yet filled it in. *)
Definition half_created : world :=
  set_obj 0 (mk_object 12288 zero_header zero_list)
    (set_names {[object_name "data" 1 := 0%nat]} (boot 1)).

Lemma block_open_too_early_witness :
  exists w', shared_memory_block_open false [set_so_header (mk_header (mutex_of Free) 1 8192 2 1 "data")]
    silent "data" 1 IPM_ACCESS_MODE_READ_WRITE (join 2 half_created) = Ret (IPM_RESULT_ERR_BAD_VALUE, None) w'.
Proof.
  apply (block_open_too_early false [set_so_header (mk_header (mutex_of Free) 1 8192 2 1 "data")]
           silent "data" 1 IPM_ACCESS_MODE_READ_WRITE (join 2 half_created) 0
           (mk_object 12288 zero_header zero_list) 16).
  - apply no_faults_nil; reflexivity.
  - vm_compute; discriminate.
  - vm_compute; reflexivity.
  - vm_compute; reflexivity.
  - vm_compute; reflexivity.
  - reflexivity.
  - vm_compute; reflexivity.
  - reflexivity.
Defined.

(** C23. Round trips.  Creating a block and closing its only handle restores the
    names, the descriptors and the mappings of the machine; opening an existing
    block and closing that handle restores them too, and gives the object back as
    it was except for the access identifier that was used up. *)
Theorem block_roundtrips {E : Env} {L : EnvLaws E} nd c name id access w :
  Z.of_nat (String.length name) <= IPM_MAX_NAME_LEN ->
  (forall size k p1 p2, no_faults 11 (w_thread w) -> block_pages size k ->
   create_places w size p1 p2 access -> w_names w !! object_name name id = None ->
   exists w', ('(_, b) ← shared_memory_block_create nd c name id size access;
               b ← unwrap b; shared_memory_block_close nd c b None) w = Ret IPM_RESULT_SUCCESS w' /\
     undone w w') /\
  (forall others o ob p1 p2, no_faults 3 (w_thread w) -> w_names w !! object_name name id = Some o ->
   w_objs w !! o = Some ob -> 0 < so_size ob ->
   let h := so_header ob in
   0 < block_size h -> 0 < refcount h -> refcount h + 1 < u32_mod -> block_id h = id ->
   hdr_block_name h = name -> open_places w o (block_size h) p1 p2 ->
   exists w', ('(_, b) ← shared_memory_block_open nd others c name id access;
               b ← unwrap b; shared_memory_block_close nd c b None) w = Ret IPM_RESULT_SUCCESS w' /\
     w_names w' = w_names w /\ w_fds w' = w_fds w /\ w_pages w' = w_pages w /\
     w_objs w' = <[o := set_so_header (set_id_counter (wrap64 (id_counter h + 1)) h) ob]> (w_objs w)).
Proof.
  intros Hname. split.
  - intros size k p1 p2 Hf Hsz Hpl Hn. destruct (create_close_run nd c name id size k access w p1 p2)
      as (w' & Hr & H1 & H2 & H3 & H4 & H5); [done..|].
    exists w'. split; [|done]. destruct Hpl as [Hp1 Hp2].
    erewrite bind_Ret by (eapply create_run; [by eapply no_faults_le; [|exact Hf]; lia|done..]).
    cbn beta iota. by erewrite bind_Ret by done.
  - intros others o ob p1 p2 Hf Hn Ho Hs h Hsz Hr Hmax Hid Hnm Hpl.
    destruct (open_close_run nd c w o ob p1 p2 access) as (w' & Hrun & H1 & H2 & H3 & H4 & H5); [done..|].
    exists w'. split; [|done].
    erewrite bind_Ret by (apply open_run; try done; fold h; lia).
    cbn beta iota. by erewrite bind_Ret by done.
Qed.

Lemma block_roundtrips_witness :
  exists w', ('(_, b) ← shared_memory_block_create false context "data" 1 8192 IPM_ACCESS_MODE_READ_WRITE;
              b ← unwrap b; shared_memory_block_close false context b None) (boot 1) =
             Ret IPM_RESULT_SUCCESS w' /\ undone (boot 1) w'.
Proof.
  destruct (block_roundtrips false context "data" 1 IPM_ACCESS_MODE_READ_WRITE (boot 1)) as [H _];
    [vm_compute; discriminate|].
  apply (H 8192 2 16 18).
  - apply no_faults_nil; reflexivity.
  - unfold block_pages, IPM_MEMORY_PAGE_SIZE; lia.
  - split; vm_compute; reflexivity.
  - reflexivity.
Defined.

(** Closing a handle.  While other handles exist the reference count goes down
    by one, the handle's descriptor and both of its mappings disappear, and the
    name stays.  Closing the last handle also destroys the block's mutex and
    removes the name, which is rebuilt from the header. *)
Theorem block_close_functional {E : Env} nd c b w o ob :
  block_in w b o ob ->
  let h := so_header ob in
  (1 < refcount h < u32_mod ->
   exists w', shared_memory_block_close nd c b None w = Ret IPM_RESULT_SUCCESS w' /\
     w_names w' = w_names w /\ w_fds w' = delete (Z.to_nat (b_mem_fd b)) (w_fds w) /\
     w_pages w' = closed_pages b (block_size h) (w_pages w) /\
     w_objs w' = <[o := set_so_header (set_refcount (refcount h - 1) h) ob]> (w_objs w)) /\
  (refcount h = 1 -> no_faults 2 (w_thread w) -> segment_mutex h = mutex_of Free ->
   is_Some (w_names w !! object_name (hdr_block_name h) (block_id h)) ->
   exists w', shared_memory_block_close nd c b None w = Ret IPM_RESULT_SUCCESS w' /\
     w_names w' = delete (object_name (hdr_block_name h) (block_id h)) (w_names w) /\
     w_fds w' = delete (Z.to_nat (b_mem_fd b)) (w_fds w) /\
     w_pages w' = closed_pages b (block_size h) (w_pages w) /\
     w_objs w' = <[o := set_so_header (set_segment_mutex zero_mutex (set_refcount 0 h)) ob]> (w_objs w)).
Proof.
  intros Hb h. split.
  - intros Hr. erewrite close_shared_run by (done || (fold h; lia)). eexists. split; [reflexivity|].
    split_and!; try done. fold h. rewrite wrap32_small by word. done.
  - intros Hr Hf Hm Hn. erewrite (close_last_run _ _ _ None _ o ob ob (w_thread w)); try done.
    eexists. split; [reflexivity|]. split_and!; try done.
Qed.

Lemma block_close_functional_witness :
  exists w', shared_memory_block_close false context (real_memory demo_memory) None demo_world =
      Ret IPM_RESULT_SUCCESS w' /\ w_names w' !! object_name "demo" 1 = None.
Proof.
  destruct (block_close_functional false context (real_memory demo_memory) demo_world 1
     (default (mk_object 0 zero_header zero_list) (w_objs demo_world !! 1%nat))) as [_ H].
  - split; [split; vm_compute; reflexivity|eexists; vm_compute; reflexivity|vm_compute; reflexivity..].
  - destruct H as (w' & H1 & H2 & _);
      [vm_compute; reflexivity|apply no_faults_nil; vm_compute; reflexivity|vm_compute; reflexivity
      |vm_compute; eexists; reflexivity|].
    exists w'. split; [exact H1|]. rewrite H2. vm_compute. reflexivity.
Defined.

(** Updating the mapping of a block.  When size, access mode and mapping are up
    to date nothing happens.  Otherwise the memory is mapped again with the size
    the header records and the requested access, and the call succeeds, but the
    handle's memory pointer is left null instead of designating the new mapping. *)
Theorem update_mapping_functional {E : Env} {L : EnvLaws E} c b access w o ob :
  header_mapped w (b_header b) o ob ->
  let size := block_size (so_header ob) in
  (b_size b = size -> access = b_access_mode b -> b_memory b <> NULL ->
   shared_memory_block_update_mapping c b access w = Ret (IPM_RESULT_SUCCESS, b) w) /\
  (forall o' p, no_faults 1 (w_thread w) -> remappable b -> fd_object w (b_mem_fd b) = Some o' -> 0 < size ->
   b_size b <> size \/ access <> b_access_mode b \/ b_memory b = NULL ->
   os_place (unmap_pages (b_memory b / IPM_MEMORY_PAGE_SIZE) (pages_of (b_size b)) (w_pages w))
     (b_memory b / IPM_MEMORY_PAGE_SIZE) (pages_of size) = Some p ->
   exists b' w', shared_memory_block_update_mapping c b access w = Ret (IPM_RESULT_SUCCESS, b') w' /\
     b_size b' = size /\ b_access_mode b' = access /\ b_memory b' = NULL /\
     (forall i, 0 <= i < pages_of size ->
        w_pages w' !! (p + i) = Some (mk_page o' (1 + i) (is_writable access)))).
Proof.
  intros Hm size. split.
  - intros Hsz Ha Hnull. by eapply update_unchanged_run.
  - intros o' p Hf Hrm Hfd Hpos Hch Hp. eexists _, _. split; [by eapply update_changed_run|].
    split_and!; try done. intros i Hi. cbn [remapped w_pages set_pages].
    fold size. rewrite lookup_map_pages, decide_True by lia. do 2 f_equal. lia.
Qed.

Lemma update_mapping_functional_witness :
  exists b' w', shared_memory_block_update_mapping context (real_memory demo_memory)
      IPM_ACCESS_MODE_READ_ONLY demo_world = Ret (IPM_RESULT_SUCCESS, b') w' /\ b_memory b' = NULL.
Proof.
  destruct (update_mapping_functional context (real_memory demo_memory) IPM_ACCESS_MODE_READ_ONLY demo_world 1
     (default (mk_object 0 zero_header zero_list) (w_objs demo_world !! 1%nat))) as [_ H];
    [split; vm_compute; reflexivity|].
  destruct (H 1%nat 21) as (b' & w' & H1 & _ & _ & H2 & _).
  - apply no_faults_nil; vm_compute; reflexivity.
  - split; vm_compute; reflexivity.
  - vm_compute; reflexivity.
  - vm_compute; reflexivity.
  - right. left. vm_compute. discriminate.
  - vm_compute. reflexivity.
  - exists b', w'. split; [exact H1|exact H2].
Defined.

(** The lock on a whole block can be taken but not given back: acquiring a free
    block succeeds and records the ownership, but releasing it then fails with
    [IPM_RESULT_ERR_NOT_LOCKED], because the test of the ownership is inverted, and
    the mutex stays held by the caller. *)
Theorem whole_block_lock_stuck {E : Env} c b w o ob :
  header_mapped w (b_header b) o ob -> no_faults 1 (w_thread w) -> b_has_ownership b = false ->
  segment_mutex (so_header ob) = mutex_of Free ->
  exists b' w', acquire_memory_block_whole c b w = Ret (IPM_RESULT_SUCCESS, b') w' /\
    b_has_ownership b' = true /\
    exists w'', release_memory_block_whole c b' w' = Ret (IPM_RESULT_ERR_NOT_LOCKED, b') w'' /\
      exists ob'', w_objs w'' !! o = Some ob'' /\
        segment_mutex (so_header ob'') = mutex_of (Held (t_tid (w_thread w))).
Proof.
  intros Hm Hf Hown Hmx. eexists _, _. split; [by eapply acquire_run|]. split; [done|].
  match goal with |- context [release_memory_block_whole _ ?b' ?w'] =>
    destruct (release_owned_run c b' w' eq_refl) as (w2 & Hr & Ho) end.
  exists w2. split; [exact Hr|]. rewrite Ho. eexists. split; [apply lookup_insert_eq|done].
Qed.

Lemma whole_block_lock_stuck_witness :
  exists b' w', acquire_memory_block_whole context (real_memory demo_memory) demo_world =
      Ret (IPM_RESULT_SUCCESS, b') w' /\
    exists w'', release_memory_block_whole context b' w' = Ret (IPM_RESULT_ERR_NOT_LOCKED, b') w''.
Proof.
  destruct (whole_block_lock_stuck context (real_memory demo_memory) demo_world 1
     (default (mk_object 0 zero_header zero_list) (w_objs demo_world !! 1%nat)))
    as (b' & w' & H1 & _ & w'' & H2 & _).
  - split; vm_compute; reflexivity.
  - apply no_faults_nil; vm_compute; reflexivity.
  - vm_compute; reflexivity.
  - vm_compute; reflexivity.
  - exists b', w'. split; [exact H1|]. exists w''. exact H2.
Defined.
