(* ===== verification/Handles.v ===== *)
(** * Memory handles

    Theorems about [ipm_memory_create], [ipm_memory_open] and
    [ipm_memory_close] (source/ipm_memory.c), composed from the blocks of file
    [Lifecycle] and the claim list, and about the names that a handle keeps without an
    end. *)

From S2P Require Import Prelude Errors Pthread Platform Claims Common Names World SharedMemory Memory Machine Regions Lifecycle.

Section handles.
Context {E : Env} {L : EnvLaws E}.
Implicit Types (w : world) (c : ipm_context user) (m : ipm_memory).

(** Allocating changes the user's state and [errno] only. *)
Lemma alloc_run c size loc w :
  exists p t u, ipm_alloc c size loc w = Ret p (set_user u (set_thread t w)) /\ same_thread (w_thread w) t.
Proof.
  unfold ipm_alloc, on_user.
  assert (wp (ipm_alloc_real c size loc) (w_thread w, w_user w)
            (fun _ s => same_thread (w_thread w) s.1)) as H by (apply ipm_alloc_wp; auto).
  apply wp_run in H as (p & [t u] & Hr & Ht). exists p, t, u. split; [|exact Ht].
  unfold zoom. cbn beta. by rewrite Hr.
Qed.

Lemma free_run c ptr w :
  exists t u, ipm_release c ptr w = Ret tt (set_user u (set_thread t w)) /\ same_thread (w_thread w) t.
Proof.
  unfold ipm_release, on_user.
  assert (wp (ipm_free c ptr) (w_thread w, w_user w) (fun _ s => same_thread (w_thread w) s.1)) as H
    by (apply ipm_free_wp; auto).
  apply wp_run in H as ([] & [t u] & Hr & Ht). exists t, u. split; [|exact Ht].
  unfold zoom. cbn beta. by rewrite Hr.
Qed.

Lemma fresh_object_ne w o ob : w_objs w !! o = Some ob -> o <> fresh_object (w_objs w).
Proof.
  intros Ho ->. apply (is_fresh (dom (w_objs w))). apply elem_of_dom. by exists ob.
Qed.

(** A mapped page stays mapped when a new block is mapped elsewhere. *)
Lemma created_pages_keep w name id size p1 p2 access k pg :
  create_places w size p1 p2 access -> w_pages w !! k = Some pg ->
  w_pages (created_world w name id size p1 p2 access) !! k = Some pg.
Proof.
  intros [Hp1 Hp2] Hk. pose proof (places_free _ _ _ _ _ _ _ _ _ Hp2) as Hfree2.
  apply os_place_free in Hp1 as (_ & _ & Hfree1). cbn [created_world w_pages]. rewrite !lookup_map_pages.
  case_decide as H2; [|case_decide as H1; [|done]].
  - specialize (Hfree2 (k - p2)). replace (p2 + (k - p2)) with k in Hfree2 by lia.
    rewrite Hfree2 in Hk by lia. done.
  - specialize (Hfree1 (k - p1)). replace (p1 + (k - p1)) with k in Hfree1 by lia.
    rewrite Hfree1 in Hk by lia. done.
Qed.

Lemma list_mapped_created w a o ob name id size p1 p2 access :
  list_mapped w a o ob -> create_places w size p1 p2 access ->
  list_mapped (created_world w name id size p1 p2 access) a o ob.
Proof.
  intros [Ha Hp Ho Hs] Hpl. split; try done; [by apply created_pages_keep|].
  simpl. rewrite lookup_insert_ne; [done|]. symmetry. by eapply fresh_object_ne.
Qed.

(** The claim list of a new block is mapped where its memory is. *)
Lemma created_list_mapped w name id size k p1 p2 :
  block_pages size k -> create_places w size p1 p2 IPM_ACCESS_MODE_READ_WRITE ->
  list_mapped (created_world w name id size p1 p2 IPM_ACCESS_MODE_READ_WRITE) (p1 * IPM_MEMORY_PAGE_SIZE)
    (fresh_object (w_objs w)) (created_object name id size).
Proof.
  intros Hsz [Hp1 Hp2]. destruct (block_pages_pos _ _ Hsz) as [Hpos Hk]. destruct Hsz as (_ & Hk0 & _).
  split; [apply page_addr_mod| |apply lookup_insert_eq|simpl; lia].
  pose proof (places_disjoint _ _ _ _ _ _ _ _ _ Hp2 ltac:(lia) ltac:(lia)) as Hd.
  rewrite page_addr_div. cbn [created_world w_pages].
  rewrite lookup_map_pages, decide_False, lookup_map_pages, decide_True by lia. by rewrite Z.sub_diag.
Qed.

Lemma claim_block_pages : block_pages claim_size 1.
Proof. split_and!; vm_compute; done. Qed.

Lemma land_page_round size : 0 <= size <= u64_mod - IPM_MEMORY_PAGE_SIZE ->
  Z.land (round_size size) IPM_MEMORY_PAGE_SIZE_MASK = 0.
Proof.
  intros H. destruct (round_size_fits size H) as (k & -> & _). rewrite land_page_mask. apply page_addr_mod.
Qed.

Lemma thread_after_nil n t : t_faults t = [] -> thread_after n t = t.
Proof.
  intros Hf. induction n as [|n IH]; [done|]. cbn [thread_after]. by rewrite thread_after_call_nil.
Qed.

(** ** Creating a memory *)

(** The machine once the claim block exists and its list is initialised. *)
Definition claims_ready w (name : string) (p1 p2 : Z) : world :=
  let w2 := created_world w name IPM_MEMORY_BLOCK_ACTIVE_CALIMS claim_size p1 p2 IPM_ACCESS_MODE_READ_WRITE in
  let ob := created_object name IPM_MEMORY_BLOCK_ACTIVE_CALIMS claim_size in
  with_list w2 (fresh_object (w_objs w)) ob (w_thread w) (initialised real_claim_capacity (so_list ob)).

Definition claims_object (name : string) : shm_object :=
  let ob := created_object name IPM_MEMORY_BLOCK_ACTIVE_CALIMS claim_size in
  set_so_list (initialised real_claim_capacity (so_list ob)) ob.

(** What [ipm_memory_create] needs of its arguments and of the machine; [k] is
    the number of pages of the memory. *)
Record create_request (size k : Z) (name : string) w : Prop := {
  cr_pages : block_pages (round_size size) k;
  cr_size : 0 < size;
  cr_slash : has_slash name = false;
  cr_length : Z.of_nat (String.length name) <= IPM_MAX_NAME_LEN;
  cr_claims : w_names w !! object_name name IPM_MEMORY_BLOCK_ACTIVE_CALIMS = None;
  cr_data : w_names w !! object_name name IPM_MEMORY_BLOCK_REAL_MEMORY = None;
  cr_faults : t_faults (w_thread w) = []
}.

Lemma object_names_differ name :
  Z.of_nat (String.length name) <= IPM_MAX_NAME_LEN ->
  object_name name IPM_MEMORY_BLOCK_ACTIVE_CALIMS <> object_name name IPM_MEMORY_BLOCK_REAL_MEMORY.
Proof. intros Hlen Heq. apply object_name_inj in Heq as [_ Heq]; (done || word). Qed.

Lemma claims_ready_list w name p1 p2 :
  create_places w claim_size p1 p2 IPM_ACCESS_MODE_READ_WRITE ->
  list_mapped (claims_ready w name p1 p2) (p1 * IPM_MEMORY_PAGE_SIZE) (fresh_object (w_objs w))
    (claims_object name).
Proof.
  intros Hpl. apply with_list_mapped. eapply created_list_mapped; [apply claim_block_pages|done].
Qed.

(** The claim block is created and its list initialised. *)
Lemma create_claims_run {A} nd c name w p1 p2 (k : ipm_shared_memory_block -> M world A)
    (fail : ipm_result -> M world A) (fail' : ipm_shared_memory_block -> ipm_result -> M world A) :
  t_faults (w_thread w) = [] -> Z.of_nat (String.length name) <= IPM_MAX_NAME_LEN ->
  w_names w !! object_name name IPM_MEMORY_BLOCK_ACTIVE_CALIMS = None ->
  create_places w claim_size p1 p2 IPM_ACCESS_MODE_READ_WRITE ->
  ('(res, claims_block) ← shared_memory_block_create nd c name IPM_MEMORY_BLOCK_ACTIVE_CALIMS claim_size
      IPM_ACCESS_MODE_READ_WRITE;
   match claims_block with
   | None => fail res
   | Some b =>
       res ← on_list (b_memory b) (claim_list_init real_claim_capacity);
       if negb (ok res) then fail' b res else k b
   end) w =
  k (created_block w claim_size p1 p2 IPM_ACCESS_MODE_READ_WRITE) (claims_ready w name p1 p2).
Proof.
  intros Hf Hlen Hn Hpl. pose proof Hpl as [Hp1 Hp2].
  erewrite bind_Ret by (eapply create_run; [by apply no_faults_nil|done|apply claim_block_pages|done..]).
  cbn beta iota.
  pose proof (created_list_mapped w name IPM_MEMORY_BLOCK_ACTIVE_CALIMS _ _ p1 p2 claim_block_pages Hpl) as Hl.
  erewrite bind_Ret.
  2:{ rewrite <- (with_list_init _ _ _ _ Hl) at 1. apply (on_list_wl _ _ _ _ Hl).
      apply claim_list_init_run. cbn [created_world w_thread]. rewrite thread_after_nil by done. by apply no_faults_nil. }
  unfold ok. rewrite bool_decide_true by done. cbn [negb].
  unfold claims_ready. cbn zeta. cbn [created_world w_thread]. rewrite !(thread_after_nil _ (w_thread w)) by done.
  done.
Qed.

Definition created_memory w c (size : Z) (name : string) (access : ipm_access_mode)
    (this p1 p2 p3 p4 : Z) : ipm_memory :=
  mk_memory _ this c (copy_name name)
    (created_block (claims_ready w name p1 p2) (round_size size) p3 p4 access)
    (created_block w claim_size p1 p2 IPM_ACCESS_MODE_READ_WRITE).

Definition memory_world w (size : Z) (name : string) (access : ipm_access_mode) (p1 p2 p3 p4 : Z) : world :=
  created_world (claims_ready w name p1 p2) name IPM_MEMORY_BLOCK_REAL_MEMORY (round_size size) p3 p4 access.

Lemma memory_create_run nd c size k name access w this t u p1 p2 p3 p4 :
  create_request size k name w ->
  ipm_alloc c sizeof_memory (in_mem 31 "ipm_memory_create") w = Ret this (set_user u (set_thread t w)) ->
  same_thread (w_thread w) t -> this <> NULL ->
  let w1 := set_user u (set_thread t w) in
  create_places w1 claim_size p1 p2 IPM_ACCESS_MODE_READ_WRITE ->
  create_places (claims_ready w1 name p1 p2) (round_size size) p3 p4 access ->
  ipm_memory_create nd c size name access w =
  Ret (IPM_RESULT_SUCCESS, Some (created_memory w1 c size name access this p1 p2 p3 p4))
      (memory_world w1 size name access p1 p2 p3 p4).
Proof.
  intros [Hpg Hsz Hsl Hlen Hnc Hnd Hf] Halloc [Htid Hft] Hthis w1 Hpl1 Hpl2.
  assert (t_faults t = []) as Hf1 by congruence.
  destruct (block_pages_pos _ _ Hpg) as [Hpos _].
  unfold ipm_memory_create.
  erewrite bind_Ret by (apply cassert_true; lia).
  erewrite bind_Ret by (apply cassert_true; by rewrite Hsl).
  erewrite bind_Ret by (apply cassert_true; lia).
  erewrite bind_Ret by exact Halloc. fold w1. rewrite (proj2 (Z.eqb_neq _ _) Hthis). cbv zeta.
  erewrite bind_Ret by (apply cassert_true; lia).
  erewrite bind_Ret.
  2:{ apply cassert_true. destruct Hpg as (-> & _ & _). rewrite land_page_mask, page_addr_mod. done. }
  rewrite (create_claims_run nd c name w1 p1 p2) by done.
  destruct Hpl2 as [Hp3 Hp4].
  erewrite bind_Ret.
  2:{ eapply create_run; [by apply no_faults_nil| |exact Hpg|exact Hlen|exact Hp3|exact Hp4].
      simpl. rewrite lookup_insert_ne; [done|]. by apply object_names_differ. }
  done.
Qed.

Lemma claims_slots name : length (claims (so_list (claims_object name))) = 99%nat.
Proof. reflexivity. Qed.

(** The new handle can be used, and no claim is active. *)
Lemma memory_created_usable w c size k name access this p1 p2 p3 p4 :
  t_faults (w_thread w) = [] -> block_pages (round_size size) k ->
  create_places w claim_size p1 p2 IPM_ACCESS_MODE_READ_WRITE ->
  create_places (claims_ready w name p1 p2) (round_size size) p3 p4 access ->
  usable (memory_world w size name access p1 p2 p3 p4)
    (created_memory w c size name access this p1 p2 p3 p4) (fresh_object (w_objs w)) (claims_object name).
Proof.
  intros Hf Hpg Hpl1 Hpl2. split.
  - eapply list_mapped_created; [by apply claims_ready_list|done].
  - apply Z.eqb_neq. simpl. destruct Hpl1 as [Hp1 _]. by eapply NULL_place.
  - split_and!; [|done|done]. apply initialised_wf; [|by vm_compute].
    change (claims (so_list _)) with (claims (so_list (claims_object name))). rewrite claims_slots.
    by vm_compute.
  - cbn [memory_world created_world w_thread claims_ready with_list set_obj set_objs set_thread].
    by rewrite thread_after_nil.
Qed.

(** ** Closing the last handle *)

(** What closing a block whose handle [b] is the last one leaves of [w]. *)
Record block_gone w b (name : string) (o : nat) (size : Z) w' : Prop := {
  bg_names : w_names w' = delete name (w_names w);
  bg_fds : w_fds w' = delete (Z.to_nat (b_mem_fd b)) (w_fds w);
  bg_pages : w_pages w' = closed_pages b size (w_pages w);
  bg_objs : forall o', o' <> o -> w_objs w' !! o' = w_objs w !! o';
  bg_thread : w_thread w' = w_thread w
}.

(** A block that only its handle [b] keeps alive. *)
Record last_handle w b (o : nat) (ob : shm_object) : Prop := {
  lh_block : block_in w b o ob;
  lh_refs : refcount (so_header ob) = 1;
  lh_mutex : segment_mutex (so_header ob) = mutex_of Free;
  lh_name : is_Some (w_names w !! object_name (hdr_block_name (so_header ob)) (block_id (so_header ob)))
}.

Lemma close_last_plain nd c b w o ob :
  last_handle w b o ob -> t_faults (w_thread w) = [] ->
  exists w', shared_memory_block_close nd c b None w = Ret IPM_RESULT_SUCCESS w' /\
    block_gone w b (object_name (hdr_block_name (so_header ob)) (block_id (so_header ob))) o
      (block_size (so_header ob)) w'.
Proof.
  intros [Hb Hr Hm Hn] Hf.
  erewrite (close_last_run _ _ _ None _ o ob ob (w_thread w)); try done; [|by apply no_faults_nil].
  eexists. split; [reflexivity|]. split; try done.
  - intros o' Ho'. cbn [w_objs set_names set_pages with_header set_obj set_objs set_thread close_fd set_fds].
    by rewrite lookup_insert_ne.
  - cbn [w_thread set_names set_pages with_header set_obj set_objs set_thread]. by rewrite thread_after_nil.
Qed.

Lemma close_last_claims nd c b w o ob :
  last_handle w b o ob -> t_faults (w_thread w) = [] -> list_mapped w (b_memory b) o ob ->
  ready (so_list ob) ->
  exists w', shared_memory_block_close nd c b (Some (claim_list_dtor_wrapper (b_memory b))) w =
      Ret IPM_RESULT_SUCCESS w' /\
    block_gone w b (object_name (hdr_block_name (so_header ob)) (block_id (so_header ob))) o
      (block_size (so_header ob)) w'.
Proof.
  intros [Hb Hr Hm Hn] Hf Hl (_ & Hlm & Hlc).
  set (l' := set_cnd zero_cond (set_mutex zero_mutex (so_list ob))).
  erewrite (close_last_run _ _ _ _ _ o ob (set_so_list l' ob) (w_thread w)); try done; [| |by apply no_faults_nil].
  - eexists. split; [reflexivity|]. split; try done.
    + intros o' Ho'. cbn [w_objs set_names set_pages with_header set_obj set_objs set_thread close_fd set_fds].
      by rewrite lookup_insert_ne.
    + cbn [w_thread set_names set_pages with_header set_obj set_objs set_thread]. by rewrite thread_after_nil.
  - cbn [from_option]. unfold id, claim_list_dtor_wrapper.
    erewrite (on_list_run _ _ o (set_so_header (set_refcount 0 (so_header ob)) ob)).
    + unfold with_header, set_obj, set_objs, set_thread. simpl. by rewrite insert_insert_eq.
    + destruct Hl as [? ? ? ?]. split; try done. apply lookup_insert_eq.
    + cbn [w_thread with_header set_obj set_objs set_thread set_so_header so_list].
      rewrite claim_list_uninit_run by (done || by apply no_faults_nil).
      by rewrite thread_after_nil.
Qed.

(** The name a block's header spells. *)
Definition header_name (ob : shm_object) : string :=
  object_name (hdr_block_name (so_header ob)) (block_id (so_header ob)).

(** [m] is the only handle of a memory with claim object [o1] and data object [o2]. *)
Record alone w m (o1 : nat) (ob1 : shm_object) (o2 : nat) (ob2 : shm_object) : Prop := {
  al_usable : usable w m o1 ob1;
  al_claims : last_handle w (active_claims m) o1 ob1;
  al_data : last_handle w (real_memory m) o2 ob2;
  al_objects : o1 <> o2;
  al_names : header_name ob1 <> header_name ob2;
  al_fds : b_mem_fd (active_claims m) <> b_mem_fd (real_memory m) /\ 0 <= b_mem_fd (active_claims m);
  al_pages : closed_pages (active_claims m) (block_size (so_header ob1)) (w_pages w)
               !! (b_header (real_memory m) / IPM_MEMORY_PAGE_SIZE) =
             w_pages w !! (b_header (real_memory m) / IPM_MEMORY_PAGE_SIZE)
}.

(** Closing the claim block does not touch the data block. *)
Lemma last_handle_survives w m o1 ob1 o2 ob2 w' :
  alone w m o1 ob1 o2 ob2 ->
  block_gone w (active_claims m) (header_name ob1) o1 (block_size (so_header ob1)) w' ->
  last_handle w' (real_memory m) o2 ob2.
Proof.
  intros [_ _ [[[Ha Hp Ho Hs] [od Hfd] Hown Hal Hsz] Hr Hm [on Hn]] Hne Hnames [Hfds Hfd0] Hpages]
    [Hnm Hfs Hpg Hob _].
  split; [|done|done|].
  - split; [|exists od|done|done|done].
    + split; [done|by rewrite Hpg, Hpages|by rewrite Hob|done].
    + unfold fd_object in *. destruct (Z.ltb_spec (b_mem_fd (real_memory m)) 0); [done|].
      rewrite Hfs, lookup_delete_ne; [done|]. intros Heq. apply Hfds. lia.
  - rewrite Hnm, lookup_delete_ne by done. by exists on.
Qed.

(** Everything but the claim list is as it was. *)
Lemma alone_with_list w m o1 ob1 o2 ob2 l :
  alone w m o1 ob1 o2 ob2 -> ready l ->
  alone (with_list w o1 ob1 (w_thread w) l) m o1 (set_so_list l ob1) o2 ob2.
Proof.
  intros [Hu [[[? ? ? ?] ? ? ? ?] ? ? ?] [[[? ? ? ?] ? ? ? ?] ? ? ?] Hne ? ? ?] Hr.
  split; try done; [by apply usable_with_list|..].
  - split; try done. split; try done. split; try done. apply lookup_insert_eq.
  - split; try done. split; try done. split; try done. simpl. by rewrite lookup_insert_ne.
Qed.

Lemma memory_close_run nd m w o1 ob1 o2 ob2 :
  alone w m o1 ob1 o2 ob2 -> count (so_list ob1) < 2 ^ 31 ->
  nd = true \/ count (so_list ob1) < capacity (so_list ob1) ->
  exists w', ipm_memory_close nd m w = Ret tt w' /\
    w_names w' = delete (header_name ob2) (delete (header_name ob1) (w_names w)) /\
    w_fds w' = delete (Z.to_nat (b_mem_fd (real_memory m)))
                 (delete (Z.to_nat (b_mem_fd (active_claims m))) (w_fds w)) /\
    w_pages w' = closed_pages (real_memory m) (block_size (so_header ob2))
                   (closed_pages (active_claims m) (block_size (so_header ob1)) (w_pages w)) /\
    (forall o, o <> o1 -> o <> o2 -> w_objs w' !! o = w_objs w !! o).
Proof.
  intros Hal Hmax Hnd. pose proof (al_usable _ _ _ _ _ _ Hal) as Hu.
  destruct (memory_release_all_run nd m w o1 ob1 Hu Hmax Hnd) as (l' & Hrel & Hrdy & _).
  pose proof (alone_with_list _ _ _ _ _ _ l' Hal Hrdy) as Hal1.
  set (w1 := with_list w o1 ob1 (w_thread w) l') in *.
  pose proof Hal1 as [[Hl1 _ _ Hf1] Hc1 _ _ _ _ _].
  destruct (close_last_claims nd (ctx m) (active_claims m) w1 o1 _ Hc1 Hf1 Hl1 Hrdy) as (w2 & Hr2 & Hg2).
  pose proof (last_handle_survives _ _ _ _ _ _ _ Hal1 Hg2) as Hd2.
  assert (t_faults (w_thread w2) = []) as Hf2 by (destruct Hg2 as [_ _ _ _ ->]; done).
  destruct (close_last_plain nd (ctx m) (real_memory m) w2 o2 ob2 Hd2 Hf2) as (w3 & Hr3 & Hg3).
  destruct (free_run (ctx m) (self_ptr m) w3) as (t & u & Hr4 & _).
  exists (set_user u (set_thread t w3)). split.
  { unfold ipm_memory_close. erewrite bind_Ret by exact Hrel. erewrite bind_Ret by exact Hr2.
    by erewrite bind_Ret by exact Hr3. }
  destruct Hg2 as [Hn2 Hfd2 Hp2 Ho2 _], Hg3 as [Hn3 Hfd3 Hp3 Ho3 _].
  split_and!; simpl.
  - rewrite Hn3, Hn2. done.
  - rewrite Hfd3, Hfd2. done.
  - rewrite Hp3, Hp2. done.
  - intros o Ho1' Ho2'. rewrite Ho3, Ho2 by done. simpl. by rewrite lookup_insert_ne.
Qed.

(** ** A new memory has one handle *)

Lemma header_mapped_created w a o ob name id size p1 p2 access :
  header_mapped w a o ob -> create_places w size p1 p2 access ->
  header_mapped (created_world w name id size p1 p2 access) a o ob.
Proof.
  intros [Ha Hp Ho Hs] Hpl. split; try done; [by apply created_pages_keep|].
  simpl. rewrite lookup_insert_ne; [done|]. symmetry. by eapply fresh_object_ne.
Qed.

Lemma claims_ready_header w name p1 p2 :
  create_places w claim_size p1 p2 IPM_ACCESS_MODE_READ_WRITE ->
  header_mapped (claims_ready w name p1 p2) (p2 * IPM_MEMORY_PAGE_SIZE) (fresh_object (w_objs w))
    (claims_object name).
Proof.
  intros Hpl. destruct (created_header_mapped w name IPM_MEMORY_BLOCK_ACTIVE_CALIMS _ _ _ _ _ claim_block_pages Hpl)
    as [Ha Hp Ho Hs]. split; try done. apply lookup_insert_eq.
Qed.

Section new_memory.
Variables (w : world) (c : ipm_context user) (size k : Z) (name : string) (access : ipm_access_mode).
Variables (this p1 p2 p3 p4 : Z).
Hypothesis Hf : t_faults (w_thread w) = [].
Hypothesis Hlen : Z.of_nat (String.length name) <= IPM_MAX_NAME_LEN.
Hypothesis Hpg : block_pages (round_size size) k.
Hypothesis Hpl1 : create_places w claim_size p1 p2 IPM_ACCESS_MODE_READ_WRITE.
Hypothesis Hpl2 : create_places (claims_ready w name p1 p2) (round_size size) p3 p4 access.

Let w3 := claims_ready w name p1 p2.
Let o1 := fresh_object (w_objs w).
Let o2 := fresh_object (w_objs w3).
Let fd1 := lowest_fd (w_fds w).
Let fd2 := lowest_fd (w_fds w3).

Lemma new_objects_ne : o1 <> o2.
Proof. apply (fresh_object_ne w3 o1 (claims_object name)). apply lookup_insert_eq. Qed.

Lemma new_fds_ne : fd1 <> fd2.
Proof.
  intros Heq. pose proof (lowest_fd_free (w_fds w3)) as Hfree. fold fd2 in Hfree. rewrite <- Heq in Hfree.
  cbn [w3 claims_ready with_list set_obj set_objs set_thread created_world w_fds] in Hfree.
  by rewrite lookup_insert_eq in Hfree.
Qed.

(** The four mappings occupy pages that were free, and do not meet. *)
Lemma new_pages_free :
  w_pages w !! p1 = None /\ w_pages w !! p2 = None /\ w_pages w !! p4 = None /\
  (forall i, 0 <= i < pages_of (round_size size) -> w_pages w !! (p3 + i) = None) /\
  p1 <> p2 /\ p4 <> p1 /\ p4 <> p2.
Proof.
  destruct (block_pages_pos _ _ Hpg) as [Hpos Hk]. destruct Hpg as (_ & Hk0 & _).
  destruct Hpl1 as [Hp1 Hp2], Hpl2 as [Hp3 Hp4].
  assert (pages_of claim_size = 1) as Hone by reflexivity. rewrite Hone in *.
  pose proof (places_free _ _ _ _ _ _ _ _ _ Hp2 0 ltac:(lia)) as H2. rewrite Z.add_0_r in H2.
  pose proof (places_disjoint _ _ _ _ _ _ _ _ _ Hp2 ltac:(lia) ltac:(lia)) as H12.
  pose proof (places_free _ _ _ _ _ _ _ _ _ Hp4 0 ltac:(lia)) as H4. rewrite Z.add_0_r in H4.
  apply os_place_free in Hp1 as (_ & _ & H1). apply os_place_free in Hp3 as (_ & _ & H3).
  specialize (H1 0 ltac:(lia)). rewrite Z.add_0_r in H1.
  cbn [claims_ready with_list set_obj set_objs set_thread created_world w_pages] in H3, H4.
  rewrite !lookup_map_pages, Hone in H4.
  repeat (case_decide; [done|]).
  split_and!; try done; try lia. intros i Hi. specialize (H3 i Hi). rewrite !lookup_map_pages, Hone in H3.
  by repeat (case_decide; [done|]).
Qed.

Lemma new_memory_alone :
  w_names w !! object_name name IPM_MEMORY_BLOCK_ACTIVE_CALIMS = None ->
  alone (memory_world w size name access p1 p2 p3 p4) (created_memory w c size name access this p1 p2 p3 p4)
    o1 (claims_object name) o2 (created_object name IPM_MEMORY_BLOCK_REAL_MEMORY (round_size size)).
Proof.
  intros Hn. destruct new_pages_free as (_ & _ & _ & _ & _ & Hp41 & Hp42).
  pose proof (object_names_differ name Hlen) as Hnames. split.
  - by eapply memory_created_usable.
  - split; [|done|done|].
    + split; [|exists o1|done|apply page_addr_mod|done].
      * apply header_mapped_created; [by apply claims_ready_header|done].
      * unfold fd_object. cbn [created_memory active_claims created_block b_mem_fd].
        fold fd1. rewrite (proj2 (Z.ltb_ge _ _)), Nat2Z.id by lia.
        cbn [memory_world created_world w_fds]. fold w3 fd2.
        rewrite lookup_insert_ne by (intros Heq; by apply new_fds_ne). apply lookup_insert_eq.
    + exists o1. cbn [memory_world created_world w_names].
      rewrite lookup_insert_ne by (by apply not_eq_sym). apply lookup_insert_eq.
  - split; [|done|done|].
    + by eapply created_block_in.
    + exists o2. apply lookup_insert_eq.
  - apply new_objects_ne.
  - done.
  - cbn [created_memory active_claims real_memory created_block b_mem_fd]. fold w3 fd1 fd2.
    pose proof new_fds_ne. split; lia.
  - unfold closed_pages. cbn [created_memory active_claims real_memory created_block b_header b_memory].
    rewrite !page_addr_div, !lookup_unmap_pages.
    change (pages_of (block_size (so_header (claims_object name)))) with 1.
    rewrite !decide_False by lia. done.
Qed.

Lemma new_memory_pages :
  closed_pages (real_memory (created_memory w c size name access this p1 p2 p3 p4)) (round_size size)
    (closed_pages (active_claims (created_memory w c size name access this p1 p2 p3 p4)) claim_size
      (w_pages (memory_world w size name access p1 p2 p3 p4))) = w_pages w.
Proof.
  destruct new_pages_free as (H1 & H2 & H4 & H3 & _). apply map_eq. intros a.
  unfold closed_pages. cbn [created_memory active_claims real_memory created_block b_header b_memory].
  rewrite !page_addr_div, !lookup_unmap_pages.
  cbn [memory_world claims_ready with_list set_obj set_objs set_thread created_world w_pages].
  rewrite !lookup_map_pages. change (pages_of claim_size) with 1.
  case_decide; [by replace a with p4 by lia|].
  case_decide as Hin3; [symmetry; replace a with (p3 + (a - p3)) by lia; apply H3; lia|].
  case_decide; [by replace a with p2 by lia|].
  case_decide; [by replace a with p1 by lia|]. done.
Qed.

Lemma new_memory_fds :
  delete (Z.to_nat (b_mem_fd (real_memory (created_memory w c size name access this p1 p2 p3 p4))))
    (delete (Z.to_nat (b_mem_fd (active_claims (created_memory w c size name access this p1 p2 p3 p4))))
      (w_fds (memory_world w size name access p1 p2 p3 p4))) = w_fds w.
Proof.
  cbn [created_memory active_claims real_memory created_block b_mem_fd memory_world created_world w_fds].
  fold w3 fd1 fd2. rewrite !Nat2Z.id, delete_delete, delete_insert_id.
  - apply delete_insert_id, lowest_fd_free.
  - apply lowest_fd_free.
Qed.
End new_memory.
(** A memory is not made smaller than its handle says. *)
Lemma resize_grow_refused nd m n w :
  round_size n < b_size (real_memory m) ->
  exists w', ipm_memory_resize_grow nd m n w = Ret (IPM_RESULT_ERR_BAD_VALUE, m) w' /\ reported w w'.
Proof using.
  intros Hlt. unfold ipm_memory_resize_grow. rewrite (proj2 (Z.ltb_lt _ _)) by done.
  match goal with |- context [IPM_ERROR ?c ?msg ?s] =>
    destruct (on_user_report c msg s w) as (t & u & Hr & Ht) end.
  erewrite bind_Ret by exact Hr. eexists. split; [reflexivity|]. by exists t, u.
Qed.
End handles.

(** ** Theorems *)

(** [round_size] rounds up to whole pages: for every size that leaves room for
    it the result is the least multiple of the page size that is not smaller.
    For the last page of the range the addition wraps and the result is zero. *)
Theorem round_size_correct size :
  0 <= size < u64_mod ->
  (size <= u64_mod - IPM_MEMORY_PAGE_SIZE ->
   exists k, round_size size = k * IPM_MEMORY_PAGE_SIZE /\
     size <= round_size size < size + IPM_MEMORY_PAGE_SIZE /\ u64 (round_size size)) /\
  (u64_mod - IPM_MEMORY_PAGE_SIZE < size -> round_size size = 0).
Proof.
  intros H. split; intros Hs; [by apply round_size_fits; lia|apply round_size_wraps; lia].
Qed.

Lemma round_size_correct_witness :
  (exists k, round_size 5000 = k * IPM_MEMORY_PAGE_SIZE /\ 5000 <= round_size 5000) /\
  round_size (2 ^ 64 - 1) = 0.
Proof.
  split.
  - destruct (round_size_correct 5000) as [H _]; [unfold u64_mod; lia|].
    destruct H as (k & H1 & [H2 _] & _); [vm_compute; discriminate|]. exists k. split; [exact H1|exact H2].
  - destruct (round_size_correct (2 ^ 64 - 1)) as [_ H]; [unfold u64_mod; lia|]. apply H. vm_compute. reflexivity.
Defined.

(** C19. Creating a memory.  For a valid name that is not in use and a size whose
    pages and header page stay below [2^63] bytes the call succeeds and yields a handle whose claim list is
    mapped, initialised, unlocked and empty, with room for the 99 claims that fit
    into a page, and whose data block has the size rounded up to whole pages, the
    requested access, one reference and the handle's own access identifier; both
    blocks are named and no other name, object or mapping changes. *)
Theorem memory_create_functional {E : Env} {L : EnvLaws E} nd c size k name access w this t u p1 p2 p3 p4 :
  create_request size k name w ->
  ipm_alloc c sizeof_memory (in_mem 31 "ipm_memory_create") w = Ret this (set_user u (set_thread t w)) ->
  same_thread (w_thread w) t -> this <> NULL ->
  let w1 := set_user u (set_thread t w) in
  create_places w1 claim_size p1 p2 IPM_ACCESS_MODE_READ_WRITE ->
  create_places (claims_ready w1 name p1 p2) (round_size size) p3 p4 access ->
  exists m w', ipm_memory_create nd c size name access w = Ret (IPM_RESULT_SUCCESS, Some m) w' /\
    (exists o ob, usable w' m o ob /\ visible (so_list ob) = [] /\
       capacity (so_list ob) = 99 /\ claim_counter (so_list ob) = 0) /\
    (exists o ob, block_in w' (real_memory m) o ob /\ refcount (so_header ob) = 1 /\
       block_size (so_header ob) = round_size size) /\
    b_size (real_memory m) = round_size size /\ b_access_mode (real_memory m) = access /\
    b_access_id (real_memory m) = 1 /\
    dom (w_names w') = {[object_name name IPM_MEMORY_BLOCK_REAL_MEMORY;
                         object_name name IPM_MEMORY_BLOCK_ACTIVE_CALIMS]} ∪ dom (w_names w) /\
    (forall a pg, w_pages w !! a = Some pg -> w_pages w' !! a = Some pg) /\
    (forall o ob, w_objs w !! o = Some ob -> w_objs w' !! o = Some ob).
Proof.
  intros Hreq Halloc Ht Hthis w1 Hpl1 Hpl2. pose proof Hreq as [Hpg Hsz Hsl Hlen Hnc Hnd Hf].
  assert (t_faults t = []) as Hf1 by (destruct Ht; congruence).
  eexists _, _. split; [by eapply memory_create_run|]. split_and!; try done.
  - eexists _, _. split; [by eapply memory_created_usable|]. done.
  - eexists _, _. split; [by eapply created_block_in|]. done.
  - cbn [memory_world created_world w_names]. rewrite dom_insert_L.
    cbn [claims_ready with_list set_obj set_objs set_thread created_world w_names]. rewrite dom_insert_L.
    by rewrite (assoc_L (∪)).
  - intros a pg Ha. apply created_pages_keep; [done|]. by apply (created_pages_keep w1).
  - intros o ob Ho. cbn [memory_world created_world w_objs].
    assert (w_objs (claims_ready w1 name p1 p2) !! o = Some ob) as Ho3.
    { cbn [claims_ready with_list set_obj set_objs set_thread created_world w_objs].
      assert (o <> fresh_object (w_objs w1)) as Hne by (by apply (fresh_object_ne w1 o ob)).
      by rewrite !lookup_insert_ne. }
    rewrite lookup_insert_ne; [done|]. symmetry. by eapply fresh_object_ne.
Qed.

Lemma memory_create_functional_witness :
  exists m w', ipm_memory_create false context 5000 "demo" IPM_ACCESS_MODE_READ_WRITE (boot 1) =
      Ret (IPM_RESULT_SUCCESS, Some m) w' /\ b_size (real_memory m) = 8192.
Proof.
  destruct (memory_create_functional false context 5000 2 "demo" IPM_ACCESS_MODE_READ_WRITE (boot 1)
     1000 (mk_thread 1 0 []) paid
     16 17 18 20) as (m & w' & H1 & _ & _ & H2 & _).
  - split; [unfold block_pages; vm_compute; repeat split; reflexivity|lia|reflexivity|vm_compute; discriminate
           |reflexivity|reflexivity|reflexivity].
  - reflexivity.
  - split; reflexivity.
  - vm_compute. discriminate.
  - split; vm_compute; reflexivity.
  - split; vm_compute; reflexivity.
  - exists m, w'. split; [exact H1|]. rewrite H2. vm_compute. reflexivity.
Defined.

(** C17. Creating a memory and closing its only handle is a round trip: the close
    succeeds in removing both blocks, and names, descriptors and mappings of the
    machine are those before the creation; only objects that have no name any
    more differ. *)
Theorem memory_roundtrip {E : Env} {L : EnvLaws E} nd c size k name access w this t u p1 p2 p3 p4 :
  create_request size k name w ->
  ipm_alloc c sizeof_memory (in_mem 31 "ipm_memory_create") w = Ret this (set_user u (set_thread t w)) ->
  same_thread (w_thread w) t -> this <> NULL ->
  let w1 := set_user u (set_thread t w) in
  create_places w1 claim_size p1 p2 IPM_ACCESS_MODE_READ_WRITE ->
  create_places (claims_ready w1 name p1 p2) (round_size size) p3 p4 access ->
  exists w', ('(_, m) ← ipm_memory_create nd c size name access; m ← unwrap m; ipm_memory_close nd m) w = Ret tt w' /\
    w_names w' = w_names w /\ w_fds w' = w_fds w /\ w_pages w' = w_pages w /\
    (forall o ob, w_objs w !! o = Some ob -> w_objs w' !! o = Some ob).
Proof.
  intros Hreq Halloc Ht Hthis w1 Hpl1 Hpl2. pose proof Hreq as [Hpg Hsz Hsl Hlen Hnc Hnd Hf].
  assert (t_faults (w_thread w1) = []) as Hf1 by (destruct Ht; simpl; congruence).
  pose proof (new_memory_alone w1 c size k name access this p1 p2 p3 p4 Hf1 Hlen Hpg Hpl1 Hpl2 Hnc) as Hal.
  destruct (memory_close_run nd _ _ _ _ _ _ Hal) as (w' & Hr & Hn' & Hfd' & Hp' & Ho');
    [done|by right|].
  exists w'. split_and!.
  - erewrite bind_Ret by (by eapply memory_create_run). cbn beta iota. by erewrite bind_Ret by done.
  - rewrite Hn', delete_delete.
    change (w_names (memory_world w1 size name access p1 p2 p3 p4)) with
      (<[object_name name IPM_MEMORY_BLOCK_REAL_MEMORY := fresh_object (w_objs (claims_ready w1 name p1 p2))]>
        (<[object_name name IPM_MEMORY_BLOCK_ACTIVE_CALIMS := fresh_object (w_objs w1)]> (w_names w))).
    change (header_name (created_object _ _ _)) with (object_name name IPM_MEMORY_BLOCK_REAL_MEMORY).
    change (header_name (claims_object _)) with (object_name name IPM_MEMORY_BLOCK_ACTIVE_CALIMS).
    rewrite (delete_insert_id (<[_ := _]> _)), delete_insert_id; [done|done|].
    rewrite lookup_insert_ne by (by apply object_names_differ). done.
  - rewrite Hfd'. by apply (new_memory_fds w1).
  - rewrite Hp'. by eapply (new_memory_pages w1).
  - intros o ob Ho. assert (o <> fresh_object (w_objs w1)) as Hne1 by (by apply (fresh_object_ne w1 o ob)).
    assert (w_objs (claims_ready w1 name p1 p2) !! o = Some ob) as Ho3.
    { cbn [claims_ready with_list set_obj set_objs set_thread created_world w_objs]. by rewrite !lookup_insert_ne. }
    pose proof (fresh_object_ne _ _ _ Ho3) as Hne2.
    rewrite Ho' by done. cbn [memory_world created_world w_objs]. by rewrite lookup_insert_ne.
Qed.

Lemma memory_roundtrip_witness :
  exists w', ('(_, m) ← ipm_memory_create false context 5000 "demo" IPM_ACCESS_MODE_READ_WRITE;
              m ← unwrap m; ipm_memory_close false m) (boot 1) = Ret tt w' /\
    w_names w' = ∅ /\ w_fds w' = ∅ /\ w_pages w' = ∅.
Proof.
  destruct (memory_roundtrip false context 5000 2 "demo" IPM_ACCESS_MODE_READ_WRITE (boot 1)
     1000 (mk_thread 1 0 []) paid
     16 17 18 20) as (w' & H1 & H2 & H3 & H4 & _).
  - split; [unfold block_pages; vm_compute; repeat split; reflexivity|lia|reflexivity|vm_compute; discriminate
           |reflexivity|reflexivity|reflexivity].
  - reflexivity.
  - split; reflexivity.
  - vm_compute. discriminate.
  - split; vm_compute; reflexivity.
  - split; vm_compute; reflexivity.
  - exists w'. split; [exact H1|]. split; [exact H2|]. split; [exact H3|exact H4].
Defined.

(** Growing a memory.  A size smaller than the current one is refused with
    [IPM_RESULT_ERR_BAD_VALUE] and changes nothing but the user's state.  A larger
    one, rounded up to pages, is recorded in the header, the object is extended and
    the call succeeds with the new size in the handle; the memory is mapped again,
    but the pointer of the handle, which [ipm_memory_pointer] returns, is null. *)
Theorem resize_grow_functional {E : Env} {L : EnvLaws E} nd (m : ipm_memory) new_size w :
  (round_size new_size < b_size (real_memory m) ->
   exists w', ipm_memory_resize_grow nd m new_size w = Ret (IPM_RESULT_ERR_BAD_VALUE, m) w' /\ reported w w') /\
  (forall o ob k p, block_in w (real_memory m) o ob -> t_faults (w_thread w) = [] ->
   let size := round_size new_size in
   block_pages size k -> b_size (real_memory m) = block_size (so_header ob) ->
   block_size (so_header ob) < size ->
   fd_object w (b_mem_fd (real_memory m)) = Some o -> segment_mutex (so_header ob) = mutex_of Free ->
   os_place (unmap_pages (b_memory (real_memory m) / IPM_MEMORY_PAGE_SIZE)
               (pages_of (b_size (real_memory m))) (w_pages w))
     (b_memory (real_memory m) / IPM_MEMORY_PAGE_SIZE) (pages_of size) = Some p ->
   exists m' w', ipm_memory_resize_grow nd m new_size w = Ret (IPM_RESULT_SUCCESS, m') w' /\
     w_objs w' = <[o := grown_object size ob]> (w_objs w) /\
     b_size (real_memory m') = size /\ ipm_memory_pointer m' = NULL /\
     (forall i, 0 <= i < pages_of size ->
        w_pages w' !! (p + i) = Some (mk_page o (1 + i) (is_writable (b_access_mode (real_memory m)))))).
Proof.
  split.
  - apply resize_grow_refused.
  - intros o ob k p [Hh Hfd' Hown Ha Hs] Hf size Hpg Hbs Hgrow Hfd Hmx Hp.
    unfold ipm_memory_resize_grow. fold size. rewrite (proj2 (Z.ltb_ge _ _)) by lia.
    erewrite bind_Ret.
    2:{ apply (resize_run _ _ _ _ o ob size k p); try done; [split; [done|lia]|lia]. }
    unfold ok. rewrite bool_decide_true by done. cbn [negb].
    eexists _, _. split; [reflexivity|]. split_and!; try done.
    intros i Hi. cbn [remapped w_pages set_pages]. rewrite lookup_map_pages, decide_True by lia. do 2 f_equal. lia.
Qed.

Lemma resize_grow_functional_witness :
  exists m' w', ipm_memory_resize_grow false demo_memory 9000 demo_world = Ret (IPM_RESULT_SUCCESS, m') w' /\
    b_size (real_memory m') = 12288 /\ ipm_memory_pointer m' = NULL.
Proof.
  destruct (resize_grow_functional false demo_memory 9000 demo_world) as [_ H].
  destruct (H 1%nat (default (mk_object 0 zero_header zero_list) (w_objs demo_world !! 1%nat)) 3 21)
    as (m' & w' & H1 & _ & H2 & H3 & _).
  - split; [split; vm_compute; reflexivity|eexists; vm_compute; reflexivity|vm_compute; reflexivity..].
  - vm_compute; reflexivity.
  - unfold block_pages; vm_compute; repeat split; reflexivity.
  - vm_compute; reflexivity.
  - vm_compute; reflexivity.
  - vm_compute; reflexivity.
  - vm_compute; reflexivity.
  - vm_compute; reflexivity.
  - exists m', w'. split; [exact H1|]. split; [rewrite H2; vm_compute; reflexivity|exact H3].
Defined.

(** ** Names that are too long to print *)

(** The outcome of a call that failed with [r], having left [w], and says so with the
    name [s] of its handle. *)
Definition says {E : Env} (s : string) (r : ipm_result) (m : ipm_memory) w
    (run : outcome world (ipm_result * ipm_memory)) : Prop :=
  if Z.of_nat (String.length s) <? IPM_MAX_NAME_LEN then exists w', run = Ret (r, m) w' /\ reported w w'
  else run = Undef.

Lemma error_named_run {E : Env} m s f loc w :
  no_nul s = true -> mem_block_name m = copy_name s -> report_callback (ctx m) <> None ->
  if Z.of_nat (String.length s) <? IPM_MAX_NAME_LEN
  then exists w', IPM_ERROR_named m f loc w = Ret tt w' /\ reported w w'
  else IPM_ERROR_named m f loc w = Undef.
Proof.
  intros Hs Hm Hc. unfold IPM_ERROR_named. destruct (report_callback (ctx m)); [|done].
  rewrite Hm, copy_name_read by done.
  destruct (Z.of_nat (String.length s) <? IPM_MAX_NAME_LEN); [|done].
  destruct (on_user_report (ctx m) (f s) loc w) as (t & u & Hr & Ht).
  erewrite bind_Ret by done. eexists. split; [exact Hr|]. by exists t, u.
Qed.

(** C31. A handle can print its name only if the name is shorter than
    [IPM_MAX_NAME_LEN].  The assertions of [ipm_memory_create] and [ipm_memory_open]
    allow that length, and the buffer has room for it and a zero, but [strncpy] is
    given one byte less than the buffer has and leaves a name of that length without
    an end, in memory that was not cleared.  So when the data block cannot be mapped
    again or grown, in a context that reports errors, [ipm_memory_change_access],
    [ipm_memory_sync] and [ipm_memory_resize_grow] report the failure and return it,
    with the handle the block operation left, for every shorter name, and read beyond
    the name, which is undefined behaviour, for one of the full length. *)
Theorem long_names_unprintable {E : Env} nd (m : ipm_memory) s w r real w1 :
  no_nul s = true -> mem_block_name m = copy_name s -> report_callback (ctx m) <> None ->
  r <> IPM_RESULT_SUCCESS ->
  (forall a, shared_memory_block_update_mapping (ctx m) (real_memory m) a w = Ret (r, real) w1 ->
     says s r (set_real real m) w1 (ipm_memory_change_access m a w) /\
     (a = b_access_mode (real_memory m) -> says s r (set_real real m) w1 (ipm_memory_sync m w))) /\
  (forall n, b_size (real_memory m) <= round_size n ->
     shared_memory_block_resize nd (ctx m) (real_memory m) (round_size n) w = Ret (r, real) w1 ->
     says s r (set_real real m) w1 (ipm_memory_resize_grow nd m n w)).
Proof.
  intros Hs Hm Hc Hr. assert (ok r = false) as Hok by (unfold ok; by rewrite bool_decide_false).
  assert (forall f loc, _) as Hsay by (intros f loc; exact (error_named_run m s f loc w1 Hs Hm Hc)).
  unfold says. split; [intros a Hu; split|intros n Hle Hu].
  - specialize (Hsay (fun name => "Memory access change for block " +:+ quoted name +:+ " failed, reason: " +:+ reason r)
                  (in_mem 194 "ipm_memory_change_access")).
    unfold ipm_memory_change_access. erewrite bind_Ret by exact Hu. cbv beta iota. rewrite Hok. cbn [negb].
    case_match; [destruct Hsay as (w' & Hrun & Hrep); exists w'; split; [by erewrite bind_Ret by exact Hrun|done]|].
    unfold mbind, M_bind. by rewrite Hsay.
  - intros ->.
    specialize (Hsay (fun name => "Memory sync for block " +:+ quoted name +:+ " failed, reason: " +:+ reason r)
                  (in_mem 163 "ipm_memory_sync")).
    unfold ipm_memory_sync. erewrite bind_Ret by exact Hu. cbv beta iota. rewrite Hok. cbn [negb].
    case_match; [destruct Hsay as (w' & Hrun & Hrep); exists w'; split; [by erewrite bind_Ret by exact Hrun|done]|].
    unfold mbind, M_bind. by rewrite Hsay.
  - specialize (error_named_run (set_real real m) s (fun name => "Memory resizing to " +:+ pretty (b_size (real_memory (set_real real m)))
        +:+ " bytes for block " +:+ quoted name +:+ " failed, reason: " +:+ reason r)
        (in_mem 179 "ipm_memory_resize_grow") w1 Hs Hm Hc) as Hsay'.
    unfold ipm_memory_resize_grow. cbv zeta. rewrite (proj2 (Z.ltb_ge (round_size n) _)) by exact Hle.
    erewrite bind_Ret by exact Hu. cbv beta iota. rewrite Hok. cbn [negb].
    case_match; [|unfold mbind, M_bind; by rewrite Hsay'].
    destruct Hsay' as (w2 & Hrun & Hrep). erewrite bind_Ret by exact Hrun.
    destruct (b_memory (real_memory (set_real real m)) =? NULL).
    + match goal with |- context [IPM_ERROR ?c ?msg ?l] =>
        destruct (on_user_report c msg l w2) as (t & u & Hr2 & Ht2) end.
      erewrite bind_Ret by exact Hr2. eexists. split; [reflexivity|].
      destruct Hrep as (t' & u' & -> & Ht'). exists t, u. split; [done|].
      eapply same_thread_trans; [exact Ht'|exact Ht2].
    + exists w2. by split.
Qed.

(** A memory with a name of 256 characters, and its process when the next remapping fails. *)
Definition long_name : string := String.concat "" (replicate 256 "n").
Definition long_run : outcome world (ipm_result * option (@ipm_memory linux)) :=
  ipm_memory_create false context 5000 long_name IPM_ACCESS_MODE_READ_WRITE (boot 1).
Definition long_memory : @ipm_memory linux :=
  match value long_run with Some (_, Some m) => m | _ => demo_memory end.
Definition long_world : world :=
  set_thread (mk_thread 1 0 [ENOMEM]) (default (boot 1) (final long_run)).

Definition long_failure : outcome world (ipm_result * ipm_shared_memory_block) :=
  shared_memory_block_update_mapping (ctx long_memory) (real_memory long_memory) IPM_ACCESS_MODE_READ_ONLY long_world.

Lemma long_names_unprintable_witness :
  (match value long_run with Some (r, Some _) => ok r | _ => false end) = true /\
  ipm_memory_change_access long_memory IPM_ACCESS_MODE_READ_ONLY long_world = Undef.
Proof.
  split; [vm_compute; reflexivity|].
  assert ((match long_failure with Ret (r, _) _ => negb (ok r) | _ => false end) = true) as Hf
    by (vm_compute; reflexivity).
  destruct long_failure as [[r real] w1| | |] eqn:Hu; [|discriminate Hf..].
  destruct (long_names_unprintable false long_memory long_name long_world r real w1
              ltac:(vm_compute; reflexivity) ltac:(vm_compute; reflexivity) ltac:(vm_compute; discriminate)
              ltac:(intros ->; discriminate Hf)) as [H _].
  unfold long_failure in Hu. destruct (H IPM_ACCESS_MODE_READ_ONLY Hu) as [Ha _]. unfold says in Ha.
  replace (Z.of_nat (String.length long_name) <? IPM_MAX_NAME_LEN) with false in Ha by (vm_compute; reflexivity).
  exact Ha.
Defined.
