(* ===== verification/Processes.v ===== *)
(** * Several processes on one machine

    The processes of a machine share its names and its objects; each has its own
    thread, its own user state, descriptors and mappings, and something local
    that the model of the file at hand chooses (a handle, or where the process is
    in a call).  A process acts by running code on its [view] of the machine. *)

From S2P Require Import Prelude Errors Pthread Platform Claims Common Names World.

Section processes.
Context {E : Env} {H : Type}.

(** A process: its private part of the world, and what it has at hand. *)
Record process := mk_process {
  p_thread : thread;
  p_user : user;
  p_fds : gmap nat nat;
  p_pages : gmap Z page;
  p_local : H
}.

Record machine := mk_machine {
  k_names : gmap string nat;
  k_objs : gmap nat shm_object;
  k_procs : gmap Z process
}.
Implicit Types (k : machine) (p : process) (pid : Z) (w : world).

(** The world as a process sees it, and the machine after the process acted. *)
Definition view k p : world :=
  mk_world (p_thread p) (p_user p) (k_names k) (k_objs k) (p_fds p) (p_pages p).
Definition became w (h : H) : process := mk_process (w_thread w) (w_user w) (w_fds w) (w_pages w) h.
Definition acted pid w (h : H) k : machine :=
  mk_machine (w_names w) (w_objs w) (<[pid := became w h]> (k_procs k)).

Lemma view_acted pid w h k : view (acted pid w h k) (became w h) = w.
Proof. by destruct w. Qed.

(** A process after process [pid] acted: the one that acted, or one as before. *)
Lemma acted_lookup pid w h k qid q :
  k_procs (acted pid w h k) !! qid = Some q <->
  (qid = pid /\ q = became w h) \/ (qid <> pid /\ k_procs k !! qid = Some q).
Proof. cbn [acted k_procs]. rewrite lookup_insert_Some. split; intros [[? ?]|[? ?]]; subst; eauto. Qed.
End processes.
Arguments process {E} H.
Arguments machine {E} H.

(** ** Processes that may have a handle *)

Section users.
Context {E : Env} {H : Type}.
Implicit Types (k : machine (option H)) (p : process (option H)) (pid : Z) (w : world).

(** The processes that have a handle. *)
Definition users k : gset Z :=
  dom (filter (fun pp => is_Some (p_local pp.2)) (k_procs k)).

Lemma elem_of_users pid k :
  pid ∈ users k <-> exists p b, k_procs k !! pid = Some p /\ p_local p = Some b.
Proof.
  unfold users. rewrite elem_of_dom. split.
  - intros [p [Hp [b Hb]]%map_lookup_filter_Some]. eauto.
  - intros (p & b & Hp & Hb). exists p. apply map_lookup_filter_Some. split; [done|]. by exists b.
Qed.

Lemma users_acted_some pid w b k : users (acted pid w (Some b) k) = {[pid]} ∪ users k.
Proof.
  apply set_eq. intros q. rewrite elem_of_union, elem_of_singleton, !elem_of_users. cbn [acted k_procs]. split.
  - intros (p & b' & Hp & Hb). apply lookup_insert_Some in Hp as [[-> _]|[_ Hp]]; [by left|right; eauto].
  - intros [->|(p & b' & Hp & Hb)].
    + eexists _, b. split; [apply lookup_insert_eq|done].
    + destruct (decide (pid = q)) as [->|Hne].
      * eexists _, b. split; [apply lookup_insert_eq|done].
      * exists p, b'. by rewrite lookup_insert_ne.
Qed.

Lemma users_acted_none pid w k : users (acted pid w None k) = users k ∖ {[pid]}.
Proof.
  apply set_eq. intros q. rewrite elem_of_difference, elem_of_singleton, !elem_of_users. cbn [acted k_procs]. split.
  - intros (p & b' & Hp & Hb). apply lookup_insert_Some in Hp as [[_ <-]|[Hne Hp]]; [done|].
    split; [eauto|congruence].
  - intros [(p & b' & Hp & Hb) Hne]. exists p, b'. rewrite lookup_insert_ne by congruence. done.
Qed.

Lemma not_user pid p k : k_procs k !! pid = Some p -> p_local p = None -> pid ∉ users k.
Proof. intros Hp Hh (p' & b & Hp' & Hb)%elem_of_users. congruence. Qed.

(** A handle of another process after process [pid] acted. *)
Lemma acted_other pid w b k qid q c :
  k_procs (acted pid w b k) !! qid = Some q -> p_local q = Some c ->
  (qid = pid /\ b = Some c /\ view (acted pid w b k) q = w) \/ (qid <> pid /\ k_procs k !! qid = Some q).
Proof.
  cbn [acted k_procs]. intros Hq Hc. apply lookup_insert_Some in Hq as [[<- <-]|[Hne Hq]]; [left|by right].
  cbn in Hc. split_and!; [done..|]. apply (view_acted pid w b k).
Qed.


(** How many are left when one goes. *)
Lemma users_left pid k : pid ∈ users k -> (base.size (users k ∖ {[pid]}) + 1 = base.size (users k))%nat.
Proof.
  intros Hu. rewrite size_difference, size_singleton by set_solver.
  assert (base.size (users k) <> 0)%nat; [|lia].
  intros H0%size_empty_inv%leibniz_equiv. rewrite H0 in Hu. by apply not_elem_of_empty in Hu.
Qed.
Lemma users_joined pid k : pid ∉ users k -> base.size ({[pid]} ∪ users k) = S (base.size (users k)).
Proof. intros Hu. rewrite size_union, size_singleton by set_solver. done. Qed.
End users.

