(* ===== verification/Sharing.v ===== *)
(** * Several processes that share one block

    A step of the machine (file [Processes]) is one call of
    [shared_memory_block_create], [shared_memory_block_open] or
    [shared_memory_block_close] (source/shared_memory.c) by one process on the
    block with a given name and identifier, run on the shared state and the
    process's own.  The theorems say what the reference count in the header
    counts, when the name exists, and that access identifiers tell handles
    apart; the last one is about an open in the middle of a close. *)

From S2P Require Import Prelude Errors Pthread Platform Claims Common Names World SharedMemory Memory Machine Regions Lifecycle Handles Processes.

Abbreviation p_handle := p_local.

Section machine.
Context {E : Env}.

(** What a process has at hand is its handle of the block, if it has one. *)
Abbreviation holder := (process (option ipm_shared_memory_block)).
Abbreviation holders := (machine (option ipm_shared_memory_block)).

Section block.
Variable nd : bool.
Variables (name : string) (id size n : Z).

(** One call by one process.  The premises beside the run say that nothing is
    scheduled to fail, that the kernel finds room for the mappings, and that
    neither the reference count nor the counter of identifiers wraps around. *)
Inductive call_step : holders -> holders -> Prop :=
| call_create pid p c access p1 p2 b w k :
    k_procs k !! pid = Some p -> p_handle p = None -> t_faults (p_thread p) = [] ->
    create_places (view k p) size p1 p2 access ->
    shared_memory_block_create nd c name id size access (view k p) = Ret (IPM_RESULT_SUCCESS, Some b) w ->
    call_step k (acted pid w (Some b) k)
| call_create_refused pid p c access r w k :
    k_procs k !! pid = Some p -> p_handle p = None -> t_faults (p_thread p) = [] ->
    is_Some (k_names k !! object_name name id) ->
    shared_memory_block_create nd c name id size access (view k p) = Ret (r, None) w ->
    call_step k (acted pid w None k)
| call_open pid p c access o ob p1 p2 b w k :
    k_procs k !! pid = Some p -> p_handle p = None -> t_faults (p_thread p) = [] ->
    k_names k !! object_name name id = Some o -> k_objs k !! o = Some ob ->
    open_places (view k p) o (block_size (so_header ob)) p1 p2 ->
    refcount (so_header ob) + 1 < u32_mod -> id_counter (so_header ob) + 1 < u64_mod ->
    shared_memory_block_open nd [] c name id access (view k p) = Ret (IPM_RESULT_SUCCESS, Some b) w ->
    call_step k (acted pid w (Some b) k)
| call_open_refused pid p c access r w k :
    k_procs k !! pid = Some p -> p_handle p = None -> t_faults (p_thread p) = [] ->
    k_names k !! object_name name id = None ->
    shared_memory_block_open nd [] c name id access (view k p) = Ret (r, None) w ->
    call_step k (acted pid w None k)
| call_close pid p c b r w k :
    k_procs k !! pid = Some p -> p_handle p = Some b -> t_faults (p_thread p) = [] ->
    shared_memory_block_close nd c b None (view k p) = Ret r w ->
    call_step k (acted pid w None k).

(** The object behind the block as long as somebody uses it. *)
Record block_state (k : holders) (o : nat) (ob : shm_object) : Prop := {
  bs_obj : k_objs k !! o = Some ob;
  bs_size : 0 < so_size ob;
  bs_block_size : block_size (so_header ob) = size;
  bs_id : block_id (so_header ob) = id;
  bs_name : hdr_block_name (so_header ob) = name;
  bs_mutex : segment_mutex (so_header ob) = mutex_of Free;
  bs_counter : 0 <= id_counter (so_header ob);
  bs_refs : refcount (so_header ob) = Z.of_nat (base.size (users k));
  bs_width : refcount (so_header ob) < u32_mod;
  bs_handles : forall pid p b, k_procs k !! pid = Some p -> p_handle p = Some b ->
    block_in (view k p) b o ob /\ b_access_id b < id_counter (so_header ob);
  bs_distinct : forall pid qid p q b c, pid <> qid -> k_procs k !! pid = Some p -> k_procs k !! qid = Some q ->
    p_handle p = Some b -> p_handle q = Some c -> b_access_id b <> b_access_id c
}.

(** The name exists exactly as long as somebody has a handle. *)
Inductive shared_state (k : holders) : Prop :=
| in_use o ob : k_names k !! object_name name id = Some o -> users k <> ∅ -> block_state k o ob -> shared_state k
| unused : k_names k !! object_name name id = None -> users k = ∅ -> shared_state k.

Inductive machine_reachable : holders -> Prop :=
| machine_initial k :
    k_names k !! object_name name id = None ->
    (forall pid p, k_procs k !! pid = Some p -> p_handle p = None) -> machine_reachable k
| machine_step k k' : machine_reachable k -> call_step k k' -> machine_reachable k'.
End block.

(** ** Lemmas on machines *)

Implicit Types (k : holders) (p : holder) (pid : Z).

(** A process's block survives what others do to the object. *)
Lemma block_in_view k k' p b o ob ob' :
  block_in (view k p) b o ob -> k_objs k' !! o = Some ob' -> so_size ob' = so_size ob ->
  block_size (so_header ob') = block_size (so_header ob) -> block_in (view k' p) b o ob'.
Proof.
  intros Hb ? ? ?. eapply block_in_same; done || lia.
Qed.

(** A refused call changes nothing that is shared. *)
Lemma shared_state_refused name id size pid p w k :
  shared_state name id size k -> k_procs k !! pid = Some p -> p_handle p = None ->
  w_names w = k_names k -> w_objs w = k_objs k -> shared_state name id size (acted pid w None k).
Proof.
  intros Hs Hp Hh Hn Ho. pose proof (not_user _ _ _ Hp Hh) as Hnu.
  assert (users (acted pid w None k) = users k) as Hu.
  { rewrite users_acted_none. apply set_eq. intros q. rewrite elem_of_difference, elem_of_singleton.
    split; [by intros [? _]|]. intros Hq. split; [done|]. intros ->. done. }
  destruct Hs as [o ob Hname Hne [? ? ? ? ? ? ? Hr ? Hb Hd]|Hname Hempty].
  - apply (in_use _ _ _ _ o ob); [cbn; by rewrite Hn|by rewrite Hu|]. split; try done.
    + cbn. by rewrite Ho.
    + by rewrite Hu.
    + intros qid q c Hq Hc. destruct (acted_other _ _ _ _ _ _ _ Hq Hc) as [(_ & ? & _)|[_ Hq']]; [done|].
      destruct (Hb _ _ _ Hq' Hc) as [Hblk Hid]. split; [|done].
      eapply block_in_view; [exact Hblk| |done|done]. cbn. by rewrite Ho.
    + intros q1 q2 p1 p2 b1 b2 Hne' H1 H2 Hb1 Hb2.
      destruct (acted_other _ _ _ _ _ _ _ H1 Hb1) as [(_ & ? & _)|[_ H1']]; [done|].
      destruct (acted_other _ _ _ _ _ _ _ H2 Hb2) as [(_ & ? & _)|[_ H2']]; [done|]. by eapply (Hd q1 q2).
  - apply unused; [cbn; by rewrite Hn|by rewrite Hu].
Qed.

(** Nothing changed but the thread's [errno] and the user's state. *)
Record untouched (w w' : world) : Prop := {
  ut_names : w_names w' = w_names w;
  ut_objs : w_objs w' = w_objs w;
  ut_fds : w_fds w' = w_fds w;
  ut_pages : w_pages w' = w_pages w;
  ut_tid : t_tid (w_thread w') = t_tid (w_thread w)
}.

Lemma untouched_trans w1 w2 w3 : untouched w1 w2 -> untouched w2 w3 -> untouched w1 w3.
Proof. intros [? ? ? ? ?] [? ? ? ? ?]. split; congruence. Qed.
Lemma untouched_user u t w : same_thread (w_thread w) t -> untouched w (set_user u (set_thread t w)).
Proof. by intros [? ?]; split. Qed.

(** An open of a name that does not exist, whatever the context reports. *)
Lemma open_absent_refused nd others c name id access w :
  no_faults 1 (w_thread w) -> Z.of_nat (String.length name) <= IPM_MAX_NAME_LEN ->
  w_names w !! object_name name id = None ->
  exists r w', shared_memory_block_open nd others c name id access w = Ret (r, None) w' /\
    r <> IPM_RESULT_SUCCESS /\ untouched w w' /\ t_faults (w_thread w') = tail (t_faults (w_thread w)).
Proof.
  intros Hf Hname Hn. unfold shared_memory_block_open.
  erewrite bind_Ret by (apply cassert_true; lia).
  erewrite bind_Ret by (eapply (shm_open_absent_run _ _ 0); done).
  change (-1 <? 0) with true. cbv iota.
  erewrite bind_Ret by reflexivity.
  match goal with |- context [?e =? EEXIST] => change (e =? EEXIST) with false end. cbv iota.
  erewrite bind_Ret by reflexivity.
  match goal with |- context [IPM_ERROR ?c ?msg ?s] =>
    destruct (on_user_report c msg s (set_thread (set_errno ENOENT (thread_after_call (w_thread w))) w))
      as (t & u & Hr & Ht) end.
  erewrite bind_Ret by exact Hr. erewrite bind_Ret by reflexivity. eexists _, _.
  split; [reflexivity|]. split; [unfold shm_open_open_error, switch; by repeat case_match|].
  destruct Ht as [Htid Hft]. split; [by split|exact Hft].
Qed.

Section invariant.
Context {L : EnvLaws E}.
Variable nd : bool.
Variables (name : string) (id size n : Z).
Hypothesis Hpages : block_pages size n.
Hypothesis Hname : Z.of_nat (String.length name) <= IPM_MAX_NAME_LEN.
Abbreviation ok := (shared_state name id size).

Lemma created_shared pid p access a1 a2 k :
  ok k -> k_names k !! object_name name id = None -> users k = ∅ ->
  create_places (view k p) size a1 a2 access ->
  ok (acted pid (created_world (view k p) name id size a1 a2 access)
        (Some (created_block (view k p) size a1 a2 access)) k).
Proof using Type*.
  intros Hs Hn Hu Hpl. pose proof (created_block_in (view k p) name id _ _ _ _ _ Hpages Hpl) as Hblk.
  set (w := created_world _ _ _ _ _ _ _) in *. set (b := created_block _ _ _ _ _) in *.
  assert (users (acted pid w (Some b) k) = {[pid]}) as Hu' by (rewrite users_acted_some, Hu; apply (right_id_L ∅ (∪))).
  assert (forall q pq c, k_procs (acted pid w (Some b) k) !! q = Some pq -> p_handle pq = Some c -> 
    q = pid /\ c = b /\ view (acted pid w (Some b) k) pq = w) as Honly.
  { intros q pq c Hq Hc. destruct (acted_other _ _ _ _ _ _ _ Hq Hc) as [(-> & [= ->] & Hv)|[_ Hq']]; [done|].
    assert (q ∈ users k) as Hin by (apply elem_of_users; eauto). rewrite Hu in Hin. by apply not_elem_of_empty in Hin. }
  apply (in_use _ _ _ _ (fresh_object (k_objs k)) (created_object name id size)).
  - cbn. by rewrite lookup_insert_eq.
  - rewrite Hu'. apply non_empty_singleton_L.
  - split; try done.
    + cbn. by rewrite lookup_insert_eq.
    + destruct Hpages as (-> & ? & _). simpl. unfold IPM_MEMORY_PAGE_SIZE. lia.
    + by rewrite Hu', size_singleton.
    + intros q pq c Hq Hc. destruct (Honly _ _ _ Hq Hc) as (-> & -> & ->). split; [exact Hblk|done].
    + intros q1 q2 pq1 pq2 c1 c2 Hne H1 H2 Hc1 Hc2.
      destruct (Honly _ _ _ H1 Hc1) as (-> & _), (Honly _ _ _ H2 Hc2) as (-> & _). done.
Qed.

Lemma opened_shared pid p access o ob a1 a2 k :
  k_names k !! object_name name id = Some o -> block_state name id size k o ob ->
  k_procs k !! pid = Some p -> p_handle p = None ->
  open_places (view k p) o (block_size (so_header ob)) a1 a2 ->
  refcount (so_header ob) + 1 < u32_mod -> id_counter (so_header ob) + 1 < u64_mod ->
  ok (acted pid (opened_world (view k p) o ob a1 a2 access)
        (Some (opened_block (view k p) (so_header ob) a1 a2 access)) k).
Proof using Type*.
  intros Hn [Ho Hs Hbs Hid Hnm Hm Hc0 Hr Hw Hb Hd] Hp Hh Hpl Hr1 Hc1.
  destruct (block_pages_pos _ _ Hpages) as [Hpos _].
  pose proof (opened_block_in (view k p) o ob a1 a2 access Hpl Ho Hs ltac:(lia)) as Hblk.
  set (w := opened_world _ _ _ _ _ _) in *. set (b := opened_block _ _ _ _ _) in *.
  assert (refcount (opened_header (so_header ob)) = refcount (so_header ob) + 1) as Hrc
    by (apply wrap32_small; word).
  assert (id_counter (opened_header (so_header ob)) = id_counter (so_header ob) + 1) as Hic
    by (apply wrap64_small; word).
  assert (w_objs w !! o = Some (set_so_header (opened_header (so_header ob)) ob)) as How
    by (cbn; by rewrite lookup_insert_eq).
  apply (in_use _ _ _ _ o (set_so_header (opened_header (so_header ob)) ob)).
  - done.
  - rewrite users_acted_some. set_solver.
  - split; try done; cbn [set_so_header so_header].
    + rewrite Hic. lia.
    + rewrite Hrc, Hr, users_acted_some, size_union by (pose proof (not_user _ _ _ Hp Hh); set_solver).
      rewrite size_singleton. lia.
    + rewrite Hrc. lia.
    + intros q pq c Hq Hc. rewrite Hic.
      destruct (acted_other _ _ _ _ _ _ _ Hq Hc) as [(-> & [= <-] & Hv)|[_ Hq']].
      * rewrite Hv. split; [exact Hblk|simpl; lia].
      * destruct (Hb _ _ _ Hq' Hc) as [Hblk' Hlt]. split; [by eapply block_in_view|lia].
    + intros q1 q2 pq1 pq2 c1 c2 Hne H1 H2 Hc1' Hc2.
      destruct (acted_other _ _ _ _ _ _ _ H1 Hc1') as [(-> & [= <-] & _)|[_ H1']];
      destruct (acted_other _ _ _ _ _ _ _ H2 Hc2) as [(-> & [= <-] & _)|[_ H2']]; try done.
      * destruct (Hb _ _ _ H2' Hc2) as [_ Hlt]. simpl. lia.
      * destruct (Hb _ _ _ H1' Hc1') as [_ Hlt]. simpl. lia.
      * by eapply (Hd q1 q2).
Qed.

(** Closing: the last handle takes the name with it, another one only its count. *)
Lemma closed_shared pid p c b o ob r w k :
  k_names k !! object_name name id = Some o -> block_state name id size k o ob ->
  k_procs k !! pid = Some p -> p_handle p = Some b -> t_faults (p_thread p) = [] ->
  shared_memory_block_close nd c b None (view k p) = Ret r w ->
  r = IPM_RESULT_SUCCESS /\ ok (acted pid w None k).
Proof using Type*.
  intros Hn Hst Hp Hh Hf Hrun. pose proof Hst as [Ho Hs Hbs Hid Hnm Hm Hc0 Hr Hw Hb Hd].
  destruct (Hb _ _ _ Hp Hh) as [Hblk _].
  assert (pid ∈ users k) as Hu by (apply elem_of_users; eauto).
  pose proof (users_left pid k Hu) as Hsz.
  assert (forall q pq d, k_procs (acted pid w None k) !! q = Some pq -> p_handle pq = Some d ->
    k_procs k !! q = Some pq) as Hother.
  { intros q pq d Hq Hd'. by destruct (acted_other _ _ _ _ _ _ _ Hq Hd') as [(_ & ? & _)|[_ ?]]. }
  destruct (decide (refcount (so_header ob) = 1)) as [H1|H1].
  - rewrite (close_last_run nd c b None (view k p) o ob ob (p_thread p) (object_name name id)) in Hrun;
      try done; [|by rewrite Hid, Hnm|by apply no_faults_nil].
    injection Hrun as <- <-. split; [done|]. apply unused.
    + cbn. by rewrite lookup_delete_eq.
    + rewrite users_acted_none. apply leibniz_equiv, size_empty_inv. lia.
  - assert (Z.of_nat (base.size (users k)) - 1 = Z.of_nat (base.size (users k ∖ {[pid]}))) as Hsz' by lia.
    rewrite (close_shared_run nd c b None (view k p) o ob) in Hrun by done.
    injection Hrun as <- <-. split; [done|].
    set (ob' := set_so_header (set_refcount (wrap32 (refcount (so_header ob) - 1)) (so_header ob)) ob).
    apply (in_use _ _ _ _ o ob'); [done| |].
    { rewrite users_acted_none. intros H0%(f_equal base.size). rewrite size_empty in H0. lia. }
    split; try done; cbn [ob' set_so_header so_header set_refcount refcount id_counter].
    + cbn. by rewrite lookup_insert_eq.
    + rewrite users_acted_none, Hr, Hsz'. apply wrap32_small. word.
    + apply wrap32_range.
    + intros q pq d Hq Hd'. destruct (Hb _ _ _ (Hother _ _ _ Hq Hd') Hd') as [Hblk' Hlt]. split; [|done].
      eapply block_in_view; [exact Hblk'|cbn; by rewrite lookup_insert_eq|done|done].
    + intros q1 q2 pq1 pq2 d1 d2 Hne Hq1 Hq2 Hd1 Hd2. by eapply (Hd q1 q2); eauto.
Qed.

Lemma in_use_refs k o ob : users k <> ∅ -> block_state name id size k o ob -> refcount (so_header ob) <> 0.
Proof using Type*.
  intros Hne Hst. rewrite (bs_refs _ _ _ _ _ _ Hst). intros H0. apply Hne.
  apply leibniz_equiv, size_empty_inv. lia.
Qed.

Lemma call_step_shared k k' : ok k -> call_step nd name id size k k' -> ok k'.
Proof using Type*.
  intros Hs Hstep. destruct Hstep as [pid p c access a1 a2 b w k Hp Hh Hf Hpl Hrun|pid p c access r w k Hp Hh Hf Hn Hrun
    |pid p c access o ob a1 a2 b w k Hp Hh Hf Hn Ho Hpl Hr Hi Hrun|pid p c access r w k Hp Hh Hf Hn Hrun
    |pid p c b r w k Hp Hh Hf Hrun].
  - destruct Hs as [o ob Hn Hu Hst|Hn Hu].
    + rewrite (create_exists_run _ _ _ _ _ n _ (view k p) o) in Hrun; try done. by apply no_faults_nil.
    + pose proof Hpl as [Hp1 Hp2].
      rewrite (create_run _ _ _ _ _ n _ (view k p) a1 a2) in Hrun; try done; [|by apply no_faults_nil].
      injection Hrun as <- <-. by apply created_shared; [apply unused|..].
  - destruct Hn as [o Hn].
    rewrite (create_exists_run _ _ _ _ _ n _ (view k p) o) in Hrun; try done; [|by apply no_faults_nil].
    injection Hrun as <- <-. by eapply shared_state_refused.
  - destruct Hs as [o' ob' Hn' Hu Hst|Hn' Hu]; [|congruence].
    assert (o' = o) as -> by congruence. pose proof (bs_obj _ _ _ _ _ _ Hst) as Ho'.
    assert (ob' = ob) as -> by congruence. pose proof (in_use_refs _ _ _ Hu Hst) as Href.
    pose proof Hst as [_ Hs Hbs Hid Hnm _ _ _ _ _ _]. destruct (block_pages_pos _ _ Hpages) as [Hpos _].
    rewrite (open_run _ _ _ _ _ _ (view k p) o ob a1 a2) in Hrun; try done; [|by apply no_faults_nil|lia].
    injection Hrun as <- <-. by apply (opened_shared pid p access o ob a1 a2).
  - destruct (open_absent_refused nd [] c name id access (view k p)) as (r' & w' & Hr & _ & [Hwn Hwo _ _ _] & _);
      [by apply no_faults_nil|done|done|].
    rewrite Hrun in Hr. injection Hr as <- <-. by eapply shared_state_refused.
  - destruct Hs as [o ob Hn Hu Hst|Hn Hu].
    + by eapply closed_shared.
    + assert (pid ∈ users k) as Hin by (apply elem_of_users; eauto). rewrite Hu in Hin.
      by apply not_elem_of_empty in Hin.
Qed.

Lemma machine_shared k : machine_reachable nd name id size k -> ok k.
Proof using Type*.
  induction 1 as [k Hn Hno|k k' Hr IH Hstep]; [|by eapply call_step_shared].
  apply unused; [done|]. apply set_eq. intros q. rewrite elem_of_users. split.
  - intros (p & b & Hp & Hb). by rewrite (Hno _ _ Hp) in Hb.
  - by intros ?%not_elem_of_empty.
Qed.
End invariant.
End machine.

(** ** Theorems *)

(** C6. Reference counting.  Whatever processes create, open and close the block,
    in whatever order: its name exists exactly as long as some process has a
    handle; the count in the header is the number of processes that have one;
    every handle is usable (its header page is mapped, its descriptor open); the
    header keeps the size, the identifier and the name; and no two handles have
    the same access identifier, the one by which claims tell processes apart. *)
Theorem sharing_counts_handles {E : Env} {L : EnvLaws E} nd name id size n k :
  block_pages size n -> Z.of_nat (String.length name) <= IPM_MAX_NAME_LEN ->
  machine_reachable nd name id size k ->
  (is_Some (k_names k !! object_name name id) <-> users k <> ∅) /\
  forall o, k_names k !! object_name name id = Some o ->
  exists ob, k_objs k !! o = Some ob /\
    refcount (so_header ob) = Z.of_nat (base.size (users k)) /\
    block_size (so_header ob) = size /\ block_id (so_header ob) = id /\ hdr_block_name (so_header ob) = name /\
    (forall pid p b, k_procs k !! pid = Some p -> p_handle p = Some b -> block_in (view k p) b o ob) /\
    (forall pid qid p q b c, pid <> qid -> k_procs k !! pid = Some p -> k_procs k !! qid = Some q ->
       p_handle p = Some b -> p_handle q = Some c -> b_access_id b <> b_access_id c).
Proof.
  intros Hpages Hname Hr. destruct (machine_shared nd name id size n Hpages Hname k Hr) as [o ob Hn Hu Hst|Hn Hu].
  - split; [split; [done|by exists o]|]. intros o' Ho'. assert (o' = o) as -> by congruence.
    exists ob. destruct Hst as [? ? ? ? ? ? ? ? ? Hb Hd]. split_and!; try done.
    intros pid p b Hp Hh. by destruct (Hb pid p b Hp Hh).
  - split; [split; [by intros [? ?]; congruence|done]|]. intros o' Ho'. congruence.
Qed.

(** Two processes that have nothing yet. *)
Definition newcomer (tid : Z) : @process linux (option ipm_shared_memory_block) :=
  mk_process (mk_thread tid 0 []) fresh_user ∅ ∅ None.
Definition two_newcomers : @machine linux (option ipm_shared_memory_block) :=
  mk_machine ∅ ∅ {[1 := newcomer 1; 2 := newcomer 2]}.

(** Process 1 has created the block "data" of two pages. *)
Definition one_user : @machine linux (option ipm_shared_memory_block) :=
  acted 1 (created_world (view two_newcomers (newcomer 1)) "data" 1 8192 16 18 IPM_ACCESS_MODE_READ_WRITE)
    (Some (created_block (view two_newcomers (newcomer 1)) 8192 16 18 IPM_ACCESS_MODE_READ_WRITE)) two_newcomers.

Lemma one_user_reachable nd : machine_reachable nd "data" 1 8192 one_user.
Proof.
  eapply machine_step; [apply (machine_initial _ _ _ _ two_newcomers); [reflexivity|]|].
  - intros pid p. cbn. rewrite lookup_insert_Some, lookup_singleton_Some. by intros [[_ <-]|[_ [_ <-]]].
  - eapply (call_create _ _ _ _ 1 (newcomer 1) context IPM_ACCESS_MODE_READ_WRITE 16 18);
      [reflexivity|reflexivity|reflexivity|split; vm_compute; reflexivity|].
    apply (create_run _ _ _ _ _ 2); [by apply no_faults_nil|reflexivity|
      unfold block_pages, IPM_MEMORY_PAGE_SIZE; lia|vm_compute; discriminate|vm_compute; reflexivity..].
Qed.

Lemma data_pages : block_pages 8192 2.
Proof. unfold block_pages, IPM_MEMORY_PAGE_SIZE. lia. Qed.

Lemma sharing_counts_handles_witness :
  exists ob, k_objs one_user !! 0%nat = Some ob /\ refcount (so_header ob) = 1.
Proof.
  destruct (sharing_counts_handles false "data" 1 8192 2 one_user) as [_ H];
    [exact data_pages|vm_compute; discriminate|exact (one_user_reachable false)|].
  destruct (H 0%nat) as (ob & H1 & H2 & _); [vm_compute; reflexivity|].
  exists ob. split; [exact H1|]. rewrite H2. vm_compute. reflexivity.
Defined.

(** ** Opening in the middle of a close *)

Section race.
Context {E : Env} {L : EnvLaws E}.

(** What others do to the object without taking a reference: finishing a close,
    waiting in [shared_memory_block_open], using the mutex. *)
Definition calm (f : shm_object -> shm_object) : Prop :=
  forall ob, refcount (so_header ob) = 0 -> 0 < so_size ob ->
  refcount (so_header (f ob)) = 0 /\ 0 < so_size (f ob).

Lemma wait_hangs (w : world) a o ob others :
  header_mapped w a o ob -> refcount (so_header ob) = 0 -> Forall calm others ->
  exists s, wait_for_creator a others w = Hang s.
Proof.
  revert w ob. induction others as [|f others IH]; intros w ob Hm Hr Hc; cbn [wait_for_creator];
    (erewrite bind_Ret by (by eapply read_header_run)); rewrite Hr; cbn [negb Z.eqb].
  - by eexists.
  - apply Forall_cons in Hc as [Hf Hc]. destruct (Hf ob Hr (hm_size _ _ _ _ Hm)) as [Hr' Hs'].
    erewrite bind_Ret.
    2:{ unfold on_object. rewrite (header_mapped_at _ _ _ _ Hm), (hm_obj _ _ _ _ Hm). reflexivity. }
    eapply (IH _ (f ob)); [|done|done]. cbn [fst snd]. rewrite set_thread_id.
    destruct Hm as [? ? ? ?]. split; try done. apply lookup_insert_eq.
Qed.

Lemma open_unreferenced nd others ctx name id access (w : world) o ob p1 p2 :
  no_faults 3 (w_thread w) -> Z.of_nat (String.length name) <= IPM_MAX_NAME_LEN ->
  w_names w !! object_name name id = Some o -> w_objs w !! o = Some ob -> 0 < so_size ob ->
  0 < block_size (so_header ob) -> refcount (so_header ob) = 0 ->
  open_places w o (block_size (so_header ob)) p1 p2 -> Forall calm others ->
  exists s, shared_memory_block_open nd others ctx name id access w = Hang s.
Proof.
  intros Hf Hlen Hn Ho Hso Hsz Hr Hpl Hc. pose proof Hpl as [Hp1 Hp2].
  pose proof (mapped_world_header w o ob (block_size (so_header ob)) p1 p2 access Hpl Ho Hso Hsz) as Hm.
  destruct (wait_hangs _ _ o ob others Hm Hr Hc) as [s Hs]. exists s.
  unfold shared_memory_block_open.
  erewrite bind_Ret by (apply cassert_true; lia).
  erewrite bind_Ret by (eapply (shm_open_old_run _ _ o 2); done).
  rewrite (proj2 (Z.ltb_ge _ _)) by lia.
  erewrite bind_Ret.
  2:{ eapply (mmap_run _ _ _ _ _ o _ p1 1); [exact (no_faults_after 1 2 _ Hf)|done|done| |exact Hp1].
      rewrite fd_object_nat. apply lookup_insert_eq. }
  rewrite (NULL_place _ _ _ _ Hp1).
  erewrite bind_Ret.
  2:{ apply (read_header_run _ _ o ob). split; [apply page_addr_mod| |exact Ho|done].
      rewrite page_addr_div. cbn [w_pages set_pages].
      rewrite lookup_map_pages, decide_True by (change (pages_of IPM_MEMORY_PAGE_SIZE) with 1; lia).
      by rewrite Z.sub_diag. }
  erewrite bind_Ret.
  2:{ eapply (mmap_run _ _ _ _ _ o _ p2 0); [exact (no_faults_after 2 1 _ Hf)|done|done| |exact Hp2].
      rewrite fd_object_nat. apply lookup_insert_eq. }
  rewrite (MAP_FAILED_place _ _ _ _ Hp2) by
    (apply Z.div_str_pos; unfold IPM_MEMORY_PAGE_SIZE; lia).
  match goal with |- (_ ≫= ?k) ?w' = _ =>
    change w' with (mapped_world w o (block_size (so_header ob)) p1 p2 access) end.
  unfold mbind at 1, M_bind at 1. by rewrite Hs.
Qed.
End race.

(** A process that opens a block while the last handle is being closed never
    returns.  The close takes the reference away before it removes the name; in
    between the name still leads to the object, whose count is now 0 as it is
    before the creator has finished, so the open waits for a creator, and nobody
    will ever raise the count again: it spins for good, whatever the others do
    short of taking a reference. *)
Theorem open_races_with_close {E : Env} {L : EnvLaws E} nd name id size n k pid p b :
  block_pages size n -> Z.of_nat (String.length name) <= IPM_MAX_NAME_LEN ->
  machine_reachable nd name id size k -> k_procs k !! pid = Some p -> p_handle p = Some b ->
  users k = {[pid]} ->
  exists w, (_ ← close (b_mem_fd b); fetch_sub_refcount (b_header b)) (view k p) = Ret 1 w /\
  forall qid q c access others o p1 p2,
    k_procs (acted pid w (Some b) k) !! qid = Some q -> t_faults (p_thread q) = [] ->
    k_names k !! object_name name id = Some o ->
    open_places (view (acted pid w (Some b) k) q) o size p1 p2 -> Forall calm others ->
    exists s, shared_memory_block_open nd others c name id access (view (acted pid w (Some b) k) q) = Hang s.
Proof.
  intros Hpages Hname Hr Hp Hh Hu.
  destruct (machine_shared nd name id size n Hpages Hname k Hr) as [o ob Hn _ Hst|_ Hu'].
  2:{ exfalso. rewrite Hu in Hu'. by apply (non_empty_singleton_L (C := gset Z) pid). }
  destruct Hst as [Ho Hs Hbs Hid Hnm Hm _ Hrefs _ Hb _].
  rewrite Hu, size_singleton in Hrefs. destruct (Hb _ _ _ Hp Hh) as [[Hmap [o' Hfd] _ _ _] _].
  pose proof (close_fd_mapped _ (b_mem_fd b) _ _ _ Hmap) as Hmap'.
  eexists. split.
  - erewrite bind_Ret by (eapply close_run; exact Hfd). fold (close_fd (b_mem_fd b) (view k p)).
    rewrite <- (with_header_init _ _ _ _ Hmap') at 1. rewrite (fetch_sub_refcount_wh _ _ _ _ Hmap'), Hrefs.
    reflexivity.
  - intros qid q c access others o2 p1 p2 Hq Hf Ho2 Hpl Hc. assert (o2 = o) as -> by congruence.
    destruct (block_pages_pos _ _ Hpages) as [Hpos _].
    eapply (open_unreferenced _ _ _ _ _ _ _ o
      (set_so_header (set_refcount (wrap32 (Z.of_nat 1 - 1)) (so_header ob)) ob) p1 p2); try done.
    + by apply no_faults_nil.
    + cbn. by rewrite lookup_insert_eq.
    + simpl. lia.
    + simpl. by rewrite Hbs.
Qed.

(** The process that created the block, and its handle. *)
Definition first_block : ipm_shared_memory_block :=
  created_block (view two_newcomers (newcomer 1)) 8192 16 18 IPM_ACCESS_MODE_READ_WRITE.
Definition first_process : @process linux (option ipm_shared_memory_block) := default (newcomer 1) (k_procs one_user !! 1).

Lemma open_races_with_close_witness :
  exists w s, (_ ← close (b_mem_fd first_block); fetch_sub_refcount (b_header first_block))
      (view one_user first_process) = Ret 1 w /\
    shared_memory_block_open false [id; id] context "data" 1 IPM_ACCESS_MODE_READ_WRITE
      (view (acted 1 w (Some first_block) one_user) (newcomer 2)) = Hang s.
Proof.
  destruct (open_races_with_close false "data" 1 8192 2 one_user 1 first_process first_block) as (w & H1 & H2).
  - exact data_pages.
  - vm_compute. discriminate.
  - exact (one_user_reachable false).
  - reflexivity.
  - reflexivity.
  - vm_compute. reflexivity.
  - destruct (H2 2 (newcomer 2) context IPM_ACCESS_MODE_READ_WRITE [id; id] 0%nat 16 17) as [s Hs].
    + reflexivity.
    + reflexivity.
    + reflexivity.
    + split; vm_compute; reflexivity.
    + repeat constructor; (done || lia).
    + exists w, s. split; [exact H1|exact Hs].
Defined.
