(* ===== verification/Steps.v ===== *)
(** * The steps inside a call

    [shared_memory_block_create], [shared_memory_block_open] and
    [shared_memory_block_close] (source/shared_memory.c) touch memory and names
    that other processes touch too, without a lock.  Here each of them is cut at
    those accesses: a [place] is a place in the code with the local variables
    that are live there, and [segment] is the code from there to the next place.
    A segment has at most one access to what is shared besides reads of fields
    that are written once; what else it does is private to the process.  The
    theorem says that running the segments one after the other is the function. *)

From S2P Require Import Prelude Errors Pthread Platform Claims Common Names World SharedMemory.

Section steps.
Context {E : Env}.

(** The arguments of a call that makes a handle. *)
Record arguments := mk_arguments {
  rq_context : ipm_context user;
  rq_name : string;
  rq_id : Z;
  rq_access : ipm_access_mode
}.

(** The local variables [fd], [header], [block_memory] and [size]. *)
Record locals := mk_locals { l_fd : Z; l_header : Z; l_memory : Z; l_size : Z }.

Inductive place :=
(* shared_memory_block_create *)
| Creating (q : arguments) (size : Z)
| Sizing (q : arguments) (size fd : Z)
| Mapping (q : arguments) (size fd : Z)
| Writing_id (q : arguments) (v : locals)
| Writing_size (q : arguments) (v : locals)
| Writing_counter (q : arguments) (v : locals)
| Making_mutex (q : arguments) (v : locals)
| Undoing (q : arguments) (v : locals) (res : ipm_result)
| Naming (q : arguments) (v : locals)
| Taking_id (q : arguments) (v : locals)
| Publishing (q : arguments) (v : locals) (access_id : Z)
(* shared_memory_block_open *)
| Opening (q : arguments)
| Measuring (q : arguments) (fd header : Z)
| Awaiting (q : arguments) (v : locals)
| Checking_id (q : arguments) (v : locals)
| Wrong_id (q : arguments) (v : locals)
| Checking_name (q : arguments) (v : locals)
| Wrong_name (q : arguments) (v : locals)
| Referencing (q : arguments) (v : locals)
| Numbering (q : arguments) (v : locals)
(* shared_memory_block_close *)
| Closing (context : ipm_context user) (block : ipm_shared_memory_block) (callback : option (M world unit))
| Leaving (block : ipm_shared_memory_block)
| Calling_back (context : ipm_context user) (block : ipm_shared_memory_block) (f : M world unit)
| Destroying (context : ipm_context user) (block : ipm_shared_memory_block)
| Reading_name (context : ipm_context user) (block : ipm_shared_memory_block)
| Unmapping (context : ipm_context user) (block : ipm_shared_memory_block) (id : Z) (name_buffer : string)
| Unlinking (context : ipm_context user) (id : Z) (name_buffer : string)
(* the ends *)
| Opened (r : ipm_result * option ipm_shared_memory_block)
| Closed (r : ipm_result).

Definition handle_of (q : arguments) (v : locals) (access_id : Z) : ipm_shared_memory_block :=
  mk_block access_id (l_size v) (l_header v) (l_memory v) false (rq_access q) (l_fd v).
Definition failed (r : ipm_result) : place := Opened (r, None).

Section segments.
Variable NDEBUG : bool.

Definition create_at (line : Z) : site := in_shm line "shared_memory_block_create".
Definition open_at (line : Z) : site := in_shm line "shared_memory_block_open".

Definition creating (q : arguments) (size : Z) : M world place :=
  let name_len := Z.of_nat (String.length (rq_name q)) in
  _ ← cassert NDEBUG (Z.land size IPM_MEMORY_PAGE_SIZE_MASK =? 0);
  _ ← cassert NDEBUG (0 <? size);
  _ ← cassert NDEBUG (name_len <=? IPM_MAX_NAME_LEN);
  fd ← shm_open (object_name (rq_name q) (rq_id q)) true true;
  if fd <? 0 then
    e ← w_errno;
    if e =? EEXIST then mret (failed IPM_RESULT_ERR_EXISTS)
    else
      why ← strerror;
      _ ← IPM_ERROR (rq_context q) ("Could not open block with id " +:+ format_id (rq_id q)
                                     +:+ ", reason: " +:+ why) (create_at 33);
      e ← w_errno; mret (failed (shm_open_create_error e))
  else mret (Sizing q size fd).

Definition sizing (q : arguments) (size fd : Z) : M world place :=
  truc_res ← ftruncate fd (to_off_t (wrap64 (size + IPM_MEMORY_PAGE_SIZE)));
  if truc_res <? 0 then
    why ← strerror;
    _ ← IPM_ERROR (rq_context q) ("Could not truncate shared memory's FD to "
          +:+ pretty (wrap64 (size + IPM_MEMORY_PAGE_SIZE)) +:+ " bytes, reason: " +:+ why) (create_at 54);
    _ ← close fd;
    _ ← shm_unlink (object_name (rq_name q) (rq_id q));
    e ← w_errno; mret (failed (ftruncate_create_error e))
  else mret (Mapping q size fd).

Definition mapping (q : arguments) (size fd : Z) : M world place :=
  block_memory ← mmap NULL size (is_writable (rq_access q)) fd IPM_MEMORY_PAGE_SIZE;
  if block_memory =? MAP_FAILED then
    _ ← close fd;
    why ← strerror;
    _ ← IPM_ERROR (rq_context q) ("Could not map shared memory to memory, reason: " +:+ why) (create_at 75);
    _ ← shm_unlink (object_name (rq_name q) (rq_id q));
    e ← w_errno; mret (failed (mmap_error e))
  else
  header ← mmap NULL IPM_MEMORY_PAGE_SIZE true fd 0;
  if header =? NULL then
    _ ← close fd;
    why ← strerror;
    _ ← IPM_ERROR (rq_context q) ("Could not map shared memory to memory, reason: " +:+ why) (create_at 96);
    _ ← munmap block_memory size;
    _ ← shm_unlink (object_name (rq_name q) (rq_id q));
    e ← w_errno; mret (failed (mmap_error e))
  else mret (Writing_id q (mk_locals fd header block_memory size)).

Definition undoing (q : arguments) (v : locals) (res : ipm_result) : M world place :=
  _ ← close (l_fd v);
  why ← strerror;
  _ ← IPM_ERROR (rq_context q) ("Could not create block mutex, reason: " +:+ why) (create_at 123);
  _ ← munmap (l_header v) IPM_MEMORY_PAGE_SIZE;
  _ ← munmap (l_memory v) (l_size v);
  _ ← shm_unlink (object_name (rq_name q) (rq_id q));
  mret (failed res).

Definition opening (q : arguments) : M world place :=
  _ ← cassert NDEBUG (Z.of_nat (String.length (rq_name q)) <=? IPM_MAX_NAME_LEN);
  fd ← shm_open (object_name (rq_name q) (rq_id q)) false false;
  if fd <? 0 then
    e ← w_errno;
    if e =? EEXIST then mret (failed IPM_RESULT_ERR_EXISTS)
    else
      why ← strerror;
      _ ← IPM_ERROR (rq_context q) ("Could not open block with id " +:+ format_id (rq_id q)
                                     +:+ ", reason: " +:+ why) (open_at 160);
      e ← w_errno; mret (failed (shm_open_open_error e))
  else
  header ← mmap NULL IPM_MEMORY_PAGE_SIZE true fd 0;
  if header =? NULL then
    why ← strerror;
    _ ← IPM_ERROR (rq_context q) ("Could not map shared memory to memory, reason: " +:+ why) (open_at 182);
    e ← w_errno; mret (failed (mmap_error e))
  else mret (Measuring q fd header).

Definition measuring (q : arguments) (fd header : Z) : M world place :=
  h ← read_header header;
  let size := block_size h in
  block_memory ← mmap NULL size (is_writable (rq_access q)) fd IPM_MEMORY_PAGE_SIZE;
  if block_memory =? MAP_FAILED then
    _ ← close fd;
    _ ← munmap header IPM_MEMORY_PAGE_SIZE;
    why ← strerror;
    _ ← IPM_ERROR (rq_context q) ("Could not map shared memory to memory, reason: " +:+ why) (open_at 205);
    e ← w_errno; mret (failed (mmap_error e))
  else mret (Awaiting q (mk_locals fd header block_memory size)).

(** One turn of the loop that waits for the creator. *)
Definition awaiting (q : arguments) (v : locals) : M world place :=
  h ← read_header (l_header v);
  if negb (refcount h =? 0) then mret (Checking_id q v) else mret (Awaiting q v).

Definition reject (v : locals) : M world place :=
  _ ← munmap (l_header v) IPM_MEMORY_PAGE_SIZE;
  _ ← munmap (l_memory v) (l_size v);
  mret (failed IPM_RESULT_ERR_BAD_ID).
Definition wrong_id (q : arguments) (v : locals) : M world place :=
  _ ← close (l_fd v);
  h ← read_header (l_header v);
  _ ← IPM_ERROR (rq_context q) ("Block id (" +:+ format_id (block_id h) +:+ ") did not match the specified id ("
                                 +:+ format_id (rq_id q) +:+ ")") (open_at 231);
  reject v.
Definition wrong_name (q : arguments) (v : locals) : M world place :=
  _ ← close (l_fd v);
  h ← read_header (l_header v);
  _ ← IPM_ERROR (rq_context q) ("Block id (" +:+ rq_name q +:+ ") did not match the specified id ("
        +:+ String.substring 0 (Z.to_nat IPM_MAX_NAME_LEN) (hdr_block_name h) +:+ ")") (open_at 239);
  reject v.

Definition closing (context : ipm_context user) (block : ipm_shared_memory_block)
    (callback : option (M world unit)) : M world place :=
  _ ← cassert NDEBUG (negb (b_has_ownership block));
  _ ← close (b_mem_fd block);
  refs ← fetch_sub_refcount (b_header block);
  if refs =? 1 then
    mret (match callback with Some f => Calling_back context block f | None => Destroying context block end)
  else mret (Leaving block).

Definition unlinking (context : ipm_context user) (id : Z) (name_buffer : string) : M world place :=
  res ← shm_unlink name_buffer;
  if res <? 0 then
    why ← strerror;
    _ ← IPM_ERROR context ("Could not unlink memory block " +:+ name_buffer +:+ "-" +:+ format_id id
                            +:+ ", reason: " +:+ why) (in_shm 287 "shared_memory_block_close");
    e ← w_errno;
    mret (Closed (switch e [(EACCES, IPM_RESULT_ERR_ACCESS)] IPM_RESULT_ERR_OS_UNEXPECTED))
  else mret (Closed IPM_RESULT_SUCCESS).

Definition segment (ph : place) : M world place :=
  match ph with
  | Creating q size => creating q size
  | Sizing q size fd => sizing q size fd
  | Mapping q size fd => mapping q size fd
  | Writing_id q v => _ ← write_header (l_header v) (set_block_id (rq_id q)); mret (Writing_size q v)
  | Writing_size q v => _ ← write_header (l_header v) (set_block_size (l_size v)); mret (Writing_counter q v)
  | Writing_counter q v => _ ← write_header (l_header v) (set_id_counter 1); mret (Making_mutex q v)
  | Making_mutex q v =>
      res ← on_segment_mutex (l_header v) ipm_mutex_init;
      if negb (bool_decide (res = IPM_RESULT_SUCCESS)) then mret (Undoing q v res) else mret (Naming q v)
  | Undoing q v res => undoing q v res
  | Naming q v => _ ← store_name (l_header v) (rq_name q); mret (Taking_id q v)
  | Taking_id q v => access_id ← fetch_add_id (l_header v); mret (Publishing q v access_id)
  | Publishing q v access_id =>
      _ ← write_header (l_header v) (set_refcount 1);
      mret (Opened (IPM_RESULT_SUCCESS, Some (handle_of q v access_id)))
  | Opening q => opening q
  | Measuring q fd header => measuring q fd header
  | Awaiting q v => awaiting q v
  | Checking_id q v =>
      h ← read_header (l_header v);
      if negb (block_id h =? rq_id q) then mret (Wrong_id q v) else mret (Checking_name q v)
  | Wrong_id q v => wrong_id q v
  | Checking_name q v =>
      h ← read_header (l_header v);
      if name_differs (hdr_block_name h) (rq_name q) then mret (Wrong_name q v) else mret (Referencing q v)
  | Wrong_name q v => wrong_name q v
  | Referencing q v => _ ← fetch_add_refcount (l_header v); mret (Numbering q v)
  | Numbering q v =>
      access_id ← fetch_add_id (l_header v);
      mret (Opened (IPM_RESULT_SUCCESS, Some (handle_of q v access_id)))
  | Closing context block callback => closing context block callback
  | Leaving block =>
      h ← read_header (b_header block);
      _ ← munmap (b_memory block) (block_size h);
      _ ← munmap (b_header block) IPM_MEMORY_PAGE_SIZE;
      mret (Closed IPM_RESULT_SUCCESS)
  | Calling_back context block f => _ ← f; mret (Destroying context block)
  | Destroying context block =>
      _ ← on_segment_mutex (b_header block) ipm_mutex_destroy; mret (Reading_name context block)
  | Reading_name context block =>
      h ← read_header (b_header block);
      mret (Unmapping context block (block_id h) (object_name (hdr_block_name h) (block_id h)))
  | Unmapping context block id name_buffer =>
      h ← read_header (b_header block);
      _ ← munmap (b_memory block) (block_size h);
      _ ← munmap (b_header block) IPM_MEMORY_PAGE_SIZE;
      mret (Unlinking context id name_buffer)
  | Unlinking context id name_buffer => unlinking context id name_buffer
  | Opened _ | Closed _ => mret ph
  end.

(** The segments of a call one after the other, at most [fuel] of them. *)
Fixpoint drive (fuel : nat) (ph : place) : M world place :=
  match fuel with O => mret ph | S fuel => ph ← segment ph; drive fuel ph end.
Definition opened (ph : place) : M world (ipm_result * option ipm_shared_memory_block) :=
  match ph with Opened r => mret r | _ => hang end.
Definition closed (ph : place) : M world ipm_result :=
  match ph with Closed r => mret r | _ => hang end.
End segments.

Implicit Types (w : world) (pl : place).

(** What is left of a call, for at most [n] segments. *)
Definition rest {A} (nd : bool) (get : place -> M world A) (n : nat) pl : M world A :=
  pl ← drive nd n pl; get pl.

Lemma rest_S {A} nd (get : place -> M world A) n pl w :
  rest nd get (S n) pl w = (segment nd pl ≫= rest nd get n) w.
Proof. unfold rest. cbn [drive]. by rewrite bind_assoc. Qed.

Lemma rest_end {A} nd (get : place -> M world A) n pl w :
  (forall w, segment nd pl w = Ret pl w) -> rest nd get n pl w = get pl w.
Proof.
  intros Hend. induction n as [|n IH]; [done|]. rewrite rest_S. by erewrite bind_Ret by apply Hend.
Qed.

(** The code of a function and that of its segments side by side. *)
Ltac next_segment :=
  first [rewrite rest_end by done; reflexivity
        |rewrite rest_S; cbn [segment];
         unfold creating, sizing, mapping, undoing, opening, measuring, awaiting, wrong_id, wrong_name, reject,
           closing, unlinking, failed, create_at, open_at; cbn [l_fd l_header l_memory l_size]].
Ltac same_code :=
  cbv beta zeta;
  lazymatch goal with
  | |- ?x = (mret ?pl ≫= rest ?nd ?get ?n) ?w => change (x = rest nd get n pl w); next_segment
  | |- _ = ((_ ≫= _) ≫= _) _ => rewrite bind_assoc
  | |- (?m ≫= _) _ = (?m ≫= _) _ => apply bind_ext; intros ? ? ?
  | |- (mret ?a ≫= ?f) ?w = ?x => change (f a w = x)
  | |- (if ?b then _ else _) _ = _ => destruct b
  end.

Lemma create_steps nd q size w :
  shared_memory_block_create nd (rq_context q) (rq_name q) (rq_id q) size (rq_access q) w =
  rest nd opened 10 (Creating q size) w.
Proof. next_segment. unfold shared_memory_block_create. repeat same_code. Qed.

Lemma read_header_keeps a w h w' : read_header a w = Ret h w' -> w' = w.
Proof.
  unfold read_header, on_header, on_object. destruct (object_at 0 true a w) as [o|]; [|done].
  destruct (w_objs w !! o) as [ob|] eqn:Ho; [|done]. intros [= <- <-]. cbn.
  rewrite set_thread_id. apply set_obj_id. by destruct ob.
Qed.

(** A loop that finds the count at 0 and nobody to raise it. *)
Lemma awaiting_hangs nd n q v w h :
  read_header (l_header v) w = Ret h w -> refcount h = 0 -> rest nd opened n (Awaiting q v) w = Hang w.
Proof.
  intros Hr H0. induction n as [|n IH]; [done|]. rewrite rest_S. cbn [segment]. unfold awaiting.
  rewrite bind_assoc. erewrite bind_Ret by exact Hr. rewrite H0. exact IH.
Qed.

Lemma open_steps nd q n w :
  shared_memory_block_open nd [] (rq_context q) (rq_name q) (rq_id q) (rq_access q) w =
  rest nd opened (7 + n) (Opening q) w.
Proof.
  cbn [Nat.add]. next_segment. unfold shared_memory_block_open, wait_for_creator.
  repeat same_code.
  lazymatch goal with H : read_header _ _ = Ret ?h ?w |- _ =>
    pose proof (read_header_keeps _ _ _ _ H) as <-; destruct (negb (refcount h =? 0)) eqn:Hz end.
  - repeat same_code.
  - apply negb_false_iff, Z.eqb_eq in Hz. unfold mbind at 1, M_bind at 1. symmetry. by eapply awaiting_hangs.
Qed.

Lemma close_steps nd c b f w :
  shared_memory_block_close nd c b f w = rest nd closed 7 (Closing c b f) w.
Proof. next_segment. unfold shared_memory_block_close. destruct f; repeat same_code. Qed.
End steps.

(** Cutting the calls loses nothing: running the segments of a create, an open or
    a close one after the other, with nobody in between, is the function itself,
    on every path, errors, failed assertions and faults included.  An open takes
    as many more turns of its waiting loop as one likes: alone, it waits forever
    or not at all. *)
Theorem calls_are_segments {E : Env} nd q size c b f n w :
  shared_memory_block_create nd (rq_context q) (rq_name q) (rq_id q) size (rq_access q) w =
    (pl ← drive nd 10 (Creating q size); opened pl) w /\
  shared_memory_block_open nd [] (rq_context q) (rq_name q) (rq_id q) (rq_access q) w =
    (pl ← drive nd (7 + n) (Opening q); opened pl) w /\
  shared_memory_block_close nd c b f w = (pl ← drive nd 7 (Closing c b f); closed pl) w.
Proof. split_and!; [apply create_steps|apply open_steps|apply close_steps]. Qed.
