(* ===== verification/Refcount.v ===== *)
(** * Books on references

    What the header of a block promises of its two counters, without the code:
    every object has a reference count and a counter of access identifiers, and
    every process has at most one role towards one object.  The steps are the ones
    a create, an open and a close make one at a time.  File [Interleaving] shows
    that the code keeps these books. *)

From S2P Require Import Prelude.

(** How far a process has come with an object: it creates it ([Made] has its
    identifier), it has found it finished, it has taken a reference, it has a
    handle with an identifier. *)
Inductive stage := Making | Made (id : Z) | Found | Referring | Holding (id : Z).
Abbreviation role := (option (stage * nat)).

Record books := mk_books {
  counters : gmap nat (Z * Z);      (* reference count, next identifier *)
  roles : gmap Z role
}.

Definition turn (pid : Z) (r : role) (o : nat) (rc id : Z) (b : books) : books :=
  mk_books (<[o := (rc, id)]> (counters b)) (<[pid := r]> (roles b)).

Inductive book_step (b : books) : books -> Prop :=
| book_new pid o :
    roles b !! pid = Some None -> counters b !! o = None ->
    book_step b (turn pid (Some (Making, o)) o 0 0 b)
| book_reset pid o rc id :
    roles b !! pid = Some (Some (Making, o)) -> counters b !! o = Some (rc, id) ->
    book_step b (turn pid (Some (Making, o)) o rc 1 b)
| book_made pid o rc id :
    roles b !! pid = Some (Some (Making, o)) -> counters b !! o = Some (rc, id) ->
    book_step b (turn pid (Some (Made id, o)) o rc (wrap64 (id + 1)) b)
| book_publish pid a o rc id :
    roles b !! pid = Some (Some (Made a, o)) -> counters b !! o = Some (rc, id) ->
    book_step b (turn pid (Some (Holding a, o)) o 1 id b)
| book_find pid o rc id :
    roles b !! pid = Some None -> counters b !! o = Some (rc, id) -> rc <> 0 ->
    book_step b (turn pid (Some (Found, o)) o rc id b)
| book_refer pid o rc id :
    roles b !! pid = Some (Some (Found, o)) -> counters b !! o = Some (rc, id) ->
    book_step b (turn pid (Some (Referring, o)) o (wrap32 (rc + 1)) id b)
| book_number pid o rc id :
    roles b !! pid = Some (Some (Referring, o)) -> counters b !! o = Some (rc, id) ->
    book_step b (turn pid (Some (Holding id, o)) o rc (wrap64 (id + 1)) b)
| book_close pid a o rc id :
    roles b !! pid = Some (Some (Holding a, o)) -> counters b !! o = Some (rc, id) ->
    book_step b (turn pid None o (wrap32 (rc - 1)) id b)
| book_give_up pid s o :
    roles b !! pid = Some (Some (s, o)) -> s = Making \/ s = Found ->
    book_step b (mk_books (counters b) (<[pid := None]> (roles b))).

(** ** Counting *)

(** A reference is counted from [Referring] on, the creator's once published. *)
Definition refers (o : nat) (r : role) : bool :=
  match r with Some (Referring, o') | Some (Holding _, o') => bool_decide (o' = o) | _ => false end.
Definition holders_of (o : nat) (rs : gmap Z role) : nat :=
  base.size (filter (fun pr => refers o pr.2 = true) rs).
Definition b2n (b : bool) : nat := if b then 1 else 0.

Lemma holders_of_fresh o rs pid r :
  rs !! pid = None -> holders_of o (<[pid := r]> rs) = (b2n (refers o r) + holders_of o rs)%nat.
Proof.
  intros Hp. unfold holders_of. destruct (refers o r) eqn:Hr.
  - rewrite map_filter_insert_True by done. rewrite map_size_insert_None; [done|].
    apply map_lookup_filter_None. by left.
  - rewrite map_filter_insert_False by (simpl; by rewrite Hr). by rewrite delete_id.
Qed.

Lemma holders_of_insert o rs pid r r' :
  rs !! pid = Some r ->
  (holders_of o (<[pid := r']> rs) + b2n (refers o r) = b2n (refers o r') + holders_of o rs)%nat.
Proof.
  intros Hp. rewrite <- (insert_delete_id rs pid r) at 2 by done. rewrite <- (insert_delete_eq rs).
  rewrite !holders_of_fresh by apply lookup_delete_eq. lia.
Qed.

Lemma holders_of_le o rs : (holders_of o rs <= base.size rs)%nat.
Proof. apply map_subseteq_size, map_filter_subseteq. Qed.

Lemma size_insert_role (rs : gmap Z role) pid (r r' : role) : rs !! pid = Some r -> base.size (<[pid := r']> rs) = base.size rs.
Proof. intros Hp. apply map_size_insert_Some. by eexists. Qed.

(** ** The books balance *)

(** The identifier a process was given, and whether it is still creating. *)
Definition number (s : stage) : option Z :=
  match s with Made a | Holding a => Some a | _ => None end.
Definition creates (s : stage) : bool :=
  match s with Making | Made _ => true | _ => false end.

(** [n] bounds the number of steps made. *)
Record balanced (n : Z) (b : books) : Prop := {
  ba_known : forall pid s o, roles b !! pid = Some (Some (s, o)) -> is_Some (counters b !! o);
  ba_count : forall o rc id, counters b !! o = Some (rc, id) -> rc = Z.of_nat (holders_of o (roles b));
  ba_ids : forall o rc id, counters b !! o = Some (rc, id) -> 0 <= id <= n;
  ba_creator : forall p q s s' o, roles b !! p = Some (Some (s, o)) -> creates s = true ->
    roles b !! q = Some (Some (s', o)) -> q = p;
  ba_given : forall p s a o rc id, roles b !! p = Some (Some (s, o)) -> number s = Some a ->
    counters b !! o = Some (rc, id) -> 0 <= a < id;
  ba_distinct : forall p q s s' a o, roles b !! p = Some (Some (s, o)) -> roles b !! q = Some (Some (s', o)) ->
    number s = Some a -> number s' = Some a -> p = q;
  ba_width : Z.of_nat (base.size (roles b)) < u32_mod
}.

(** One lemma for all steps: what the new role and the new counters of the object
    have to satisfy. *)
Lemma turn_balanced n pid r r' o rc id b :
  balanced n b -> roles b !! pid = Some r ->
  (forall s o', r' = Some (s, o') -> o' = o) ->
  (forall o', o' <> o -> refers o' r = false) ->
  rc = Z.of_nat (holders_of o (<[pid := r']> (roles b))) ->
  0 <= id <= n + 1 ->
  (forall s, r' = Some (s, o) -> creates s = true -> forall q s', q <> pid -> roles b !! q <> Some (Some (s', o))) ->
  (forall q s, q <> pid -> roles b !! q = Some (Some (s, o)) -> creates s = true -> r' = None) ->
  (forall s a, r' = Some (s, o) -> number s = Some a -> 0 <= a < id /\
     forall q s', q <> pid -> roles b !! q = Some (Some (s', o)) -> number s' <> Some a) ->
  (forall q s a, q <> pid -> roles b !! q = Some (Some (s, o)) -> number s = Some a -> a < id) ->
  balanced (n + 1) (turn pid r' o rc id b).
Proof.
  intros [Hk Hc Hi Hcr Hg Hd Hw] Hp Ho Hr Hrc Hid Hnew Hold Hnum Hlt.
  assert (forall q s o', roles (turn pid r' o rc id b) !! q = Some (Some (s, o')) ->
    (q = pid /\ r' = Some (s, o') /\ o' = o) \/ (q <> pid /\ roles b !! q = Some (Some (s, o')))) as Hq.
  { intros q s o'. cbn [turn roles]. rewrite lookup_insert_Some. intros [[<- Hs]|[Hne Hs]]; [left|by right].
    split_and!; [done|done|by eapply Ho]. }
  assert (forall o' rc' id', counters (turn pid r' o rc id b) !! o' = Some (rc', id') ->
    (o' = o /\ rc' = rc /\ id' = id) \/ (o' <> o /\ counters b !! o' = Some (rc', id'))) as Hcnt.
  { intros o' rc' id'. cbn [turn counters]. rewrite lookup_insert_Some.
    intros [[<- [= <- <-]]|[Hne Hs]]; [by left|by right]. }
  split.
  - intros q s o' [(-> & -> & ->)|[_ Hs]]%Hq; cbn [turn counters].
    + rewrite lookup_insert_eq. by eexists.
    + apply lookup_insert_is_Some'. right. by eapply Hk.
  - intros o' rc' id' [(-> & -> & ->)|[Hne Hs]]%Hcnt; cbn [turn roles]; [done|].
    rewrite (Hc _ _ _ Hs). pose proof (holders_of_insert o' (roles b) pid r r' Hp) as Heq.
    rewrite (Hr o' Hne) in Heq. assert (refers o' r' = false) as Hr'; [|rewrite Hr' in Heq; simpl in Heq; lia].
    destruct r' as [[s o2]|]; [|done]. rewrite (Ho s o2 eq_refl).
    destruct s; simpl; try done; by apply bool_decide_eq_false.
  - intros o' rc' id' [(-> & -> & ->)|[Hne Hs]]%Hcnt; [done|]. specialize (Hi _ _ _ Hs). lia.
  - intros p q s s' o' [(-> & Hs & ->)|[Hnp Hs]]%Hq Hcs [(-> & Hs' & Ho')|[Hnq Hs']]%Hq; [done|..].
    + exfalso. by eapply Hnew.
    + subst o'. rewrite (Hold p s Hnp Hs Hcs) in Hs'. done.
    + by eapply Hcr.
  - intros p s a o' rc' id' [(-> & Hs & ->)|[Hnp Hs]]%Hq Ha [(Ho' & -> & ->)|[Hne Hs']]%Hcnt; try done.
    + by destruct (Hnum _ _ Hs Ha).
    + subst o'. split; [|by eapply Hlt].
      destruct (Hk _ _ _ Hs) as [[rc0 id0] Hc0]. by destruct (Hg _ _ _ _ _ _ Hs Ha Hc0).
    + by eapply Hg.
  - intros p q s s' a o' [(-> & Hs & ->)|[Hnp Hs]]%Hq [(-> & Hs' & Ho')|[Hnq Hs']]%Hq Ha Ha'; [done|..].
    + exfalso. destruct (Hnum _ _ Hs Ha) as [_ H]. by eapply H.
    + exfalso. subst o'. destruct (Hnum _ _ Hs' Ha') as [_ H]. by eapply H.
    + by eapply Hd.
  - cbn [turn roles]. by rewrite (size_insert_role _ _ r).
Qed.

Lemma creator_unheld n b q s o :
  balanced n b -> roles b !! q = Some (Some (s, o)) -> creates s = true -> holders_of o (roles b) = 0%nat.
Proof.
  intros Hb Hq Hs. unfold holders_of. apply map_size_empty_iff, map_empty. intros p.
  apply map_lookup_filter_None. right. intros [[s' o']|] Hp Hr; [|done].
  assert (o' = o /\ creates s' = false) as [-> Hs'] by (destruct s'; simpl in Hr; try done; by case_bool_decide).
  assert (p = q) as -> by (by eapply (ba_creator _ _ Hb q p s s')). congruence.
Qed.

(** A step of a process that is alone with an object, or that leaves the counter of
    identifiers no smaller. *)
Lemma turn_known n pid r r' o rc0 id0 rc id b :
  balanced n b -> roles b !! pid = Some r -> counters b !! o = Some (rc0, id0) ->
  match r with Some (_, o') => o' = o | None => True end ->
  match r' with Some (_, o') => o' = o | None => True end ->
  rc = rc0 + Z.of_nat (b2n (refers o r')) - Z.of_nat (b2n (refers o r)) ->
  match r with Some (s, _) => creates s = true /\ 0 <= id <= n + 1 \/ id0 <= id <= n + 1
             | None => id0 <= id <= n + 1 end ->
  match r' with
  | Some (s', _) =>
      match r with Some (s, _) => creates s' = true -> creates s = true
                 | None => creates s' = false /\ rc0 <> 0 end /\
      (forall a, number s' = Some a -> a = id0 /\ id0 < id \/
         id0 <= id /\ exists s o', r = Some (s, o') /\ number s = Some a)
  | None => True
  end ->
  balanced (n + 1) (turn pid r' o rc id b).
Proof.
  intros Hb Hp Hc0 Hr Hr' Hrc Hid Hroles. pose proof Hb as [Hk Hc Hi Hcr Hg Hd Hw].
  pose proof (Hc _ _ _ Hc0) as Hrc0. pose proof (Hi _ _ _ Hc0) as Hid0.
  pose proof (holders_of_insert o (roles b) pid r r' Hp) as Heq.
  assert (forall q s a, q <> pid -> roles b !! q = Some (Some (s, o)) -> number s = Some a -> a < id) as Hlt.
  { intros q s a Hne Hq Ha. destruct (Hg _ _ _ _ _ _ Hq Ha Hc0) as [_ Hlt].
    destruct r as [[s1 o1]|]; [|lia]. destruct Hid as [[Hs1 _]|?]; [|lia]. subst o1.
    exfalso. apply Hne. by eapply (Hcr pid q s1 s). }
  assert (forall q s, q <> pid -> roles b !! q = Some (Some (s, o)) -> creates s = true -> r' = None) as Hold.
  { intros q s Hne Hq Hs. destruct r as [[s1 o1]|].
    - subst o1. exfalso. apply Hne. symmetry. by eapply (Hcr q pid s s1).
    - destruct r' as [[s' o']|]; [|done]. exfalso. destruct Hroles as [[_ Hnz] _].
      rewrite Hrc0, (creator_unheld _ _ _ _ _ Hb Hq Hs) in Hnz. done. }
  eapply turn_balanced; [exact Hb|exact Hp|..].
  - intros s o' ->. done.
  - intros o' Hne. destruct r as [[s1 o1]|]; [subst o1|done].
    destruct s1; simpl; try done; by apply bool_decide_eq_false.
  - lia.
  - destruct r as [[s1 o1]|]; lia.
  - intros s -> Hs q s' Hne Hq. destruct Hroles as [Hcs _]. destruct r as [[s1 o1]|]; [|by destruct Hcs; congruence].
    subst o1. apply Hne. by eapply (Hcr pid q s1 s'); eauto.
  - exact Hold.
  - intros s a -> Ha. destruct Hroles as [_ Hnum].
    destruct (Hnum a Ha) as [[-> Hlt0]|(Hle & s1 & o1 & -> & Ha1)]; [split; [lia|]|subst o1; split].
    + intros q s' Hne Hq Ha'. destruct (Hg _ _ _ _ _ _ Hq Ha' Hc0). lia.
    + destruct (Hg _ _ _ _ _ _ Hp Ha1 Hc0). lia.
    + intros q s' Hne Hq Ha'. apply Hne. by eapply (Hd q pid s' s1).
  - exact Hlt.
Qed.

Lemma fresh_unused n b o : balanced n b -> counters b !! o = None -> holders_of o (roles b) = 0%nat.
Proof.
  intros Hb Ho. unfold holders_of. apply map_size_empty_iff, map_empty. intros p.
  apply map_lookup_filter_None. right. intros [[s o']|] Hp Hr; [|done].
  assert (o' = o) as -> by (destruct s; simpl in Hr; try done; by case_bool_decide).
  destruct (ba_known _ _ Hb _ _ _ Hp). congruence.
Qed.

Lemma book_step_balanced n b b' :
  balanced n b -> 0 <= n -> n + 1 < u64_mod -> book_step b b' -> balanced (n + 1) b'.
Proof.
  intros Hb H0 Hn Hstep. pose proof Hb as [Hk Hc Hi Hcr Hg Hd Hw].
  destruct Hstep as [pid o Hp Ho|pid o rc id Hp Ho|pid o rc id Hp Ho|pid a o rc id Hp Ho|pid o rc id Hp Ho Hrc
    |pid o rc id Hp Ho|pid o rc id Hp Ho|pid a o rc id Hp Ho|pid s o Hp Hs];
    try (pose proof (Hc _ _ _ Ho) as Hrc0; pose proof (Hi _ _ _ Ho) as Hid0).
  - assert (forall q s, roles b !! q = Some (Some (s, o)) -> False) as Hno
      by (intros q s Hq; destruct (Hk _ _ _ Hq); congruence).
    eapply turn_balanced; try done; [by intros s o' [= <- <-]| |lia|..].
    + pose proof (holders_of_insert o _ pid None (Some (Making, o)) Hp) as Heq.
      rewrite (fresh_unused _ _ _ Hb Ho) in Heq. simpl in Heq. lia.
    + intros s _ _ q s' _ Hq. by eapply Hno.
    + intros q s _ Hq. exfalso. by eapply Hno.
    + by intros s a [= <-].
    + intros q s a _ Hq. exfalso. by eapply Hno.
  - eapply turn_known; try done; [simpl; lia|left; split; [done|lia]].
  - rewrite wrap64_small by word.
    eapply turn_known; try done; [simpl; lia|left; split; [done|lia]|]. split; [done|].
    intros a [= <-]. left. lia.
  - assert (holders_of o (roles b) = 0%nat) as Hz by (by eapply creator_unheld).
    eapply turn_known; try done; [|left; split; [done|lia]|].
    + simpl. rewrite bool_decide_true by done. simpl. lia.
    + split; [done|]. intros a' [= <-]. right. split; [lia|]. by eexists _, _.
  - eapply turn_known; try done; simpl; lia.
  - rewrite wrap32_small.
    2:{ pose proof (holders_of_insert o _ pid _ (Some (Referring, o)) Hp).
        pose proof (holders_of_le o (<[pid := Some (Referring, o)]> (roles b))) as Hle.
        rewrite (size_insert_role _ _ _ _ Hp) in Hle. simpl in *. rewrite bool_decide_true in * by done.
        simpl in *. unfold u32. lia. }
    eapply turn_known; try done; simpl; rewrite ?bool_decide_true by done; simpl; lia.
  - rewrite wrap64_small by word.
    eapply turn_known; try done; [simpl; lia|right; lia|]. split; [done|].
    intros a [= <-]. left. lia.
  - rewrite wrap32_small.
    2:{ pose proof (holders_of_insert o _ pid _ None Hp) as Heq. pose proof (holders_of_le o (roles b)).
        simpl in Heq. rewrite bool_decide_true in Heq by done. simpl in Heq. unfold u32. lia. }
    eapply turn_known; try done; simpl; rewrite ?bool_decide_true by done; simpl; lia.
  - destruct (Hk _ _ _ Hp) as [[rc id] Ho]. pose proof (Hi _ _ _ Ho).
    assert (mk_books (counters b) (<[pid := None]> (roles b)) = turn pid None o rc id b) as ->
      by (unfold turn; rewrite (insert_id (counters b)) by done; done).
    eapply turn_known; try done; destruct Hs as [-> | ->]; simpl; lia.
Qed.

Lemma balanced_le n m b : balanced n b -> n <= m -> balanced m b.
Proof. intros [Hk Hc Hi Hcr Hg Hd Hw] Hle. split; try done. intros o rc id Ho. specialize (Hi _ _ _ Ho). lia. Qed.
