(* ===== verification/Interleaving.v ===== *)
(** * Creating, opening and closing at the same time

    Any number of processes create, open and close blocks, of any names; the
    segments of their calls (file [Steps]) interleave in any order.  The file
    relates the machine to the books of file [Refcount]: every segment is a step of
    the books or leaves them alone.  The theorems say what the counters in a header
    count in every interleaving; what can go wrong is the subject of files [Races]
    and [Faults]. *)

From S2P Require Import Prelude Errors Pthread Platform Claims Common Names World SharedMemory Memory Machine Typing Processes Steps Refcount.

Section interleaving.
Context {E : Env} {L : EnvLaws E}.
Implicit Types (w : world) (pl : place).

(** The descriptor and the header a process has at a place in the code, and how far
    it has come. *)
Definition place_fd pl : option Z :=
  match pl with
  | Sizing _ _ fd | Mapping _ _ fd | Measuring _ fd _ => Some fd
  | Writing_id _ v | Writing_size _ v | Writing_counter _ v | Making_mutex _ v | Undoing _ v _ | Naming _ v
  | Taking_id _ v | Publishing _ v _ | Awaiting _ v | Checking_id _ v | Wrong_id _ v | Checking_name _ v
  | Wrong_name _ v | Referencing _ v | Numbering _ v => Some (l_fd v)
  | Closing _ b _ | Opened (_, Some b) => Some (b_mem_fd b)
  | _ => None
  end.
Definition place_header pl : option Z :=
  match pl with
  | Measuring _ _ header => Some header
  | Writing_id _ v | Writing_size _ v | Writing_counter _ v | Making_mutex _ v | Undoing _ v _ | Naming _ v
  | Taking_id _ v | Publishing _ v _ | Awaiting _ v | Checking_id _ v | Wrong_id _ v | Checking_name _ v
  | Wrong_name _ v | Referencing _ v | Numbering _ v => Some (l_header v)
  | Closing _ b _ | Opened (_, Some b) | Leaving b | Calling_back _ b _ | Destroying _ b | Reading_name _ b
  | Unmapping _ b _ _ => Some (b_header b)
  | _ => None
  end.
Definition place_stage pl : option stage :=
  match pl with
  | Sizing _ _ _ | Mapping _ _ _ | Writing_id _ _ | Writing_size _ _ | Writing_counter _ _ | Making_mutex _ _
  | Undoing _ _ _ | Naming _ _ | Taking_id _ _ => Some Making
  | Publishing _ _ a => Some (Made a)
  | Checking_id _ _ | Wrong_id _ _ | Checking_name _ _ | Wrong_name _ _ | Referencing _ _ => Some Found
  | Numbering _ _ => Some Referring
  | Closing _ b _ | Opened (_, Some b) => Some (Holding (b_access_id b))
  | _ => None
  end.

(** The role of a process towards the object behind its descriptor. *)
Definition role_of w pl : role :=
  s ← place_stage pl; fd ← place_fd pl; o ← fd_object w fd; Some (s, o).
Definition counters_of (objs : gmap nat shm_object) : gmap nat (Z * Z) :=
  (fun ob => (refcount (so_header ob), id_counter (so_header ob))) <$> objs.

(** Descriptor and header belong to one object: unless mapping the header failed,
    its page is mapped at the header's address. *)
Definition header_at w (a : Z) (o : nat) : Prop :=
  a mod IPM_MEMORY_PAGE_SIZE = 0 -> w_pages w !! (a / IPM_MEMORY_PAGE_SIZE) = Some (mk_page o 0 true).
Definition wired w pl : Prop :=
  exists o, (forall fd, place_fd pl = Some fd -> fd_object w fd = Some o) /\
    forall a, place_header pl = Some a -> header_at w a o.

(** ** The machine *)

Abbreviation callers := (machine place).
Implicit Types (k : callers) (p : process place) (pid : Z).

Definition empty_handed pl : Prop := match pl with Opened (_, None) | Closed _ => True | _ => False end.
(** The arguments have their C types, and the name is no longer than allowed. *)
Definition fits (q : arguments) : Prop := u64 (rq_id q) /\ Z.of_nat (String.length (rq_name q)) <= IPM_MAX_NAME_LEN.
Definition begins pid p pl k : callers := acted pid (view k p) pl k.

Section machine_step.
Variable NDEBUG : bool.

(** A process without a handle may create or open, one with a handle may close it;
    a process in a call goes on to the end of its segment.  A process that fails an
    assertion or faults is not heard of again. *)
Inductive machine_step : callers -> callers -> Prop :=
| begin_create pid p q size k :
    k_procs k !! pid = Some p -> empty_handed (p_local p) -> fits q -> u64 size -> machine_step k (begins pid p (Creating q size) k)
| begin_open pid p q k :
    k_procs k !! pid = Some p -> empty_handed (p_local p) -> fits q -> machine_step k (begins pid p (Opening q) k)
| begin_close pid p c r b k :
    k_procs k !! pid = Some p -> p_local p = Opened (r, Some b) -> machine_step k (begins pid p (Closing c b None) k)
| goes_on pid p pl w k :
    k_procs k !! pid = Some p -> segment NDEBUG (p_local p) (view k p) = Ret pl w ->
    machine_step k (acted pid w pl k).
End machine_step.

(** A machine on which nothing has happened yet. *)
Record blank k : Prop := {
  bl_objs : k_objs k = ∅;
  bl_names : k_names k = ∅;
  bl_empty : forall pid p, k_procs k !! pid = Some p ->
    empty_handed (p_local p) /\ p_fds p = ∅ /\ p_pages p = ∅;
  bl_procs : Z.of_nat (base.size (k_procs k)) < u32_mod
}.

Definition books_of k : books :=
  mk_books (counters_of (k_objs k)) ((fun p => role_of (view k p) (p_local p)) <$> k_procs k).
Definition all_wired k : Prop := forall pid p, k_procs k !! pid = Some p -> wired (view k p) (p_local p).

(** ** What code leaves alone *)

(** [quiet w0]: the counters are those of [w0]; [keeps w0]: so are the descriptors,
    and what was mapped still is. *)
Definition quiet w0 w : Prop := counters_of (w_objs w) = counters_of (w_objs w0).
Record keeps w0 w : Prop := {
  ke_quiet : quiet w0 w;
  ke_fds : w_fds w = w_fds w0;
  ke_pages : w_pages w0 ⊆ w_pages w
}.

(** What the code that reports errors and works on headers needs of an invariant. *)
Class Frame (P : world -> Prop) : Prop := {
  fr_thread : forall t w, P w -> P (set_thread t w);
  fr_user : forall u w, P w -> P (set_user u w);
  fr_obj : forall o ob ob' w, w_objs w !! o = Some ob -> so_size ob' = so_size ob ->
    refcount (so_header ob') = refcount (so_header ob) ->
    id_counter (so_header ob') = id_counter (so_header ob) -> P w -> P (set_obj o ob' w)
}.
(** And of an object that is given another size. *)
Class Resizes (P : world -> Prop) : Prop := fr_resize : forall o ob len w,
  w_objs w !! o = Some ob -> 0 <= len -> P w -> P (set_obj o (truncate_object len ob) w).

Lemma counters_set (objs : gmap nat shm_object) o ob ob' :
  objs !! o = Some ob -> refcount (so_header ob') = refcount (so_header ob) ->
  id_counter (so_header ob') = id_counter (so_header ob) -> counters_of (<[o := ob']> objs) = counters_of objs.
Proof.
  intros Ho Hr Hi. unfold counters_of. rewrite fmap_insert, Hr, Hi. apply insert_id.
  by rewrite lookup_fmap, Ho.
Qed.

#[global] Instance quiet_frame w0 : Frame (quiet w0).
Proof. split; try done. intros o ob ob' w Ho _ Hr Hi Hq. unfold quiet in *. cbn. by erewrite counters_set. Qed.
#[global] Instance quiet_resizes w0 : Resizes (quiet w0).
Proof. intros o ob len w Ho _ Hq. unfold quiet in *. cbn. by erewrite counters_set. Qed.
#[global] Instance keeps_frame w0 : Frame (keeps w0).
Proof.
  split; [by intros ? ? []..|]. intros o ob ob' w Ho Hs Hr Hi [Hq Hf Hp]. split; [|done..].
  by eapply (fr_obj o ob).
Qed.
#[global] Instance keeps_resizes w0 : Resizes (keeps w0).
Proof. intros o ob len w Ho Hl [Hq Hf Hp]. split; [|done..]. by apply fr_resize. Qed.
(** *** Operations under a frame *)

Section frame.
Context (P : world -> Prop) {F : Frame P}.
Abbreviation any := (fun _ => True).

Lemma fr_on_user {A} (m : M (thread * user) A) : preserves P (on_user m) any.
Proof using F. apply pres_zoom_frame. intros w s Hw. by apply fr_user, fr_thread. Qed.
Lemma fr_error c msg loc : preserves P (IPM_ERROR c msg loc) any.
Proof using F. apply fr_on_user. Qed.
Lemma fr_errno : preserves P w_errno any.
Proof using F. by apply pres_gets. Qed.
Lemma fr_strerror : preserves P strerror any.
Proof using F. unfold strerror. eapply pres_bind; [apply fr_errno|intros; by apply pres_ret]. Qed.
Lemma fr_fail e : preserves P (sys_fail e) any.
Proof using F.
  unfold sys_fail. eapply pres_bind; [apply pres_modify|intros; by apply pres_ret]. intros w. apply fr_thread.
Qed.
Lemma fr_sys_call m : preserves P m any -> preserves P (sys_call m) any.
Proof using F.
  intros Hm. unfold sys_call. eapply pres_bind; [apply (pres_zoom_frame _ w_thread set_thread)|].
  - intros w t. apply fr_thread.
  - intros f _. pres_step; [done|apply fr_fail].
Qed.

Lemma fr_object {A} i a (m : M (thread * shm_object) A) :
  (forall sz rc id, preserves (fun s => so_size s.2 = sz /\ refcount (so_header s.2) = rc /\
     id_counter (so_header s.2) = id) m any) ->
  preserves P (on_object i a m) any.
Proof using F.
  intros Hm w Hw. unfold on_object. destruct (object_at i true a w) as [o|]; [|done].
  destruct (w_objs w !! o) as [ob|] eqn:Ho; [|done]. unfold zoom.
  specialize (Hm _ _ _ (w_thread w, ob) (conj eq_refl (conj eq_refl eq_refl))).
  destruct (m (w_thread w, ob)) as [x [t ob']|[t ob']| |[t ob']]; cbn beta; try done;
    [destruct Hm as [(Hs & Hr & Hi) _]; split; [|done]|destruct Hm as (Hs & Hr & Hi)..];
    (eapply (fr_obj o ob); [done..|]; by apply fr_thread).
Qed.
Lemma fr_header {A} a (m : M (thread * ipm_shared_memory_header) A) :
  (forall rc id, preserves (fun s => refcount s.2 = rc /\ id_counter s.2 = id) m any) ->
  preserves P (on_header a m) any.
Proof using F.
  intros Hm. apply fr_object. intros sz rc id. apply (pres_zoom _ (fun s => refcount s.2 = rc /\ id_counter s.2 = id)).
  - by intros s (_ & ? & ?).
  - by intros s t (? & _).
  - apply Hm.
Qed.
Lemma fr_read a : preserves P (read_header a) any.
Proof using F. apply fr_header. intros. by apply pres_gets. Qed.
Lemma fr_write a f :
  (forall h, refcount (f h) = refcount h) -> (forall h, id_counter (f h) = id_counter h) ->
  preserves P (write_header a f) any.
Proof using F. intros Hr Hi. apply fr_header. intros rc id. apply pres_modify. intros [t h]. cbn. by rewrite Hr, Hi. Qed.
Lemma fr_mutex {A} a (m : M (thread * ipm_mut) A) : preserves P (on_segment_mutex a m) any.
Proof using F. apply fr_header. intros rc id. by apply pres_zoom_frame. Qed.

Lemma fr_ftruncate `{Hrs : Resizes P} fd len : preserves P (ftruncate fd len) any.
Proof using F.
  apply fr_sys_call. apply (pres_bind _ _ _ P); [apply pres_get|]. intros w Hw.
  destruct (fd_object w fd) as [o|]; [|apply fr_fail]. destruct (Z.ltb_spec len 0); [apply fr_fail|].
  destruct (w_objs w !! o) as [ob|] eqn:Ho; [|apply pres_undef].
  eapply pres_bind; [apply pres_put|intros; by apply pres_ret]. by apply fr_resize.
Qed.
End frame.
#[local] Hint Resolve fr_error fr_errno fr_strerror fr_read fr_write fr_mutex fr_ftruncate : typed.

(** What else leaves an invariant alone that only speaks of the objects. *)
Class Shared (P : world -> Prop) : Prop := shared_only : forall w w', w_objs w' = w_objs w -> P w -> P w'.
#[global] Instance quiet_shared w0 : Shared (quiet w0).
Proof. intros w w'. unfold quiet. by intros ->. Qed.

Section shared.
Context (P : world -> Prop) {F : Frame P} {G : Shared P}.
Abbreviation any := (fun _ => True).

Lemma sh_close fd : preserves P (close fd) any.
Proof using F G.
  apply (pres_bind _ _ _ P); [apply pres_get|]. intros w Hw. destruct (fd_object w fd); [|apply fr_fail, _].
  eapply pres_bind; [apply pres_put|intros; by apply pres_ret]. by eapply shared_only; [|exact Hw].
Qed.
Lemma sh_munmap a len : preserves P (munmap a len) any.
Proof using F G.
  apply (pres_bind _ _ _ P); [apply pres_get|]. intros w Hw. pres_step; [apply fr_fail, _|].
  eapply pres_bind; [apply pres_put|intros; by apply pres_ret]. by eapply shared_only; [|exact Hw].
Qed.
Lemma sh_unlink name : preserves P (shm_unlink name) any.
Proof using F G.
  apply fr_sys_call; [apply _|]. apply (pres_bind _ _ _ P); [apply pres_get|]. intros w Hw.
  destruct (w_names w !! name); [|apply fr_fail, _].
  eapply pres_bind; [apply pres_put|intros; by apply pres_ret]. by eapply shared_only; [|exact Hw].
Qed.
End shared.
#[local] Hint Resolve sh_close sh_munmap sh_unlink quiet_shared : typed.
#[local] Hint Resolve quiet_frame keeps_frame quiet_resizes keeps_resizes : typed.

Lemma preserves_run {A} (P : world -> Prop) (m : M world A) Q w a w' :
  preserves P m Q -> P w -> m w = Ret a w' -> P w' /\ Q a.
Proof. intros Hm Hw Hr. specialize (Hm w Hw). by rewrite Hr in Hm. Qed.

Lemma quiet_refl w : quiet w w.
Proof. done. Qed.
Lemma keeps_refl w : keeps w w.
Proof. by split. Qed.
Lemma keeps_trans w1 w2 w3 : keeps w1 w2 -> keeps w2 w3 -> keeps w1 w3.
Proof. intros [Hq Hf Hp] [Hq' Hf' Hp']. split; [by transitivity (counters_of (w_objs w2))|congruence|by etransitivity]. Qed.
Hint Resolve quiet_refl keeps_refl : core.

(** *** What the system calls that continue a call do *)

Lemma sys_call_inv m w r w' :
  sys_call m w = Ret r w' -> (r = -1 /\ keeps w w') \/ exists t, m (set_thread t w) = Ret r w'.
Proof.
  rewrite sys_call_run. case_match; [by right; eexists|]. intros [= <- <-]. left. split; [done|].
  by apply (fr_thread (P := keeps w)).
Qed.

Lemma sys_fail_inv e w r w' : sys_fail e w = Ret r w' -> r = -1 /\ keeps w w'.
Proof. intros [= <- <-]. split; [done|]. by apply (fr_thread (P := keeps w)). Qed.

Lemma fd_object_opened w (fds : gmap nat nat) fd o :
  w_fds w = <[fd := o]> fds -> fd_object w (Z.of_nat fd) = Some o.
Proof. intros Hf. rewrite fd_object_nat, Hf. apply lookup_insert_eq. Qed.

Lemma shm_open_new_inv name w fd w' :
  shm_open name true true w = Ret fd w' ->
  (fd = -1 /\ quiet w w') \/
  exists o, 0 <= fd /\ fd_object w' fd = Some o /\ counters_of (w_objs w) !! o = None /\
    counters_of (w_objs w') = <[o := (0, 0)]> (counters_of (w_objs w)) /\
    w_objs w' !! o = Some (mk_object 0 zero_header zero_list).
Proof.
  intros [[-> Hk]|[t Hr]]%sys_call_inv; [left; split; [done|apply Hk]|].
  erewrite bind_Ret in Hr by done. cbn [andb set_thread w_names] in Hr.
  destruct (w_names w !! name) as [o|].
  - apply sys_fail_inv in Hr as [-> Hk]. left. split; [done|apply Hk].
  - cbv zeta in Hr. erewrite bind_Ret in Hr by done. unfold open_fd in Hr. erewrite bind_Ret in Hr by done.
    erewrite bind_Ret in Hr by done. injection Hr as <- <-. right.
    exists (fresh_object (w_objs w)). split_and!; [lia|by eapply fd_object_opened| | |].
    + unfold counters_of. rewrite lookup_fmap. unfold fresh_object.
      by rewrite (proj1 (not_elem_of_dom (w_objs w) (fresh (dom (w_objs w)))) (is_fresh _)).
    + cbn. unfold counters_of. by rewrite fmap_insert.
    + apply lookup_insert_eq.
Qed.

Lemma shm_open_old_inv name w fd w' :
  shm_open name false false w = Ret fd w' ->
  quiet w w' /\ (fd < 0 \/ exists o, fd_object w' fd = Some o).
Proof.
  intros [[-> Hk]|[t Hr]]%sys_call_inv; [split; [apply Hk|left; lia]|].
  erewrite bind_Ret in Hr by done. cbn [andb set_thread w_names] in Hr.
  destruct (w_names w !! name) as [o|].
  - unfold open_fd in Hr. erewrite bind_Ret in Hr by done. erewrite bind_Ret in Hr by done.
    injection Hr as <- <-. split; [done|right]. exists o. by eapply fd_object_opened.
  - apply sys_fail_inv in Hr as [-> Hk]. split; [apply Hk|left; lia].
Qed.

Lemma MAP_FAILED_unaligned : MAP_FAILED mod IPM_MEMORY_PAGE_SIZE <> 0.
Proof. done. Qed.

Lemma mmap_inv hint len wr fd off w a w' :
  mmap hint len wr fd off w = Ret a w' ->
  keeps w w' /\ (0 < pages_of len -> a = MAP_FAILED \/ exists o base, fd_object w fd = Some o /\
    a = base * IPM_MEMORY_PAGE_SIZE /\ w_pages w' !! base = Some (mk_page o (off / IPM_MEMORY_PAGE_SIZE) wr)).
Proof.
  intros (r & w1 & Hr & [= <- <-])%bind_Ret_inv.
  apply sys_call_inv in Hr as [[-> Hk]|[t Hr]]; [split; [done|by left]|].
  assert (keeps w (set_thread t w)) as Ht by by apply (fr_thread (P := keeps w)).
  erewrite bind_Ret in Hr by done. case_match.
  { apply sys_fail_inv in Hr as [-> Hk]. split; [by eapply keeps_trans|by left]. }
  change (fd_object (set_thread t w) fd) with (fd_object w fd) in Hr. destruct (fd_object w fd) as [o|] eqn:Hfd.
  2:{ apply sys_fail_inv in Hr as [-> Hk]. split; [by eapply keeps_trans|by left]. }
  cbn [set_thread w_pages] in Hr. destruct (os_place _ _ _) as [base|] eqn:Hp.
  2:{ apply sys_fail_inv in Hr as [-> Hk]. split; [by eapply keeps_trans|by left]. }
  erewrite bind_Ret in Hr by done. injection Hr as <- <-.
  apply os_place_free in Hp as (Hp0 & Hpmax & Hfree). split.
  - split; [done..|]. apply map_subseteq_spec. intros j pg Hj. cbn.
    rewrite lookup_map_pages. case_decide as Hin; [|done].
    specialize (Hfree (j - base) ltac:(lia)). replace (base + (j - base)) with j in Hfree by lia. congruence.
  - intros Hlen. right. exists o, base. split_and!; [done|apply wrap64_small; unfold u64, IPM_MEMORY_PAGE_SIZE in *; lia|].
    cbn. rewrite lookup_map_pages, decide_True by lia. by rewrite Z.sub_diag, Z.add_0_r.
Qed.

(** *** What a segment does to the books *)

Definition mirrored w pl w' pl' : Prop := forall pid rs,
  rs !! pid = Some (role_of w pl) ->
  let b := mk_books (counters_of (w_objs w)) rs in
  let b' := mk_books (counters_of (w_objs w')) (<[pid := role_of w' pl']> rs) in
  b' = b \/ book_step b b'.
Definition good w pl w' pl' : Prop := wired w' pl' /\ mirrored w pl w' pl'.

Lemma mirrored_same w pl w' pl' : quiet w w' -> role_of w' pl' = role_of w pl -> mirrored w pl w' pl'.
Proof. intros Hq Hr pid rs Hp. left. rewrite Hq, Hr. by rewrite insert_id. Qed.

Lemma mirrored_turn w pl w' pl' r o rc id :
  role_of w' pl' = r -> counters_of (w_objs w') = <[o := (rc, id)]> (counters_of (w_objs w)) ->
  (forall pid b, roles b !! pid = Some (role_of w pl) -> counters b = counters_of (w_objs w) ->
     book_step b (turn pid r o rc id b)) ->
  mirrored w pl w' pl'.
Proof. intros Hr Hc Hs pid rs Hp. right. rewrite Hr, Hc. by apply (Hs pid (mk_books _ rs)). Qed.

(** Places without a descriptor and a header. *)
Definition over pl : Prop := place_fd pl = None /\ place_header pl = None.

Lemma over_wired w pl : over pl -> wired w pl.
Proof. intros [Hf Hh]. exists 0%nat. rewrite Hf, Hh. by split. Qed.
Lemma no_fd_role w pl : place_fd pl = None -> role_of w pl = None.
Proof. intros Hf. unfold role_of. rewrite Hf. by destruct (place_stage pl). Qed.

(** Leaving before a reference is counted. *)
Definition may_leave pl : Prop := match place_stage pl with None | Some Making | Some Found => True | _ => False end.

Lemma mirrored_leave w pl w' pl' :
  may_leave pl -> quiet w w' -> role_of w' pl' = None -> mirrored w pl w' pl'.
Proof.
  intros Hl Hq Hr pid rs Hp. rewrite Hq, Hr. destruct (role_of w pl) as [[s o]|] eqn:Hrole.
  - right. apply (book_give_up (mk_books _ rs) pid s o Hp). unfold role_of, may_leave in *.
    destruct (place_stage pl) as [s'|]; [|done]. destruct (place_fd pl) as [fd|]; [|done]. simpl in Hrole.
    destruct (fd_object w fd); [|done]. injection Hrole as <- <-. destruct s'; auto; done.
  - left. by rewrite insert_id.
Qed.

Lemma good_leave w pl w' pl' : may_leave pl -> quiet w w' -> over pl' -> good w pl w' pl'.
Proof. intros Hl Hq Ho. split; [by apply over_wired|]. apply mirrored_leave; [done..|apply no_fd_role, Ho]. Qed.

(** Going on with the same descriptor and header. *)
Definition same_place pl pl' : Prop :=
  place_fd pl' = place_fd pl /\ place_header pl' = place_header pl.

Lemma fd_object_same w w' fd : w_fds w' = w_fds w -> fd_object w' fd = fd_object w fd.
Proof. unfold fd_object. by intros ->. Qed.

Lemma wired_same w pl w' pl' :
  wired w pl -> w_fds w' = w_fds w -> w_pages w ⊆ w_pages w' -> same_place pl pl' -> wired w' pl'.
Proof.
  intros (o & Hf & Hh) Hfds Hp [Hf' Hh']. exists o. rewrite Hf', Hh'. split.
  - intros fd Hfd. rewrite (fd_object_same w) by done. auto.
  - intros a Ha Hal. eapply lookup_weaken; [|exact Hp]. by apply Hh.
Qed.

Lemma role_same w pl w' pl' :
  w_fds w' = w_fds w -> place_fd pl' = place_fd pl -> place_stage pl' = place_stage pl -> role_of w' pl' = role_of w pl.
Proof.
  intros Hfds Hf Hs. unfold role_of. rewrite Hf, Hs. destruct (place_stage pl); [|done].
  destruct (place_fd pl); [|done]. simpl. by rewrite (fd_object_same w).
Qed.

Lemma good_same w pl w' pl' :
  wired w pl -> keeps w w' -> same_place pl pl' -> place_stage pl' = place_stage pl -> good w pl w' pl'.
Proof.
  intros Hw [Hq Hf Hp] [Hfd Hh] Hs. split; [by eapply wired_same|].
  apply mirrored_same; [done|by apply role_same].
Qed.

(** An access to the header, seen in the books. *)
Lemma on_header_inv {A} w a o (m : M (thread * ipm_shared_memory_header) A) r w' :
  header_at w a o -> on_header a m w = Ret r w' ->
  exists ob t h, w_objs w !! o = Some ob /\ m (w_thread w, so_header ob) = Ret r (t, h) /\
    w' = set_obj o (set_so_header h ob) (set_thread t w).
Proof.
  intros Hh. unfold on_header, on_object.
  destruct (object_at 0 true a w) as [o'|] eqn:Hat; [|done].
  assert (o' = o) as ->.
  { unfold object_at in Hat. destruct (Z.eqb_spec (a mod IPM_MEMORY_PAGE_SIZE) 0) as [Hal|]; [|done].
    rewrite (Hh Hal) in Hat. simpl in Hat. repeat case_match; congruence. }
  destruct (w_objs w !! o) as [ob|] eqn:Ho; [|done]. unfold zoom. cbn [fst snd].
  destruct (m (w_thread w, so_header ob)) as [x [t h]|s| |s] eqn:Hm; try done. intros [= <- <-].
  by exists ob, t, h.
Qed.

Lemma counters_known (objs : gmap nat shm_object) o ob :
  objs !! o = Some ob -> counters_of objs !! o = Some (refcount (so_header ob), id_counter (so_header ob)).
Proof. intros Ho. unfold counters_of. by rewrite lookup_fmap, Ho. Qed.

Lemma counters_of_header w o h ob t :
  counters_of (w_objs (set_obj o (set_so_header h ob) (set_thread t w))) =
  <[o := (refcount h, id_counter h)]> (counters_of (w_objs w)).
Proof. cbn. unfold counters_of. by rewrite fmap_insert. Qed.

(** Going on after a change of the counters. *)
Lemma good_turn w pl o h ob t w' pl' s s' :
  wired w pl -> w' = set_obj o (set_so_header h ob) (set_thread t w) ->
  (forall fd, place_fd pl = Some fd -> fd_object w fd = Some o) -> place_stage pl = Some s ->
  place_fd pl <> None -> same_place pl pl' -> place_stage pl' = Some s' ->
  (forall pid b, roles b !! pid = Some (Some (s, o)) -> counters b = counters_of (w_objs w) ->
     book_step b (turn pid (Some (s', o)) o (refcount h) (id_counter h) b)) ->
  good w pl w' pl'.
Proof.
  intros Hw -> Ho Hs Hfd [Hf Hh] Hs' Hstep. destruct (place_fd pl) as [fd|] eqn:Hpf; [|done].
  split; [by eapply wired_same; [exact Hw|done..|split; congruence]|].
  eapply (mirrored_turn _ _ _ _ (Some (s', o))); [|apply counters_of_header|].
  - unfold role_of. rewrite Hs', Hf. simpl. rewrite (fd_object_same w), (Ho fd eq_refl) by done. done.
  - assert (role_of w pl = Some (s, o)) as ->; [|done].
    unfold role_of. rewrite Hs, Hpf. simpl. by rewrite (Ho fd eq_refl).
Qed.

(** *** The segments one by one *)

Section segments.
Variable nd : bool.

Lemma over_failed r : over (failed r).
Proof. by split. Qed.
#[local] Hint Resolve over_failed : typed.

(** A step that goes on, or gives up, with nothing but header fields that are not
    counted. *)
Lemma segment_same pl w pl' w' :
  match pl with
  | Writing_id _ _ | Writing_size _ _ | Making_mutex _ _ | Naming _ _ | Checking_id _ _ | Checking_name _ _
  | Destroying _ _ | Reading_name _ _ | Opened _ | Closed _ => True | _ => False end ->
  wired w pl -> segment nd pl w = Ret pl' w' -> good w pl w' pl'.
Proof.
  intros Hpl Hw Hr.
  assert (preserves (keeps w) (segment nd pl) (fun pl' => same_place pl pl' /\ place_stage pl' = place_stage pl)) as Hp.
  { destruct pl; try done; cbn [segment]; unfold store_name; pres. }
  destruct (preserves_run _ _ _ _ _ _ Hp (keeps_refl w) Hr) as (Hk & Hs & Hst). by apply good_same.
Qed.

(** A step that ends a call that counts nothing. *)
Lemma segment_over pl w pl' w' :
  match pl with
  | Undoing _ _ _ | Wrong_id _ _ | Wrong_name _ _ | Leaving _ | Unmapping _ _ _ _ | Unlinking _ _ _ => True
  | _ => False end ->
  segment nd pl w = Ret pl' w' -> good w pl w' pl'.
Proof.
  intros Hpl Hr.
  assert (preserves (quiet w) (segment nd pl) over) as Hp.
  { destruct pl; try done; cbn [segment]; unfold undoing, wrong_id, wrong_name, reject, unlinking; pres. }
  destruct (preserves_run _ _ _ _ _ _ Hp (quiet_refl w) Hr) as (Hk & Ho). apply good_leave; [by destruct pl|done..].
Qed.
(** Error paths that end a call, after some of its code has run. *)
Lemma leave_by pl (m : M world place) w w1 pl' w' :
  may_leave pl -> quiet w w1 -> preserves (quiet w1) m over -> m w1 = Ret pl' w' -> good w pl w' pl'.
Proof.
  intros Hl Hq Hm Hr. destruct (preserves_run _ _ _ _ _ _ Hm (quiet_refl w1) Hr) as [Hq' Ho].
  apply good_leave; [done|by transitivity (counters_of (w_objs w1))|done].
Qed.

Lemma cassert_inv b w u w' : cassert nd b w = Ret u w' -> w' = w.
Proof. unfold cassert. destruct (nd || b); [by intros [= _ <-]|done]. Qed.

Lemma creating_good q size w pl' w' : creating nd q size w = Ret pl' w' -> good w (Creating q size) w' pl'.
Proof.
  unfold creating. intros Hr.
  apply bind_Ret_inv in Hr as (? & w1 & ->%cassert_inv & Hr).
  apply bind_Ret_inv in Hr as (? & w2 & ->%cassert_inv & Hr).
  apply bind_Ret_inv in Hr as (? & w3 & ->%cassert_inv & Hr).
  apply bind_Ret_inv in Hr as (fd & w1 & Hop & Hr).
  apply shm_open_new_inv in Hop as [[-> Hq]|(o & Hfd & Ho & Hnone & Hc & _)].
  - eapply leave_by; [done|exact Hq| |exact Hr]. cbn. pres.
  - rewrite (proj2 (Z.ltb_ge _ _)) in Hr by done. injection Hr as <- <-. split.
    + exists o. split; [by intros ? [= <-]|done].
    + eapply (mirrored_turn _ _ _ _ (Some (Making, o))); [|exact Hc|].
      * unfold role_of. simpl. by rewrite Ho.
      * intros pid b Hp Hb. apply book_new; [exact Hp|by rewrite Hb].
Qed.

Lemma sizing_good q size fd w pl' w' :
  wired w (Sizing q size fd) -> sizing q size fd w = Ret pl' w' -> good w (Sizing q size fd) w' pl'.
Proof.
  unfold sizing. intros Hw (r & w1 & Hf & Hr)%bind_Ret_inv.
  destruct (preserves_run _ _ _ _ _ _ (fr_ftruncate (keeps w) _ _) (keeps_refl w) Hf) as [Hk _].
  destruct (r <? 0).
  - eapply leave_by; [done|apply Hk| |exact Hr]. pres.
  - injection Hr as <- <-. by apply good_same.
Qed.

(** A header just mapped from the descriptor of the process. *)
Lemma wired_header w w' pl fd header o :
  place_fd pl = Some fd -> place_header pl = Some header -> fd_object w fd = Some o ->
  mmap NULL IPM_MEMORY_PAGE_SIZE true fd 0 w = Ret header w' -> wired w' pl.
Proof.
  intros Hf Hh Ho Hm. apply mmap_inv in Hm as [[_ Hfds _] Hm]. exists o. rewrite Hf, Hh. split.
  - intros ? [= <-]. by rewrite (fd_object_same w).
  - intros a [= <-] Hal. destruct (Hm ltac:(done)) as [->|(o' & base & Hfo & -> & Hpg)].
    + by apply MAP_FAILED_unaligned in Hal.
    + rewrite page_addr_div. rewrite Hfo in Ho. injection Ho as ->. exact Hpg.
Qed.

Lemma mapping_good q size fd w pl' w' :
  wired w (Mapping q size fd) -> mapping q size fd w = Ret pl' w' -> good w (Mapping q size fd) w' pl'.
Proof.
  unfold mapping. intros (o & Ho & _) (mem & w1 & Hm & Hr)%bind_Ret_inv. specialize (Ho fd eq_refl).
  pose proof (mmap_inv _ _ _ _ _ _ _ _ Hm) as [Hk1 _]. destruct (mem =? MAP_FAILED).
  { eapply leave_by; [done|apply Hk1| |exact Hr]. pres. }
  apply bind_Ret_inv in Hr as (header & w2 & Hh & Hr).
  pose proof (mmap_inv _ _ _ _ _ _ _ _ Hh) as [Hk2 _]. pose proof (keeps_trans _ _ _ Hk1 Hk2) as Hk.
  destruct (header =? NULL).
  { eapply leave_by; [done|apply Hk| |exact Hr]. pres. }
  injection Hr as <- <-. split.
  - eapply wired_header; [done|done| |exact Hh]. rewrite (fd_object_same w); [done|apply Hk1].
  - apply mirrored_same; [apply Hk|]. apply role_same; [apply Hk|done..].
Qed.

Lemma opening_good q w pl' w' : opening nd q w = Ret pl' w' -> good w (Opening q) w' pl'.
Proof.
  unfold opening. intros Hr.
  apply bind_Ret_inv in Hr as (? & w1 & ->%cassert_inv & Hr).
  apply bind_Ret_inv in Hr as (fd & w1 & Hop & Hr). apply shm_open_old_inv in Hop as [Hq Hfd].
  destruct (Z.ltb_spec fd 0).
  { eapply leave_by; [done|exact Hq| |exact Hr]. pres. }
  destruct Hfd as [?|[o Ho]]; [lia|].
  apply bind_Ret_inv in Hr as (header & w2 & Hh & Hr).
  pose proof (mmap_inv _ _ _ _ _ _ _ _ Hh) as [Hk2 _].
  assert (quiet w w2) as Hq2 by (transitivity (counters_of (w_objs w1)); [apply Hk2|done]).
  destruct (header =? NULL).
  { eapply leave_by; [done|exact Hq2| |exact Hr]. pres. }
  injection Hr as <- <-. split; [by eapply wired_header|by apply mirrored_same].
Qed.

Lemma measuring_good q fd header w pl' w' :
  wired w (Measuring q fd header) -> measuring q fd header w = Ret pl' w' -> good w (Measuring q fd header) w' pl'.
Proof.
  unfold measuring. intros Hw (h & w1 & ->%read_header_keeps & Hr)%bind_Ret_inv.
  apply bind_Ret_inv in Hr as (mem & w1 & Hm & Hr). pose proof (mmap_inv _ _ _ _ _ _ _ _ Hm) as [Hk _].
  destruct (mem =? MAP_FAILED).
  - eapply leave_by; [done|apply Hk| |exact Hr]. pres.
  - injection Hr as <- <-. by apply good_same.
Qed.

(** Finding the count above 0. *)
Lemma awaiting_good q v w pl' w' :
  wired w (Awaiting q v) -> awaiting q v w = Ret pl' w' -> good w (Awaiting q v) w' pl'.
Proof.
  unfold awaiting. intros Hw (h & w1 & Hh & Hr)%bind_Ret_inv. pose proof Hw as (o & Ho & Ha).
  pose proof (read_header_keeps _ _ _ _ Hh) as ->.
  destruct (on_header_inv w _ o _ _ _ (Ha _ eq_refl) Hh) as (ob & t & h' & Hc & [= Hob _ _] & _).
  apply counters_known in Hc. subst h.
  destruct (Z.eqb_spec (refcount (so_header ob)) 0); injection Hr as <- <-; [by apply good_same|].
  split; [by eapply wired_same|].
  eapply (mirrored_turn _ _ _ _ (Some (Found, o))).
  - unfold role_of. simpl. by rewrite (Ho _ eq_refl).
  - symmetry. apply insert_id. exact Hc.
  - intros pid b Hp Hb. apply book_find; [exact Hp|by rewrite Hb|done].
Qed.
(** The atomic additions read and write the header at once. *)
Lemma fetch_inv w a o (f : ipm_shared_memory_header -> ipm_shared_memory_header -> ipm_shared_memory_header)
    (g : ipm_shared_memory_header -> Z) r w' :
  header_at w a o -> (h ← read_header a; _ ← write_header a (f h); mret (g h)) w = Ret r w' ->
  exists ob, counters_of (w_objs w) !! o = Some (refcount (so_header ob), id_counter (so_header ob)) /\
    r = g (so_header ob) /\
    w' = set_obj o (set_so_header (f (so_header ob) (so_header ob)) ob) (set_thread (w_thread w) w).
Proof.
  intros Ha (h & w1 & Hh & Hr)%bind_Ret_inv. pose proof (read_header_keeps _ _ _ _ Hh) as ->.
  apply (on_header_inv w _ o) in Hh as (ob & t & h' & Hob & [= Heq _ _] & _); [|done]. subst h.
  apply bind_Ret_inv in Hr as (u & w1 & Hwr & [= <- <-]).
  apply (on_header_inv w _ o) in Hwr as (ob' & t' & h2 & Hob' & [= _ <- <-] & ->); [|done].
  assert (ob' = ob) as -> by congruence. exists ob. by split_and!; [apply counters_known|..].
Qed.

Lemma write_inv w a o f u w' :
  header_at w a o -> write_header a f w = Ret u w' ->
  exists ob, counters_of (w_objs w) !! o = Some (refcount (so_header ob), id_counter (so_header ob)) /\
    w' = set_obj o (set_so_header (f (so_header ob)) ob) (set_thread (w_thread w) w).
Proof.
  intros Ha Hr. apply (on_header_inv w _ o) in Hr as (ob & t & h & Hob & [= _ <- <-] & ->); [|done].
  exists ob. by split; [apply counters_known|].
Qed.

Lemma segment_counts pl w pl' w' :
  match pl with
  | Writing_counter _ _ | Taking_id _ _ | Publishing _ _ _ | Referencing _ _ | Numbering _ _ => True
  | _ => False end ->
  wired w pl -> segment nd pl w = Ret pl' w' -> good w pl w' pl'.
Proof.
  intros Hpl Hw Hr. pose proof Hw as (o & Ho & Ha).
  destruct pl as [| | | | |q v| | | |q v|q v a| | | | | | | |q v|q v| | | | | | | | |]; try done;
    specialize (Ha _ eq_refl); cbn [segment] in Hr; apply bind_Ret_inv in Hr as (r & w1 & Hh & [= <- <-]).
  - destruct (write_inv w _ o _ _ _ Ha Hh) as (ob & Hc & ->).
    eapply good_turn; try done. intros pid b Hp Hb. eapply book_reset; [exact Hp|by rewrite Hb].
  - destruct (fetch_inv w _ o _ _ _ _ Ha Hh) as (ob & Hc & -> & ->).
    eapply good_turn; try done. intros pid b Hp Hb. eapply book_made; [exact Hp|by rewrite Hb].
  - destruct (write_inv w _ o _ _ _ Ha Hh) as (ob & Hc & ->).
    eapply good_turn; try done. intros pid b Hp Hb. eapply book_publish; [exact Hp|by rewrite Hb].
  - destruct (fetch_inv w _ o _ _ _ _ Ha Hh) as (ob & Hc & -> & ->).
    eapply good_turn; try done. intros pid b Hp Hb. eapply book_refer; [exact Hp|by rewrite Hb].
  - destruct (fetch_inv w _ o _ _ _ _ Ha Hh) as (ob & Hc & -> & ->).
    eapply good_turn; try done. intros pid b Hp Hb. eapply book_number; [exact Hp|by rewrite Hb].
Qed.

Lemma closing_good c b w pl' w' :
  wired w (Closing c b None) -> closing nd c b None w = Ret pl' w' -> good w (Closing c b None) w' pl'.
Proof.
  unfold closing. intros (o & Ho & Ha) Hr. specialize (Ho _ eq_refl). specialize (Ha _ eq_refl).
  apply bind_Ret_inv in Hr as (? & w1 & ->%cassert_inv & Hr).
  erewrite bind_Ret in Hr by (by eapply close_run).
  apply bind_Ret_inv in Hr as (rc & w1 & Hf & Hr). destruct (fetch_inv (set_fds (delete (Z.to_nat (b_mem_fd b)) (w_fds w)) w) _ o _ _ _ _ Ha Hf) as (ob & Hc & -> & ->).
  assert (pl' = Destroying c b \/ pl' = Leaving b) as Hpl by (case_match; injection Hr as <- <-; auto).
  assert (w' = set_obj o (set_so_header (set_refcount (wrap32 (refcount (so_header ob) - 1)) (so_header ob)) ob)
    (set_fds (delete (Z.to_nat (b_mem_fd b)) (w_fds w)) w)) as -> by (case_match; by injection Hr as <- <-).
  split.
  - exists o. by destruct Hpl as [-> | ->]; (split; [done|]); intros a [= <-].
  - eapply (mirrored_turn _ _ _ _ None); [by apply no_fd_role; destruct Hpl as [-> | ->]|exact (counters_of_header _ o _ ob (w_thread w))|].
    intros pid bk Hp Hb. unfold role_of in Hp. simpl in Hp. rewrite Ho in Hp.
    eapply book_close; [exact Hp|by rewrite Hb].
Qed.

(** In the machine a close has no callback. *)
Definition plain pl : Prop := match pl with Closing _ _ (Some _) | Calling_back _ _ _ => False | _ => True end.

Lemma segment_good pl w pl' w' :
  plain pl -> wired w pl -> segment nd pl w = Ret pl' w' -> good w pl w' pl'.
Proof.
  intros Hpl Hw Hr. destruct pl; try (by apply segment_same); try (by apply segment_over);
    try (by apply segment_counts); try done; cbn [segment] in Hr.
  - by apply creating_good.
  - by apply sizing_good.
  - by apply mapping_good.
  - by apply opening_good.
  - by apply measuring_good.
  - by apply awaiting_good.
  - destruct callback; [done|]. by apply closing_good.
Qed.

Lemma pres_true {A} (m : M world A) : preserves (fun _ => True) m (fun _ => True).
Proof. intros w _. by destruct (m w). Qed.
#[local] Hint Resolve pres_true : typed.

Lemma segment_plain pl w pl' w' : plain pl -> segment nd pl w = Ret pl' w' -> plain pl'.
Proof.
  intros Hpl Hr. assert (preserves (fun _ => True) (segment nd pl) plain) as Hp.
  { destruct pl as [| | | | | | | | | | | | | | | | | | | |? ? []| | | | | | | |]; try done; cbn [segment];
      unfold creating, sizing, mapping, undoing, opening, measuring, awaiting, wrong_id, wrong_name, reject,
        closing, unlinking; pres. }
  by destruct (preserves_run _ _ _ _ _ _ Hp I Hr).
Qed.
End segments.

(** ** What a step of the machine does to the books *)

Definition orderly k : Prop := forall pid p, k_procs k !! pid = Some p ->
  wired (view k p) (p_local p) /\ plain (p_local p).

Lemma books_acted pid w pl k :
  books_of (acted pid w pl k) =
  mk_books (counters_of (w_objs w)) (<[pid := role_of w pl]> (roles (books_of k))).
Proof. unfold books_of. cbn [acted k_objs k_procs roles]. by rewrite fmap_insert. Qed.

Lemma acted_orderly pid w pl k : orderly k -> wired w pl -> plain pl -> orderly (acted pid w pl k).
Proof.
  intros Ho Hw Hp qid q [[-> ->]|[_ Hq]]%acted_lookup.
  - by rewrite view_acted.
  - destruct (Ho _ _ Hq) as [Hwq Hpq]. split; [exact Hwq|done].
Qed.

Lemma books_lookup pid p k :
  k_procs k !! pid = Some p -> roles (books_of k) !! pid = Some (role_of (view k p) (p_local p)).
Proof. intros Hp. cbn. by rewrite lookup_fmap, Hp. Qed.

Lemma begins_orderly pid p pl k :
  orderly k -> k_procs k !! pid = Some p -> wired (view k p) pl -> plain pl ->
  role_of (view k p) pl = role_of (view k p) (p_local p) ->
  orderly (begins pid p pl k) /\ books_of (begins pid p pl k) = books_of k.
Proof.
  intros Ho Hp Hw Hpl Hr. split; [by apply acted_orderly|]. unfold begins. rewrite books_acted, Hr.
  rewrite insert_id by (by apply books_lookup). done.
Qed.

Lemma empty_handed_role w pl : empty_handed pl -> role_of w pl = None.
Proof. by destruct pl as [| | | | | | | | | | | | | | | | | | | | | | | | | | |[? []]|]. Qed.

Lemma machine_step_books nd k k' :
  orderly k -> machine_step nd k k' ->
  orderly k' /\ (books_of k' = books_of k \/ book_step (books_of k) (books_of k')).
Proof.
  intros Ho Hstep. destruct Hstep as [pid p q size k Hp He _ _|pid p q k Hp He _|pid p c r b k Hp Hl|pid p pl w k Hp Hr].
  - destruct (begins_orderly pid p (Creating q size) k) as [? ?]; auto; [by apply over_wired|done|].
    by rewrite (empty_handed_role _ _ He).
  - destruct (begins_orderly pid p (Opening q) k) as [? ?]; auto; [by apply over_wired|done|].
    by rewrite (empty_handed_role _ _ He).
  - destruct (Ho _ _ Hp) as [Hw _]. rewrite Hl in Hw.
    destruct (begins_orderly pid p (Closing c b None) k) as [? ?]; auto; [done|by rewrite Hl].
  - destruct (Ho _ _ Hp) as [Hw Hpl]. destruct (segment_good nd _ _ _ _ Hpl Hw Hr) as [Hw' Hm].
    split; [apply acted_orderly; [done..|by eapply segment_plain]|].
    rewrite books_acted. apply (Hm pid (roles (books_of k))). by apply books_lookup.
Qed.

(** ** Runs *)

Lemma blank_orderly k : blank k -> orderly k.
Proof.
  intros [_ _ He _] pid p Hp. destruct (He _ _ Hp) as [He' _]. split.
  - apply over_wired. by destruct (p_local p) as [| | | | | | | | | | | | | | | | | | | | | | | | | | |[? []]|].
  - by destruct (p_local p).
Qed.

Lemma blank_balanced k : blank k -> balanced 0 (books_of k).
Proof.
  intros [Ho _ He Hn].
  assert (forall pid x, roles (books_of k) !! pid = Some (Some x) -> False) as Hno.
  { intros pid x. cbn. rewrite lookup_fmap. intros (p & Hp & Hx)%fmap_Some.
    by rewrite (empty_handed_role _ _ (proj1 (He _ _ Hp))) in Hx. }
  assert (counters (books_of k) = ∅) as Hc by (cbn; rewrite Ho; apply fmap_empty).
  split; try (intros; exfalso; by eapply Hno); rewrite ?Hc; try (by intros ? ? ?; rewrite lookup_empty).
  cbn. by rewrite map_size_fmap.
Qed.

Lemma run_books nd n k k' :
  blank k -> nsteps (machine_step nd) n k k' -> Z.of_nat n < u64_mod ->
  orderly k' /\ balanced (Z.of_nat n) (books_of k').
Proof.
  intros Hb. revert k'. induction n as [|n IH]; intros k' Hrun Hn.
  - inversion Hrun. subst. split; [by apply blank_orderly|by apply blank_balanced].
  - apply nsteps_inv_r in Hrun as (k1 & Hrun & Hstep). destruct (IH k1 Hrun ltac:(lia)) as [Ho Hbal].
    destruct (machine_step_books _ _ _ Ho Hstep) as [Ho' Hbooks]. split; [done|].
    replace (Z.of_nat (S n)) with (Z.of_nat n + 1) by lia. destruct Hbooks as [-> | Hbooks].
    + eapply balanced_le; [exact Hbal|lia].
    + eapply book_step_balanced; [exact Hbal|lia|lia|exact Hbooks].
Qed.

(** How many processes refer to an object. *)
Definition references o k : nat :=
  base.size (filter (fun pp => refers o (role_of (view k pp.2) (p_local pp.2)) = true) (k_procs k)).

Lemma references_holders o k : holders_of o (roles (books_of k)) = references o k.
Proof. unfold holders_of, references, books_of. cbn [roles]. rewrite map_filter_fmap. apply map_size_fmap. Qed.

(** ** Schedules *)

Inductive event := Creates (pid : Z) (q : arguments) (size : Z) | Opens (pid : Z) (q : arguments)
  | Closes (pid : Z) (c : ipm_context user) | Goes (pid : Z).

#[global] Instance empty_handed_dec pl : Decision (empty_handed pl).
Proof. destruct pl as [| | | | | | | | | | | | | | | | | | | | | | | | | | |[? []]|]; simpl; apply _. Defined.
#[global] Instance fits_dec q : Decision (fits q).
Proof. unfold fits; apply _. Defined.

Section schedule.
Variable NDEBUG : bool.

Definition happen (e : event) k : option callers :=
  match e with
  | Creates pid q size =>
      p ← k_procs k !! pid;
      if decide (empty_handed (p_local p) /\ fits q /\ u64 size) then Some (begins pid p (Creating q size) k) else None
  | Opens pid q =>
      p ← k_procs k !! pid;
      if decide (empty_handed (p_local p) /\ fits q) then Some (begins pid p (Opening q) k) else None
  | Closes pid c =>
      p ← k_procs k !! pid;
      match p_local p with Opened (_, Some b) => Some (begins pid p (Closing c b None) k) | _ => None end
  | Goes pid =>
      p ← k_procs k !! pid;
      match segment NDEBUG (p_local p) (view k p) with Ret pl w => Some (acted pid w pl k) | _ => None end
  end.
Fixpoint run_schedule (es : list event) k : option callers :=
  match es with [] => Some k | e :: es => k ← happen e k; run_schedule es k end.

Lemma happen_step e k k' : happen e k = Some k' -> machine_step NDEBUG k k'.
Proof.
  destruct e as [pid q size|pid q|pid c|pid]; cbn [happen]; intros (p & Hp & Hr)%bind_Some.
  - case_decide as Hd; [|done]. destruct Hd as (? & ? & ?). injection Hr as <-. by apply begin_create.
  - case_decide as Hd; [|done]. destruct Hd as (? & ?). injection Hr as <-. by apply begin_open.
  - destruct (p_local p) as [| | | | | | | | | | | | | | | | | | | | | | | | | | |[r [b|]]|] eqn:Hl; try done.
    injection Hr as <-. by eapply begin_close.
  - destruct (segment _ _ _) as [pl w| | |] eqn:Hs; try done. injection Hr as <-. by eapply goes_on.
Qed.

Lemma run_schedule_steps es k k' : run_schedule es k = Some k' -> nsteps (machine_step NDEBUG) (length es) k k'.
Proof.
  revert k. induction es as [|e es IH]; intros k; cbn [run_schedule length].
  - intros [= ->]. constructor.
  - intros (k1 & Hk & Hr)%bind_Some. econstructor; [by eapply happen_step|by apply IH].
Qed.

(** The end of a schedule that can be followed. *)
Definition after (es : list event) k : callers := default k (run_schedule es k).
Definition can_follow (es : list event) k : bool := match run_schedule es k with Some _ => true | None => false end.
Lemma after_steps es k : can_follow es k = true -> nsteps (machine_step NDEBUG) (length es) k (after es k).
Proof.
  unfold can_follow, after. destruct (run_schedule es k) as [k'|] eqn:Hr; [|done]. intros _.
  by apply run_schedule_steps.
Qed.
End schedule.
End interleaving.
#[export] Hint Resolve fr_error fr_errno fr_strerror fr_read fr_write fr_mutex fr_ftruncate
  sh_close sh_munmap sh_unlink quiet_frame keeps_frame quiet_shared quiet_resizes keeps_resizes : typed.

(** Three processes on a new machine, and one block. *)
Definition caller (tid : Z) : @process linux place :=
  mk_process (mk_thread tid 0 []) fresh_user ∅ ∅ (Closed IPM_RESULT_SUCCESS).
Definition three_callers : @machine linux place :=
  mk_machine ∅ ∅ {[1 := caller 1; 2 := caller 2; 3 := caller 3]}.
Definition data_block : @arguments linux := mk_arguments context "data" 1 IPM_ACCESS_MODE_READ_WRITE.
Fixpoint goes (n : nat) (pid : Z) : list (@event linux) :=
  match n with O => [] | S n => Goes pid :: goes n pid end.

Lemma three_callers_blank : blank three_callers.
Proof.
  split; [reflexivity|reflexivity| |vm_compute; reflexivity].
  intros pid p. unfold three_callers. cbn [k_procs]. rewrite !lookup_insert_Some, lookup_singleton_Some.
  intros [[_ <-]|[_ [[_ <-]|[_ [_ <-]]]]]; done.
Qed.

(** Process 1 creates the block, process 2 finds it finished, process 1 closes it up
    to the removal of the name, process 2 takes its reference. *)
Definition crossing : list event :=
  Creates 1 data_block 8192 :: goes 10 1 ++ Opens 2 data_block :: goes 3 2 ++
  Closes 1 context :: goes 4 1 ++ goes 3 2.

(** ** Theorems *)

(** C11. Reference counting at the grain of single accesses.  However the segments of
    any number of processes interleave that create, open and close blocks, and
    whatever fails in them: the reference count of every object is the number of
    processes between the point where they take their reference and the point
    where they give it back; as long as an object is being created no other process
    has found it finished; and two processes with a handle on one object have
    different access identifiers, both below the next one to be given. *)
Theorem interleaving_counts {E : Env} {L : EnvLaws E} nd n (k0 k : machine place) :
  blank k0 -> nsteps (machine_step nd) n k0 k -> Z.of_nat n < u64_mod ->
  (forall o ob, k_objs k !! o = Some ob -> refcount (so_header ob) = Z.of_nat (references o k)) /\
  (forall pid qid p q s s' o, k_procs k !! pid = Some p -> k_procs k !! qid = Some q -> pid <> qid ->
     role_of (view k p) (p_local p) = Some (s, o) -> creates s = true ->
     role_of (view k q) (p_local q) <> Some (s', o)) /\
  (forall pid qid p q r r' b c o ob, k_procs k !! pid = Some p -> k_procs k !! qid = Some q -> pid <> qid ->
     p_local p = Opened (r, Some b) -> p_local q = Opened (r', Some c) ->
     fd_object (view k p) (b_mem_fd b) = Some o -> fd_object (view k q) (b_mem_fd c) = Some o ->
     k_objs k !! o = Some ob ->
     b_access_id b <> b_access_id c /\ b_access_id b < id_counter (so_header ob)).
Proof.
  intros Hb Hrun Hn. destruct (run_books nd n k0 k Hb Hrun Hn) as [_ [_ Hc _ Hcr Hg Hd _]]. split_and!.
  - intros o ob Ho%counters_known. rewrite (Hc _ _ _ Ho). by rewrite references_holders.
  - intros pid qid p q s s' o Hp Hq Hne Hs Hcs Hs'. apply Hne. symmetry.
    apply (Hcr pid qid s s' o); [|done|].
    + by rewrite (books_lookup _ _ _ Hp), Hs.
    + by rewrite (books_lookup _ _ _ Hq), Hs'.
  - intros pid qid p q r r' b c o ob Hp Hq Hne Hlp Hlq Hbo Hco Ho%counters_known.
    assert (forall x px rx bx, k_procs k !! x = Some px -> p_local px = Opened (rx, Some bx) ->
      fd_object (view k px) (b_mem_fd bx) = Some o ->
      roles (books_of k) !! x = Some (Some (Holding (b_access_id bx), o))) as Hrole.
    { intros x px rx bx Hx Hlx Hfx. rewrite (books_lookup _ _ _ Hx), Hlx. unfold role_of. simpl. by rewrite Hfx. }
    pose proof (Hrole _ _ _ _ Hp Hlp Hbo) as H1. pose proof (Hrole _ _ _ _ Hq Hlq Hco) as H2. split.
    + intros Heq. apply Hne. eapply (Hd pid qid); [exact H1|exact H2|done|simpl; congruence].
    + eapply (Hg pid); [exact H1|done|exact Ho].
Qed.

(** C13. Refinement.  The header counters together with the roles of the processes are
    the books of references: every step of the machine, whatever it does to
    memory, names, descriptors and mappings, is one step of the books (a reset, an
    identifier given, a publication, an object found, a reference taken or given
    back, an attempt given up) or leaves them alone. *)
Theorem interleaving_keeps_books {E : Env} {L : EnvLaws E} nd n (k0 k k' : machine place) :
  blank k0 -> nsteps (machine_step nd) n k0 k -> Z.of_nat n < u64_mod -> machine_step nd k k' ->
  books_of k' = books_of k \/ book_step (books_of k) (books_of k').
Proof.
  intros Hb Hrun Hn Hstep. destruct (run_books nd n k0 k Hb Hrun Hn) as [Ho _].
  by destruct (machine_step_books nd k k' Ho Hstep).
Qed.

(** The object and the access identifier of a process's handle. *)
Definition handle_at (pid : Z) (k : @machine linux place) : option (nat * Z) :=
  p ← k_procs k !! pid;
  match p_local p with
  | Opened (IPM_RESULT_SUCCESS, Some b) => o ← fd_object (view k p) (b_mem_fd b); Some (o, b_access_id b)
  | _ => None
  end.

Lemma interleaving_counts_witness :
  let k := after false crossing three_callers in
  exists ob, k_objs k !! 0%nat = Some ob /\ refcount (so_header ob) = Z.of_nat (references 0 k) /\
    references 0 k = 1%nat.
Proof.
  destruct (interleaving_counts false (length crossing) three_callers (after false crossing three_callers))
    as [Hc _]; [exact three_callers_blank|apply after_steps; vm_compute; reflexivity|vm_compute; reflexivity|].
  eexists. split; [vm_compute; reflexivity|]. split; [apply Hc; vm_compute; reflexivity|vm_compute; reflexivity].
Defined.

Lemma interleaving_keeps_books_witness :
  let k := after false crossing three_callers in
  let k' := after false [Goes 2] k in
  books_of k' = books_of k \/ book_step (books_of k) (books_of k').
Proof.
  intros k k'.
  apply (interleaving_keeps_books false (length crossing) three_callers k k');
    [exact three_callers_blank|apply after_steps; vm_compute; reflexivity|vm_compute; reflexivity|].
  assert (nsteps (machine_step false) 1 k k') as Hs
    by (apply (after_steps false [Goes 2] k); vm_compute; reflexivity).
  by apply nsteps_once_inv in Hs.
Defined.
