(* ===== verification/Races.v ===== *)
(** * Races of opening with closing and creating

    Schedules of the machine of file [Interleaving] in which every process uses
    the library as documented and the outcome is not what its users rely on. *)

From S2P Require Import Prelude Errors Pthread Platform Claims Common Names World SharedMemory Memory Machine Typing Processes Steps Refcount Interleaving.

(** Process 2 has found the block finished when process 1 closes it altogether;
    process 2 completes its open, and process 3 creates the block again. *)
Definition two_blocks : list event :=
  Creates 1 data_block 8192 :: goes 10 1 ++ Opens 2 data_block :: goes 3 2 ++
  Closes 1 context :: goes 5 1 ++ goes 4 2 ++ Creates 3 data_block 8192 :: goes 10 3.

(** Process 1 stops before it removes the name; process 2 opens and closes, which
    removes it; process 3 creates the block again; process 1 goes on. *)
Definition stolen_name : list event :=
  Creates 1 data_block 8192 :: goes 10 1 ++ Opens 2 data_block :: goes 3 2 ++
  Closes 1 context :: goes 4 1 ++ goes 4 2 ++ Closes 2 context :: goes 5 2 ++
  Creates 3 data_block 8192 :: goes 10 3 ++ goes 1 1.

(** Process 2 opens the block before process 1 has given it a size. *)
Definition too_early : list event :=
  Creates 1 data_block 8192 :: goes 1 1 ++ Opens 2 data_block :: goes 1 2.

Definition name_and_count (o : nat) (k : @machine linux place) : option (string * Z * Z) :=
  ob ← k_objs k !! o;
  Some (hdr_block_name (so_header ob), block_id (so_header ob), refcount (so_header ob)).

Definition is_measuring (pl : @place linux) : bool := match pl with Measuring _ _ _ => true | _ => false end.

Definition faulting (nd : bool) (pid : Z) (k : @machine linux place) : bool :=
  match k_procs k !! pid with
  | Some p => is_measuring (p_local p) &&
      match segment nd (p_local p) (view k p) with Undef => true | _ => false end
  | None => false
  end.
Lemma faulting_spec nd pid k :
  faulting nd pid k = true -> exists p, k_procs k !! pid = Some p /\ is_measuring (p_local p) = true /\
    segment nd (p_local p) (view k p) = Undef.
Proof.
  unfold faulting. destruct (k_procs k !! pid) as [p|]; [|done]. intros [Hm Hs]%andb_true_iff.
  exists p. by destruct (segment _ _ _).
Qed.

(** C34. Three races, each reached from a new machine by calls that all succeed.
    Two processes hold handles on the block of one name and identifier, obtained
    from an open and a create that both returned success, and share nothing: they
    have different objects.  A process holds the only handle on a block whose name
    another process's late close has removed, so that nobody can open it any more.
    And a process that opens a block which is just being created faults: it reads
    the header of an object that has no size yet. *)
Theorem open_close_races nd :
  (exists n k o o', nsteps (machine_step nd) n three_callers k /\ o <> o' /\
     handle_at 2 k = Some (o, 2) /\ handle_at 3 k = Some (o', 1) /\
     name_and_count o k = Some ("data", 1, 1) /\ name_and_count o' k = Some ("data", 1, 1)) /\
  (exists n k o, nsteps (machine_step nd) n three_callers k /\ handle_at 3 k = Some (o, 1) /\
     name_and_count o k = Some ("data", 1, 1) /\ k_names k !! object_name "data" 1 = None) /\
  (exists n k p, nsteps (machine_step nd) n three_callers k /\ k_procs k !! 2 = Some p /\
     is_measuring (p_local p) = true /\ segment nd (p_local p) (view k p) = Undef).
Proof.
  split_and!.
  - exists (length two_blocks), (after nd two_blocks three_callers), 0%nat, 1%nat.
    split; [apply after_steps; destruct nd; vm_compute; reflexivity|]. split; [done|].
    destruct nd; vm_compute; repeat split; reflexivity.
  - exists (length stolen_name), (after nd stolen_name three_callers), 1%nat.
    split; [apply after_steps; destruct nd; vm_compute; reflexivity|].
    destruct nd; vm_compute; repeat split; reflexivity.
  - exists (length too_early), (after nd too_early three_callers).
    assert (faulting nd 2 (after nd too_early three_callers) = true) as Hf by (destruct nd; vm_compute; reflexivity).
    assert (can_follow nd too_early three_callers = true) as Hc by (destruct nd; vm_compute; reflexivity).
    apply faulting_spec in Hf as (p & Hp & Hm & Hu). exists p. by split; [apply after_steps|].
Qed.
