(* ===== verification/Faults.v ===== *)
(** * No access to memory that is not there

    What the machine of file [Interleaving] may do without fault: values keep their
    C types, descriptors and mappings lead to objects that exist, and a segment is
    undefined only where a header cannot be accessed. *)

From S2P Require Import Prelude Errors Pthread Platform Claims Common Names World SharedMemory Memory Machine Typing Processes Steps Refcount Interleaving Races.

Section faults.
Context {E : Env} {L : EnvLaws E}.
Implicit Types (w : world) (pl : place) (k : machine place) (pid : Z).

(** ** Types *)

Definition place_typed pl : Prop :=
  match pl with
  | Creating q size | Sizing q size _ | Mapping q size _ => fits q /\ u64 size
  | Writing_id q v | Writing_size q v | Writing_counter q v | Making_mutex q v | Undoing q v _ | Naming q v
  | Taking_id q v | Publishing q v _ => fits q /\ u64 (l_size v)
  | _ => True
  end.

#[local] Hint Resolve store_name_typed : typed.

Lemma segment_typed nd pl : plain pl -> place_typed pl -> preserves world_typed (segment nd pl) place_typed.
Proof.
  intros Hp Ht. destruct pl as [| | | | | | | | | | | | | | | | | | | |? ? []| | | | | | | |]; try done; cbn [segment];
    unfold creating, sizing, mapping, undoing, opening, measuring, awaiting, wrong_id, wrong_name, reject,
      closing, unlinking; cbn [place_typed] in Ht; try (lazymatch type of Ht with _ /\ _ => destruct Ht as [[Hid Hname] Hsize] end); pres.
Qed.

(** ** Objects do not go away *)

(** Object [o] exists and its size satisfies [R]. *)
Definition sized (R : Z -> Prop) (o : nat) w : Prop := exists ob, w_objs w !! o = Some ob /\ R (so_size ob).
Abbreviation at_least n := (fun s => n <= s).

Lemma sized_is_Some o w : sized (fun _ => True) o w <-> is_Some (w_objs w !! o).
Proof. split; [intros (ob & Ho & _); by eexists|intros [ob Ho]; by exists ob]. Qed.

Section sized.
Context (R : Z -> Prop) (o : nat).

Lemma sized_set o' ob w : (o' = o -> R (so_size ob)) -> sized R o w -> sized R o (set_obj o' ob w).
Proof.
  intros Hob (ob0 & Ho & HR). destruct (decide (o' = o)) as [->|Hne].
  - exists ob. split; [apply lookup_insert_eq|auto].
  - exists ob0. split; [cbn; by rewrite lookup_insert_ne|done].
Qed.
#[local] Instance sized_frame : Frame (sized R o).
Proof.
  split; try done. intros o' ob ob' w Ho' Hs _ _ Hw. apply sized_set; [|done]. intros ->.
  destruct Hw as (ob0 & Ho & HR). rewrite Ho in Ho'. injection Ho' as <-. by rewrite Hs.
Qed.
#[local] Instance sized_shared : Shared (sized R o).
Proof. intros w w'. unfold sized. by intros ->. Qed.
Lemma sized_resizes : (forall len, 0 <= len -> R len) -> Resizes (sized R o).
Proof. intros HR o' ob len w _ Hl Hw. apply sized_set; [|done]. intros _. by apply HR. Qed.
#[local] Hint Resolve sized_frame sized_shared : typed.

Lemma shm_open_sized name cr ex : preserves (sized R o) (shm_open name cr ex) (fun _ => True).
Proof.
  apply fr_sys_call; [apply _|]. apply (pres_bind _ _ _ (sized R o)); [apply pres_get|]. intros w Hw.
  assert (forall o' w', sized R o w' -> sized R o (set_fds (<[lowest_fd (w_fds w') := o']> (w_fds w')) w'))
    as Hfds by (intros; by apply (shared_only w')).
  destruct (w_names w !! name); [destruct (cr && ex); [apply fr_fail, _|]|destruct cr; [|apply fr_fail, _]].
  - intros w' Hw'. split; [by apply Hfds|done].
  - intros w' Hw'. split; [|done]. apply Hfds.
    apply (shared_only (set_obj (fresh_object (w_objs w)) (mk_object 0 zero_header zero_list) w)); [done|].
    apply sized_set; [|done]. intros Heq. exfalso. destruct Hw as (ob & Ho & _).
    apply (is_fresh (dom (w_objs w))). unfold fresh_object in Heq. rewrite Heq. by apply elem_of_dom_2 in Ho.
Qed.
Lemma mmap_sized hint len wr fd off : preserves (sized R o) (mmap hint len wr fd off) (fun _ => True).
Proof.
  unfold mmap. apply (pres_bind _ _ _ (fun _ => True)); [|intros r _; by apply pres_ret].
  apply fr_sys_call; [apply _|]. apply (pres_bind _ _ _ (sized R o)); [apply pres_get|]. intros w Hw.
  pres_step; [apply fr_fail, _|]. destruct (fd_object w fd) as [o'|]; [|apply fr_fail, _].
  destruct (os_place _ _ _) as [base|]; [|apply fr_fail, _].
  eapply pres_bind; [apply pres_put|intros; by apply pres_ret]. by apply (shared_only w).
Qed.
#[local] Hint Resolve shm_open_sized mmap_sized : typed.

Lemma header_sized {A} a (m : M (thread * ipm_shared_memory_header) A) :
  preserves (sized R o) (on_header a m) (fun _ => True).
Proof.
  intros w Hw. unfold on_header, on_object. destruct (object_at 0 true a w) as [o'|]; [|done].
  destruct (w_objs w !! o') as [ob|] eqn:Ho; [|done].
  assert (forall t h, sized R o (set_obj o' (set_so_header h ob) (set_thread t w))) as Hset.
  { intros t h. apply sized_set; [|done]. intros ->. destruct Hw as (ob0 & Ho0 & HR). by simplify_eq. }
  unfold zoom. destruct (m _) as [x [t h]|[t h]| |[t h]]; cbn; try split; try done; apply Hset.
Qed.

Lemma segment_sized nd pl : plain pl ->
  match pl with Sizing _ _ _ => forall len, 0 <= len -> R len | _ => True end ->
  preserves (sized R o) (segment nd pl) (fun _ => True).
Proof.
  intros Hp HR. assert (forall a f, preserves (sized R o) (write_header a f) (fun _ => True)) as Hwr
    by (intros; apply header_sized).
  destruct pl as [|q size fd| | | | | | | | | | | | | | | | | | |? ? []| | | | | | | |]; try done;
    [|pose proof (sized_resizes HR)|..]; cbn [segment];
    unfold creating, sizing, mapping, undoing, opening, measuring, awaiting, wrong_id, wrong_name, reject,
      closing, unlinking, store_name, fetch_add_id, fetch_add_refcount, fetch_sub_refcount; pres.
Qed.

(** Truncating another object. *)
Definition elsewhere fd w : Prop := sized R o w /\ fd_object w fd <> Some o.
#[local] Instance elsewhere_frame fd : Frame (elsewhere fd).
Proof. split; try done. intros o' ob ob' w Ho Hs Hr Hi [Hw Hfd]. split; [by eapply (fr_obj o' ob)|done]. Qed.
Lemma elsewhere_resizes fd : forall o' ob len w,
  w_objs w !! o' = Some ob -> fd_object w fd = Some o' -> elsewhere fd w -> elsewhere fd (set_obj o' (truncate_object len ob) w).
Proof. intros o' ob len w _ Hfd [Hw Hne]. split; [|done]. apply sized_set; [|done]. congruence. Qed.

Lemma sizing_elsewhere q size fd w pl w' :
  fd_object w fd <> Some o -> sizing q size fd w = Ret pl w' -> sized R o w -> sized R o w'.
Proof.
  intros Hne (r & w1 & Hf & Hr)%bind_Ret_inv Hw.
  destruct (preserves_run (elsewhere fd) (ftruncate fd (to_off_t (wrap64 (size + IPM_MEMORY_PAGE_SIZE)))) (fun _ => True) w r w1)
    as [[Hw1 _] _]; [|done..|].
  - apply fr_sys_call; [apply _|]. apply (pres_bind _ _ _ (elsewhere fd)); [apply pres_get|]. intros w0 Hw0.
    destruct (fd_object w0 fd) as [o'|] eqn:Hfd; [|apply fr_fail, _]. pres_step; [apply fr_fail, _|].
    destruct (w_objs w0 !! o') as [ob|] eqn:Ho; [|apply pres_undef].
    eapply pres_bind; [apply pres_put|intros; by apply pres_ret]. by apply elsewhere_resizes.
  - refine (proj1 (preserves_run _ _ (fun _ => True) _ _ _ _ Hw1 Hr)). pres.
Qed.
End sized.

(** ** The typed machine *)

Definition typed_machine k : Prop := forall pid p, k_procs k !! pid = Some p ->
  world_typed (view k p) /\ place_typed (p_local p).

Lemma acted_typed pid w pl k :
  typed_machine k -> world_typed w -> place_typed pl -> (forall o, is_Some (k_objs k !! o) -> is_Some (w_objs w !! o)) ->
  typed_machine (acted pid w pl k).
Proof.
  intros Hk Hw Hpl Hgrow qid q [[-> ->]|[_ Hq]]%acted_lookup; [by rewrite view_acted|].
  destruct (Hk _ _ Hq) as [[_ _ Hf Hp] Hplq]. split; [|done]. destruct Hw as [Ho Hn _ _]. split; [exact Ho|exact Hn|..].
  - intros fd o Hfd. apply Hgrow. by eapply Hf.
  - intros a pg Ha. apply Hgrow. by eapply Hp.
Qed.

Lemma machine_step_typed nd k k' :
  orderly k -> typed_machine k -> machine_step nd k k' -> typed_machine k'.
Proof.
  intros Ho Hk Hstep. destruct Hstep as [pid p q size k Hp He Hq Hs|pid p q k Hp He Hq|pid p c r b k Hp Hl|pid p pl w k Hp Hr];
    destruct (Hk _ _ Hp) as [Hw Hpl]; try (by apply acted_typed).
  destruct (Ho _ _ Hp) as [_ Hplain].
  destruct (preserves_run _ _ _ _ _ _ (segment_typed nd _ Hplain Hpl) Hw Hr) as [Hw' Hpl'].
  apply acted_typed; [done..|]. intros o Hob. apply sized_is_Some. apply (sized_is_Some o (view k p)) in Hob.
  refine (proj1 (preserves_run _ _ _ _ _ _ (segment_sized _ o nd _ Hplain _) Hob Hr)). by destruct (p_local p).
Qed.

Lemma run_typed nd n k k' :
  blank k -> nsteps (machine_step nd) n k k' -> Z.of_nat n < u64_mod -> orderly k' /\ typed_machine k'.
Proof.
  intros Hb. revert k'. induction n as [|n IH]; intros k' Hrun Hn.
  - inversion Hrun. subst. split; [by apply blank_orderly|]. intros pid p Hp.
    destruct Hb as [Ho Hnm He _]. destruct (He _ _ Hp) as (He' & Hf & Hpg). split.
    + split; cbn; rewrite ?Ho, ?Hnm, ?Hf, ?Hpg; intros *; by rewrite lookup_empty.
    + by destruct (p_local p).
  - pose proof Hrun as (k1 & Hrun1 & Hstep)%nsteps_inv_r. destruct (IH k1 Hrun1 ltac:(lia)) as [Ho Ht].
    split; [by destruct (run_books nd (S n) k k' Hb Hrun Hn)|by eapply machine_step_typed].
Qed.

(** ** Code that is always defined, or never hangs *)

Abbreviation total := (avoids Undefined).
Implicit Types (x : mishap).

Lemma avoids_error x c msg loc : avoids x (IPM_ERROR c msg loc : M world unit).
Proof. intros w. destruct (on_user_report c msg loc w) as (t & u & -> & _). no_mishap x. Qed.
Lemma avoids_errno x : avoids x (w_errno : M world Z).
Proof. intros w. no_mishap x. Qed.
Lemma avoids_strerror x : avoids x (strerror : M world string).
Proof. intros w. no_mishap x. Qed.
Lemma avoids_sys_call x (m : M world Z) : avoids x m -> avoids x (sys_call m).
Proof. intros Hm w. rewrite sys_call_run. case_match; [apply Hm|no_mishap x]. Qed.
(** A run that is spelled out. *)
Ltac outcomes x := unfold mbind, M_bind; cbn; repeat case_match; no_mishap x.
Lemma avoids_shm_open x name cr ex : avoids x (shm_open name cr ex : M world Z).
Proof. apply avoids_sys_call. intros w. outcomes x. Qed.
Lemma avoids_unlink x name : avoids x (shm_unlink name : M world Z).
Proof. apply avoids_sys_call. intros w. outcomes x. Qed.
Lemma avoids_close x fd : avoids x (close fd : M world Z).
Proof. intros w. unfold close. outcomes x. Qed.
Lemma avoids_munmap x a len : avoids x (munmap a len : M world Z).
Proof. intros w. unfold munmap. outcomes x. Qed.
Lemma avoids_mmap x hint len wr fd off : avoids x (mmap hint len wr fd off : M world Z).
Proof. apply avoids_bind; [|intros r; apply avoids_ret]. apply avoids_sys_call. intros w. outcomes x. Qed.
#[local] Hint Resolve avoids_error avoids_errno avoids_strerror avoids_shm_open avoids_unlink avoids_close
  avoids_munmap avoids_mmap : avoids.

(** Accesses to a header that is there. *)
Lemma on_header_defined {A} w a o (m : M (thread * ipm_shared_memory_header) A) :
  object_at 0 true a w = Some o -> total m -> on_header a m w <> Undef.
Proof.
  intros Ha Hm. unfold on_header, on_object. rewrite Ha.
  assert (exists ob, w_objs w !! o = Some ob) as [ob ->].
  { unfold object_at in Ha. repeat case_match; simplify_eq; eauto. }
  by apply avoids_undef, avoids_zoom, avoids_zoom.
Qed.
Lemma read_header_defined w a o : object_at 0 true a w = Some o -> exists h, read_header a w = Ret h w.
Proof.
  intros Ha. unfold read_header. pose proof (on_header_defined w a o get_obj Ha (avoids_gets _ _)) as Hd.
  destruct (on_header a get_obj w) as [h w'|w'| |w'] eqn:Hr; try done.
  - pose proof (read_header_keeps a w h w' Hr) as ->. by exists h.
  - exfalso. revert Hr. unfold on_header, on_object. repeat case_match; done.
  - exfalso. revert Hr. unfold on_header, on_object. repeat case_match; done.
Qed.

(** *** The mutex of a header *)

Lemma avoids_pthread_call {X} x (m : M (thread * X) Z) : avoids x m -> avoids x (pthread_call m).
Proof. intros Hm [t v]. rewrite pthread_call_run. case_match; [apply Hm|no_mishap x]. Qed.
Lemma avoids_attr {X} x (a a' : pthread_mutexattr_t) : avoids x (attr_call a a' : M (thread * X) _).
Proof. unfold attr_call. apply avoids_bind; [|intros; apply avoids_ret]. apply avoids_pthread_call, avoids_ret. Qed.
#[local] Hint Resolve avoids_attr : avoids.
Lemma avoids_mutex_init x : avoids x ipm_mutex_init.
Proof.
  unfold ipm_mutex_init, pthread_mutexattr_init, pthread_mutexattr_setpshared, pthread_mutexattr_settype,
    pthread_mutexattr_setrobust, pthread_mutexattr_destroy, pthread_mutex_init, get_obj, put_obj, errno.
  repeat first [apply avoids_pthread_call | avoids_step].
Qed.
Lemma avoids_mutex_destroy x : avoids x ipm_mutex_destroy.
Proof.
  unfold ipm_mutex_destroy, pthread_mutex_destroy, get_obj, put_obj, errno. repeat first [apply avoids_pthread_call | avoids_step].
Qed.
#[local] Hint Resolve avoids_mutex_init avoids_mutex_destroy : avoids.

(** ** Code that is defined where a header can be accessed *)

Definition accessible a w : Prop := is_Some (object_at 0 true a w).
Definition defined_at {A} a (m : M world A) : Prop := forall w, accessible a w -> m w <> Undef.

Lemma at_total {A} a (m : M world A) : total m -> defined_at a m.
Proof. intros Hm w _. by apply avoids_undef. Qed.
Lemma at_bind {A B} a (m : M world A) (f : A -> M world B) :
  defined_at a m -> preserves (accessible a) m (fun _ => True) -> (forall v, defined_at a (f v)) ->
  defined_at a (m ≫= f).
Proof.
  intros Hm Hp Hf w Hw. specialize (Hm w Hw). specialize (Hp w Hw). unfold mbind, M_bind.
  destruct (m w) as [v w'| | |]; try done. apply (Hf v). apply Hp.
Qed.
Lemma at_last {A B} a (m : M world A) (f : A -> M world B) :
  defined_at a m -> (forall v, total (f v)) -> defined_at a (m ≫= f).
Proof.
  intros Hm Hf w Hw. specialize (Hm w Hw). unfold mbind, M_bind. destruct (m w) as [v w'| | |]; try done. by apply avoids_undef, Hf.
Qed.
Lemma at_header {A} a (m : M (thread * ipm_shared_memory_header) A) : total m -> defined_at a (on_header a m).
Proof. intros Hm w [o Ho]. by eapply on_header_defined. Qed.
Lemma at_mutex {A} a (m : M (thread * ipm_mut) A) : total m -> defined_at a (on_segment_mutex a m).
Proof. intros Hm. apply at_header, avoids_zoom, Hm. Qed.

(** What keeps the header accessible. *)
Lemma read_keeps a b : preserves (accessible a) (read_header b) (fun _ => True).
Proof.
  intros w Hw. destruct (read_header b w) as [h w'|w'| |w'] eqn:Hr; try done.
  - by apply read_header_keeps in Hr as ->.
  - revert Hr. unfold read_header, on_header, on_object. repeat case_match; done.
  - revert Hr. unfold read_header, on_header, on_object. repeat case_match; done.
Qed.
Lemma close_keeps a fd : preserves (accessible a) (close fd) (fun _ => True).
Proof. intros w Hw. unfold close. erewrite bind_Ret by done. by destruct (fd_object w fd). Qed.
Lemma cassert_keeps a nd b : preserves (accessible a) (cassert nd b) (fun _ => True).
Proof. intros w Hw. unfold cassert. by destruct (nd || b). Qed.
#[local] Hint Resolve read_keeps close_keeps cassert_keeps : typed.

Lemma at_read a : defined_at a (read_header a).
Proof. apply at_header, avoids_gets. Qed.
Lemma at_write a f : defined_at a (write_header a f).
Proof. apply at_header, avoids_modify. Qed.
#[local] Hint Resolve at_total at_read at_write at_mutex : avoids.
Lemma at_fetch a (n : ipm_shared_memory_header -> Z) f :
  defined_at a (h ← read_header a; _ ← write_header a (f h); mret (n h)).
Proof. apply at_bind; [apply at_read|apply read_keeps|]. intros h. apply at_last; [apply at_write|intros; apply avoids_ret]. Qed.

Ltac at_step :=
  lazymatch goal with
  | |- defined_at _ (_ ≫= _) =>
      first [apply at_last; [solve [auto with avoids]|intros ?; solve [avoids]]
            |apply at_bind; [solve [auto with avoids]|solve [auto with typed]|intros ?]]
  | |- defined_at _ (let _ := _ in _) => cbv zeta
  | |- defined_at _ (if ?b then _ else _) => destruct b
  | |- defined_at _ (match ?x with _ => _ end) => destruct x
  | |- defined_at _ _ => solve [auto with avoids]
  end.

Lemma at_reference a : defined_at a (fetch_add_refcount a) /\ defined_at a (fetch_sub_refcount a) /\ defined_at a (fetch_add_id a).
Proof. split_and!; apply (at_fetch a). Qed.

(** Growing the object behind a descriptor. *)
Lemma ftruncate_defined w fd len :
  (forall o, fd_object w fd = Some o -> is_Some (w_objs w !! o)) -> ftruncate fd len w <> Undef.
Proof.
  intros Hfd. unfold ftruncate. rewrite sys_call_run. case_match; [|done].
  erewrite bind_Ret by done. change (fd_object (world_after_call w) fd) with (fd_object w fd).
  destruct (fd_object w fd) as [o|]; [|done]. destruct (len <? 0); [done|].
  destruct (Hfd o eq_refl) as [ob Ho]. change (w_objs (world_after_call w)) with (w_objs w). by rewrite Ho.
Qed.

Lemma bind_defined {A B} (m : M world A) (f : A -> M world B) w :
  m w <> Undef -> (forall v, total (f v)) -> (m ≫= f) w <> Undef.
Proof. intros Hm Hf. unfold mbind, M_bind. destruct (m w); try done. by apply avoids_undef, Hf. Qed.

(** ** Segments *)

Lemma segment_at nd pl a : plain pl -> place_header pl = Some a ->
  (forall q v, pl = Naming q v -> fits q) -> defined_at a (segment nd pl).
Proof.
  intros Hp Ha Hn. pose proof (at_reference a) as (Hadd & Hsub & Hid). 
  destruct pl as [| | | | | | | | | | | | | | | | | | | |? ? []| | | | | | |[r [b|]]|]; try done; injection Ha as <-; cbn [segment];
    unfold undoing, measuring, awaiting, wrong_id, wrong_name, reject, closing; try (repeat at_step; done).
  apply at_last; [|intros; apply avoids_ret]. destruct (Hn _ _ eq_refl) as [_ Hlen]. unfold store_name.
  rewrite (proj2 (Z.leb_le _ _) Hlen). apply at_write.
Qed.

Lemma segment_away nd pl w : plain pl -> place_header pl = None ->
  (forall fd o, place_fd pl = Some fd -> fd_object w fd = Some o -> is_Some (w_objs w !! o)) ->
  segment nd pl w <> Undef.
Proof.
  intros Hp Ha Hfd. destruct pl as [| | | | | | | | | | | | | | | | | | | |? ? []| | | | | | |[r [b|]]|]; try done;
    cbn [segment]; unfold creating, mapping, opening, unlinking.
  2: apply bind_defined; [apply ftruncate_defined; intros o; by apply Hfd|intros].
  all: try lazymatch goal with |- ?m ?s <> _ => enough (total m) as Ht by exact (avoids_undef m s Ht) end; clear; avoids.
Qed.

(** ** After the first access *)

(** The header at places behind the first access to it. *)
Definition settled pl : option Z :=
  match pl with Writing_id _ _ | Measuring _ _ _ => None | _ => place_header pl end.

Lemma accessible_page a w : accessible a w <->
  a mod IPM_MEMORY_PAGE_SIZE = 0 /\
  exists o, w_pages w !! (a / IPM_MEMORY_PAGE_SIZE) = Some (mk_page o 0 true) /\ sized (at_least 1) o w.
Proof.
  unfold accessible, object_at, sized. destruct (Z.eqb_spec (a mod IPM_MEMORY_PAGE_SIZE) 0) as [Ha|Ha]; simpl.
  2:{ split; [by intros [? [=]]|]. by intros [? _]. }
  split.
  - intros [o Ho]. split; [done|]. destruct (w_pages w !! _) as [[o' i wr]|] eqn:Hpg; [|done]. simpl in Ho.
    destruct (w_objs w !! o') as [ob|] eqn:Hob; [|done]. exists o'.
    change (0 * IPM_MEMORY_PAGE_SIZE) with 0 in Ho.
    destruct (Z.eqb_spec i 0) as [->|], wr, (Z.ltb_spec 0 (so_size ob)); simpl in Ho; try done.
    split; [done|]. exists ob. split; [done|lia].
  - intros (_ & o & Hpg & ob & Hob & Hs). rewrite Hpg. simpl. change (0 * IPM_MEMORY_PAGE_SIZE) with 0.
    rewrite Hob, (proj2 (Z.ltb_lt 0 (so_size ob))) by lia.
    simpl. by exists o.
Qed.

(** Pages stay mapped on the way from a header to a place that still has it. *)
Definition mapped w0 w : Prop := w_pages w0 ⊆ w_pages w.
#[local] Instance mapped_frame w0 : Frame (mapped w0).
Proof. by split. Qed.
Lemma close_mapped w0 fd : preserves (mapped w0) (close fd) (fun _ => True).
Proof.
  intros w Hw. unfold close. erewrite bind_Ret by done. by destruct (fd_object w fd).
Qed.
Lemma mmap_mapped w0 hint len wr fd off : preserves (mapped w0) (mmap hint len wr fd off) (fun _ => True).
Proof.
  intros w Hw. assert (exists a w', mmap hint len wr fd off w = Ret a w') as (a & w' & Hm).
  { unfold mmap, mbind, M_bind at 1. rewrite sys_call_run. destruct (_ =? 0); [|by eexists _, _].
    unfold M_bind. cbn -[fd_object]. destruct (_ || _); [by eexists _, _|].
    destruct (fd_object _ _); [|by eexists _, _]. destruct (os_place _ _ _); by eexists _, _. }
  rewrite Hm. split; [|done]. apply mmap_inv in Hm as [[_ _ Hk] _]. unfold mapped in *. by etransitivity.
Qed.
Lemma header_mapped {A} w0 a (m : M (thread * ipm_shared_memory_header) A) :
  preserves (mapped w0) (on_header a m) (fun _ => True).
Proof.
  intros w Hw. unfold on_header, on_object. destruct (object_at 0 true a w) as [o'|]; [|done].
  destruct (w_objs w !! o') as [ob|]; [|done]. unfold zoom. by destruct (m _).
Qed.
#[local] Hint Resolve mapped_frame close_mapped mmap_mapped pres_true : typed.

Lemma measuring_settles q fd header w pl' w' a :
  measuring q fd header w = Ret pl' w' -> settled pl' = Some a -> a = header /\ mapped w w'.
Proof.
  unfold measuring. intros (h & w1 & ->%read_header_keeps & Hr)%bind_Ret_inv Ha.
  apply bind_Ret_inv in Hr as (mem & w1 & Hm & Hr). apply mmap_inv in Hm as [[_ _ Hk] _]. destruct (mem =? MAP_FAILED).
  - assert (settled pl' = None) as Hn; [|congruence].
    refine (proj2 (preserves_run _ _ (fun pl' => settled pl' = None) _ _ _ (_ : preserves (fun _ => True) _ _) I Hr)). pres.
  - injection Hr as <- <-. by injection Ha as <-.
Qed.

Lemma segment_settles nd pl w pl' w' a :
  plain pl -> segment nd pl w = Ret pl' w' -> settled pl' = Some a -> place_header pl = Some a /\ mapped w w'.
Proof.
  intros Hp Hr Ha. assert (forall a f, preserves (mapped w) (write_header a f) (fun _ => True)) as Hwr
    by (intros; apply header_mapped).
  destruct (match pl with Measuring _ _ _ => true | _ => false end) eqn:Hms.
  { destruct pl; try done. by destruct (measuring_settles _ _ _ _ _ _ _ Hr Ha) as [-> ?]. }
  assert (preserves (fun _ => True) (segment nd pl) (fun pl' => settled pl' = None)
       \/ preserves (mapped w) (segment nd pl) (fun pl' => settled pl' = None \/ place_header pl' = place_header pl)) as [Hs|Hs].
  - destruct pl as [| | | | | | | | | | | | | | | | | | | |? ? []| | | | | | | |]; try done; cbn [segment];
      unfold creating, sizing, mapping, undoing, opening, awaiting, wrong_id, wrong_name, reject,
        closing, unlinking, store_name, fetch_add_id, fetch_add_refcount, fetch_sub_refcount;
      first [left; solve [pres]|right; solve [pres; auto]].
  - destruct (preserves_run _ _ _ _ _ _ Hs I Hr) as [_ Hn]. congruence.
  - destruct (preserves_run _ _ _ _ _ _ Hs ltac:(by unfold mapped) Hr) as [Hm [Hn|Hh]]; [congruence|].
    split; [|done]. rewrite <- Hh. by destruct pl'.
Qed.

Lemma on_header_ran {A} a (m : M (thread * ipm_shared_memory_header) A) w v w' :
  on_header a m w = Ret v w' -> accessible a w.
Proof. unfold on_header, on_object, accessible. destruct (object_at 0 true a w); [by eexists|done]. Qed.

(** A segment that ran has had access to its header. *)
Lemma segment_ran nd pl w pl' w' a :
  segment nd pl w = Ret pl' w' -> place_header pl = Some a -> (settled pl = Some a -> accessible a w) -> accessible a w.
Proof.
  intros Hr Ha Hs. destruct pl; try (by apply Hs); injection Ha as <-; cbn [segment] in Hr.
  - apply bind_Ret_inv in Hr as (u & w1 & Hw & _). by eapply on_header_ran.
  - apply bind_Ret_inv in Hr as (h & w1 & Hw & _). by eapply on_header_ran.
Qed.

(** ** Objects only grow *)

Definition grows w w' : Prop := forall n o, sized (at_least n) o w -> sized (at_least n) o w'.
Definition unsized w pl : Prop :=
  forall q size fd o, pl = Sizing q size fd -> fd_object w fd = Some o -> sized (eq 0) o w.

Lemma segment_grows nd pl w pl' w' :
  plain pl -> unsized w pl -> segment nd pl w = Ret pl' w' -> grows w w'.
Proof.
  intros Hp Hu Hr n o Hw.
  assert (match pl with Sizing _ _ _ => forall len, 0 <= len -> n <= len | _ => True end -> sized (at_least n) o w') as Hgo.
  { intros HR. exact (proj1 (preserves_run _ _ _ _ _ _ (segment_sized (at_least n) o nd pl Hp HR) Hw Hr)). }
  destruct pl as [|q size fd| | | | | | | | | | | | | | | | | | | | | | | | | | |]; try (by apply Hgo).
  destruct (decide (fd_object w fd = Some o)) as [Hfd|Hne]; [|by eapply sizing_elsewhere].
  apply Hgo. intros len Hl. destruct (Hu _ _ _ _ eq_refl Hfd) as (ob & Ho & H0), Hw as (ob' & Ho' & Hn).
  rewrite Ho in Ho'. injection Ho' as <-. lia.
Qed.

Lemma accessible_grows a w w' : w_pages w !! (a / IPM_MEMORY_PAGE_SIZE) = w_pages w' !! (a / IPM_MEMORY_PAGE_SIZE) \/ mapped w w' ->
  grows w w' -> accessible a w -> accessible a w'.
Proof.
  intros Hpg Hg. rewrite !accessible_page. intros (Ha & o & Hp & Hs). split; [done|]. exists o. split; [|by apply Hg].
  destruct Hpg as [<-|Hm]; [done|by eapply lookup_weaken].
Qed.

(** Only a create that has just got its object is about to give it a size. *)
Lemma segment_unsized nd pl w pl' w' : plain pl -> segment nd pl w = Ret pl' w' -> unsized w' pl'.
Proof.
  intros Hp Hr q size fd o -> Hfd. destruct (match pl with Creating _ _ => true | _ => false end) eqn:Hc.
  - destruct pl; try done. cbn [segment] in Hr. unfold creating in Hr.
    apply bind_Ret_inv in Hr as (? & w1 & ->%cassert_inv & Hr).
    apply bind_Ret_inv in Hr as (? & w2 & ->%cassert_inv & Hr).
    apply bind_Ret_inv in Hr as (? & w3 & ->%cassert_inv & Hr).
    apply bind_Ret_inv in Hr as (fd' & w1 & Hop & Hr).
    apply shm_open_new_inv in Hop as [[-> _]|(o' & Hfd0 & Ho & _ & _ & Hob)].
    + change (-1 <? 0) with true in Hr. cbv iota in Hr.
      refine (False_ind _ (proj2 (preserves_run _ _ (fun pl' => match pl' with Sizing _ _ _ => False | _ => True end)
        _ _ _ (_ : preserves (fun _ => True) _ _) I Hr))). pres.
    + rewrite (proj2 (Z.ltb_ge _ _)) in Hr by done. injection Hr as _ _ <- <-. rewrite Ho in Hfd. injection Hfd as <-.
      by eexists.
  - assert (preserves (fun _ => True) (segment nd pl) (fun pl' => match pl' with Sizing _ _ _ => False | _ => True end)) as Hs.
    { destruct pl as [| | | | | | | | | | | | | | | | | | | |? ? []| | | | | | | |]; try done; cbn [segment];
        unfold sizing, mapping, undoing, opening, measuring, awaiting, wrong_id, wrong_name, reject, closing, unlinking; pres. }
    by destruct (preserves_run _ _ _ _ _ _ Hs I Hr) as [_ []].
Qed.

(** ** The sound machine *)

Record sound k : Prop := {
  so_unsized : forall pid p, k_procs k !! pid = Some p -> unsized (view k p) (p_local p);
  so_access : forall pid p a, k_procs k !! pid = Some p -> settled (p_local p) = Some a -> accessible a (view k p)
}.

Lemma blank_sound k : blank k -> sound k.
Proof.
  intros [_ _ He _]. split; intros pid p; [intros Hp|intros a Hp]; destruct (He _ _ Hp) as [He' _];
    destruct (p_local p) as [| | | | | | | | | | | | | | | | | | | | | | | | | | |[? []]|]; done.
Qed.

(** A call begins. *)
Lemma begins_sound pid p pl k :
  sound k -> k_procs k !! pid = Some p -> unsized (view k p) pl ->
  (forall a, settled pl = Some a -> settled (p_local p) = Some a) -> sound (begins pid p pl k).
Proof.
  unfold begins. intros [Hu Ha] Hp Hupl Hapl. split.
  - intros qid q [[-> ->]|[_ Hq]]%acted_lookup; [by rewrite view_acted|exact (Hu _ _ Hq)].
  - intros qid q a [[-> ->]|[_ Hq]]%acted_lookup Hs; [rewrite view_acted; eauto|exact (Ha _ _ _ Hq Hs)].
Qed.

(** Two processes do not give one object its size. *)
Lemma sizing_alone n k pid qid p q c c' size size' fd fd' o :
  balanced n (books_of k) -> k_procs k !! pid = Some p -> k_procs k !! qid = Some q ->
  p_local p = Sizing c size fd -> p_local q = Sizing c' size' fd' ->
  fd_object (view k p) fd = Some o -> fd_object (view k q) fd' = Some o -> qid = pid.
Proof.
  intros [_ _ _ Hc _ _ _] Hp Hq Hlp Hlq Ho Ho'. apply (Hc pid qid Making Making o); [|done|].
  - rewrite (books_lookup _ _ _ Hp), Hlp. unfold role_of. simpl. by rewrite Ho.
  - rewrite (books_lookup _ _ _ Hq), Hlq. unfold role_of. simpl. by rewrite Ho'.
Qed.

Lemma goes_on_sound nd n pid p pl w k :
  orderly k -> balanced n (books_of k) -> sound k -> k_procs k !! pid = Some p ->
  segment nd (p_local p) (view k p) = Ret pl w -> sound (acted pid w pl k).
Proof.
  intros Ho Hb [Hu Ha] Hp Hr. destruct (Ho _ _ Hp) as [_ Hpl].
  pose proof (segment_grows nd _ _ _ _ Hpl (Hu _ _ Hp) Hr) as Hg. split.
  - intros qid q [[-> ->]|[Hne Hq]]%acted_lookup; [rewrite view_acted; by eapply segment_unsized|].
    intros c size fd o Hlq Hfd. change (sized (eq 0) o w). pose proof (Hu _ _ Hq _ _ _ _ Hlq Hfd) as H0.
    change (sized (eq 0) o (view k p)) in H0.
    destruct (match p_local p with Sizing _ _ _ => true | _ => false end) eqn:Hs.
    + destruct (p_local p) as [|c' size' fd'| | | | | | | | | | | | | | | | | | | | | | | | | | |] eqn:Hlp; try done.
      eapply (sizing_elsewhere (eq 0) o); [|exact Hr|exact H0]. intros Hfd'. apply Hne.
      by eapply (sizing_alone n k pid qid p q).
    + refine (proj1 (preserves_run _ _ _ _ _ _ (segment_sized (eq 0) o nd _ Hpl _) H0 Hr)). by destruct (p_local p).
  - intros qid q a [[-> ->]|[Hne Hq]]%acted_lookup Hs.
    + rewrite view_acted. destruct (segment_settles nd _ _ _ _ _ Hpl Hr Hs) as [Hh Hm].
      apply (accessible_grows a (view k p)); [by right|done|].
      eapply segment_ran; [exact Hr|done|intros; by eapply Ha].
    + apply (accessible_grows a (view k q)); [by left|exact Hg|by eapply Ha].
Qed.

Lemma run_sound nd n k k' :
  blank k -> nsteps (machine_step nd) n k k' -> Z.of_nat n < u64_mod -> sound k'.
Proof.
  intros Hb. revert k'. induction n as [|n IH]; intros k' Hrun Hn.
  - inversion Hrun. subst. by apply blank_sound.
  - apply nsteps_inv_r in Hrun as (k1 & Hrun & Hstep). pose proof (IH k1 Hrun ltac:(lia)) as Hs.
    destruct (run_books nd n k k1 Hb Hrun ltac:(lia)) as [Ho Hbal].
    destruct Hstep as [pid p q size k1 Hp He _ _|pid p q k1 Hp He _|pid p c r b k1 Hp Hl|pid p pl w k1 Hp Hr];
      try (by apply begins_sound); [|by eapply goes_on_sound].
    apply begins_sound; [done..|]. rewrite Hl. done.
Qed.

(** ** Where a fault can come from *)

Lemma segment_undef nd pl w :
  plain pl -> place_typed pl -> world_typed w -> (forall a, settled pl = Some a -> accessible a w) ->
  segment nd pl w = Undef -> exists a, place_header pl = Some a /\ settled pl = None /\ ~ accessible a w.
Proof.
  intros Hp Ht [_ _ Hf _] Ha Hr. destruct (place_header pl) as [a|] eqn:Hh.
  - exists a. assert (~ accessible a w) as Hna.
    { intros Hw. refine (segment_at nd pl a Hp Hh _ w Hw Hr). intros q v ->. apply Ht. }
    split_and!; [done| |done]. destruct (settled pl) as [b|] eqn:Hs; [|done]. exfalso. apply Hna.
    assert (place_header pl = Some b) as Hb by (by destruct pl). apply Ha. congruence.
  - exfalso. refine (segment_away nd pl w Hp Hh _ Hr). intros fd o _ Hfd. unfold fd_object in Hfd.
    destruct (fd <? 0); [done|by eapply Hf].
Qed.

Lemma inaccessible_header w a o :
  header_at w a o -> world_typed w -> ~ accessible a w ->
  a mod IPM_MEMORY_PAGE_SIZE <> 0 \/
  w_pages w !! (a / IPM_MEMORY_PAGE_SIZE) = Some (mk_page o 0 true) /\
    exists ob, w_objs w !! o = Some ob /\ so_size ob <= 0.
Proof.
  intros Hh [_ _ _ Hp] Hna. destruct (decide (a mod IPM_MEMORY_PAGE_SIZE = 0)) as [Hal|]; [|by left]. right.
  specialize (Hh Hal). split; [done|]. destruct (Hp _ _ Hh) as [ob Hob]. exists ob. split; [exact Hob|].
  apply Z.nlt_ge. intros Hs. apply Hna, accessible_page. split; [done|]. exists o. split; [done|]. exists ob. split; [exact Hob|lia].
Qed.
End faults.
#[export] Hint Resolve avoids_error avoids_errno avoids_strerror avoids_shm_open avoids_unlink avoids_close avoids_munmap
  avoids_mmap avoids_mutex_init avoids_mutex_destroy : avoids.

(** C12. No access to memory that is not there, but the first.  However creating,
    opening and closing interleave, and whatever fails in them: no segment touches
    a header that is not mapped or not there any more, no descriptor or mapping
    leads to an object that does not exist, and no name overruns its field.  A
    segment is undefined only where a call touches the header it has just mapped
    for the first time (the read of the size in an open, the store of the identifier
    in a create), and only for one of two reasons: mapping the header failed, or the
    object has not been given a size. *)
Theorem faults_at_first_access {E : Env} {L : EnvLaws E} nd n (k0 k : machine place) pid p :
  blank k0 -> nsteps (machine_step nd) n k0 k -> Z.of_nat n < u64_mod ->
  k_procs k !! pid = Some p -> segment nd (p_local p) (view k p) = Undef ->
  exists a, ((exists q fd, p_local p = Measuring q fd a) \/ (exists q v, p_local p = Writing_id q v /\ l_header v = a)) /\
    (a mod IPM_MEMORY_PAGE_SIZE <> 0 \/
     exists o ob, p_pages p !! (a / IPM_MEMORY_PAGE_SIZE) = Some (mk_page o 0 true) /\
       k_objs k !! o = Some ob /\ so_size ob <= 0).
Proof.
  intros Hb Hrun Hn Hp Hr. destruct (run_typed nd n k0 k Hb Hrun Hn) as [Ho Ht].
  destruct (run_sound nd n k0 k Hb Hrun Hn) as [_ Ha]. destruct (Ho _ _ Hp) as [(o & _ & Hw) Hpl].
  destruct (Ht _ _ Hp) as [Hwt Hplt].
  destruct (segment_undef nd _ _ Hpl Hplt Hwt (fun a => Ha pid p a Hp) Hr) as (a & Hh & Hs & Hna).
  exists a. split.
  - destruct (p_local p); try done; injection Hh as <-; [right|left]; eauto.
  - destruct (inaccessible_header _ a o (Hw _ Hh) Hwt Hna) as [?|(Hpg & ob & Hob & Hsz)]; [by left|right]. by exists o, ob.
Qed.

Lemma faults_at_first_access_witness :
  let k := after false too_early three_callers in
  exists p a, k_procs k !! 2 = Some p /\
    ((exists q fd, p_local p = Measuring q fd a) \/ (exists q v, p_local p = Writing_id q v /\ l_header v = a)).
Proof.
  intros k. assert (faulting false 2 k = true) as Hf by (vm_compute; reflexivity).
  apply faulting_spec in Hf as (p & Hp & _ & Hu).
  destruct (faults_at_first_access false (length too_early) three_callers k 2 p) as (a & Ha & _);
    [exact three_callers_blank|apply after_steps; vm_compute; reflexivity|vm_compute; reflexivity|exact Hp|exact Hu|].
  exists p, a. split; [exact Hp|exact Ha].
Defined.
