(* ===== verification/Ends.v ===== *)
(** * Calls come to an end

    How long a create, an open or a close takes that other processes interrupt, on the
    machine of file [Interleaving]: each segment leaves less to do, and the only one
    that can be repeated is a turn of the loop in which an open waits for the creator
    of the block (source/shared_memory.c, lines 219 to 225). *)

From S2P Require Import Prelude Errors Pthread Platform Claims Common Names World SharedMemory Memory Machine Typing Processes Steps Refcount Interleaving Races Faults.

Section ends.
Context {E : Env} {L : EnvLaws E}.
Implicit Types (w : world) (pl : place) (k : machine place) (pid : Z).

(** How many segments a call has left at most, not counting turns of the waiting loop. *)
Definition segments_left pl : nat :=
  match pl with
  | Creating _ _ => 10 | Sizing _ _ _ => 9 | Mapping _ _ _ => 8 | Writing_id _ _ => 7 | Writing_size _ _ => 6
  | Writing_counter _ _ => 5 | Making_mutex _ _ => 4 | Undoing _ _ _ => 1 | Naming _ _ => 3 | Taking_id _ _ => 2
  | Publishing _ _ _ => 1
  | Opening _ => 7 | Measuring _ _ _ => 6 | Awaiting _ _ => 5 | Checking_id _ _ => 4 | Wrong_id _ _ => 1
  | Checking_name _ _ => 3 | Wrong_name _ _ => 1 | Referencing _ _ => 2 | Numbering _ _ => 1
  | Closing _ _ _ => 6 | Leaving _ => 1 | Calling_back _ _ _ => 5 | Destroying _ _ => 4 | Reading_name _ _ => 3
  | Unmapping _ _ _ _ => 2 | Unlinking _ _ _ => 1
  | Opened _ | Closed _ => 0
  end%nat.

Definition finished pl : Prop := match pl with Opened _ | Closed _ => True | _ => False end.

Lemma segments_left_finished pl : segments_left pl = 0%nat <-> finished pl.
Proof using. by destruct pl. Qed.

(** A turn of the loop that finds the count at 0: the process is where it was. *)
Definition waits w pl w' pl' : Prop :=
  exists q v h, pl = Awaiting q v /\ pl' = pl /\ w' = w /\ read_header (l_header v) w = Ret h w /\ refcount h = 0.

#[local] Hint Resolve pres_true : typed.
Lemma segment_shortens nd pl :
  plain pl -> ~ finished pl -> (forall q v, pl <> Awaiting q v) ->
  preserves (fun _ => True) (segment nd pl) (fun pl' => (segments_left pl' < segments_left pl)%nat).
Proof using.
  intros Hp Hf Hw. destruct pl as [| | | | | | | | | | | | | | | | | | | |? ? []| | | | | | | |]; try done;
    try (by destruct Hf); try (by destruct (Hw _ _ eq_refl)); cbn [segment];
    unfold creating, sizing, mapping, undoing, opening, measuring, wrong_id, wrong_name, reject, closing, unlinking;
    pres; cbn; lia.
Qed.

Lemma segment_turn nd pl w pl' w' :
  plain pl -> ~ finished pl -> segment nd pl w = Ret pl' w' ->
  (segments_left pl' < segments_left pl)%nat \/ waits w pl w' pl'.
Proof using.
  intros Hp Hf Hr. destruct (match pl with Awaiting _ _ => true | _ => false end) eqn:Ha.
  - destruct pl as [| | | | | | | | | | | | |q v| | | | | | | | | | | | | | |]; try done. cbn [segment] in Hr. unfold awaiting in Hr.
    apply bind_Ret_inv in Hr as (h & w1 & Hh & Hr). pose proof (read_header_keeps _ _ _ _ Hh) as ->.
    destruct (Z.eqb_spec (refcount h) 0) as [H0|]; cbn [negb] in Hr; injection Hr as <- <-.
    + right. by exists q, v, h.
    + left. cbn. lia.
  - left. refine (proj2 (preserves_run _ _ _ _ _ _ (segment_shortens nd pl Hp Hf _) I Hr)). by intros q v ->.
Qed.

(** ** No segment hangs *)

Lemma header_never_hangs {A} a (m : M (thread * ipm_shared_memory_header) A) :
  avoids Hanging m -> avoids Hanging (on_header a m).
Proof using.
  intros Hm w. unfold on_header, on_object. destruct (object_at 0 true a w) as [o|]; [|intros []].
  destruct (w_objs w !! o) as [ob|]; [|intros []]. by apply avoids_zoom, avoids_zoom.
Qed.
Lemma read_never_hangs a : avoids Hanging (read_header a).
Proof using. apply header_never_hangs, avoids_gets. Qed.
Lemma write_never_hangs a f : avoids Hanging (write_header a f).
Proof using. apply header_never_hangs, avoids_modify. Qed.
Lemma mutex_never_hangs {A} a (m : M (thread * ipm_mut) A) : avoids Hanging m -> avoids Hanging (on_segment_mutex a m).
Proof using. intros Hm. apply header_never_hangs, avoids_zoom, Hm. Qed.
Lemma store_never_hangs a name : avoids Hanging (store_name a name).
Proof using. unfold store_name. case_match; [apply write_never_hangs|intros w []]. Qed.
Lemma ftruncate_never_hangs fd len : avoids Hanging (ftruncate fd len : M world Z).
Proof using. apply avoids_sys_call. intros w. unfold mbind, M_bind. cbn. repeat case_match; by intros ?. Qed.
#[local] Hint Resolve read_never_hangs write_never_hangs mutex_never_hangs store_never_hangs ftruncate_never_hangs : avoids.

Lemma segment_never_hangs nd pl : plain pl -> avoids Hanging (segment nd pl).
Proof using.
  intros Hp. destruct pl as [| | | | | | | | | | | | | | | | | | | |? ? []| | | | | | | |]; try done; cbn [segment];
    unfold creating, sizing, mapping, undoing, opening, measuring, awaiting, wrong_id, wrong_name, reject,
      closing, unlinking, fetch_add_id, fetch_add_refcount, fetch_sub_refcount; avoids.
Qed.

(** ** A call among others *)

(** [during nd pid n k k']: process [pid] is in a call, finishes [n] segments of it besides
    turns of the waiting loop, and begins no other call; meanwhile the other processes do
    what they want. *)
Inductive during (nd : bool) pid : nat -> machine place -> machine place -> Prop :=
| during_over k : during nd pid 0 k k
| during_others n k k1 k2 :
    machine_step nd k k1 -> k_procs k1 !! pid = k_procs k !! pid -> during nd pid n k1 k2 -> during nd pid n k k2
| during_waits n p pl w k k2 :
    k_procs k !! pid = Some p -> segment nd (p_local p) (view k p) = Ret pl w -> waits (view k p) (p_local p) w pl ->
    during nd pid n (acted pid w pl k) k2 -> during nd pid n k k2
| during_goes n p pl w k k2 :
    k_procs k !! pid = Some p -> ~ finished (p_local p) -> segment nd (p_local p) (view k p) = Ret pl w ->
    ~ waits (view k p) (p_local p) w pl -> during nd pid n (acted pid w pl k) k2 -> during nd pid (S n) k k2.

Definition all_plain k : Prop := forall pid p, k_procs k !! pid = Some p -> plain (p_local p).

Lemma acted_plain pid w pl k : all_plain k -> plain pl -> all_plain (acted pid w pl k).
Proof using. intros Hk Hpl qid q [[-> ->]|[_ Hq]]%acted_lookup; [done|by eapply Hk]. Qed.

Lemma machine_step_plain nd k k' : all_plain k -> machine_step nd k k' -> all_plain k'.
Proof using.
  intros Hk Hs. destruct Hs as [pid p q size k1 Hp _ _ _|pid p q k1 Hp _ _|pid p c r b k1 Hp _|pid p pl w k1 Hp Hr]; apply acted_plain; try done.
  eapply segment_plain; [by eapply Hk|exact Hr].
Qed.

Lemma run_plain nd n k k' : blank k -> nsteps (machine_step nd) n k k' -> all_plain k'.
Proof using.
  intros Hb. revert k'. induction n as [|n IH]; intros k' Hrun.
  - inversion Hrun. subst. intros pid p Hp. destruct (bl_empty _ Hb _ _ Hp) as (He & _ & _). by destruct (p_local p).
  - apply nsteps_inv_r in Hrun as (k1 & Hrun & Hstep). by eapply machine_step_plain; [apply IH|].
Qed.

Lemma during_bound nd pid n k k' p p' :
  all_plain k -> during nd pid n k k' -> k_procs k !! pid = Some p -> k_procs k' !! pid = Some p' ->
  all_plain k' /\ (n + segments_left (p_local p') <= segments_left (p_local p))%nat.
Proof using.
  intros Hk Hd. revert p Hk. induction Hd as [k|n k k1 k2 Hs He Hd IH|n q pl w k k2 Hq Hr Hw Hd IH|n q pl w k k2 Hq Hf Hr Hw Hd IH];
    intros p Hk Hp Hp'.
  - rewrite Hp in Hp'. by injection Hp' as <-.
  - apply IH; [by eapply machine_step_plain|congruence|done].
  - rewrite Hp in Hq. injection Hq as <-. destruct Hw as (a & v & h & Hl & -> & _).
    apply (IH (became w (p_local p))); [apply acted_plain; [done|by apply (Hk pid)]|apply lookup_insert_eq|done].
  - rewrite Hp in Hq. injection Hq as <-. pose proof (Hk _ _ Hp) as Hpl.
    destruct (segment_turn nd _ _ _ _ Hpl Hf Hr) as [Hlt|Hno]; [|done].
    destruct (IH (became w pl)) as [Hk2 Hle]; [apply acted_plain; [done|by eapply segment_plain]|apply lookup_insert_eq|done|].
    cbn [became p_local] in Hle. split; [done|lia].
Qed.

(** What may become of a call that is not finished yet, when its process gets a turn. *)
Definition goes_forward w pl (out : outcome world place) : Prop :=
  match out with
  | Ret pl' w' => (segments_left pl' < segments_left pl)%nat \/ waits w pl w' pl'
  | Hang _ => False
  | Abort _ | Undef => True
  end.

Lemma segment_goes_forward nd pl w : plain pl -> ~ finished pl -> goes_forward w pl (segment nd pl w).
Proof using.
  intros Hp Hf. pose proof (segment_never_hangs nd pl Hp w) as Hn.
  destruct (segment nd pl w) as [pl' w'| | |w'] eqn:Hr; try done. by eapply segment_turn.
Qed.
End ends.

(** ** Theorem *)

(** C14. Calls come to an end.  However the calls of any number of processes interleave:
    a create is finished after ten segments of its own at most, an open after seven and
    a close after six, not counting the turns in which an open finds the reference count
    of the block at 0, with the creator not done, and which change nothing; no segment
    hangs; and as long as nothing faults and no assertion fails, each brings the call
    nearer to its end. *)
Theorem calls_end {E : Env} nd n0 n (k0 k k' : machine place) pid p p' :
  blank k0 -> nsteps (machine_step nd) n0 k0 k -> during nd pid n k k' ->
  k_procs k !! pid = Some p -> k_procs k' !! pid = Some p' ->
  (n + segments_left (p_local p') <= segments_left (p_local p))%nat /\
  (segments_left (p_local p') = 0%nat <-> finished (p_local p')) /\
  (~ finished (p_local p') -> goes_forward (view k' p') (p_local p') (segment nd (p_local p') (view k' p'))) /\
  (forall q size c b, segments_left (Creating q size) = 10%nat /\ segments_left (Opening q) = 7%nat /\
     segments_left (Closing c b None) = 6%nat).
Proof.
  intros Hb Hrun Hd Hp Hp'. pose proof (run_plain nd n0 k0 k Hb Hrun) as Hk.
  destruct (during_bound nd pid n k k' p p' Hk Hd Hp Hp') as [Hk' Hle].
  split_and!; [done|apply segments_left_finished|intros Hf; apply segment_goes_forward; [by apply (Hk' pid)|done]|done].
Qed.

(** Process 1 begins to create a block, and has done the first segment of that. *)
Lemma calls_end_witness :
  exists k' p', during false 1 1 (begins 1 (caller 1) (Creating data_block 8192) three_callers) k' /\
    k_procs k' !! 1 = Some p' /\ (segments_left (p_local p') <= 9)%nat.
Proof.
  set (k := begins 1 (caller 1) (Creating data_block 8192) three_callers).
  assert (match segment false (Creating data_block 8192) (view three_callers (caller 1)) with Ret _ _ => true | _ => false end = true)
    as Hb by (vm_compute; reflexivity).
  destruct (segment false (Creating data_block 8192) (view three_callers (caller 1))) as [pl w| | |] eqn:Hs; try discriminate.
  assert (k_procs k !! 1 = Some (became (view three_callers (caller 1)) (Creating data_block 8192))) as Hp by apply lookup_insert_eq.
  assert (during false 1 1 k (acted 1 w pl k)) as Hd.
  { eapply during_goes; [exact Hp|intros H; exact H|exact Hs| |apply during_over].
    intros (q & v & h & H & _). discriminate. }
  destruct (calls_end false 1 1 three_callers k (acted 1 w pl k) 1 (became (view three_callers (caller 1)) (Creating data_block 8192))
    (became w pl)) as [H _]; [exact three_callers_blank| |exact Hd|exact Hp|apply lookup_insert_eq|].
  - econstructor; [|constructor]. apply begin_create; [reflexivity|exact I|split; [split; vm_compute; (reflexivity || discriminate)|vm_compute; discriminate]|].
    split; vm_compute; (reflexivity || discriminate).
  - exists (acted 1 w pl k), (became w pl). split; [exact Hd|]. split; [apply lookup_insert_eq|].
    cbn [became p_local segments_left] in H |- *. lia.
Defined.
