(* ===== verification/Opening.v ===== *)
(** * Opening a memory

    Theorems about [ipm_memory_open] (source/ipm_memory.c): the handle it makes
    of the two blocks of a memory, and what it undoes when one of them cannot be
    opened; about the calls on an open handle that only read ([ipm_memory_get_info],
    [ipm_memory_ref_count]), and about [ipm_memory_clean]. *)

From S2P Require Import Prelude Errors Pthread Platform Claims Common Names World SharedMemory Memory Machine Regions Lifecycle Handles Sharing.

Section opening.
Context {E : Env} {L : EnvLaws E}.
Implicit Types (w : world) (c : ipm_context user) (m : ipm_memory).

(** A finished block with the given name and identifier. *)
Record published w (name : string) (id : Z) (o : nat) (ob : shm_object) : Prop := {
  pb_name : w_names w !! object_name name id = Some o;
  pb_obj : w_objs w !! o = Some ob;
  pb_size : 0 < so_size ob;
  pb_block_size : 0 < block_size (so_header ob);
  pb_refs : refcount (so_header ob) <> 0;
  pb_id : block_id (so_header ob) = id;
  pb_stored : hdr_block_name (so_header ob) = name
}.

Lemma published_same w w' name id o ob :
  published w name id o ob -> w_names w' = w_names w -> w_objs w' = w_objs w -> published w' name id o ob.
Proof. intros [? ? ? ? ? ? ?] Hn Ho. split; by rewrite ?Hn, ?Ho. Qed.

Lemma opened_pages_keep w o ob p1 p2 access k pg :
  open_places w o (block_size (so_header ob)) p1 p2 -> w_pages w !! k = Some pg ->
  w_pages (opened_world w o ob p1 p2 access) !! k = Some pg.
Proof.
  intros [Hp1 Hp2] Hk. pose proof (places_free _ _ _ _ _ _ _ _ _ Hp2) as Hfree2.
  apply os_place_free in Hp1 as (_ & _ & Hfree1).
  cbn [opened_world with_header set_obj set_objs set_thread mapped_world w_pages]. rewrite !lookup_map_pages.
  case_decide as H2; [|case_decide as H1; [|done]].
  - specialize (Hfree2 (k - p2)). replace (p2 + (k - p2)) with k in Hfree2 by lia.
    rewrite Hfree2 in Hk by lia. done.
  - specialize (Hfree1 (k - p1)). replace (p1 + (k - p1)) with k in Hfree1 by lia.
    rewrite Hfree1 in Hk by lia. done.
Qed.

(** Opening another block leaves a block alone. *)
Lemma opened_keeps_block w o ob p1 p2 access b o' ob' :
  open_places w o (block_size (so_header ob)) p1 p2 -> o' <> o -> block_in w b o' ob' ->
  block_in (opened_world w o ob p1 p2 access) b o' ob'.
Proof.
  intros Hpl Hne [[Ha Hp Ho Hs] [fo Hfd] Hown Hal Hsz]. split; try done.
  - split; [done|by apply opened_pages_keep| |done].
    cbn [opened_world with_header set_obj set_objs set_thread mapped_world w_objs]. by rewrite lookup_insert_ne.
  - exists fo. unfold fd_object in *. destruct (Z.ltb_spec (b_mem_fd b) 0); [done|].
    cbn [opened_world with_header set_obj set_objs set_thread mapped_world w_fds].
    rewrite lookup_insert_ne; [done|]. intros Heq. rewrite <- Heq, lowest_fd_free in Hfd. done.
Qed.

(** The memory of an opened block is mapped where the handle says. *)
Lemma opened_list_mapped w o ob p1 p2 :
  open_places w o (block_size (so_header ob)) p1 p2 -> 0 < block_size (so_header ob) ->
  IPM_MEMORY_PAGE_SIZE < so_size ob ->
  list_mapped (opened_world w o ob p1 p2 IPM_ACCESS_MODE_READ_WRITE) (p2 * IPM_MEMORY_PAGE_SIZE) o
    (set_so_header (opened_header (so_header ob)) ob).
Proof.
  intros [Hp1 Hp2] Hsz Hs. split; [apply page_addr_mod| |apply lookup_insert_eq|done].
  assert (0 < pages_of (block_size (so_header ob))) as Hpg
    by (apply Z.div_str_pos; unfold IPM_MEMORY_PAGE_SIZE; lia).
  rewrite page_addr_div. cbn [opened_world with_header set_obj set_objs set_thread mapped_world w_pages].
  rewrite lookup_map_pages, decide_True by lia. by rewrite Z.sub_diag.
Qed.

Definition opened_memory w c (name : string) (access : ipm_access_mode) (this : Z)
    (o2 : nat) (ob2 : shm_object) (ob1 : shm_object) (p1 p2 p3 p4 : Z) : ipm_memory :=
  mk_memory _ this c (copy_name name) (opened_block w (so_header ob2) p1 p2 access)
    (opened_block (opened_world w o2 ob2 p1 p2 access) (so_header ob1) p3 p4 IPM_ACCESS_MODE_READ_WRITE).

(** What [ipm_memory_open] needs of its arguments. *)
Record open_request (name : string) w : Prop := {
  or_slash : has_slash name = false;
  or_length : Z.of_nat (String.length name) <= IPM_MAX_NAME_LEN;
  or_faults : t_faults (w_thread w) = []
}.

Section request.
Variables (nd : bool) (oreal oclaims : list (shm_object -> shm_object)).
Variables (c : ipm_context user) (name : string) (access : ipm_access_mode) (w : world).
Variables (this : Z) (t : thread) (u : @user E).
Hypothesis Hreq : open_request name w.
Hypothesis Halloc : ipm_alloc c sizeof_memory (in_mem 89 "ipm_memory_open") w = Ret this (set_user u (set_thread t w)).
Hypothesis Hsame : same_thread (w_thread w) t.
Hypothesis Hthis : this <> NULL.

(** The world after the allocation of the handle. *)
Definition allocated : world := set_user u (set_thread t w).

Lemma allocated_faults : t_faults (w_thread allocated) = [].
Proof using Hreq Hsame. destruct Hsame as [_ Hft]. cbn. rewrite Hft. apply (or_faults _ _ Hreq). Qed.

(** The call up to its first block. *)
Ltac open_prefix :=
  unfold ipm_memory_open;
  erewrite bind_Ret by (apply cassert_true; by rewrite (or_slash _ _ Hreq));
  erewrite bind_Ret by (apply cassert_true; pose proof (or_length _ _ Hreq); lia);
  erewrite bind_Ret by exact Halloc; rewrite (proj2 (Z.eqb_neq _ _) Hthis); fold allocated.

Lemma memory_open_run o2 ob2 o1 ob1 p1 p2 p3 p4 :
  published w name IPM_MEMORY_BLOCK_REAL_MEMORY o2 ob2 ->
  published w name IPM_MEMORY_BLOCK_ACTIVE_CALIMS o1 ob1 -> o1 <> o2 ->
  open_places allocated o2 (block_size (so_header ob2)) p1 p2 ->
  open_places (opened_world allocated o2 ob2 p1 p2 access) o1 (block_size (so_header ob1)) p3 p4 ->
  ipm_memory_open nd oreal oclaims c name access w =
  Ret (IPM_RESULT_SUCCESS, Some (opened_memory allocated c name access this o2 ob2 ob1 p1 p2 p3 p4))
      (opened_world (opened_world allocated o2 ob2 p1 p2 access) o1 ob1 p3 p4 IPM_ACCESS_MODE_READ_WRITE).
Proof using Type*.
  intros [Hn2 Ho2 Hs2 Hb2 Hr2 Hi2 Hnm2] [Hn1 Ho1 Hs1 Hb1 Hr1 Hi1 Hnm1] Hne Hpl2 Hpl1.
  pose proof allocated_faults as Hf. pose proof (or_length _ _ Hreq) as Hlen.
  open_prefix.
  erewrite bind_Ret by (by eapply open_run; first [done|by apply no_faults_nil]).
  cbn beta iota. change (with_header _ _ _ _ _) with (opened_world allocated o2 ob2 p1 p2 access).
  assert (w_objs (opened_world allocated o2 ob2 p1 p2 access) !! o1 = Some ob1) as Ho1'
    by (cbn; by rewrite lookup_insert_ne).
  erewrite bind_Ret.
  2:{ eapply open_run; try done. apply no_faults_nil.
      change (w_thread (opened_world _ _ _ _ _ _)) with (thread_after 3 (w_thread allocated)). by rewrite thread_after_nil. }
  done.
Qed.

Lemma published_absent id : w_names w !! object_name name id = None ->
  w_names allocated !! object_name name id = None.
Proof using Type*. done. Qed.

(** Reporting an error and giving the handle's allocation back. *)
Lemma report_and_free {A} (msg : string) loc (a : A) w1 :
  exists w2, (_ ← IPM_ERROR c msg loc; _ ← ipm_release c this; mret a) w1 = Ret a w2 /\ untouched w1 w2.
Proof using Type*.
  destruct (on_user_report c msg loc w1) as (t1 & u1 & Hr1 & Ht1).
  erewrite bind_Ret by exact Hr1.
  destruct (free_run c this (set_user u1 (set_thread t1 w1))) as (t2 & u2 & Hr2 & Ht2).
  erewrite bind_Ret by exact Hr2. eexists. split; [reflexivity|].
  eapply untouched_trans; [by eapply untouched_user|]. by apply untouched_user.
Qed.

(** The data block cannot be opened: nothing is left. *)
Lemma memory_open_no_data :
  w_names w !! object_name name IPM_MEMORY_BLOCK_REAL_MEMORY = None ->
  exists r w', ipm_memory_open nd oreal oclaims c name access w = Ret (r, None) w' /\
    r <> IPM_RESULT_SUCCESS /\ untouched w w'.
Proof using Type*.
  intros Hn. pose proof allocated_faults as Hf. pose proof (or_length _ _ Hreq) as Hlen.
  open_prefix.
  destruct (open_absent_refused nd oreal c name IPM_MEMORY_BLOCK_REAL_MEMORY access allocated)
    as (r & w1 & Hr & Hne & Hu1 & _); [by apply no_faults_nil|done|done|].
  erewrite bind_Ret by exact Hr. cbn beta iota.
  match goal with |- context [IPM_ERROR c ?msg ?loc] =>
    destruct (report_and_free msg loc (r, None : option ipm_memory) w1) as (w2 & Hr2 & Hu2) end.
  exists r, w2. split; [exact Hr2|]. split; [done|].
  eapply untouched_trans; [by apply untouched_user|]. by eapply untouched_trans.
Qed.

(** The claim block cannot be opened: the data block is closed again, and all that
    is left of the attempt is that its next access identifier is used up. *)
Lemma memory_open_no_claims o2 ob2 p1 p2 :
  published w name IPM_MEMORY_BLOCK_REAL_MEMORY o2 ob2 ->
  0 < refcount (so_header ob2) -> refcount (so_header ob2) + 1 < u32_mod ->
  w_names w !! object_name name IPM_MEMORY_BLOCK_ACTIVE_CALIMS = None ->
  open_places allocated o2 (block_size (so_header ob2)) p1 p2 ->
  exists r w', ipm_memory_open nd oreal oclaims c name access w = Ret (r, None) w' /\
    r <> IPM_RESULT_SUCCESS /\ w_names w' = w_names w /\ w_fds w' = w_fds w /\ w_pages w' = w_pages w /\
    w_objs w' = <[o2 := set_so_header (set_id_counter (wrap64 (id_counter (so_header ob2) + 1))
                                         (so_header ob2)) ob2]> (w_objs w).
Proof using Type*.
  intros [Hn2 Ho2 Hs2 Hb2 Hr2 Hi2 Hnm2] Hpos Hmax Hn1 Hpl.
  pose proof allocated_faults as Hf. pose proof (or_length _ _ Hreq) as Hlen.
  open_prefix.
  erewrite bind_Ret by (by eapply open_run; first [done|by apply no_faults_nil]).
  cbn beta iota. change (with_header _ _ _ _ _) with (opened_world allocated o2 ob2 p1 p2 access).
  set (w1 := opened_world allocated o2 ob2 p1 p2 access). set (b := opened_block allocated (so_header ob2) p1 p2 access).
  destruct (open_absent_refused nd oclaims c name IPM_MEMORY_BLOCK_ACTIVE_CALIMS IPM_ACCESS_MODE_READ_WRITE w1)
    as (r & w2 & Hrun2 & Hne & [Hu2n Hu2o Hu2f Hu2p _] & Hf2); [|done|done|].
  { apply no_faults_nil. cbn -[thread_after]. by rewrite thread_after_nil. }
  erewrite bind_Ret by exact Hrun2. cbn beta iota.
  match goal with |- context [IPM_ERROR c ?msg ?loc] =>
    destruct (on_user_report c msg loc w2) as (t3 & u3 & Hr3 & Ht3) end.
  erewrite bind_Ret by exact Hr3.
  assert (t_faults t3 = []) as Hf3.
  { destruct Ht3 as [_ ->]. rewrite Hf2. change (w_thread w1) with (thread_after 3 (w_thread allocated)).
    by rewrite thread_after_nil, Hf. }
  assert (set_user u3 (set_thread t3 w2) = opened_world (set_user u3 (set_thread t3 allocated)) o2 ob2 p1 p2 access) as Hw3.
  { destruct w2. cbn in Hu2n, Hu2o, Hu2f, Hu2p. subst. unfold opened_world, mapped_world, with_header, set_obj, set_objs, set_thread, set_user.
    cbn -[thread_after]. by rewrite thread_after_nil. }
  rewrite Hw3.
  destruct (open_close_run nd c (set_user u3 (set_thread t3 allocated)) o2 ob2 p1 p2 access)
    as (w4 & Hrun4 & Hn4 & Hfd4 & Hpg4 & _ & Ho4); try done; [by destruct Hpl; split|].
  erewrite bind_Ret by exact Hrun4.
  destruct (free_run c this w4) as (t5 & u5 & Hr5 & Ht5). erewrite bind_Ret by exact Hr5.
  eexists r, _. split; [reflexivity|]. split; [done|]. by split_and!.
Qed.

(** The opened handle can be used. *)
Lemma memory_opened_usable o2 ob2 o1 ob1 p1 p2 p3 p4 :
  published w name IPM_MEMORY_BLOCK_REAL_MEMORY o2 ob2 ->
  published w name IPM_MEMORY_BLOCK_ACTIVE_CALIMS o1 ob1 -> o1 <> o2 ->
  open_places allocated o2 (block_size (so_header ob2)) p1 p2 ->
  open_places (opened_world allocated o2 ob2 p1 p2 access) o1 (block_size (so_header ob1)) p3 p4 ->
  IPM_MEMORY_PAGE_SIZE < so_size ob1 -> ready (so_list ob1) ->
  let m := opened_memory allocated c name access this o2 ob2 ob1 p1 p2 p3 p4 in
  let w' := opened_world (opened_world allocated o2 ob2 p1 p2 access) o1 ob1 p3 p4 IPM_ACCESS_MODE_READ_WRITE in
  usable w' m o1 (set_so_header (opened_header (so_header ob1)) ob1) /\
  block_in w' (active_claims m) o1 (set_so_header (opened_header (so_header ob1)) ob1) /\
  block_in w' (real_memory m) o2 (set_so_header (opened_header (so_header ob2)) ob2).
Proof using Type*.
  intros [Hn2 Ho2 Hs2 Hb2 Hr2 Hi2 Hnm2] [Hn1 Ho1 Hs1 Hb1 Hr1 Hi1 Hnm1] Hne Hpl2 Hpl1 Hlarge Hready m w'.
  pose proof allocated_faults as Hf.
  assert (w_objs (opened_world allocated o2 ob2 p1 p2 access) !! o1 = Some ob1) as Ho1'
    by (cbn; by rewrite lookup_insert_ne).
  split_and!.
  - split; [by apply opened_list_mapped| |done|].
    + apply Z.eqb_neq. cbn. destruct Hpl1 as [_ Hp4]. by eapply NULL_place.
    + cbn -[thread_after]. by rewrite !thread_after_nil by (rewrite ?thread_after_nil; done).
  - by apply opened_block_in.
  - apply opened_keeps_block; [done|congruence|]. by apply opened_block_in.
Qed.
End request.
End opening.

(** ** Handles of a forked process *)

Section cleaning.
Context {E : Env}.
Implicit Types (w : world) (m : ipm_memory).

(** Cleaning a block removes the mappings and the descriptor of this process, and
    nothing that is shared. *)
Definition cleaned w b (size : Z) : world := set_pages (closed_pages b size (w_pages w)) (close_fd (b_mem_fd b) w).

Lemma block_clean_run nd b w o ob :
  block_in w b o ob ->
  shared_memory_block_clean nd b w = Ret IPM_RESULT_SUCCESS (cleaned w b (block_size (so_header ob))).
Proof.
  intros [Hh [o' Hfd] Hown Ha Hs]. unfold shared_memory_block_clean. rewrite Hown.
  erewrite bind_Ret by (by apply cassert_true).
  erewrite bind_Ret by (eapply close_run; exact Hfd). fold (close_fd (b_mem_fd b) w).
  erewrite bind_Ret by (eapply read_header_run, close_fd_mapped; exact Hh).
  by rewrite unmap_both_run by (done || apply Hh).
Qed.

(** The blocks of handle [m] are [ob1] (the claims) and [ob2] (the data); their
    mappings do not overlap and their descriptors differ. *)
Record both_blocks w m (o1 : nat) (ob1 : shm_object) (o2 : nat) (ob2 : shm_object) : Prop := {
  bb_claims : block_in w (active_claims m) o1 ob1;
  bb_data : block_in w (real_memory m) o2 ob2;
  bb_fds : b_mem_fd (active_claims m) <> b_mem_fd (real_memory m) /\ 0 <= b_mem_fd (active_claims m);
  bb_pages : closed_pages (active_claims m) (block_size (so_header ob1)) (w_pages w)
               !! (b_header (real_memory m) / IPM_MEMORY_PAGE_SIZE) =
             w_pages w !! (b_header (real_memory m) / IPM_MEMORY_PAGE_SIZE)
}.

Lemma cleaned_keeps_data w m o1 ob1 o2 ob2 :
  both_blocks w m o1 ob1 o2 ob2 ->
  block_in (cleaned w (active_claims m) (block_size (so_header ob1))) (real_memory m) o2 ob2.
Proof.
  intros [_ [[Ha Hp Ho Hs] [od Hfd] Hown Hal Hsz] [Hne H0] Hpg]. split; try done.
  - split; try done. by rewrite <- Hp, <- Hpg.
  - exists od. unfold fd_object in *. destruct (Z.ltb_spec (b_mem_fd (real_memory m)) 0); [done|].
    cbn. rewrite lookup_delete_ne; [done|]. intros Heq. apply Hne. lia.
Qed.

Lemma memory_clean_run nd m w o1 ob1 o2 ob2 :
  both_blocks w m o1 ob1 o2 ob2 ->
  exists w', ipm_memory_clean nd m w = Ret tt w' /\
    w_names w' = w_names w /\ w_objs w' = w_objs w /\
    w_fds w' = delete (Z.to_nat (b_mem_fd (real_memory m)))
                 (delete (Z.to_nat (b_mem_fd (active_claims m))) (w_fds w)) /\
    w_pages w' = closed_pages (real_memory m) (block_size (so_header ob2))
                   (closed_pages (active_claims m) (block_size (so_header ob1)) (w_pages w)).
Proof.
  intros Hb. pose proof (cleaned_keeps_data _ _ _ _ _ _ Hb) as Hd. pose proof Hb as [Hc _ _ _].
  unfold ipm_memory_clean.
  erewrite bind_Ret by (by eapply block_clean_run). erewrite bind_Ret by (by eapply block_clean_run).
  match goal with |- context [ipm_release ?c ?p ?w1] => destruct (free_run c p w1) as (t & u & Hr & _) end.
  rewrite Hr. eexists. split; [reflexivity|]. by split_and!.
Qed.
End cleaning.

(** ** Theorems *)

(** C18. Opening a memory.  When both of its blocks exist and are finished the call
    gives a handle on them: the data block with the size its header records and
    the next access identifier, the claim list mapped and ready to be used, one
    reference more on each.  When the data block does not exist the call fails
    and changes nothing; when the claim block does not, the data block is closed
    again and names, descriptors, mappings and its reference count are restored,
    one of its access identifiers being used up. *)
Theorem memory_open_functional {E : Env} {L : EnvLaws E} nd oreal oclaims c name access w this t u :
  open_request name w ->
  ipm_alloc c sizeof_memory (in_mem 89 "ipm_memory_open") w = Ret this (set_user u (set_thread t w)) ->
  same_thread (w_thread w) t -> this <> NULL ->
  let w1 := set_user u (set_thread t w) in
  (forall o2 ob2 o1 ob1 p1 p2 p3 p4,
   published w name IPM_MEMORY_BLOCK_REAL_MEMORY o2 ob2 ->
   published w name IPM_MEMORY_BLOCK_ACTIVE_CALIMS o1 ob1 -> o1 <> o2 ->
   IPM_MEMORY_PAGE_SIZE < so_size ob1 -> ready (so_list ob1) ->
   open_places w1 o2 (block_size (so_header ob2)) p1 p2 ->
   open_places (opened_world w1 o2 ob2 p1 p2 access) o1 (block_size (so_header ob1)) p3 p4 ->
   exists m w', ipm_memory_open nd oreal oclaims c name access w = Ret (IPM_RESULT_SUCCESS, Some m) w' /\
     mem_block_name m = copy_name name /\ b_size (real_memory m) = block_size (so_header ob2) /\
     b_access_id (real_memory m) = id_counter (so_header ob2) /\
     usable w' m o1 (set_so_header (opened_header (so_header ob1)) ob1) /\
     block_in w' (active_claims m) o1 (set_so_header (opened_header (so_header ob1)) ob1) /\
     block_in w' (real_memory m) o2 (set_so_header (opened_header (so_header ob2)) ob2)) /\
  (w_names w !! object_name name IPM_MEMORY_BLOCK_REAL_MEMORY = None ->
   exists r w', ipm_memory_open nd oreal oclaims c name access w = Ret (r, None) w' /\
     r <> IPM_RESULT_SUCCESS /\ untouched w w') /\
  (forall o2 ob2 p1 p2,
   published w name IPM_MEMORY_BLOCK_REAL_MEMORY o2 ob2 ->
   0 < refcount (so_header ob2) -> refcount (so_header ob2) + 1 < u32_mod ->
   w_names w !! object_name name IPM_MEMORY_BLOCK_ACTIVE_CALIMS = None ->
   open_places w1 o2 (block_size (so_header ob2)) p1 p2 ->
   exists r w', ipm_memory_open nd oreal oclaims c name access w = Ret (r, None) w' /\
     r <> IPM_RESULT_SUCCESS /\ w_names w' = w_names w /\ w_fds w' = w_fds w /\ w_pages w' = w_pages w /\
     w_objs w' = <[o2 := set_so_header (set_id_counter (wrap64 (id_counter (so_header ob2) + 1))
                                          (so_header ob2)) ob2]> (w_objs w)).
Proof.
  intros Hreq Halloc Hsame Hthis w1. split_and!.
  - intros o2 ob2 o1 ob1 p1 p2 p3 p4 H2 H1 Hne Hlarge Hready Hpl2 Hpl1. eexists _, _.
    split; [by eapply memory_open_run|]. do 3 (split; [done|]).
    by apply (memory_opened_usable c name access w this t u).
  - by eapply memory_open_no_data.
  - intros o2 ob2 p1 p2 H2 Hpos Hmax Hn1 Hpl. by eapply memory_open_no_claims.
Qed.

(** A process that starts next to the memory "demo". *)
Definition second_process : world := join 2 demo_world.

Lemma memory_open_functional_witness :
  exists m w', ipm_memory_open true [] [] context "demo" IPM_ACCESS_MODE_READ_ONLY second_process =
      Ret (IPM_RESULT_SUCCESS, Some m) w' /\ b_access_id (real_memory m) = 2.
Proof.
  destruct (memory_open_functional true [] [] context "demo" IPM_ACCESS_MODE_READ_ONLY second_process
              1000 (mk_thread 2 0 []) paid) as [H _].
  - split; vm_compute; (reflexivity || discriminate).
  - unfold second_process. generalize demo_world. intros w. reflexivity.
  - split; reflexivity.
  - discriminate.
  - destruct (H 1%nat (default demo_object (w_objs demo_world !! 1%nat)) 0%nat demo_object 16 17 19 20)
      as (m & w' & H1 & _ & _ & H2 & _).
    + split; vm_compute; (reflexivity || discriminate).
    + split; vm_compute; (reflexivity || discriminate).
    + discriminate.
    + vm_compute. reflexivity.
    + split_and!; [split; vm_compute; (reflexivity || (split; congruence) || congruence)|vm_compute; reflexivity..].
    + split; vm_compute; reflexivity.
    + split; vm_compute; reflexivity.
    + exists m, w'. split; [exact H1|]. rewrite H2. vm_compute. reflexivity.
Defined.

(** [ipm_memory_clean], for the child of a fork: the handle's mappings and
    descriptors go, and nothing shared changes: names, objects, reference counts
    and claims are those before, so the parent's handle stays as good as it was. *)
Theorem memory_clean_functional {E : Env} nd m w o1 ob1 o2 ob2 :
  both_blocks w m o1 ob1 o2 ob2 ->
  exists w', ipm_memory_clean nd m w = Ret tt w' /\
    w_names w' = w_names w /\ w_objs w' = w_objs w /\
    w_fds w' = delete (Z.to_nat (b_mem_fd (real_memory m)))
                 (delete (Z.to_nat (b_mem_fd (active_claims m))) (w_fds w)) /\
    w_pages w' = closed_pages (real_memory m) (block_size (so_header ob2))
                   (closed_pages (active_claims m) (block_size (so_header ob1)) (w_pages w)).
Proof. apply memory_clean_run. Qed.

Definition demo_data : shm_object := default demo_object (w_objs demo_world !! 1%nat).

Lemma memory_clean_functional_witness :
  exists w', ipm_memory_clean true demo_memory demo_world = Ret tt w' /\
    w_objs w' = w_objs demo_world /\ w_names w' = w_names demo_world.
Proof.
  destruct (memory_clean_functional true demo_memory demo_world 0 demo_object 1 demo_data) as (w' & H1 & H2 & H3 & _).
  - split.
    + split; [split; vm_compute; reflexivity|exists 0%nat; vm_compute; reflexivity|vm_compute; reflexivity..].
    + split; [split; vm_compute; reflexivity|exists 1%nat; vm_compute; reflexivity|vm_compute; reflexivity..].
    + split; vm_compute; discriminate.
    + vm_compute. reflexivity.
  - exists w'. split; [exact H1|]. split; [exact H3|exact H2].
Defined.
