(* ===== verification/Remapping.v ===== *)
(** * Mapping a memory again

    One handle of a memory that several processes may use, and the calls that map
    its data block again ([ipm_memory_resize_grow], [ipm_memory_sync] and
    [ipm_memory_change_access], source/ipm_memory.c): what they return, where
    the new pages are, and that the handle stays good for every other call except that
    its pointer is null. *)

From S2P Require Import Prelude Errors Pthread Platform Claims Common Names World SharedMemory Memory Machine Regions Lifecycle Handles Opening.

Section remapping.
Context {E : Env}.
Implicit Types (w : world) (m : ipm_memory) (b : ipm_shared_memory_block) (ob : shm_object).

(** ** A handle that shares its memory *)

(** What may change in an object while handles on it exist: it does not vanish. *)
Record kept ob ob' : Prop := {
  kp_size : 0 < so_size ob -> 0 < so_size ob';
  kp_block_size : 0 < block_size (so_header ob) -> 0 < block_size (so_header ob');
  kp_id : block_id (so_header ob') = block_id (so_header ob);
  kp_name : hdr_block_name (so_header ob') = hdr_block_name (so_header ob);
  kp_mutex : segment_mutex (so_header ob') = segment_mutex (so_header ob)
}.

#[global] Instance kept_refl : Reflexive kept.
Proof. intros ob. by split. Qed.

(** The pages a handle [m] works with besides the memory itself: both headers and the
    list of claims. *)
Definition works_with m (i : Z) : Prop :=
  i = b_header (real_memory m) / IPM_MEMORY_PAGE_SIZE \/ i = b_header (active_claims m) / IPM_MEMORY_PAGE_SIZE \/
  i = b_memory (active_claims m) / IPM_MEMORY_PAGE_SIZE.

(** The pages the next remapping removes: those of the memory, or, where the pointer
    is null, as many at the bottom of the address space. *)
Definition removes b (i : Z) : Prop :=
  b_memory b / IPM_MEMORY_PAGE_SIZE <= i < b_memory b / IPM_MEMORY_PAGE_SIZE + pages_of (b_size b).

(** The data block of handle [m]. *)
Record data_mapped w m (o2 : nat) : Prop := {
  dm_fd : fd_object w (b_mem_fd (real_memory m)) = Some o2;
  dm_size : 0 < b_size (real_memory m);
  dm_apart : b_memory (real_memory m) = NULL \/ forall i, works_with m i -> ~ removes (real_memory m) i
}.

(** Handle [m] of a process that sees [w] is good for every call. *)
Record handle_in w m (o1 : nat) ob1 (o2 : nat) ob2 : Prop := {
  hi_blocks : both_blocks w m o1 ob1 o2 ob2;
  hi_list : list_mapped w (b_memory (active_claims m)) o1 ob1;
  hi_addr : b_memory (active_claims m) <> NULL;
  hi_data : data_mapped w m o2
}.

Lemma handle_in_same w w' m o1 ob1 ob1' o2 ob2 ob2' :
  handle_in w m o1 ob1 o2 ob2 -> w_pages w' = w_pages w -> w_fds w' = w_fds w ->
  w_objs w' !! o1 = Some ob1' -> w_objs w' !! o2 = Some ob2' -> kept ob1 ob1' -> kept ob2 ob2' ->
  so_size ob1' = so_size ob1 -> block_size (so_header ob1') = block_size (so_header ob1) ->
  handle_in w' m o1 ob1' o2 ob2'.
Proof.
  intros [[Hc Hd Hf Hpg] [Ha Hp Ho Hs] Hn [Hfd Hsz Hap]] Hpages Hfds H1 H2 [Hs1 Hb1 _ _ _] [Hs2 Hb2 _ _ _] Hes He.
  split; [split|split|done|split].
  - by eapply block_in_same.
  - by eapply block_in_same.
  - done.
  - by rewrite He, Hpages.
  - done.
  - by rewrite Hpages.
  - done.
  - lia.
  - unfold fd_object. by rewrite Hfds.
  - lia.
  - done.
Qed.

Lemma handle_usable w m o1 ob1 o2 ob2 :
  handle_in w m o1 ob1 o2 ob2 -> ready (so_list ob1) -> t_faults (w_thread w) = [] -> usable w m o1 ob1.
Proof. by intros [_ Hl Hn _] Hr Hf; split. Qed.

(** ** Remapping one handle *)

(** Nothing is mapped at the bottom of the address space, where a handle whose pointer
    is null unmaps as many bytes as its memory has. *)
Definition bottom_free w m : Prop :=
  b_memory (real_memory m) = NULL -> forall i, removes (real_memory m) i -> w_pages w !! i = None.

(** Where the kernel puts a mapping of [size] bytes, once the old one is gone. *)
Definition place w m (size : Z) : option Z :=
  let b := real_memory m in
  os_place (unmap_pages (b_memory b / IPM_MEMORY_PAGE_SIZE) (pages_of (b_size b)) (w_pages w))
    (b_memory b / IPM_MEMORY_PAGE_SIZE) (pages_of size).

Definition moved m (size : Z) (access : ipm_access_mode) : ipm_memory :=
  set_real (set_mapping size NULL access (real_memory m)) m.

(** What handle and world are when the memory is up to date: as they were, or mapped
    again. *)
Inductive mapped_again w m (o2 : nat) (size : Z) (access : ipm_access_mode) : ipm_memory -> world -> Prop :=
| again_same : b_size (real_memory m) = size -> access = b_access_mode (real_memory m) ->
    mapped_again w m o2 size access m w
| again_moved p : place w m size = Some p ->
    mapped_again w m o2 size access (moved m size access) (remapped w (real_memory m) o2 size access p).

Section one.
Context {L : EnvLaws E}.
Variables (w : world) (m : ipm_memory) (o1 : nat) (ob1 : shm_object) (o2 : nat) (ob2 : shm_object).
Hypothesis Hh : handle_in w m o1 ob1 o2 ob2.
Hypothesis Hb : bottom_free w m.

Lemma works_mapped i : works_with m i -> is_Some (w_pages w !! i).
Proof using Hh.
  destruct Hh as [[[[_ Hp1 _ _] _ _ _ _] [[_ Hp2 _ _] _ _ _ _] _ _] [_ Hp3 _ _] _ _].
  intros [->|[->| ->]]; eauto.
Qed.

Lemma works_kept i : works_with m i -> ~ removes (real_memory m) i.
Proof using Hh Hb.
  intros Hi Hr. destruct (dm_apart _ _ _ (hi_data _ _ _ _ _ _ Hh)) as [Hn|Ha]; [|by apply (Ha i)].
  destruct (works_mapped i Hi) as [pg Hpg]. by rewrite (Hb Hn i Hr) in Hpg.
Qed.

(** The handle's own pages survive a remapping. *)
Lemma remapped_page size access p i :
  place w m size = Some p -> works_with m i -> w_pages (remapped w (real_memory m) o2 size access p) !! i = w_pages w !! i.
Proof using Hh Hb L.
  intros (_ & _ & Hfree)%os_place_free Hi. pose proof (works_kept i Hi) as Hk. cbn [remapped w_pages set_pages].
  assert (unmap_pages (b_memory (real_memory m) / IPM_MEMORY_PAGE_SIZE) (pages_of (b_size (real_memory m))) (w_pages w) !! i
    = w_pages w !! i) as Hu by (by rewrite lookup_unmap_pages, decide_False).
  rewrite lookup_map_pages, Hu, decide_False; [done|]. intros Hin. destruct (works_mapped i Hi) as [pg Hpg].
  specialize (Hfree (i - p) ltac:(lia)). replace (p + (i - p)) with i in Hfree by lia. congruence.
Qed.

Lemma remapped_handle access p :
  place w m (block_size (so_header ob2)) = Some p ->
  handle_in (remapped w (real_memory m) o2 (block_size (so_header ob2)) access p)
    (moved m (block_size (so_header ob2)) access) o1 ob1 o2 ob2.
Proof using Hh Hb L.
  intros Hp. set (w' := remapped _ _ _ _ _ _). assert (forall i, works_with m i -> w_pages w' !! i = w_pages w !! i) as Hkeep
    by (intros i; by apply remapped_page).
  destruct Hh as [[[[Ha1 Hp1 Ho1 Hs1] Hf1 Hw1 Hm1 Hb1] [[Ha2 Hp2 Ho2 Hs2] Hf2 Hw2 Hm2 Hb2] Hfd Hpg] [Hal Hpl _ Hsl] Hn [Hfo Hsz _]].
  split; [split|split|done|split]; try done.
  - split; try done. split; try done. rewrite Hkeep; [done|unfold works_with; tauto].
  - split; try done. split; try done. cbn [moved set_real real_memory set_mapping b_header].
    rewrite Hkeep; [done|unfold works_with; tauto].
  - cbn [moved set_real real_memory active_claims set_mapping b_header].
    assert (w_pages w' !! (b_header (real_memory m) / IPM_MEMORY_PAGE_SIZE) =
            w_pages w !! (b_header (real_memory m) / IPM_MEMORY_PAGE_SIZE)) as Hk by (apply Hkeep; unfold works_with; tauto).
    revert Hpg Hp2. unfold closed_pages. rewrite !lookup_unmap_pages. rewrite Hk.
    repeat case_decide; done.
  - cbn [moved set_real active_claims]. rewrite Hkeep; [done|unfold works_with; tauto].
  - by left.
Qed.

Lemma mapped_again_handle access m' w' :
  mapped_again w m o2 (block_size (so_header ob2)) access m' w' ->
  handle_in w' m' o1 ob1 o2 ob2 /\ w_names w' = w_names w /\ w_objs w' = w_objs w /\
  b_size (real_memory m') = block_size (so_header ob2) /\ b_access_mode (real_memory m') = access /\
  b_access_id (real_memory m') = b_access_id (real_memory m).
Proof using Hh Hb L.
  intros [Hs Ha|p Hp]; [by split_and!|]. split_and!; try done. by apply remapped_handle.
Qed.
End one.

(** ** The calls *)

Section calls.
Context {L : EnvLaws E}.
Variables (w : world) (m : ipm_memory) (o1 : nat) (ob1 : shm_object) (o2 : nat) (ob2 : shm_object).
Hypothesis Hh : handle_in w m o1 ob1 o2 ob2.
Hypothesis Hf : t_faults (w_thread w) = [].

Lemma handle_remappable : remappable (real_memory m).
Proof using Hh.
  destruct Hh as [[_ [_ _ _ Ha _] _ _] _ _ [_ Hs _]]. by split.
Qed.

(** The block operation leaves a handle that is up to date and has its pointer alone, and
    maps any other at [p]. *)
Definition mapped_at (access : ipm_access_mode) (p : Z) : ipm_memory * world :=
  let size := block_size (so_header ob2) in
  if decide (b_size (real_memory m) = size /\ access = b_access_mode (real_memory m) /\ b_memory (real_memory m) <> NULL)
  then (m, w) else (moved m size access, remapped w (real_memory m) o2 size access p).

Lemma update_mapping_exact c access p :
  place w m (block_size (so_header ob2)) = Some p ->
  shared_memory_block_update_mapping c (real_memory m) access w =
  Ret (IPM_RESULT_SUCCESS, real_memory (mapped_at access p).1) (mapped_at access p).2.
Proof using Hh Hf L.
  intros Hp. pose proof Hh as [[_ [Hhd _ _ _ Hpos] _ _] _ _ [Hfd _ _]]. unfold mapped_at.
  case_decide as Hd; [destruct Hd as (Hs & Ha & Hn); by eapply update_unchanged_run|].
  eapply update_changed_run; [exact Hhd|by apply no_faults_nil|by apply handle_remappable|done|done| |done].
  destruct (decide (b_size (real_memory m) = block_size (so_header ob2))); [|by left]. right.
  destruct (decide (access = b_access_mode (real_memory m))); [|by left]. right.
  destruct (decide (b_memory (real_memory m) = NULL)); [done|]. by destruct Hd.
Qed.

Lemma mapped_at_set access p : (mapped_at access p).1 = set_real (real_memory (mapped_at access p).1) m.
Proof using. unfold mapped_at. case_decide; [clear; by destruct m|done]. Qed.

Lemma update_mapping_again c access :
  is_Some (place w m (block_size (so_header ob2))) ->
  exists m' w', shared_memory_block_update_mapping c (real_memory m) access w = Ret (IPM_RESULT_SUCCESS, real_memory m') w' /\
    m' = set_real (real_memory m') m /\ mapped_again w m o2 (block_size (so_header ob2)) access m' w'.
Proof using Hh Hf L.
  intros [p Hp]. exists (mapped_at access p).1, (mapped_at access p).2.
  split; [by apply update_mapping_exact|]. split; [apply mapped_at_set|].
  unfold mapped_at. case_decide as Hd; [destruct Hd as (Hs & Ha & _); by apply again_same|by apply again_moved].
Qed.

(** [ipm_memory_sync], to the letter. *)
Lemma sync_exact p :
  place w m (block_size (so_header ob2)) = Some p ->
  let '(m', w') := mapped_at (b_access_mode (real_memory m)) p in
  ipm_memory_sync m w = Ret (IPM_RESULT_SUCCESS, m') w'.
Proof using Hh Hf L.
  intros Hp. pose proof (update_mapping_exact (ctx m) (b_access_mode (real_memory m)) p Hp) as Hr.
  pose proof (mapped_at_set (b_access_mode (real_memory m)) p) as Hs.
  destruct (mapped_at _ p) as [m' w']. cbn [fst snd] in *. unfold ipm_memory_sync. erewrite bind_Ret by exact Hr.
  unfold ok. rewrite bool_decide_true by done. cbn [negb]. by rewrite <- Hs.
Qed.

Lemma change_access_run access :
  is_Some (place w m (block_size (so_header ob2))) ->
  exists m' w', ipm_memory_change_access m access w = Ret (IPM_RESULT_SUCCESS, m') w' /\
    mapped_again w m o2 (block_size (so_header ob2)) access m' w'.
Proof using Hh Hf L.
  intros Hp. destruct (update_mapping_again (ctx m) access Hp) as (m' & w' & Hr & Hm' & Hag).
  exists m', w'. split; [|done]. unfold ipm_memory_change_access. erewrite bind_Ret by exact Hr.
  unfold ok. rewrite bool_decide_true by done. cbn [negb]. by rewrite <- Hm'.
Qed.

Lemma sync_run :
  is_Some (place w m (block_size (so_header ob2))) ->
  exists m' w', ipm_memory_sync m w = Ret (IPM_RESULT_SUCCESS, m') w' /\
    mapped_again w m o2 (block_size (so_header ob2)) (b_access_mode (real_memory m)) m' w'.
Proof using Hh Hf L.
  intros Hp. destruct (update_mapping_again (ctx m) (b_access_mode (real_memory m)) Hp) as (m' & w' & Hr & Hm' & Hag).
  exists m', w'. split; [|done]. unfold ipm_memory_sync. erewrite bind_Ret by exact Hr.
  unfold ok. rewrite bool_decide_true by done. cbn [negb]. by rewrite <- Hm'.
Qed.
End calls.

(** The data block once it has [size] bytes. *)
Definition resized (size : Z) ob : shm_object :=
  if decide (block_size (so_header ob) = size) then ob else grown_object size ob.

Lemma resized_size size ob : block_size (so_header (resized size ob)) = size.
Proof using. unfold resized. by case_decide. Qed.

Lemma resized_kept size ob : 0 < size -> kept ob (resized size ob).
Proof using.
  intros Hpos. unfold resized. case_decide; [done|]. split; cbn; unfold IPM_MEMORY_PAGE_SIZE; lia || done.
Qed.

Section growing.
Context {L : EnvLaws E}.
Variables (w : world) (m : ipm_memory) (o1 : nat) (ob1 : shm_object) (o2 : nat) (ob2 : shm_object).
Hypothesis Hh : handle_in w m o1 ob1 o2 ob2.
Hypothesis Hf : t_faults (w_thread w) = [].

(** The handle does not mind what size its data block gets. *)
Lemma resizing_handle ob2' :
  o1 <> o2 -> 0 < so_size ob2' -> 0 < block_size (so_header ob2') ->
  handle_in (set_obj o2 ob2' w) m o1 ob1 o2 ob2'.
Proof using Hh.
  intros Hne Hs Hle. destruct Hh as [[[[Ha1 Hp1 Ho1 Hs1] Hf1 Hw1 Hm1 Hb1] [[Ha2 Hp2 Ho2 Hs2] Hf2 Hw2 Hm2 Hb2] Hfd Hpg]
    [Hal Hpl Hol Hsl] Hn [Hfo Hsz Hap]].
  split; [split|split|done|split]; try done.
  - split; try done. split; try done. cbn. by rewrite lookup_insert_ne.
  - split; try done. split; try done. apply lookup_insert_eq.
  - cbn. by rewrite lookup_insert_ne.
Qed.

Lemma resized_handle size :
  0 < size -> o1 <> o2 -> handle_in (set_obj o2 (resized size ob2) w) m o1 ob1 o2 (resized size ob2).
Proof using Hh.
  intros Hpos Hne. pose proof (kp_size _ _ (resized_kept size ob2 Hpos)) as Hk.
  destruct Hh as [[_ [[_ _ _ Hso] _ _ _ _] _ _] _ _ _].
  apply resizing_handle; [done|by apply Hk|by rewrite resized_size].
Qed.

Lemma resize_grow_again nd n k :
  let size := round_size n in
  o1 <> o2 -> block_pages size k -> nd = true \/ block_size (so_header ob2) <= size ->
  b_size (real_memory m) <= size -> segment_mutex (so_header ob2) = mutex_of Free ->
  is_Some (place w m size) ->
  exists m' w', ipm_memory_resize_grow nd m n w = Ret (IPM_RESULT_SUCCESS, m') w' /\
    mapped_again (set_obj o2 (resized size ob2) w) m o2 size (b_access_mode (real_memory m)) m' w'.
Proof using Hh Hf L.
  intros size Hne Hpg Hle Hsz Hmx Hp. destruct (block_pages_pos _ _ Hpg) as [Hpos _].
  pose proof (resized_handle size Hpos Hne) as Hh'. pose proof Hh as [[_ [Hhd _ _ _ _] _ _] _ _ [Hfd _ _]].
  assert (exists m' w', shared_memory_block_resize nd (ctx m) (real_memory m) size w =
      Ret (IPM_RESULT_SUCCESS, real_memory m') w' /\ m' = set_real (real_memory m') m /\
      mapped_again (set_obj o2 (resized size ob2) w) m o2 size (b_access_mode (real_memory m)) m' w')
    as (m' & w' & Hr & Hm' & Hag).
  - pose proof (fun c a H => update_mapping_again _ _ _ _ _ _ Hh' Hf c a H) as Hup.
    rewrite resized_size in Hup. specialize (fun c a => Hup c a Hp). unfold resized in *. case_decide as Hd.
    + assert (set_obj o2 ob2 w = w) as Hid.
      { unfold set_obj, set_objs. rewrite insert_id by apply Hhd. by destruct w. }
      rewrite Hid in *. rewrite (resize_follows nd _ _ w o2 ob2) by
        (done || (destruct Hpg as (-> & _); rewrite land_page_mask; apply page_addr_mod)).
      destruct (Z.eqb_spec size (b_size (real_memory m))) as [He|_]; [|apply Hup].
      exists m, w. split; [done|]. split; [by destruct m|by apply again_same].
    + rewrite (resize_truncates nd _ _ w o2 ob2 size k) by done. apply Hup.
  - exists m', w'. split; [|done]. unfold ipm_memory_resize_grow. fold size.
    rewrite (proj2 (Z.ltb_ge _ _)) by lia. erewrite bind_Ret by exact Hr.
    unfold ok. rewrite bool_decide_true by done. cbn [negb]. by rewrite <- Hm'.
Qed.
(** In a build with assertions a size below that of the header aborts the process. *)
Lemma resize_grow_aborts n :
  b_size (real_memory m) <= round_size n < block_size (so_header ob2) -> ipm_memory_resize_grow false m n w = Abort w.
Proof using Hh.
  intros [Hle Hlt]. pose proof Hh as [[_ [Hhd _ _ _ _] _ _] _ _ _].
  unfold ipm_memory_resize_grow. rewrite (proj2 (Z.ltb_ge _ _)) by lia. apply bind_Abort.
  unfold shared_memory_block_resize. erewrite bind_Ret by (by eapply read_header_run). apply bind_Abort.
  rewrite (proj2 (Z.leb_gt _ _)) by done. apply cassert_fails.
Qed.
End growing.
End remapping.
