(* ===== verification/Memories.v ===== *)
(** * Several processes that share a memory

    A step of the machine (file [Processes]) is one call of the public interface
    (source/ipm_memory.c) by one process on the memory with a given name: both
    blocks at once, the claim list included, growing and mapping the memory again as
    well.  With the flag [stale] a process may grow the memory from a size that is out
    of date, which can shrink it; sizes and claims are bounded without it only.  The
    theorems say that whatever the processes do the two blocks stay together, that a
    handle is usable until it is closed, and that its calls, closing above all, return;
    the last one is about a claim that survives the process that made it.
    File [Growth] goes on from here. *)

From S2P Require Import Prelude Errors Pthread Platform Claims Common Names World SharedMemory Memory Machine Regions Lifecycle Handles Processes Sharing Opening Remapping.

Section memories.
Context {E : Env}.
Abbreviation clients := (machine (option ipm_memory)).
Implicit Types (w : world) (k : clients) (p : process (option ipm_memory)) (pid : Z) (m : ipm_memory) (ob : shm_object).

(** ** Closing one of several handles *)

Definition dropped ob : shm_object :=
  set_so_header (set_refcount (wrap32 (refcount (so_header ob) - 1)) (so_header ob)) ob.

Lemma both_with_list w m o1 ob1 o2 ob2 l :
  both_blocks w m o1 ob1 o2 ob2 -> o1 <> o2 -> both_blocks (with_list w o1 ob1 (w_thread w) l) m o1 (set_so_list l ob1) o2 ob2.
Proof.
  intros [Hc Hd Hf Hpg] Hne. split; [| |done|done].
  - eapply block_in_same; [exact Hc|done..| |done|done]. apply lookup_insert_eq.
  - eapply block_in_same; [exact Hd|done..| |done|done]. cbn. rewrite lookup_insert_ne by done. apply (bi_header _ _ _ _ Hd).
Qed.

Lemma memory_close_shared_run nd m w o1 ob1 o2 ob2 :
  usable w m o1 ob1 -> both_blocks w m o1 ob1 o2 ob2 -> o1 <> o2 ->
  refcount (so_header ob1) <> 1 -> refcount (so_header ob2) <> 1 -> count (so_list ob1) < 2 ^ 31 ->
  nd = true \/ count (so_list ob1) < capacity (so_list ob1) ->
  exists l' w', ipm_memory_close nd m w = Ret tt w' /\
    ready l' /\ capacity l' = capacity (so_list ob1) /\ count l' <= count (so_list ob1) /\
    claims l' ⊆ claims (so_list ob1) /\ w_names w' = w_names w /\
    w_objs w' = <[o2 := dropped ob2]> (<[o1 := dropped (set_so_list l' ob1)]> (w_objs w)) /\
    w_pages w' = closed_pages (real_memory m) (block_size (so_header ob2))
                   (closed_pages (active_claims m) (block_size (so_header ob1)) (w_pages w)).
Proof.
  intros Hu Hb Hne Hr1 Hr2 Hmax Hnd.
  destruct (memory_release_all_run nd m w o1 ob1 Hu Hmax Hnd) as (l' & Hrel & Hrdy & Hcap & _ & _ & Hcnt & Hslots & _).
  pose proof (both_with_list _ _ _ _ _ _ l' Hb Hne) as Hb1. set (w1 := with_list w o1 ob1 (w_thread w) l') in *.
  pose proof (cleaned_keeps_data _ _ _ _ _ _ Hb1) as Hd.
  unfold ipm_memory_close. erewrite bind_Ret by exact Hrel.
  erewrite bind_Ret by (by apply (close_shared_run _ _ _ _ _ _ _ (bb_claims _ _ _ _ _ _ Hb1))).
  erewrite bind_Ret.
  2:{ eapply close_shared_run; [|exact Hr2]. eapply block_in_same; [exact Hd|done..| |done|done].
      cbn. rewrite !lookup_insert_ne by done. apply (bi_header _ _ _ _ (bb_data _ _ _ _ _ _ Hb)). }
  match goal with |- context [ipm_release ?c ?q ?w2] => destruct (free_run c q w2) as (t & u & Hr & _) end.
  rewrite Hr. eexists l', _. split; [reflexivity|]. split_and!; try done. cbn. by rewrite insert_insert_eq.
Qed.

(** ** New handles *)

Lemma alone_handle w m o1 ob1 o2 ob2 :
  alone w m o1 ob1 o2 ob2 -> data_mapped w m o2 -> handle_in w m o1 ob1 o2 ob2.
Proof. intros [[Hl Hn _ _] [Hc _ _ _] [Hd _ _ _] _ _ Hf Hp] Hdm. by split. Qed.

(** The data block of a memory that was created now. *)
Lemma created_data_mapped {L : EnvLaws E} w c size n name access this a1 a2 a3 a4 :
  block_pages (round_size size) n ->
  create_places w claim_size a1 a2 IPM_ACCESS_MODE_READ_WRITE ->
  create_places (claims_ready w name a1 a2) (round_size size) a3 a4 access ->
  data_mapped (memory_world w size name access a1 a2 a3 a4) (created_memory w c size name access this a1 a2 a3 a4)
    (fresh_object (w_objs (claims_ready w name a1 a2))).
Proof.
  intros Hpg Hpl1 Hpl2. destruct (block_pages_pos _ _ Hpg) as [Hpos Hk]. pose proof Hpg as (_ & Hn0 & _).
  destruct (new_pages_free w size n name access a1 a2 a3 a4 Hpg Hpl1 Hpl2) as (_ & _ & _ & _ & H12 & H41 & H42).
  pose proof (claims_ready_list w name a1 a2 Hpl1) as [_ Hp1 _ _].
  pose proof (claims_ready_header w name a1 a2 Hpl1) as [_ Hp2 _ _].
  rewrite page_addr_div in Hp1, Hp2. destruct Hpl2 as [Hp3 Hp4].
  pose proof (places_disjoint _ _ _ _ _ _ _ _ _ Hp4 ltac:(lia) ltac:(lia)) as Hd.
  apply os_place_free in Hp3 as (_ & _ & Hfree).
  split; [|done|right].
  - cbn. rewrite fd_object_nat. apply lookup_insert_eq.
  - unfold works_with, removes. cbn [created_memory real_memory active_claims created_block b_header b_memory b_size].
    rewrite !page_addr_div. intros i Hi Hin. specialize (Hfree (i - a3) ltac:(lia)).
    replace (a3 + (i - a3)) with i in Hfree by lia. destruct Hi as [->|[->| ->]]; [lia|congruence..].
Qed.

Section opened.
Context {L : EnvLaws E}.
Variables (w : world) (c : ipm_context user) (name : string) (access : ipm_access_mode) (this : Z).
Variables (o1 o2 : nat) (ob1 ob2 : shm_object) (p1 p2 p3 p4 : Z).
Hypothesis Hpl2 : open_places w o2 (block_size (so_header ob2)) p1 p2.
Hypothesis Hpl1 : open_places (opened_world w o2 ob2 p1 p2 access) o1 (block_size (so_header ob1)) p3 p4.
Hypothesis Hb1 : 0 < block_size (so_header ob1).
Hypothesis Hb2 : 0 < block_size (so_header ob2).

Let w1 := opened_world w o2 ob2 p1 p2 access.
Let w2 := opened_world w1 o1 ob1 p3 p4 IPM_ACCESS_MODE_READ_WRITE.
Let m := opened_memory w c name access this o2 ob2 ob1 p1 p2 p3 p4.

Lemma opened_fds_ne : b_mem_fd (active_claims m) <> b_mem_fd (real_memory m) /\ 0 <= b_mem_fd (active_claims m).
Proof using.
  cbn [m opened_memory active_claims real_memory opened_block b_mem_fd]. split; [|lia].
  pose proof (lowest_fd_free (w_fds w1)) as Hfree. intros Heq%Nat2Z.inj. fold w1 in Heq. rewrite Heq in Hfree.
  cbn [w1 opened_world with_header set_obj set_objs set_thread mapped_world w_fds] in Hfree.
  by rewrite lookup_insert_eq in Hfree.
Qed.

(** The claim block is mapped on other pages than the header of the data block. *)
Lemma opened_pages_apart :
  closed_pages (active_claims m) (block_size (so_header ob1)) (w_pages w2)
    !! (b_header (real_memory m) / IPM_MEMORY_PAGE_SIZE) = w_pages w2 !! (b_header (real_memory m) / IPM_MEMORY_PAGE_SIZE).
Proof using Hpl2 Hpl1 Hb2 L.
  assert (0 < pages_of (block_size (so_header ob2))) as Hpg
    by (apply Z.div_str_pos; unfold IPM_MEMORY_PAGE_SIZE; lia).
  destruct Hpl1 as [Hp3 Hp4]. pose proof (places_free _ _ _ _ _ _ _ _ _ Hp4) as Hfree4.
  apply os_place_free in Hp3 as (_ & _ & Hfree3).
  assert (exists pg, w_pages w1 !! p1 = Some pg) as [pg Hp1].
  { destruct Hpl2 as [Hq1 Hq2]. cbn [w1 opened_world with_header set_obj set_objs set_thread mapped_world w_pages].
    rewrite !lookup_map_pages. case_decide; [by eexists|]. rewrite decide_True by lia. by eexists. }
  unfold closed_pages. cbn [m opened_memory active_claims real_memory opened_block b_header b_memory].
  rewrite !page_addr_div, !lookup_unmap_pages, !decide_False; [done|..]; intros Hin.
  - specialize (Hfree4 (p1 - p4) ltac:(lia)). replace (p4 + (p1 - p4)) with p1 in Hfree4 by lia. fold w1 in Hfree4. congruence.
  - specialize (Hfree3 (p1 - p3) ltac:(lia)). replace (p3 + (p1 - p3)) with p1 in Hfree3 by lia. fold w1 in Hfree3. congruence.
Qed.

Lemma opened_data_mapped : data_mapped w2 m o2.
Proof using Hpl2 Hpl1 Hb1 Hb2 L.
  destruct opened_fds_ne as [Hne _].
  assert (0 < pages_of (block_size (so_header ob2))) as Hpg2 by (apply Z.div_str_pos; unfold IPM_MEMORY_PAGE_SIZE; lia).
  assert (0 < pages_of (block_size (so_header ob1))) as Hpg1 by (apply Z.div_str_pos; unfold IPM_MEMORY_PAGE_SIZE; lia).
  split; [|done|right].
  - cbn [m opened_memory active_claims real_memory opened_block b_mem_fd] in *. rewrite fd_object_nat.
    fold w1 in Hne. cbn [w2 w1 opened_world with_header set_obj set_objs set_thread mapped_world w_fds] in *.
    rewrite lookup_insert_ne by lia. apply lookup_insert_eq.
  - unfold works_with, removes. cbn [m opened_memory real_memory active_claims opened_block b_header b_memory b_size].
    rewrite !page_addr_div. intros i Hi Hin. destruct Hpl2 as [Hp1 Hp2], Hpl1 as [Hp3 Hp4].
    pose proof (places_disjoint _ _ _ _ _ _ _ _ _ Hp2 ltac:(lia) ltac:(lia)) as H12.
    assert (exists pg, w_pages w1 !! i = Some pg) as [pg Hpg].
    { cbn [w1 opened_world with_header set_obj set_objs set_thread mapped_world w_pages].
      rewrite lookup_map_pages, decide_True by lia. by eexists. }
    pose proof (places_free _ _ _ _ _ _ _ _ _ Hp4) as Hfree4. apply os_place_free in Hp3 as (_ & _ & Hfree3).
    destruct Hi as [->|[->| ->]]; [lia|..].
    + specialize (Hfree3 0 ltac:(lia)). rewrite Z.add_0_r in Hfree3. fold w1 in Hfree3. congruence.
    + specialize (Hfree4 0 ltac:(lia)). rewrite Z.add_0_r in Hfree4. fold w1 in Hfree4. congruence.
Qed.
End opened.

(** ** The machine *)

Section machine.
Variables (nd stale : bool) (name : string).

Definition claims_name : string := object_name name IPM_MEMORY_BLOCK_ACTIVE_CALIMS.
Definition data_name : string := object_name name IPM_MEMORY_BLOCK_REAL_MEMORY.

(** The list of active claims, if the memory exists. *)
Definition claim_list_of k : option ipm_claim_list :=
  o ← k_names k !! claims_name; ob ← k_objs k !! o; Some (so_list ob).

(** The size of the memory, if it exists, as its header records it. *)
Definition memory_size_of k : option Z :=
  o ← k_names k !! data_name; ob ← k_objs k !! o; Some (block_size (so_header ob)).

(** What the allocation of a handle returns and leaves. *)
Definition allocates c (line : Z) (func : string) (this : Z) (t : thread) (u : user) w : Prop :=
  ipm_alloc c sizeof_memory (in_mem line func) w = Ret this (set_user u (set_thread t w)) /\
  same_thread (w_thread w) t /\ this <> NULL.

(** One call by one process.  The premises beside the run say that nothing is
    scheduled to fail and no other process acts during the call, that the kernel finds
    room for the mappings and whole pages can be asked for, that nothing is mapped at
    the bottom of the address space when a memory whose pointer is null is mapped again
    ([bottom_free]), that the counters do not wrap around, and of the user that
    identifiers that are released are active, that a region that is claimed is not
    empty and the list of claims never fills up in a build with assertions.  With
    [stale] any size can be asked for when a memory is grown, as [ipm_memory_resize_grow]
    compares it with the caller's handle only; without it no process asks for less
    than the memory has by then. *)
Inductive mem_step : clients -> clients -> Prop :=
| mem_create pid p c size n access this t u a1 a2 a3 a4 m w k :
    k_procs k !! pid = Some p -> p_local p = None -> create_request size n name (view k p) ->
    allocates c 31 "ipm_memory_create" this t u (view k p) ->
    create_places (allocated (view k p) t u) claim_size a1 a2 IPM_ACCESS_MODE_READ_WRITE ->
    create_places (claims_ready (allocated (view k p) t u) name a1 a2) (round_size size) a3 a4 access ->
    ipm_memory_create nd c size name access (view k p) = Ret (IPM_RESULT_SUCCESS, Some m) w ->
    mem_step k (acted pid w (Some m) k)
| mem_open pid p c access this t u o2 ob2 o1 ob1 a1 a2 a3 a4 m w k :
    k_procs k !! pid = Some p -> p_local p = None -> open_request name (view k p) ->
    allocates c 89 "ipm_memory_open" this t u (view k p) ->
    k_names k !! data_name = Some o2 -> k_objs k !! o2 = Some ob2 ->
    k_names k !! claims_name = Some o1 -> k_objs k !! o1 = Some ob1 ->
    refcount (so_header ob2) + 1 < u32_mod -> id_counter (so_header ob2) + 1 < u64_mod ->
    open_places (allocated (view k p) t u) o2 (block_size (so_header ob2)) a1 a2 ->
    open_places (opened_world (allocated (view k p) t u) o2 ob2 a1 a2 access) o1 (block_size (so_header ob1)) a3 a4 ->
    ipm_memory_open nd [] [] c name access (view k p) = Ret (IPM_RESULT_SUCCESS, Some m) w ->
    mem_step k (acted pid w (Some m) k)
| mem_open_refused pid p c access this t u r w k :
    k_procs k !! pid = Some p -> p_local p = None -> open_request name (view k p) ->
    allocates c 89 "ipm_memory_open" this t u (view k p) -> k_names k !! data_name = None ->
    ipm_memory_open nd [] [] c name access (view k p) = Ret (r, None) w ->
    mem_step k (acted pid w None k)
| mem_close pid p m w k :
    k_procs k !! pid = Some p -> p_local p = Some m -> t_faults (p_thread p) = [] ->
    ipm_memory_close nd m (view k p) = Ret tt w -> mem_step k (acted pid w None k)
| mem_claim pid p m a off n r w k :
    k_procs k !! pid = Some p -> p_local p = Some m -> t_faults (p_thread p) = [] -> nd = true \/ 0 < n ->
    (forall l, claim_list_of k = Some l -> nd = true \/ count l + 1 < capacity l) ->
    ipm_memory_claim_region nd [] m a off n (view k p) = Ret r w -> mem_step k (acted pid w (Some m) k)
| mem_release pid p m id l r w k :
    k_procs k !! pid = Some p -> p_local p = Some m -> t_faults (p_thread p) = [] ->
    claim_list_of k = Some l -> id ∈ map claim_id (visible l) ->
    ipm_memory_release_region nd m id (view k p) = Ret r w -> mem_step k (acted pid w (Some m) k)
| mem_release_all pid p m r w k :
    k_procs k !! pid = Some p -> p_local p = Some m -> t_faults (p_thread p) = [] ->
    ipm_memory_release_all nd m (view k p) = Ret r w -> mem_step k (acted pid w (Some m) k)
| mem_remove_all pid p m r w k :
    k_procs k !! pid = Some p -> p_local p = Some m -> t_faults (p_thread p) = [] ->
    ipm_memory_remove_all_active_claims nd m (view k p) = Ret r w -> mem_step k (acted pid w (Some m) k)
| mem_grow pid p m n j r m' w k :
    k_procs k !! pid = Some p -> p_local p = Some m -> t_faults (p_thread p) = [] -> bottom_free (view k p) m ->
    stale = true \/ (forall size, memory_size_of k = Some size -> size <= round_size n) -> block_pages (round_size n) j ->
    is_Some (place (view k p) m (round_size n)) ->
    ipm_memory_resize_grow nd m n (view k p) = Ret (r, m') w -> mem_step k (acted pid w (Some m') k)
| mem_grow_refused pid p m n r m' w k :
    k_procs k !! pid = Some p -> p_local p = Some m -> round_size n < b_size (real_memory m) ->
    ipm_memory_resize_grow nd m n (view k p) = Ret (r, m') w -> mem_step k (acted pid w (Some m') k)
| mem_change_access pid p m access r m' w k :
    k_procs k !! pid = Some p -> p_local p = Some m -> t_faults (p_thread p) = [] -> bottom_free (view k p) m ->
    (forall size, memory_size_of k = Some size -> is_Some (place (view k p) m size)) ->
    ipm_memory_change_access m access (view k p) = Ret (r, m') w -> mem_step k (acted pid w (Some m') k)
| mem_sync pid p m r m' w k :
    k_procs k !! pid = Some p -> p_local p = Some m -> t_faults (p_thread p) = [] -> bottom_free (view k p) m ->
    (forall size, memory_size_of k = Some size -> is_Some (place (view k p) m size)) ->
    ipm_memory_sync m (view k p) = Ret (r, m') w -> mem_step k (acted pid w (Some m') k).

Inductive mem_reachable : clients -> Prop :=
| mem_initial k :
    k_names k !! claims_name = None -> k_names k !! data_name = None ->
    (forall pid p, k_procs k !! pid = Some p -> p_local p = None) -> mem_reachable k
| mem_next k k' : mem_reachable k -> mem_step k k' -> mem_reachable k'.

(** *** The state of the memory *)

Record block_shared k (id : Z) (o : nat) ob : Prop := {
  sb_name : k_names k !! object_name name id = Some o;
  sb_obj : k_objs k !! o = Some ob;
  sb_size : 0 < so_size ob;
  sb_block_size : 0 < block_size (so_header ob);
  sb_id : block_id (so_header ob) = id;
  sb_stored : hdr_block_name (so_header ob) = name;
  sb_mutex : segment_mutex (so_header ob) = mutex_of Free;
  sb_refs : refcount (so_header ob) = Z.of_nat (base.size (users k));
  sb_width : refcount (so_header ob) < u32_mod
}.

(** The list of claims between calls. *)
Definition list_ok (l : ipm_claim_list) : Prop :=
  ready l /\ capacity l = real_claim_capacity /\ (nd = true \/ count l < capacity l).

(** A region that was checked against a handle's size lies in a memory of [b] bytes. *)
Definition claim_inside (b : Z) (c : ipm_memory_claim) : Prop := wrap64 (offset c + size c) <= b.

(** The data block is as long as its header says; and, unless it can shrink, the claims
    are on what there is of it, those in the spare slots of the list included. *)
Record whole (l : ipm_claim_list) ob2 : Prop := {
  wh_size : so_size ob2 = IPM_MEMORY_PAGE_SIZE + block_size (so_header ob2);
  wh_claims : stale = false -> Forall (claim_inside (block_size (so_header ob2))) (claims l)
}.

Lemma whole_sub l l' ob2 : whole l ob2 -> claims l' ⊆ claims l -> whole l' ob2.
Proof.
  intros [Hs Hc] Hsub. split; [done|]. intros Hst. specialize (Hc Hst). rewrite Forall_forall in *. eauto.
Qed.

Lemma whole_grown l ob2 ob2' :
  whole l ob2 -> (stale = false -> block_size (so_header ob2) <= block_size (so_header ob2')) ->
  so_size ob2' = IPM_MEMORY_PAGE_SIZE + block_size (so_header ob2') -> whole l ob2'.
Proof.
  intros [_ Hc] Hb Hs. split; [done|]. intros Hst. specialize (Hb Hst).
  eapply Forall_impl; [exact (Hc Hst)|]. unfold claim_inside. intros c Hin. lia.
Qed.

Record memory_state k (o1 : nat) ob1 (o2 : nat) ob2 : Prop := {
  ms_claims : block_shared k IPM_MEMORY_BLOCK_ACTIVE_CALIMS o1 ob1;
  ms_data : block_shared k IPM_MEMORY_BLOCK_REAL_MEMORY o2 ob2;
  ms_objects : o1 <> o2;
  ms_large : IPM_MEMORY_PAGE_SIZE < so_size ob1 /\ block_size (so_header ob1) = claim_size;
  ms_list : list_ok (so_list ob1);
  ms_whole : whole (so_list ob1) ob2;
  ms_counter : 0 <= id_counter (so_header ob2);
  ms_handles : forall pid p m, k_procs k !! pid = Some p -> p_local p = Some m ->
    handle_in (view k p) m o1 ob1 o2 ob2 /\ b_access_id (real_memory m) < id_counter (so_header ob2);
  ms_distinct : forall pid qid p q m m', pid <> qid -> k_procs k !! pid = Some p -> k_procs k !! qid = Some q ->
    p_local p = Some m -> p_local q = Some m' -> b_access_id (real_memory m) <> b_access_id (real_memory m');
  ms_sizes : forall pid p m, k_procs k !! pid = Some p -> p_local p = Some m -> stale = false ->
    b_size (real_memory m) <= block_size (so_header ob2)
}.

Inductive memories k : Prop :=
| memory_in_use o1 ob1 o2 ob2 : users k <> ∅ -> memory_state k o1 ob1 o2 ob2 -> memories k
| memory_unused : users k = ∅ -> k_names k !! claims_name = None -> k_names k !! data_name = None -> memories k.

(** *** Preservation *)

Lemma users_same k pid p m m' w : k_procs k !! pid = Some p -> p_local p = Some m -> users (acted pid w (Some m') k) = users k.
Proof using.
  intros Hp Hm. rewrite users_acted_some. apply subseteq_union_1_L, singleton_subseteq_l, elem_of_users. eauto.
Qed.

Section acted.
Context {k : clients} {o1 o2 : nat} {ob1 ob2 : shm_object}.
Hypothesis Hst : memory_state k o1 ob1 o2 ob2.

Lemma block_shared_acted id o ob ob' pid w r :
  block_shared k id o ob -> w_names w = k_names k -> w_objs w !! o = Some ob' -> kept ob ob' ->
  refcount (so_header ob') = Z.of_nat (base.size (users (acted pid w r k))) -> refcount (so_header ob') < u32_mod ->
  block_shared (acted pid w r k) id o ob'.
Proof using.
  intros [Hn _ Hs Hb Hi Hnm Hm _ _] Hnames Ho [Hks Hkb Hki Hkn Hkm] Hr Hw. split; try done.
  - cbn. by rewrite Hnames.
  - by apply Hks.
  - by apply Hkb.
  - by rewrite Hki.
  - by rewrite Hkn.
  - by rewrite Hkm.
Qed.

(** What a call may do to the memory, whoever makes it.  A handle that appears has a
    new access identifier. *)
Lemma acted_memory pid p w r ob1' ob2' :
  k_procs k !! pid = Some p -> w_names w = k_names k ->
  w_objs w !! o1 = Some ob1' -> w_objs w !! o2 = Some ob2' -> kept ob1 ob1' -> kept ob2 ob2' ->
  so_size ob1' = so_size ob1 -> block_size (so_header ob1') = block_size (so_header ob1) ->
  (stale = false -> block_size (so_header ob2) <= block_size (so_header ob2')) -> whole (so_list ob1') ob2' ->
  refcount (so_header ob1') = Z.of_nat (base.size (users (acted pid w r k))) ->
  refcount (so_header ob2') = Z.of_nat (base.size (users (acted pid w r k))) ->
  refcount (so_header ob2') < u32_mod -> list_ok (so_list ob1') ->
  id_counter (so_header ob2) <= id_counter (so_header ob2') ->
  (forall m, r = Some m -> handle_in w m o1 ob1' o2 ob2' /\ b_access_id (real_memory m) < id_counter (so_header ob2') /\
     ((exists m0, p_local p = Some m0 /\ b_access_id (real_memory m0) = b_access_id (real_memory m)) \/
      id_counter (so_header ob2) <= b_access_id (real_memory m)) /\
     (stale = false -> b_size (real_memory m) <= block_size (so_header ob2'))) ->
  memory_state (acted pid w r k) o1 ob1' o2 ob2'.
Proof using Hst.
  intros Hp Hn H1 H2 Hk1 Hk2 Hes Heq Hle Hwh Hr1 Hr2 Hw Hl Hc Hm. destruct Hst as [Hs1 Hs2 Hne Hlg _ _ H0 Hh Hd Hsz].
  split; try done.
  - eapply block_shared_acted; [exact Hs1|done..|]. by rewrite Hr1, <- Hr2.
  - by eapply block_shared_acted.
  - by rewrite Hes, Heq.
  - lia.
  - intros qid q m Hq Hqm. destruct (acted_other _ _ _ _ _ _ _ Hq Hqm) as [(-> & -> & ->)|[_ Hq']].
    + destruct (Hm m eq_refl) as (? & ? & _). done.
    + destruct (Hh _ _ _ Hq' Hqm) as [Hhm Hid]. split; [by eapply handle_in_same|lia].
  - intros qid qid' q q' m m' Hneq Hq Hq' Hqm Hqm'.
    destruct (acted_other _ _ _ _ _ _ _ Hq Hqm) as [(-> & Hr & _)|[Hne1 Hq1]];
    destruct (acted_other _ _ _ _ _ _ _ Hq' Hqm') as [(-> & Hr' & _)|[Hne2 Hq2]]; try done.
    + destruct (Hm m Hr) as (_ & _ & [(m0 & Hm0 & <-)|Hge] & _); [by apply (Hd pid qid' p q' m0 m')|].
      destruct (Hh _ _ _ Hq2 Hqm'). lia.
    + destruct (Hm m' Hr') as (_ & _ & [(m0 & Hm0 & <-)|Hge] & _); [by apply (Hd qid pid q p m m0)|].
      destruct (Hh _ _ _ Hq1 Hqm). lia.
    + by apply (Hd qid qid' q q').
  - intros qid q m Hq Hqm Hnst. destruct (acted_other _ _ _ _ _ _ _ Hq Hqm) as [(_ & Hr & _)|[_ Hq']].
    + destruct (Hm m Hr) as (_ & _ & _ & Hb). by apply Hb.
    + specialize (Hsz _ _ _ Hq' Hqm Hnst). specialize (Hle Hnst). lia.
Qed.

(** A call on the claim list. *)
Lemma listed_memory pid p m l w :
  k_procs k !! pid = Some p -> p_local p = Some m -> list_ok l -> whole l ob2 ->
  w_names w = k_names k -> w_objs w = <[o1 := set_so_list l ob1]> (k_objs k) ->
  w_pages w = p_pages p -> w_fds w = p_fds p ->
  memory_state (acted pid w (Some m) k) o1 (set_so_list l ob1) o2 ob2.
Proof using Hst.
  intros Hp Hm Hl Hwh Hn Ho Hpg Hf. pose proof Hst as [[_ _ _ _ _ _ _ Hr1 Hw1] [_ Ho2 _ _ _ _ _ Hr2 Hw2] Hne _ _ _ _ Hh _].
  destruct (Hh _ _ _ Hp Hm) as [Hhm Hid].
  assert (w_objs w !! o1 = Some (set_so_list l ob1)) as H1 by (rewrite Ho; apply lookup_insert_eq).
  assert (w_objs w !! o2 = Some ob2) as H2 by (rewrite Ho, lookup_insert_ne by done; exact Ho2).
  apply (acted_memory pid p); try done; try (by erewrite users_same).
  intros m' [= <-]. split; [by eapply handle_in_same|]. split; [done|]. split; [left; by exists m|].
  intros Hnst. by apply (ms_sizes _ _ _ _ _ Hst _ _ _ Hp Hm).
Qed.

Lemma handle_ready pid p m :
  k_procs k !! pid = Some p -> p_local p = Some m -> t_faults (p_thread p) = [] -> usable (view k p) m o1 ob1.
Proof using Hst.
  intros Hp Hm Hf. destruct Hst as [_ _ _ _ [Hr _] _ _ Hh _]. destruct (Hh _ _ _ Hp Hm) as [Hhm _].
  by eapply handle_usable.
Qed.

Lemma claim_list_of_in : claim_list_of k = Some (so_list ob1).
Proof using Hst.
  destruct Hst as [[Hn Ho _ _ _ _ _ _ _] _ _ _ _ _ _ _ _]. unfold claim_list_of, claims_name. rewrite Hn. simpl.
  by rewrite Ho.
Qed.

Lemma list_ok_bounds : count (so_list ob1) < 2 ^ 31 /\ (nd = true \/ count (so_list ob1) < capacity (so_list ob1)).
Proof using Hst.
  destruct Hst as [_ _ _ _ (Hr & Hcap & Hnd) _ _ _ _]. split; [|done]. destruct Hr as [[Hc _ _] _].
  rewrite Hcap in Hc. change real_claim_capacity with 99 in Hc. lia.
Qed.
End acted.

Section invariant.
Context {L : EnvLaws E}.
Hypothesis Hname : Z.of_nat (String.length name) <= IPM_MAX_NAME_LEN.

Lemma shared_header_name k id o ob : block_shared k id o ob -> header_name ob = object_name name id.
Proof. intros [_ _ _ _ Hi Hn _ _ _]. unfold header_name. by rewrite Hi, Hn. Qed.

Lemma memory_alone k o1 ob1 o2 ob2 pid p m :
  memory_state k o1 ob1 o2 ob2 -> k_procs k !! pid = Some p -> p_local p = Some m -> t_faults (p_thread p) = [] ->
  base.size (users k) = 1%nat -> alone (view k p) m o1 ob1 o2 ob2.
Proof.
  intros Hst Hp Hm Hf H1. pose proof (handle_ready Hst _ _ _ Hp Hm Hf) as Hu.
  destruct Hst as [Hs1 Hs2 Hne _ _ _ _ Hh _]. destruct (Hh _ _ _ Hp Hm) as [[[Hc Hd Hfd Hpg] _ _ _] _].
  pose proof (shared_header_name _ _ _ _ Hs1) as Hn1. pose proof (shared_header_name _ _ _ _ Hs2) as Hn2.
  pose proof Hs1 as [Hk1 _ _ _ _ _ Hm1 Hr1 _]. pose proof Hs2 as [Hk2 _ _ _ _ _ Hm2 Hr2 _].
  split; try done.
  - split; [done|by rewrite Hr1, H1|done|]. fold (header_name ob1). rewrite Hn1. by exists o1.
  - split; [done|by rewrite Hr2, H1|done|]. fold (header_name ob2). rewrite Hn2. by exists o2.
  - rewrite Hn1, Hn2. by apply object_names_differ.
Qed.

(** Closing returns; the last handle takes both names with it. *)
Lemma closed_memory k pid p m :
  memories k -> k_procs k !! pid = Some p -> p_local p = Some m -> t_faults (p_thread p) = [] ->
  exists w o1 ob1 o2 ob2, ipm_memory_close nd m (view k p) = Ret tt w /\ memories (acted pid w None k) /\
    memory_state k o1 ob1 o2 ob2 /\
    w_pages w = closed_pages (real_memory m) (block_size (so_header ob2))
                  (closed_pages (active_claims m) (block_size (so_header ob1)) (p_pages p)).
Proof using Hname.
  intros Hk Hp Hm Hf. assert (pid ∈ users k) as Hin by (apply elem_of_users; eauto).
  destruct Hk as [o1 ob1 o2 ob2 _ Hst|Hu _ _]; [|rewrite Hu in Hin; by apply not_elem_of_empty in Hin].
  destruct (list_ok_bounds Hst) as [Hmax Hnd]. pose proof (users_left pid k Hin) as Hleft.
  pose proof (ms_claims _ _ _ _ _ Hst) as Hs1. pose proof (ms_data _ _ _ _ _ Hst) as Hs2.
  pose proof Hs1 as [_ Ho1 _ _ _ _ _ Hr1 Hw1]. pose proof Hs2 as [_ Ho2 _ _ _ _ _ Hr2 Hw2].
  destruct (decide (base.size (users k) = 1%nat)) as [H1|H1].
  - pose proof (memory_alone _ _ _ _ _ _ _ _ Hst Hp Hm Hf H1) as Hal.
    destruct (memory_close_run nd m (view k p) o1 ob1 o2 ob2 Hal Hmax Hnd) as (w & Hr & Hn & _ & Hpages & _).
    rewrite (shared_header_name _ _ _ _ Hs1), (shared_header_name _ _ _ _ Hs2) in Hn.
    exists w, o1, ob1, o2, ob2. split; [done|]. split; [|by split]. apply memory_unused.
    + rewrite users_acted_none. apply leibniz_equiv, size_empty_inv. lia.
    + cbn [acted k_names]. rewrite Hn, lookup_delete_ne by (by apply not_eq_sym, object_names_differ). apply lookup_delete_eq.
    + cbn [acted k_names]. rewrite Hn. apply lookup_delete_eq.
  - destruct (ms_handles _ _ _ _ _ Hst _ _ _ Hp Hm) as [[Hb _ _ _] _]. pose proof (ms_objects _ _ _ _ _ Hst) as Hne.
    pose proof Hst as [_ _ _ _ (_ & Hcap & _) Hwh _ _ _].
    destruct (memory_close_shared_run nd m (view k p) o1 ob1 o2 ob2 (handle_ready Hst _ _ _ Hp Hm Hf) Hb Hne
      ltac:(lia) ltac:(lia) Hmax Hnd) as (l' & w & Hr & Hrdy & Hcap' & Hcnt & Hslots & Hn & Ho & Hpages).
    exists w, o1, ob1, o2, ob2. split; [done|]. split; [|by split].
    assert (wrap32 (refcount (so_header ob1) - 1) = Z.of_nat (base.size (users k ∖ {[pid]}))) as Hd1
      by (rewrite Hr1, <- Hleft; rewrite wrap32_small; [lia|word]).
    assert (wrap32 (refcount (so_header ob2) - 1) = Z.of_nat (base.size (users k ∖ {[pid]}))) as Hd2
      by (rewrite Hr2, <- Hleft; rewrite wrap32_small; [lia|word]).
    eapply memory_in_use; [|apply (acted_memory Hst pid p w None (dropped (set_so_list l' ob1)) (dropped ob2))]; try done.
    + rewrite users_acted_none. intros H0%(f_equal base.size). rewrite size_empty in H0. lia.
    + rewrite Ho, lookup_insert_ne by done. apply lookup_insert_eq.
    + rewrite Ho. apply lookup_insert_eq.
    + apply (whole_sub (so_list ob1)); [by destruct Hwh; split|done].
    + rewrite users_acted_none. exact Hd1.
    + rewrite users_acted_none. exact Hd2.
    + apply wrap32_range.
    + split; [done|]. split; [simpl; congruence|]. destruct Hnd; [by left|right; simpl; lia].
Qed.

(** A memory that exists is published. *)
Lemma memory_published k id o ob w :
  block_shared k id o ob -> users k <> ∅ -> w_names w = k_names k -> w_objs w = k_objs k -> published w name id o ob.
Proof.
  intros [Hn Ho Hs Hb Hi Hnm _ Hr _] Hu Hwn Hwo. split; try done; [by rewrite Hwn|by rewrite Hwo|].
  rewrite Hr. intros H0. apply Hu. apply leibniz_equiv, size_empty_inv. lia.
Qed.

Lemma opened_memory_state k pid p c access this t u o1 ob1 o2 ob2 a1 a2 a3 a4 m w :
  memory_state k o1 ob1 o2 ob2 -> users k <> ∅ -> k_procs k !! pid = Some p -> p_local p = None ->
  open_request name (view k p) -> allocates c 89 "ipm_memory_open" this t u (view k p) ->
  refcount (so_header ob2) + 1 < u32_mod -> id_counter (so_header ob2) + 1 < u64_mod ->
  open_places (allocated (view k p) t u) o2 (block_size (so_header ob2)) a1 a2 ->
  open_places (opened_world (allocated (view k p) t u) o2 ob2 a1 a2 access) o1 (block_size (so_header ob1)) a3 a4 ->
  ipm_memory_open nd [] [] c name access (view k p) = Ret (IPM_RESULT_SUCCESS, Some m) w ->
  memories (acted pid w (Some m) k).
Proof.
  intros Hst Hu Hp Hm Hreq (Halloc & Hsame & Hthis) Hr Hi Hpl2 Hpl1 Hrun.
  pose proof Hst as [Hs1 Hs2 Hne Hlg Hl Hwh H0 _ _].
  pose proof (memory_published _ _ _ _ (view k p) Hs1 Hu eq_refl eq_refl) as Hpub1.
  pose proof (memory_published _ _ _ _ (view k p) Hs2 Hu eq_refl eq_refl) as Hpub2.
  rewrite (memory_open_run nd [] [] c name access (view k p) this t u Hreq Halloc Hsame Hthis o2 ob2 o1 ob1 a1 a2 a3 a4
    Hpub2 Hpub1 Hne Hpl2 Hpl1) in Hrun. injection Hrun as <- <-.
  destruct (memory_opened_usable c name access (view k p) this t u Hreq Halloc Hsame Hthis o2 ob2 o1 ob1 a1 a2 a3 a4 Hpub2 Hpub1 Hne Hpl2 Hpl1
    (proj1 Hlg) (proj1 Hl)) as ([Hlm Hnull _ _] & Hc & Hd).
  set (w := opened_world _ _ _ a3 a4 _) in *. set (m := opened_memory _ _ _ _ _ _ _ _ _ _ _ _) in *.
  pose proof Hs1 as [_ Ho1 _ _ _ _ _ Hr1 Hw1]. pose proof Hs2 as [_ Ho2 _ Hb2 _ _ _ Hr2 Hw2].
  assert (base.size (users (acted pid w (Some m) k)) = S (base.size (users k))) as Hus
    by (rewrite users_acted_some; apply users_joined; by eapply not_user).
  eapply memory_in_use; [rewrite users_acted_some; set_solver|].
  apply (acted_memory Hst pid p w (Some m) (set_so_header (opened_header (so_header ob1)) ob1)
    (set_so_header (opened_header (so_header ob2)) ob2)); try done.
  - apply lookup_insert_eq.
  - cbn. rewrite lookup_insert_ne by done. apply lookup_insert_eq.
  - by destruct Hwh; split.
  - rewrite Hus. cbn. rewrite Hr1, wrap32_small by word. lia.
  - rewrite Hus. cbn. rewrite Hr2, wrap32_small by word. lia.
  - apply wrap32_range.
  - cbn. rewrite wrap64_small by word. lia.
  - intros m' [= <-]. split.
    + split; [|done|done|exact (opened_data_mapped (allocated (view k p) t u) c name access this o1 o2 ob1 ob2 a1 a2 a3 a4
        Hpl2 Hpl1 ltac:(apply Hs1) Hb2)].
      split; [done|done|by apply opened_fds_ne|exact (opened_pages_apart _ c name access this o1 o2 ob1 ob2 a1 a2 a3 a4 Hpl2 Hpl1 Hb2)].
    + cbn. rewrite wrap64_small by word. split; [lia|]. split; [right; lia|done].
Qed.

(** A new memory, whose creator has the only handle. *)
Lemma created_memory_state k pid p c size n access this t u a1 a2 a3 a4 m w :
  users k = ∅ -> k_procs k !! pid = Some p -> create_request size n name (view k p) ->
  allocates c 31 "ipm_memory_create" this t u (view k p) ->
  create_places (allocated (view k p) t u) claim_size a1 a2 IPM_ACCESS_MODE_READ_WRITE ->
  create_places (claims_ready (allocated (view k p) t u) name a1 a2) (round_size size) a3 a4 access ->
  ipm_memory_create nd c size name access (view k p) = Ret (IPM_RESULT_SUCCESS, Some m) w ->
  memories (acted pid w (Some m) k).
Proof.
  intros Hu Hp Hreq (Halloc & Hsame & Hthis) Hpl1 Hpl2 Hrun.
  rewrite (memory_create_run nd c size n name access (view k p) this t u a1 a2 a3 a4 Hreq Halloc Hsame Hthis Hpl1 Hpl2) in Hrun.
  injection Hrun as <- <-. fold (allocated (view k p) t u). destruct Hreq as [Hpg Hsz _ Hlen Hnc Hnd Hf].
  assert (t_faults (w_thread (allocated (view k p) t u)) = []) as Hf1 by (destruct Hsame as [_ Hft]; cbn; congruence).
  pose proof (new_memory_alone (allocated (view k p) t u) c size n name access this a1 a2 a3 a4 Hf1 Hlen Hpg Hpl1 Hpl2 Hnc) as Hal.
  set (w := memory_world _ _ _ _ _ _ _ _) in *. set (m := created_memory _ _ _ _ _ _ _ _ _ _) in *.
  assert (users (acted pid w (Some m) k) = {[pid]}) as Hu' by (rewrite users_acted_some, Hu; apply (right_id_L ∅ (∪))).
  pose proof (created_data_mapped (allocated (view k p) t u) c size n name access this a1 a2 a3 a4 Hpg Hpl1 Hpl2) as Hdm.
  pose proof (alone_handle _ _ _ _ _ _ Hal Hdm) as Hh. destruct (block_pages_pos _ _ Hpg) as [Hpos _].
  assert (forall q pq m', k_procs (acted pid w (Some m) k) !! q = Some pq -> p_local pq = Some m' ->
    q = pid /\ m' = m /\ view (acted pid w (Some m) k) pq = w) as Honly.
  { intros q pq m' Hq Hm'. destruct (acted_other _ _ _ _ _ _ _ Hq Hm') as [(-> & [= ->] & Hv)|[_ Hq']]; [done|].
    assert (q ∈ users k) as Hin by (apply elem_of_users; eauto). rewrite Hu in Hin. by apply not_elem_of_empty in Hin. }
  destruct Hh as [[[[_ _ Ho1 Hs1] _ _ _ Hb1] [[_ _ Ho2 Hs2] _ _ _ Hb2] _ _] [_ _ _ Hlg] _ _].
  lazymatch type of Hal with alone _ _ ?o1 ?b1 ?o2 ?b2 => apply (memory_in_use _ o1 b1 o2 b2) end;
    [rewrite Hu'; apply non_empty_singleton_L|]. split.
  - split; try done; [|by rewrite Hu', size_singleton].
    cbn. rewrite lookup_insert_ne by (by apply not_eq_sym, object_names_differ). apply lookup_insert_eq.
  - split; try done; [|by rewrite Hu', size_singleton]. apply lookup_insert_eq.
  - apply (al_objects _ _ _ _ _ _ Hal).
  - done.
  - split; [|split; [done|by right]]. apply (us_ready _ _ _ _ (al_usable _ _ _ _ _ _ Hal)).
  - split; [cbn; lia|intros _]. change (claims _) with (replicate 99 zero_claim). apply Forall_replicate. unfold claim_inside. change (wrap64 _) with 0. cbn. lia.
  - done.
  - intros q pq m' Hq Hm'. destruct (Honly _ _ _ Hq Hm') as (-> & -> & ->). split; [by apply alone_handle|done].
  - intros q q' pq pq' m1 m2 Hne Hq Hq' H1 H2. destruct (Honly _ _ _ Hq H1) as (-> & _), (Honly _ _ _ Hq' H2) as (-> & _).
    done.
  - intros q pq m' Hq Hm' _. by destruct (Honly _ _ _ Hq Hm') as (_ & -> & _).
Qed.

(** What does not touch the machine but for the process itself. *)
Lemma untouched_memory k pid p w :
  memories k -> k_procs k !! pid = Some p -> untouched (view k p) w -> memories (acted pid w (p_local p) k).
Proof.
  intros Hk Hp [Hn Ho Hf Hpg _]. assert (users (acted pid w (p_local p) k) = users k) as Hu.
  { destruct (p_local p) as [m|] eqn:Hm; [by erewrite users_same|]. rewrite users_acted_none.
    apply difference_disjoint_L, disjoint_singleton_r. by eapply not_user. }
  destruct Hk as [o1 ob1 o2 ob2 Hne Hst|He H1 H2]; [|apply memory_unused; cbn; by rewrite ?Hu, ?Hn].
  pose proof Hst as [[_ Ho1 _ _ _ _ _ Hr1 _] [_ Ho2 _ _ _ _ _ Hr2 Hw2] _ _ Hl Hwh _ Hh _].
  assert (w_objs w !! o1 = Some ob1) as H1 by (by rewrite Ho).
  assert (w_objs w !! o2 = Some ob2) as H2 by (by rewrite Ho).
  eapply memory_in_use; [by rewrite Hu|]. apply (acted_memory Hst pid p w (p_local p) ob1 ob2); rewrite ?Hu; try done.
  intros m Hm. destruct (Hh _ _ _ Hp Hm) as [Hhm Hid]. split; [by eapply handle_in_same|]. split; [done|].
  split; [left; by exists m|]. intros Hnst. by apply (ms_sizes _ _ _ _ _ Hst _ _ _ Hp Hm).
Qed.

(** A call on the claim list that leaves it in order. *)
Lemma list_call_memory k o1 ob1 o2 ob2 pid p m l :
  memory_state k o1 ob1 o2 ob2 -> users k <> ∅ -> k_procs k !! pid = Some p -> p_local p = Some m -> list_ok l -> whole l ob2 ->
  memories (acted pid (with_list (view k p) o1 ob1 (w_thread (view k p)) l) (Some m) k).
Proof.
  intros Hst Hu Hp Hm Hl Hwh. eapply memory_in_use; [by erewrite users_same|].
  eapply (listed_memory Hst); done.
Qed.

Lemma claimed_list_ok tid c l :
  list_ok l -> nd = true \/ count l + 1 < capacity l -> grantable c (asked tid l) = true ->
  list_ok (set_mutex (mutex_of Free) (added c (asked tid l))).
Proof.
  intros (Hr & Hcap & _) Hroom Hg. pose proof (asked_locked tid l Hr) as Hlk. split; [|split].
  - apply (added_ready tid); [done|]. apply (grantable_room c); [apply Hlk|done].
  - done.
  - destruct Hroom; [by left|by right].
Qed.

Lemma claimed_whole tid c l ob2 :
  whole l ob2 -> (stale = false -> claim_inside (block_size (so_header ob2)) c) ->
  whole (set_mutex (mutex_of Free) (added c (asked tid l))) ob2.
Proof.
  intros [Hs Hc] Hin. split; [done|]. intros Hst. specialize (Hc Hst). rewrite Forall_forall in *.
  intros d [->|Hd]%added_slots_from%elem_of_cons; [by apply Hin|by apply Hc].
Qed.

Lemma released_list_ok (i : nat) (l : ipm_claim_list) : list_ok l -> (i < Z.to_nat (count l))%nat -> list_ok (removed i l).
Proof.
  intros ((Hwf & Hm & Hc) & Hcap & Hnd) Hi. split; [|split; [done|]].
  - split_and!; [|done|done]. by apply removed_wf.
  - destruct Hnd; [by left|right; simpl; lia].
Qed.

Lemma reported_untouched w w' : reported w w' -> untouched w w'.
Proof. intros (t & u & -> & Ht). by apply untouched_user. Qed.

(** Calls on the claim list, by a process that has a handle. *)
Section calls.
Context {k : clients} {pid : Z} {p : process (option ipm_memory)} {m : ipm_memory}.
Hypothesis Hk : memories k.
Hypothesis Hp : k_procs k !! pid = Some p.
Hypothesis Hm : p_local p = Some m.
Hypothesis Hf : t_faults (p_thread p) = [].

Lemma called_in_use : users k <> ∅ /\ exists o1 ob1 o2 ob2, memory_state k o1 ob1 o2 ob2 /\ usable (view k p) m o1 ob1.
Proof using Hk Hp Hm Hf Hname L.
  assert (pid ∈ users k) as Hin by (apply elem_of_users; eauto).
  destruct Hk as [o1 ob1 o2 ob2 Hu Hst|Hu _ _]; [|rewrite Hu in Hin; by apply not_elem_of_empty in Hin].
  split; [done|]. exists o1, ob1, o2, ob2. split; [done|by apply (handle_ready Hst pid)].
Qed.

Lemma claim_call a off n r w :
  nd = true \/ 0 < n -> (forall l, claim_list_of k = Some l -> nd = true \/ count l + 1 < capacity l) ->
  ipm_memory_claim_region nd [] m a off n (view k p) = Ret r w -> memories (acted pid w (Some m) k).
Proof using Hk Hp Hm Hf Hname L.
  intros Hn Hroom Hr. destruct called_in_use as (Hu & o1 & ob1 & o2 & ob2 & Hst & Hus). destruct (permitted m a off n) eqn:Hperm.
  - pose proof (claim_region_run nd [] m a off n (view k p) o1 ob1 Hus Hn Hperm ltac:(constructor)) as Hrun. cbv zeta in Hrun.
    cbn [first_grant] in Hrun. destruct (grantable _ _) eqn:Hg; [|destruct Hrun as [w' Hrun]; congruence].
    destruct Hrun as [Hrun _]. rewrite Hr in Hrun. injection Hrun as -> ->. eapply list_call_memory; [done..| |].
    { apply claimed_list_ok; [apply Hst|apply Hroom, (claim_list_of_in Hst)|done]. }
    apply (claimed_whole (t_tid (w_thread (view k p)))); [apply Hst|]. intros Hnst. unfold claim_inside. cbn [request offset size].
    apply andb_true_iff in Hperm as [_ Hle%Z.leb_le]. pose proof (ms_sizes _ _ _ _ _ Hst _ _ _ Hp Hm Hnst). lia.
  - destruct (claim_region_refused nd [] m a off n (view k p) Hn Hperm) as (w' & Hrun & Hrep). rewrite Hr in Hrun.
    injection Hrun as -> ->. rewrite <- Hm. by apply untouched_memory, reported_untouched.
Qed.

Lemma release_call id l r w :
  claim_list_of k = Some l -> id ∈ map claim_id (visible l) ->
  ipm_memory_release_region nd m id (view k p) = Ret r w -> memories (acted pid w (Some m) k).
Proof using Hk Hp Hm Hf Hname L.
  intros Hl Hid Hr. destruct called_in_use as (Hu & o1 & ob1 & o2 & ob2 & Hst & Hus).
  rewrite (claim_list_of_in Hst) in Hl. injection Hl as <-. destruct (list_ok_bounds Hst) as [_ Hnd].
  rewrite (release_region_run nd m id (view k p) o1 ob1 Hus Hnd Hid) in Hr. injection Hr as <- <-.
  eapply list_call_memory; [done..| |].
  - apply released_list_ok; [apply Hst|]. rewrite <- length_visible by apply Hus. by apply rem_pos_lt.
  - apply (whole_sub (so_list ob1)); [apply Hst|apply removed_slots_from].
Qed.

Lemma release_all_call r w : ipm_memory_release_all nd m (view k p) = Ret r w -> memories (acted pid w (Some m) k).
Proof using Hk Hp Hm Hf Hname L.
  intros Hr. destruct called_in_use as (Hu & o1 & ob1 & o2 & ob2 & Hst & Hus). destruct (list_ok_bounds Hst) as [Hmax Hnd].
  destruct (memory_release_all_run nd m (view k p) o1 ob1 Hus Hmax Hnd) as (l' & Hrun & Hrdy & Hcap & _ & _ & Hcnt & Hslots & _).
  rewrite Hr in Hrun. injection Hrun as -> ->.
  eapply list_call_memory; [done..| |apply (whole_sub (so_list ob1)); [apply Hst|done]].
  destruct Hst as [_ _ _ _ (_ & Hc & _) _ _ _ _]. split; [done|]. split; [congruence|]. destruct Hnd; [by left|right; lia].
Qed.

Lemma remove_all_call r w :
  ipm_memory_remove_all_active_claims nd m (view k p) = Ret r w -> memories (acted pid w (Some m) k).
Proof using Hk Hp Hm Hf Hname L.
  intros Hr. destruct called_in_use as (Hu & o1 & ob1 & o2 & ob2 & Hst & Hus). destruct (list_ok_bounds Hst) as [_ Hnd].
  destruct (memory_remove_all_run nd m (view k p) o1 ob1 Hus Hnd) as (l' & Hrun & Hrdy & Hcap & _ & Hv & Hslots).
  rewrite Hr in Hrun. injection Hrun as -> ->.
  eapply list_call_memory; [done..| |apply (whole_sub (so_list ob1)); [apply Hst|done]].
  destruct Hst as [_ _ _ _ (_ & Hc & _) _ _ _ _]. split; [done|]. split; [congruence|]. right.
  pose proof (length_visible l' (proj1 Hrdy)) as Hlen. rewrite Hv in Hlen. simpl in Hlen.
  destruct Hrdy as [[Hcl _ _] _]. rewrite Hcap, Hc in *. change real_claim_capacity with 99 in *. lia.
Qed.

(** Mapping the data block again, after it may have grown. *)
Lemma again_memory o1 ob1 o2 ob2 ob2' access m' w :
  memory_state k o1 ob1 o2 ob2 -> users k <> ∅ -> kept ob2 ob2' ->
  (stale = false -> block_size (so_header ob2) <= block_size (so_header ob2')) ->
  so_size ob2' = IPM_MEMORY_PAGE_SIZE + block_size (so_header ob2') ->
  refcount (so_header ob2') = refcount (so_header ob2) -> id_counter (so_header ob2') = id_counter (so_header ob2) ->
  handle_in (set_obj o2 ob2' (view k p)) m o1 ob1 o2 ob2' -> bottom_free (view k p) m ->
  mapped_again (set_obj o2 ob2' (view k p)) m o2 (block_size (so_header ob2')) access m' w ->
  memories (acted pid w (Some m') k).
Proof using Hp Hm L.
  intros Hst Hu Hk2 Hle Hwh Hrc Hic Hh Hb Hag.
  destruct (mapped_again_handle _ _ _ _ _ _ Hh Hb _ _ _ Hag) as (Hh' & Hn & Ho & Hsz & _ & Hid).
  pose proof Hst as [[_ Ho1 _ _ _ _ _ Hr1 Hw1] [_ Ho2 _ _ _ _ _ Hr2 Hw2] Hne _ Hl _ _ Hhs _].
  destruct (Hhs _ _ _ Hp Hm) as [_ Hidb].
  eapply memory_in_use; [by erewrite users_same|].
  apply (acted_memory Hst pid p w (Some m') ob1 ob2'); try done; try (erewrite users_same by done; congruence).
  - rewrite Ho. cbn. by rewrite lookup_insert_ne.
  - rewrite Ho. apply lookup_insert_eq.
  - eapply whole_grown; [apply (ms_whole _ _ _ _ _ Hst)|done..].
  - by rewrite Hrc.
  - lia.
  - intros m1 [= <-]. split; [done|]. split; [lia|]. split; [left; exists m; by rewrite Hid|lia].
Qed.

Lemma memory_size_of_in o1 ob1 o2 ob2 :
  memory_state k o1 ob1 o2 ob2 -> memory_size_of k = Some (block_size (so_header ob2)).
Proof using.
  intros [_ [Hn Ho _ _ _ _ _ _ _] _ _ _ _ _ _ _]. unfold memory_size_of, data_name. rewrite Hn. simpl. by rewrite Ho.
Qed.

Section remapping_calls.
Hypothesis Hb : bottom_free (view k p) m.

Lemma grow_call n j r m' w :
  stale = true \/ (forall size, memory_size_of k = Some size -> size <= round_size n) -> block_pages (round_size n) j ->
  is_Some (place (view k p) m (round_size n)) ->
  ipm_memory_resize_grow nd m n (view k p) = Ret (r, m') w -> memories (acted pid w (Some m') k).
Proof using Hk Hp Hm Hf Hb Hname L.
  intros Hle Hpg Hpl Hr. destruct called_in_use as (Hu & o1 & ob1 & o2 & ob2 & Hst & Hus).
  pose proof (memory_size_of_in _ _ _ _ Hst) as Hsize. pose proof (wh_size _ _ (ms_whole _ _ _ _ _ Hst)) as Hwh.
  destruct (ms_handles _ _ _ _ _ Hst _ _ _ Hp Hm) as [Hh _]. pose proof (ms_objects _ _ _ _ _ Hst) as Hne.
  destruct (Z.lt_ge_cases (round_size n) (b_size (real_memory m))) as [Hlt|Hge].
  { destruct (resize_grow_refused nd m n (view k p) Hlt) as (w1 & Hr1 & Hrep). rewrite Hr in Hr1. injection Hr1 as -> -> ->.
    rewrite <- Hm. by apply untouched_memory, reported_untouched. }
  assert (nd = true \/ block_size (so_header ob2) <= round_size n) as Hnd.
  { destruct (Z.lt_ge_cases (round_size n) (block_size (so_header ob2))) as [Hlt|]; [|by right].
    destruct nd; [by left|]. rewrite (resize_grow_aborts (view k p) m o1 ob1 o2 ob2 Hh n ltac:(lia)) in Hr. done. }
  destruct (resize_grow_again (view k p) m o1 ob1 o2 ob2 Hh Hf nd n j Hne Hpg Hnd Hge
    (sb_mutex _ _ _ _ (ms_data _ _ _ _ _ Hst)) Hpl) as (m1 & w1 & Hr1 & Hag).
  rewrite Hr in Hr1. injection Hr1 as -> -> ->. destruct (block_pages_pos _ _ Hpg) as [Hpos _].
  eapply (again_memory o1 ob1 o2 ob2 (resized (round_size n) ob2)); try done.
  - by apply resized_kept.
  - rewrite resized_size. intros Hnst. destruct Hle as [?|Hle]; [congruence|by apply Hle].
  - rewrite resized_size. unfold resized. case_decide; cbn; lia.
  - unfold resized. by case_decide.
  - unfold resized. by case_decide.
  - by apply resized_handle.
  - by rewrite resized_size.
Qed.

(** Both calls that only follow the size of the block. *)
Lemma follow_call access m' w o1 ob1 o2 ob2 :
  memory_state k o1 ob1 o2 ob2 -> users k <> ∅ ->
  mapped_again (view k p) m o2 (block_size (so_header ob2)) access m' w -> memories (acted pid w (Some m') k).
Proof using Hp Hm Hb L.
  intros Hst Hu Hag. destruct (ms_handles _ _ _ _ _ Hst _ _ _ Hp Hm) as [Hh _].
  assert (set_obj o2 ob2 (view k p) = view k p) as Hid.
  { unfold set_obj, set_objs. rewrite insert_id by apply (sb_obj _ _ _ _ (ms_data _ _ _ _ _ Hst)). done. }
  eapply (again_memory o1 ob1 o2 ob2 ob2); rewrite ?Hid; try done. apply (wh_size _ _ (ms_whole _ _ _ _ _ Hst)).
Qed.

Lemma change_access_call access r m' w :
  (forall size, memory_size_of k = Some size -> is_Some (place (view k p) m size)) ->
  ipm_memory_change_access m access (view k p) = Ret (r, m') w -> memories (acted pid w (Some m') k).
Proof using Hk Hp Hm Hf Hb Hname L.
  intros Hpl Hr. destruct called_in_use as (Hu & o1 & ob1 & o2 & ob2 & Hst & Hus).
  specialize (Hpl _ (memory_size_of_in _ _ _ _ Hst)). destruct (ms_handles _ _ _ _ _ Hst _ _ _ Hp Hm) as [Hh _].
  destruct (change_access_run (view k p) m o1 ob1 o2 ob2 Hh Hf access Hpl) as (m1 & w1 & Hr1 & Hag).
  rewrite Hr in Hr1. injection Hr1 as -> -> ->. by eapply follow_call.
Qed.

Lemma sync_call r m' w :
  (forall size, memory_size_of k = Some size -> is_Some (place (view k p) m size)) ->
  ipm_memory_sync m (view k p) = Ret (r, m') w -> memories (acted pid w (Some m') k).
Proof using Hk Hp Hm Hf Hb Hname L.
  intros Hpl Hr. destruct called_in_use as (Hu & o1 & ob1 & o2 & ob2 & Hst & Hus).
  specialize (Hpl _ (memory_size_of_in _ _ _ _ Hst)). destruct (ms_handles _ _ _ _ _ Hst _ _ _ Hp Hm) as [Hh _].
  destruct (sync_run (view k p) m o1 ob1 o2 ob2 Hh Hf Hpl) as (m1 & w1 & Hr1 & Hag).
  rewrite Hr in Hr1. injection Hr1 as -> -> ->. by eapply follow_call.
Qed.
End remapping_calls.
End calls.

Lemma mem_step_memories k k' : memories k -> mem_step k k' -> memories k'.
Proof using Hname L.
  intros Hk Hstep.
  destruct Hstep as [pid p c size n access this t u a1 a2 a3 a4 m w k Hp Hm Hreq Hal Hpl1 Hpl2 Hr
    |pid p c access this t u o2 ob2 o1 ob1 a1 a2 a3 a4 m w k Hp Hm Hreq Hal Hn2 Ho2 Hn1 Ho1 Hw Hi Hpl2 Hpl1 Hr
    |pid p c access this t u r w k Hp Hm Hreq (Hal & Hsame & Hthis) Hn Hr|pid p m w k Hp Hm Hf Hr
    |pid p m a off n r w k Hp Hm Hf Hn Hroom Hr|pid p m id l r w k Hp Hm Hf Hl Hid Hr|pid p m r w k Hp Hm Hf Hr|pid p m r w k Hp Hm Hf Hr
    |pid p m n j r m' w k Hp Hm Hf Hb Hle Hpg Hpl Hr|pid p m n r m' w k Hp Hm Hlt Hr
    |pid p m access r m' w k Hp Hm Hf Hb Hpl Hr|pid p m r m' w k Hp Hm Hf Hb Hpl Hr].
  - destruct Hk as [o1 ob1 o2 ob2 Hu Hst|Hu _ _]; [|by eapply created_memory_state].
    exfalso. pose proof (sb_name _ _ _ _ (ms_claims _ _ _ _ _ Hst)) as Hn. pose proof (cr_claims _ _ _ _ Hreq) as Hn'.
    cbn in Hn'. congruence.
  - destruct Hk as [o1' ob1' o2' ob2' Hu Hst|_ Hno _]; [|congruence].
    pose proof Hst as [[Hn1' Ho1' _ _ _ _ _ _ _] [Hn2' Ho2' _ _ _ _ _ _ _] _ _ _ _ _ _ _].
    unfold claims_name, data_name in *. rewrite Hn1 in Hn1'. rewrite Hn2 in Hn2'. injection Hn1' as <-. injection Hn2' as <-.
    rewrite Ho1 in Ho1'. rewrite Ho2 in Ho2'. injection Ho1' as <-. injection Ho2' as <-. by eapply opened_memory_state.
  - destruct (memory_open_no_data nd [] [] c name access (view k p) this t u Hreq Hal Hsame Hthis Hn) as (r' & w' & Hr' & _ & Hu).
    rewrite Hr in Hr'. injection Hr' as <- <-. rewrite <- Hm. by apply untouched_memory.
  - destruct (closed_memory k pid p m Hk Hp Hm Hf) as (w' & o1 & ob1 & o2 & ob2 & Hr' & Hk' & _). rewrite Hr in Hr'. by injection Hr' as <-.
  - by eapply claim_call.
  - by eapply release_call.
  - by eapply release_all_call.
  - by eapply remove_all_call.
  - by eapply grow_call.
  - destruct (resize_grow_refused nd m n (view k p) Hlt) as (w1 & Hr1 & Hrep). rewrite Hr in Hr1. injection Hr1 as -> -> ->.
    rewrite <- Hm. by apply untouched_memory, reported_untouched.
  - by eapply change_access_call.
  - by eapply sync_call.
Qed.

Lemma reachable_memories k : mem_reachable k -> memories k.
Proof using Hname L.
  induction 1 as [k H1 H2 Hno|k k' _ IH Hstep]; [|by eapply mem_step_memories].
  apply memory_unused; [|done..]. apply set_eq. intros q. rewrite elem_of_users. split.
  - intros (p & m & Hp & Hm). by rewrite (Hno _ _ Hp) in Hm.
  - by intros ?%not_elem_of_empty.
Qed.
End invariant.
End machine.
End memories.

(** ** Theorems *)

(** C7. A memory with any number of handles.  Whatever processes create, open and
    close it, grow it and map it again, claim and release regions, in whatever order
    and whatever claims are lost on the way: the names of both blocks exist exactly as
    long as some process has a handle; the counts in both headers are the number of
    handles, and that is what [ipm_memory_ref_count] returns; the list of claims stays
    well formed, with its mutex free and its capacity; both headers of every handle
    stay mapped, the size it knows, which bounds the regions it can claim, is positive
    and, unless processes may grow the memory from a size they have not followed
    ([stale]), at most the size of the data block; no two handles have the same access
    identifier; and closing a handle always returns. *)
Theorem memories_stay_together {E : Env} {L : EnvLaws E} nd stale name k :
  Z.of_nat (String.length name) <= IPM_MAX_NAME_LEN -> mem_reachable nd stale name k ->
  (is_Some (k_names k !! claims_name name) <-> users k <> ∅) /\
  (is_Some (k_names k !! data_name name) <-> users k <> ∅) /\
  (forall o1 o2, k_names k !! claims_name name = Some o1 -> k_names k !! data_name name = Some o2 ->
   exists ob1 ob2, k_objs k !! o1 = Some ob1 /\ k_objs k !! o2 = Some ob2 /\
     refcount (so_header ob1) = Z.of_nat (base.size (users k)) /\
     refcount (so_header ob2) = Z.of_nat (base.size (users k)) /\
     ready (so_list ob1) /\ capacity (so_list ob1) = real_claim_capacity /\
     so_size ob2 = IPM_MEMORY_PAGE_SIZE + block_size (so_header ob2) /\
     forall pid p m, k_procs k !! pid = Some p -> p_local p = Some m ->
       both_blocks (view k p) m o1 ob1 o2 ob2 /\ 0 < b_size (real_memory m) /\
       (stale = false -> b_size (real_memory m) <= block_size (so_header ob2)) /\
       ipm_memory_ref_count m (view k p) = Ret (Z.of_nat (base.size (users k))) (view k p)) /\
  (forall pid qid p q m m', pid <> qid -> k_procs k !! pid = Some p -> k_procs k !! qid = Some q ->
     p_local p = Some m -> p_local q = Some m' -> b_access_id (real_memory m) <> b_access_id (real_memory m')) /\
  (forall pid p m, k_procs k !! pid = Some p -> p_local p = Some m -> t_faults (p_thread p) = [] ->
     exists w, ipm_memory_close nd m (view k p) = Ret tt w).
Proof.
  intros Hname Hr. pose proof (reachable_memories nd stale name Hname k Hr) as Hk.
  assert (forall pid p m, k_procs k !! pid = Some p -> p_local p = Some m -> t_faults (p_thread p) = [] ->
    exists w, ipm_memory_close nd m (view k p) = Ret tt w) as Hclose.
  { intros pid p m Hp Hm Hf. destruct (closed_memory nd stale name Hname k pid p m Hk Hp Hm Hf) as (w & o1 & ob1 & o2 & ob2 & Hw & _). by exists w. }
  destruct Hk as [o1 ob1 o2 ob2 Hu Hst|Hu H1 H2].
  - pose proof Hst as [[Hn1 Ho1 _ _ _ _ _ Hr1 _] [Hn2 Ho2 _ _ _ _ _ Hr2 _] _ _ (Hrdy & Hcap & _) [Hwh _] _ Hh Hd Hsizes].
    split_and!; [by split; [|by exists o1]|by split; [|by exists o2]| |done|done].
    unfold claims_name, data_name. intros o1' o2' Hn1' Hn2'. rewrite Hn1 in Hn1'. rewrite Hn2 in Hn2'. simplify_eq.
    exists ob1, ob2. split_and!; try done. intros pid p m Hp Hm. destruct (Hh _ _ _ Hp Hm) as [[Hb _ _ [_ Hsz _]] _].
    split; [done|]. split; [done|]. split; [by apply (Hsizes pid p m)|]. unfold ipm_memory_ref_count.
    erewrite bind_Ret by (eapply read_header_run, bi_header, bb_data; exact Hb). by rewrite Hr2.
  - rewrite H1, H2. split_and!; [split; [by intros [? ?]|done]..|done| |done].
    intros pid qid p q m m' _ Hp _ Hm _. exfalso. assert (pid ∈ users k) as Hin by (apply elem_of_users; eauto).
    rewrite Hu in Hin. by apply not_elem_of_empty in Hin.
Qed.

(** Two processes, and the memory "demo" that the first one has created. *)
Definition stranger (tid : Z) : @process linux (option ipm_memory) :=
  mk_process (mk_thread tid 0 []) fresh_user ∅ ∅ None.
Definition two_strangers : @machine linux (option ipm_memory) :=
  mk_machine ∅ ∅ {[1 := stranger 1; 2 := stranger 2]}.

(** What the first process sees and has. *)
Definition first_base : @world linux := allocated (view two_strangers (stranger 1)) (mk_thread 1 0 []) paid.
Definition first_handle : @ipm_memory linux :=
  created_memory first_base context 5000 "demo" IPM_ACCESS_MODE_READ_WRITE 1000 16 17 18 20.
Definition first_process : @process linux (option ipm_memory) :=
  became (memory_world first_base 5000 "demo" IPM_ACCESS_MODE_READ_WRITE 16 17 18 20) (Some first_handle).
Definition one_memory : @machine linux (option ipm_memory) :=
  acted 1 (memory_world first_base 5000 "demo" IPM_ACCESS_MODE_READ_WRITE 16 17 18 20) (Some first_handle) two_strangers.

Lemma one_memory_reachable nd stale : mem_reachable nd stale "demo" one_memory.
Proof.
  assert (create_request 5000 2 "demo" (view two_strangers (stranger 1))) as Hreq
    by (split; [unfold block_pages; vm_compute; repeat split; reflexivity|lia|reflexivity|vm_compute; discriminate
               |reflexivity|reflexivity|reflexivity]).
  assert (allocates context 31 "ipm_memory_create" 1000 (mk_thread 1 0 []) paid (view two_strangers (stranger 1))) as Hal
    by (split; [reflexivity|split; [split; reflexivity|vm_compute; discriminate]]).
  eapply mem_next; [apply (mem_initial _ _ _ two_strangers); [reflexivity|reflexivity|]|].
  - intros pid p. cbn. rewrite lookup_insert_Some, lookup_singleton_Some. by intros [[_ <-]|[_ [_ <-]]].
  - eapply (mem_create _ _ _ 1 (stranger 1) context 5000 2 IPM_ACCESS_MODE_READ_WRITE 1000 _ _ 16 17 18 20);
      [reflexivity|reflexivity|exact Hreq|exact Hal|split; vm_compute; reflexivity|split; vm_compute; reflexivity|].
    destruct Hal as (Ha & Hs & Hn).
    apply (memory_create_run (E:=linux) _ _ _ 2 _ _ _ 1000 (mk_thread 1 0 []) paid 16 17 18 20 Hreq Ha Hs Hn); split; vm_compute; reflexivity.
Qed.

Lemma memories_stay_together_witness :
  exists ob1 ob2, k_objs one_memory !! 0%nat = Some ob1 /\ k_objs one_memory !! 1%nat = Some ob2 /\
    refcount (so_header ob1) = 1 /\ refcount (so_header ob2) = 1.
Proof.
  destruct (memories_stay_together false true "demo" one_memory) as (_ & _ & H & _);
    [vm_compute; discriminate|exact (one_memory_reachable false true)|].
  destruct (H 0%nat 1%nat) as (ob1 & ob2 & H1 & H2 & H3 & H4 & _); [vm_compute; reflexivity|vm_compute; reflexivity|].
  exists ob1, ob2. split; [exact H1|]. split; [exact H2|]. rewrite H3, H4. split; vm_compute; reflexivity.
Defined.

(** ** Every call returns or waits *)

Definition returns {S A} (r : outcome S A) : Prop := exists a s, r = Ret a s.

Section returning.
Context {E : Env} {L : EnvLaws E}.
Variables (w : world) (m : ipm_memory) (o1 : nat) (ob1 : shm_object) (o2 : nat) (ob2 : shm_object).
Hypothesis Hh : handle_in w m o1 ob1 o2 ob2.
Hypothesis Hr : ready (so_list ob1).
Hypothesis Hf : t_faults (w_thread w) = [].

Lemma claim_returns nd a off n :
  nd = true \/ 0 < n ->
  let run := ipm_memory_claim_region nd [] m a off n w in
  if permitted m a off n && negb (grantable (request m (so_list ob1) a off n) (so_list ob1))
  then exists w', run = Hang w' else returns run.
Proof using Hh Hr Hf.
  intros Hn run. pose proof (handle_usable _ _ _ _ _ _ Hh Hr Hf) as Hu. destruct (permitted m a off n) eqn:Hp; cbn [andb].
  - pose proof (claim_region_run nd [] m a off n w o1 ob1 Hu Hn Hp ltac:(constructor)) as Hrun. cbv zeta in Hrun.
    cbn [first_grant] in Hrun.
    change (grantable (request m (so_list ob1) a off n) (asked (t_tid (w_thread w)) (so_list ob1)))
      with (grantable (request m (so_list ob1) a off n) (so_list ob1)) in Hrun.
    destruct (grantable _ _); [|done]. destruct Hrun as [Hrun _]. eexists _, _. exact Hrun.
  - destruct (claim_region_refused nd [] m a off n w Hn Hp) as (w' & Hrun & _). eexists _, _. exact Hrun.
Qed.

Lemma info_returns : returns (ipm_memory_get_info m w) /\ returns (ipm_memory_ref_count m w).
Proof using Hh.
  pose proof Hh as [[_ [Hhd _ _ _ _] _ _] Hl _ _]. split.
  - unfold ipm_memory_get_info. rewrite <- (with_list_init _ _ _ _ Hl).
    erewrite bind_Ret by (apply (on_list_wl _ _ _ _ Hl); reflexivity). by eexists _, _.
  - unfold ipm_memory_ref_count. erewrite bind_Ret by (by eapply read_header_run). by eexists _, _.
Qed.

Lemma resize_returns nd n j :
  nd = true \/ block_size (so_header ob2) <= round_size n -> o1 <> o2 -> block_pages (round_size n) j ->
  segment_mutex (so_header ob2) = mutex_of Free -> is_Some (place w m (round_size n)) ->
  returns (ipm_memory_resize_grow nd m n w).
Proof using Hh Hf L.
  intros Hle Hne Hpg Hmx Hpl. destruct (Z.lt_ge_cases (round_size n) (b_size (real_memory m))) as [Hlt|Hge].
  - destruct (resize_grow_refused nd m n w Hlt) as (w1 & Hr1 & _). by eexists _, _.
  - destruct (resize_grow_again w m o1 ob1 o2 ob2 Hh Hf nd n j Hne Hpg Hle Hge Hmx Hpl) as (m1 & w1 & Hr1 & _).
    by eexists _, _.
Qed.
End returning.

(** C10. No call of a process that has a handle goes wrong.  In every state the processes can
    reach, when nothing is scheduled to fail, closing, counting the handles, asking for
    the properties of the memory and both bulk operations return, and so does giving
    back an identifier that is active; synchronising, changing the access mode and growing
    return if the kernel finds room for the mapping, the last with whole pages and, in a
    build with assertions, not below the memory's size; and claiming a region, not
    empty if assertions are on, returns unless the request is permitted and cannot be
    granted yet, when it waits.  None aborts, and none is undefined. *)
Theorem calls_return {E : Env} {L : EnvLaws E} nd stale name k pid p m :
  Z.of_nat (String.length name) <= IPM_MAX_NAME_LEN -> mem_reachable nd stale name k ->
  k_procs k !! pid = Some p -> p_local p = Some m -> t_faults (p_thread p) = [] ->
  exists l size, claim_list_of name k = Some l /\ memory_size_of name k = Some size /\
    let w := view k p in
    returns (ipm_memory_close nd m w) /\ returns (ipm_memory_ref_count m w) /\ returns (ipm_memory_get_info m w) /\
    returns (ipm_memory_release_all nd m w) /\ returns (ipm_memory_remove_all_active_claims nd m w) /\
    (forall id, id ∈ map claim_id (visible l) -> returns (ipm_memory_release_region nd m id w)) /\
    (is_Some (place w m size) ->
     returns (ipm_memory_sync m w) /\ forall access, returns (ipm_memory_change_access m access w)) /\
    (forall n j, nd = true \/ size <= round_size n -> block_pages (round_size n) j -> is_Some (place w m (round_size n)) ->
     returns (ipm_memory_resize_grow nd m n w)) /\
    (forall a off n, nd = true \/ 0 < n ->
     let run := ipm_memory_claim_region nd [] m a off n w in
     if permitted m a off n && negb (grantable (request m l a off n) l) then exists w', run = Hang w' else returns run).
Proof.
  intros Hname Hreach Hp Hm Hf. pose proof (reachable_memories nd stale name Hname k Hreach) as Hk.
  destruct (closed_memory nd stale name Hname k pid p m Hk Hp Hm Hf) as (wc & _ & _ & _ & _ & Hc & _).
  destruct (called_in_use nd stale name Hname Hk Hp Hm Hf) as (_ & o1 & ob1 & o2 & ob2 & Hst & Hu).
  destruct (ms_handles _ _ _ _ _ _ _ _ Hst _ _ _ Hp Hm) as [Hh _]. destruct (list_ok_bounds nd stale name Hst) as [Hmax Hnd].
  pose proof (us_ready _ _ _ _ Hu) as Hr. destruct (info_returns _ _ _ _ _ _ Hh) as [Hi Hrc].
  exists (so_list ob1), (block_size (so_header ob2)). split; [by eapply claim_list_of_in|].
  split; [by eapply memory_size_of_in|]. intros w. split_and!.
  - by eexists _, _.
  - exact Hrc.
  - exact Hi.
  - destruct (memory_release_all_run nd m w o1 ob1 Hu Hmax Hnd) as (l' & Hrun & _). by eexists _, _.
  - destruct (memory_remove_all_run nd m w o1 ob1 Hu Hnd) as (l' & Hrun & _). by eexists _, _.
  - intros id Hid. eexists _, _. by apply (release_region_run nd m id w o1 ob1 Hu Hnd Hid).
  - intros Hpl. split; [|intros access].
    + destruct (sync_run w m o1 ob1 o2 ob2 Hh Hf Hpl) as (m1 & w1 & Hrun & _). by eexists _, _.
    + destruct (change_access_run w m o1 ob1 o2 ob2 Hh Hf access Hpl) as (m1 & w1 & Hrun & _). by eexists _, _.
  - intros n j Hle Hpg Hpl. eapply (resize_returns w m o1 ob1 o2 ob2 Hh Hf nd n j); try done; apply Hst.
  - intros a off n Hn. by apply (claim_returns w m o1 ob1 o2 ob2 Hh Hr Hf).
Qed.

Lemma calls_return_witness :
  exists p m, k_procs one_memory !! 1 = Some p /\ p_local p = Some m /\
    returns (ipm_memory_close false m (view one_memory p)) /\
    returns (ipm_memory_claim_region false [] m IPM_ACCESS_MODE_READ_WRITE 0 64 (view one_memory p)).
Proof.
  assert (k_procs one_memory !! 1 = Some first_process) as Hp by apply lookup_insert_eq.
  destruct (calls_return false true "demo" one_memory 1 first_process first_handle ltac:(vm_compute; discriminate)
    (one_memory_reachable false true) Hp eq_refl eq_refl) as (l & size & Hl & _ & Hc & _ & _ & _ & _ & _ & _ & _ & Hcl).
  exists first_process, first_handle. split; [exact Hp|]. split; [reflexivity|]. split; [exact Hc|].
  specialize (Hcl IPM_ACCESS_MODE_READ_WRITE 0 64 (or_intror eq_refl)). cbv zeta in Hcl.
  replace (grantable _ l) with true in Hcl; [rewrite andb_false_r in Hcl; exact Hcl|].
  assert (option_map (fun l => (visible l, count l =? capacity l)) (claim_list_of "demo" one_memory) = Some ([], false)) as Hv
    by (vm_compute; reflexivity).
  rewrite Hl in Hv. injection Hv as Hv1 Hv2. unfold grantable. rewrite Hv1, Hv2. reflexivity.
Defined.

(** ** A claim without a process *)

(** Calls of processes by their identifiers, and their run. *)
Inductive call := Creating_memory | Opening_memory | Claiming (a : ipm_access_mode) (off n : Z) | Closing_memory.

Definition perform (nd : bool) (e : Z * call) (k : @machine linux (option ipm_memory)) : option (machine (option ipm_memory)) :=
  p ← k_procs k !! e.1;
  match e.2, p_local p with
  | Creating_memory, None =>
      match ipm_memory_create nd context 16384 "demo" IPM_ACCESS_MODE_READ_WRITE (view k p) with
      | Ret (IPM_RESULT_SUCCESS, Some m) w => Some (acted e.1 w (Some m) k) | _ => None end
  | Opening_memory, None =>
      match ipm_memory_open nd [] [] context "demo" IPM_ACCESS_MODE_READ_WRITE (view k p) with
      | Ret (IPM_RESULT_SUCCESS, Some m) w => Some (acted e.1 w (Some m) k) | _ => None end
  | Claiming a off n, Some m =>
      match ipm_memory_claim_region nd [] m a off n (view k p) with
      | Ret (IPM_RESULT_SUCCESS, Some _) w => Some (acted e.1 w (Some m) k) | _ => None end
  | Closing_memory, Some m =>
      match ipm_memory_close nd m (view k p) with Ret _ w => Some (acted e.1 w None k) | _ => None end
  | _, _ => None
  end.
Fixpoint perform_all (nd : bool) (es : list (Z * call)) (k : @machine linux (option ipm_memory)) : option (machine (option ipm_memory)) :=
  match es with [] => Some k | e :: es => k ← perform nd e k; perform_all nd es k end.

Definition revenant : list (Z * call) :=
  [(1, Creating_memory); (2, Opening_memory); (1, Claiming IPM_ACCESS_MODE_READ_ONLY 4096 64);
   (2, Claiming IPM_ACCESS_MODE_READ_ONLY 8192 64); (2, Closing_memory); (1, Claiming IPM_ACCESS_MODE_READ_ONLY 0 64)].

Definition after_calls (nd : bool) (es : list (Z * call)) : machine (option ipm_memory) :=
  default two_strangers (perform_all nd es two_strangers).
Definition owners (k : machine (option ipm_memory)) : option (list Z) :=
  l ← claim_list_of "demo" k; Some (map proc_id (visible l)).
Definition handles (k : @machine linux (option ipm_memory)) : list (Z * Z) :=
  omap (fun pp => m ← p_local pp.2; Some (pp.1, b_access_id (real_memory m))) (map_to_list (k_procs k)).
Definition hangs_claiming (nd : bool) (a : ipm_access_mode) (off n : Z) (pid : Z) (k : @machine linux (option ipm_memory)) : bool :=
  match k_procs k !! pid with
  | Some p => match p_local p with
      | Some m => match ipm_memory_claim_region nd [] m a off n (view k p) with Hang _ => true | _ => false end
      | None => false end
  | None => false
  end.

Lemma hangs_claiming_spec nd a off n pid k : hangs_claiming nd a off n pid k = true ->
  exists p m w, k_procs k !! pid = Some p /\ p_local p = Some m /\
    ipm_memory_claim_region nd [] m a off n (view k p) = Hang w.
Proof.
  unfold hangs_claiming. destruct (k_procs k !! pid) as [p|]; [|done]. destruct (p_local p) as [m|] eqn:Hm; [|done].
  destruct (ipm_memory_claim_region _ _ _ _ _ _ _) as [| | |w] eqn:Hr; try done. intros _. by exists p, m, w.
Qed.

(** C39. A claim that outlives its process.  Two processes claim regions for reading,
    the second closes the memory, which releases its claim, and the first claims
    another region, at a lower offset.  Every call succeeds.  The claim of the
    process that is gone is active again: it is what the insertion brings into view
    from the slot behind the list.  The process with the only handle, whose own
    first claim is lost in exchange, then waits for ever when it wants to write: no
    process is left that would release that claim. *)
Theorem claims_outlive_processes nd :
  exists k, perform_all nd revenant two_strangers = Some k /\ handles k = [(1, 1)] /\ owners k = Some [1; 2] /\
  exists p m w, k_procs k !! 1 = Some p /\ p_local p = Some m /\
    ipm_memory_claim_region nd [] m IPM_ACCESS_MODE_READ_WRITE 0 64 (view k p) = Hang w.
Proof.
  exists (after_calls nd revenant). split_and!.
  - assert (match perform_all nd revenant two_strangers with Some _ => true | None => false end = true) as Hb
      by (destruct nd; vm_compute; reflexivity).
    unfold after_calls. by destruct (perform_all nd revenant two_strangers).
  - destruct nd; vm_compute; reflexivity.
  - destruct nd; vm_compute; reflexivity.
  - apply hangs_claiming_spec. destruct nd; vm_compute; reflexivity.
Qed.
