(* ===== verification/Growth.v ===== *)
(** * A memory that grows under its users

    What happens when processes grow a memory that others use ([ipm_memory_resize_grow])
    and follow it ([ipm_memory_sync], source/ipm_memory.c), on the machine of file
    [Memories]: the new size reaches every process, though not the pointers, but a
    process that has not followed can take it back and leave claims without memory, and
    so can one that was about to grow the memory too
    ([shared_memory_block_resize], source/shared_memory.c, cut at its lock), and what is
    mapped again is not unmapped any more. *)

From S2P Require Import Prelude Errors Pthread Platform Claims Common Names World SharedMemory Memory Machine Regions Lifecycle Handles Processes Sharing Opening Remapping Memories.

Section growth.
Context {E : Env} {L : EnvLaws E}.
Abbreviation clients := (machine (option ipm_memory)).
Implicit Types (w : world) (k : clients) (p : process (option ipm_memory)) (pid : Z) (m : ipm_memory).

(** All pages of the memory, from page [q] on, for a process whose mapping it has moved. *)
Definition shows (o : nat) (size : Z) (access : ipm_access_mode) (q : Z) w : Prop :=
  forall i, 0 <= i < pages_of size -> w_pages w !! (q + i) = Some (mk_page o (1 + i) (is_writable access)).

Lemma remapped_shows w b o size access q : shows o size access q (remapped w b o size access q).
Proof.
  intros i Hi. cbn [remapped w_pages set_pages]. rewrite lookup_map_pages, decide_True by lia. do 2 f_equal. lia.
Qed.

(** Handle [m] of a process that sees [w], and what they have become, [m'] and [w'], once
    the memory, of [size] bytes, is mapped again at page [q]: a handle that was up to
    date and had its pointer is left alone; any other has the new size and a null
    pointer, and the pages are mapped where no handle says. *)
Definition follows (o : nat) (size q : Z) m w m' w' : Prop :=
  b_size (real_memory m') = size /\ b_access_mode (real_memory m') = b_access_mode (real_memory m) /\
  (b_size (real_memory m) = size /\ ipm_memory_pointer m <> NULL -> m' = m /\ w' = w) /\
  (b_size (real_memory m) <> size \/ ipm_memory_pointer m = NULL ->
   ipm_memory_pointer m' = NULL /\ shows o size (b_access_mode (real_memory m)) q w').

Lemma mapped_at_follows w m o2 ob2 q :
  let '(m', w') := mapped_at w m o2 ob2 (b_access_mode (real_memory m)) q in
  follows o2 (block_size (so_header ob2)) q m w m' w'.
Proof.
  unfold mapped_at. case_decide as Hd; unfold follows, ipm_memory_pointer.
  - destruct Hd as (Hs & _ & Hn). split_and!; [done|done|done|]. by intros [?|?].
  - split_and!; [done|done| |].
    + intros [Hs Hn]. by destruct Hd.
    + intros _. split; [done|apply remapped_shows].
Qed.

Variables (nd stale : bool) (name : string).
Hypothesis Hname : Z.of_nat (String.length name) <= IPM_MAX_NAME_LEN.

(** A process of a reachable machine that has a handle. *)
Lemma reachable_handle k pid p m :
  mem_reachable nd stale name k -> k_procs k !! pid = Some p -> p_local p = Some m ->
  exists o1 ob1 o2 ob2, memory_state nd stale name k o1 ob1 o2 ob2 /\ handle_in (view k p) m o1 ob1 o2 ob2 /\
    memory_size_of name k = Some (block_size (so_header ob2)).
Proof using Hname L.
  intros Hr Hp Hm. pose proof (reachable_memories nd stale name Hname k Hr) as Hk.
  destruct Hk as [o1 ob1 o2 ob2 _ Hst|Hu _ _].
  - exists o1, ob1, o2, ob2. split; [done|]. destruct (ms_handles _ _ _ _ _ _ _ _ Hst _ _ _ Hp Hm) as [Hh _].
    split; [done|]. by eapply memory_size_of_in.
  - assert (pid ∈ users k) as Hin by (apply elem_of_users; eauto). rewrite Hu in Hin. by apply not_elem_of_empty in Hin.
Qed.

(** What a process needs to map [size] bytes of its memory again. *)
Record can_map k p m (size : Z) : Prop := {
  cm_faults : t_faults (p_thread p) = [];
  cm_bottom : bottom_free (view k p) m;
  cm_place : is_Some (place (view k p) m size)
}.

(** Nothing that other processes do takes that away. *)
Lemma can_map_after k k' p m size : can_map k p m size -> can_map k' p m size.
Proof using. intros [Hf Hb Hp]. by split. Qed.

Lemma sync_follows k pid p m size q :
  mem_reachable nd stale name k -> k_procs k !! pid = Some p -> p_local p = Some m ->
  memory_size_of name k = Some size -> t_faults (p_thread p) = [] -> place (view k p) m size = Some q ->
  exists m' w o, ipm_memory_sync m (view k p) = Ret (IPM_RESULT_SUCCESS, m') w /\
    k_names k !! data_name name = Some o /\ follows o size q m (view k p) m' w.
Proof using Hname L.
  intros Hr Hp Hm Hs Hf Hpl. destruct (reachable_handle k pid p m Hr Hp Hm) as (o1 & ob1 & o2 & ob2 & Hst & Hh & Hsz).
  rewrite Hs in Hsz. injection Hsz as ->.
  pose proof (sync_exact (view k p) m o1 ob1 o2 ob2 Hh Hf q Hpl) as Hrun.
  pose proof (mapped_at_follows (view k p) m o2 ob2 q) as Hfo.
  destruct (mapped_at _ _ _ _ _ _) as [m' w]. exists m', w, o2. split; [done|].
  split; [apply (sb_name _ _ _ _ _ (ms_data _ _ _ _ _ _ _ _ Hst))|done].
Qed.

Lemma grow_reaches k pid p m n j size :
  mem_reachable nd stale name k -> k_procs k !! pid = Some p -> p_local p = Some m ->
  memory_size_of name k = Some size -> size <= round_size n -> b_size (real_memory m) <= round_size n ->
  block_pages (round_size n) j -> can_map k p m (round_size n) ->
  exists m' w, ipm_memory_resize_grow nd m n (view k p) = Ret (IPM_RESULT_SUCCESS, m') w /\
    mem_reachable nd stale name (acted pid w (Some m') k) /\
    memory_size_of name (acted pid w (Some m') k) = Some (round_size n) /\ b_size (real_memory m') = round_size n.
Proof using Hname L.
  intros Hr Hp Hm Hs Hle Hge Hpg [Hf Hb Hpl]. destruct (block_pages_pos _ _ Hpg) as [Hpos _].
  destruct (reachable_handle k pid p m Hr Hp Hm) as (o1 & ob1 & o2 & ob2 & Hst & Hh & Hsz).
  rewrite Hs in Hsz. injection Hsz as ->.
  pose proof (ms_objects _ _ _ _ _ _ _ _ Hst) as Hne. pose proof (ms_data _ _ _ _ _ _ _ _ Hst) as Hs2.
  destruct (resize_grow_again (view k p) m o1 ob1 o2 ob2 Hh Hf nd n j Hne Hpg (or_intror Hle) Hge (sb_mutex _ _ _ _ _ Hs2) Hpl)
    as (m' & w & Hrun & Hag).
  pose proof (resized_handle (view k p) m o1 ob1 o2 ob2 Hh (round_size n) Hpos Hne) as Hh'.
  pose proof Hag as Hag'. rewrite <- (resized_size (round_size n) ob2) in Hag' at 2.
  destruct (mapped_again_handle _ _ _ _ _ _ Hh' Hb _ _ _ Hag') as (_ & Hn & Ho & Hs' & _).
  rewrite resized_size in Hs'. exists m', w. split; [done|]. split_and!; [|unfold memory_size_of|done].
  - eapply mem_next; [exact Hr|]. eapply mem_grow; try done. right. intros size Hsz. rewrite Hs in Hsz. by injection Hsz as <-.
  - cbn [acted k_names k_objs]. rewrite Hn, Ho. change (w_names (set_obj o2 _ (view k p))) with (k_names k).
    unfold data_name. rewrite (sb_name _ _ _ _ _ Hs2). simpl. rewrite lookup_insert_eq. simpl. by rewrite resized_size.
Qed.

(** Resizing to less than the memory has, without the assertion. *)
Lemma stale_resize_run k pid p m n j size :
  mem_reachable nd stale name k -> k_procs k !! pid = Some p -> p_local p = Some m ->
  memory_size_of name k = Some size -> b_size (real_memory m) <= round_size n < size -> block_pages (round_size n) j ->
  can_map k p m (round_size n) ->
  exists o ob m' w, k_names k !! data_name name = Some o /\ so_size ob = IPM_MEMORY_PAGE_SIZE + round_size n /\
    block_size (so_header ob) = round_size n /\
    shared_memory_block_resize true (ctx m) (real_memory m) (round_size n) (view k p) =
      Ret (IPM_RESULT_SUCCESS, real_memory m') w /\ m' = set_real (real_memory m') m /\
    w_names w = k_names k /\ w_objs w = <[o := ob]> (k_objs k).
Proof using Hname L.
  intros Hr Hp Hm Hs [Hle Hlt] Hpg [Hf Hb Hpl].
  destruct (reachable_handle k pid p m Hr Hp Hm) as (o1 & ob1 & o2 & ob2 & Hst & Hh & Hsz).
  rewrite Hs in Hsz. injection Hsz as ->. pose proof (ms_objects _ _ _ _ _ _ _ _ Hst) as Hne.
  pose proof (ms_data _ _ _ _ _ _ _ _ Hst) as Hs2. destruct (block_pages_pos _ _ Hpg) as [Hpos _].
  set (ob := grown_object (round_size n) ob2).
  assert (handle_in (set_obj o2 ob (view k p)) m o1 ob1 o2 ob) as Hh'
    by (eapply resizing_handle; [exact Hh|done|cbn; unfold IPM_MEMORY_PAGE_SIZE; lia|exact Hpos]).
  destruct (update_mapping_again _ _ _ _ _ _ Hh' Hf (ctx m) (b_access_mode (real_memory m)) Hpl) as (m' & w & Hrun & Hm' & Hag).
  destruct (mapped_again_handle _ _ _ _ _ _ Hh' Hb _ _ _ Hag) as (_ & Hn & Ho & _).
  exists o2, ob, m', w. pose proof Hh as [[_ [Hhd _ _ _ _] _ _] _ _ [Hfd _ _]].
  split_and!; try done; [apply (sb_name _ _ _ _ _ Hs2)|].
  rewrite (resize_truncates true _ _ _ o2 ob2 (round_size n) j) by
    (done || (by left) || lia || apply (sb_mutex _ _ _ _ _ Hs2)). exact Hrun.
Qed.

Lemma stale_grow_run k pid p m n j size :
  mem_reachable nd stale name k -> k_procs k !! pid = Some p -> p_local p = Some m ->
  memory_size_of name k = Some size -> b_size (real_memory m) <= round_size n < size -> block_pages (round_size n) j ->
  can_map k p m (round_size n) ->
  exists o ob m' w, k_names k !! data_name name = Some o /\ so_size ob = IPM_MEMORY_PAGE_SIZE + round_size n /\
    block_size (so_header ob) = round_size n /\
    ipm_memory_resize_grow true m n (view k p) = Ret (IPM_RESULT_SUCCESS, m') w /\
    w_names w = k_names k /\ w_objs w = <[o := ob]> (k_objs k).
Proof using Hname L.
  intros Hr Hp Hm Hs Hle Hpg Hmap.
  destruct (stale_resize_run k pid p m n j size Hr Hp Hm Hs Hle Hpg Hmap) as (o & ob & m' & w & Hn & Hso & Hbs & Hrun & Hm' & Hw).
  exists o, ob, m', w. split_and!; try done; [|apply Hw..].
  unfold ipm_memory_resize_grow. rewrite (proj2 (Z.ltb_ge _ _)) by lia.
  erewrite bind_Ret by exact Hrun. unfold ok. rewrite bool_decide_true by done. cbn [negb]. by rewrite <- Hm'.
Qed.

(** *** The assertions and what follows them *)

(** [shared_memory_block_resize] up to the lock, and from the lock on. *)
Definition resize_checked (block : ipm_shared_memory_block) (new_size : Z) : M world unit :=
  h ← read_header (b_header block);
  _ ← cassert nd (block_size h <=? new_size);
  _ ← cassert nd (Z.land new_size IPM_MEMORY_PAGE_SIZE_MASK =? 0);
  cassert nd (0 <? new_size).
Definition resize_locked (context : ipm_context user) (block : ipm_shared_memory_block) (new_size : Z)
    : M world (ipm_result * ipm_shared_memory_block) :=
  let header := b_header block in
  sem_res ← on_segment_mutex header ipm_mutex_lock;
  if negb (bool_decide (sem_res = IPM_RESULT_SUCCESS)) then
    why ← strerror;
    _ ← IPM_ERROR context ("Could not wait for semaphore to lock the memory segment, reason: " +:+ why)
          (in_shm 375 "shared_memory_block_resize");
    mret (sem_res, block)
  else
  h ← read_header header;
  if new_size =? block_size h then
    _ ← on_segment_mutex header ipm_mutex_unlock;
    if negb (new_size =? b_size block)
    then shared_memory_block_update_mapping context block (b_access_mode block)
    else mret (IPM_RESULT_SUCCESS, block)
  else
  res ← ftruncate (b_mem_fd block) (to_off_t (wrap64 (IPM_MEMORY_PAGE_SIZE + new_size)));
  if res <? 0 then
    _ ← on_segment_mutex header ipm_mutex_unlock;
    why ← strerror;
    _ ← IPM_ERROR context ("Could not truncate file to " +:+ pretty (wrap64 (IPM_MEMORY_PAGE_SIZE + new_size))
                            +:+ " bytes, reason: " +:+ why) (in_shm 395 "shared_memory_block_resize");
    e ← w_errno; mret (ftruncate_resize_error e, block)
  else
  _ ← write_header header (set_block_size new_size);
  _ ← on_segment_mutex header ipm_mutex_unlock;
  shared_memory_block_update_mapping context block (b_access_mode block).

Lemma resize_cut c b size w :
  shared_memory_block_resize nd c b size w = (_ ← resize_checked b size; resize_locked c b size) w.
Proof using.
  unfold shared_memory_block_resize, resize_checked. rewrite !bind_assoc. apply bind_ext. intros h w1 _.
  rewrite !bind_assoc. apply bind_ext. intros [] w2 _. rewrite !bind_assoc. apply bind_ext. intros [] w3 _.
  apply bind_ext. intros [] w4 _. reflexivity.
Qed.

Lemma stale_grow_aborts k pid p m n size :
  mem_reachable nd stale name k -> k_procs k !! pid = Some p -> p_local p = Some m ->
  memory_size_of name k = Some size -> b_size (real_memory m) <= round_size n < size ->
  ipm_memory_resize_grow false m n (view k p) = Abort (view k p).
Proof using Hname L.
  intros Hr Hp Hm Hs [Hle Hlt]. destruct (reachable_handle k pid p m Hr Hp Hm) as (o1 & ob1 & o2 & ob2 & _ & Hh & Hsz).
  rewrite Hs in Hsz. injection Hsz as ->. pose proof Hh as [[_ [Hhd _ _ _ _] _ _] _ _ _].
  apply (resize_grow_aborts _ _ _ _ _ _ Hh). lia.
Qed.

(** The pages of a memory that was mapped again outlive the handle. *)
Lemma synced_pages_stay k pid p m size q :
  mem_reachable nd stale name k -> k_procs k !! pid = Some p -> p_local p = Some m ->
  memory_size_of name k = Some size -> can_map k p m size -> b_size (real_memory m) <> size ->
  place (view k p) m size = Some q -> pages_of size <= q ->
  exists o w, k_names k !! data_name name = Some o /\
    ('(_, m') ← ipm_memory_sync m; ipm_memory_close nd m') (view k p) = Ret tt w /\
    shows o size (b_access_mode (real_memory m)) q w.
Proof using Hname L.
  intros Hr Hp Hm Hs [Hf Hb Hpl] Hne Hq Hlow.
  destruct (reachable_handle k pid p m Hr Hp Hm) as (o1 & ob1 & o2 & ob2 & Hst & Hh & Hsz).
  rewrite Hs in Hsz. injection Hsz as ->.
  destruct (sync_run (view k p) m o1 ob1 o2 ob2 Hh Hf Hpl) as (m' & w & Hrun & Hag).
  destruct (mapped_again_handle _ _ _ _ _ _ Hh Hb _ _ _ Hag) as (Hh' & Hn & Ho & _).
  assert (mem_step nd stale name k (acted pid w (Some m') k)) as Hstep.
  { eapply mem_sync; try done. intros size Hsz. rewrite Hs in Hsz. by injection Hsz as <-. }
  assert (t_faults (w_thread w) = [] /\ b_memory (real_memory m') = NULL /\
    shows o2 (block_size (so_header ob2)) (b_access_mode (real_memory m)) q w) as (Hf' & Hnull & Hsh).
  { destruct Hag as [He _|q' Hq']; [done|]. rewrite Hq in Hq'. injection Hq' as <-.
    split; [|split; [done|apply remapped_shows]]. cbn. by rewrite Hf. }
  set (k' := acted pid w (Some m') k) in *. pose proof (reachable_memories nd stale name Hname _ (mem_next _ _ _ _ _ Hr Hstep)) as Hk'.
  destruct (closed_memory nd stale name Hname k' pid (became w (Some m')) m' Hk' (lookup_insert_eq _ _ _) eq_refl Hf')
    as (w2 & o1' & ob1' & o2' & ob2' & Hcl & _ & Hst' & Hpages).
  unfold k' in Hcl. rewrite view_acted in Hcl. exists o2, w2.
  split; [apply (sb_name _ _ _ _ _ (ms_data _ _ _ _ _ _ _ _ Hst))|]. split; [by erewrite bind_Ret by exact Hrun|].
  assert (block_size (so_header ob2') = block_size (so_header ob2)) as Hsz'.
  { pose proof (memory_size_of_in _ _ _ _ _ _ _ Hst') as H'.
    assert (memory_size_of name k' = memory_size_of name k) as He
      by (unfold memory_size_of, k'; cbn [acted k_names k_objs]; by rewrite Hn, Ho).
    rewrite He, Hs in H'. congruence. }
  destruct (ms_large _ _ _ _ _ _ _ _ Hst') as [_ Hcs].
  destruct Hh' as [[[[_ Hp1 _ _] _ _ _ _] [[_ Hp2 _ _] _ _ _ _] _ _] [_ Hp3 _ _] _ _].
  pose proof (ms_objects _ _ _ _ _ _ _ _ Hst) as Hobj.
  intros i Hi. specialize (Hsh i Hi). rewrite Hpages, <- Hsh. cbn [became p_pages].
  unfold closed_pages. rewrite Hnull, Hsz', Hcs, !lookup_unmap_pages. change (pages_of claim_size) with 1.
  change (NULL / IPM_MEMORY_PAGE_SIZE) with 0.
  rewrite !decide_False; [done| | | |]; intros Hin.
  - replace (q + i) with (b_memory (active_claims m') / IPM_MEMORY_PAGE_SIZE) in Hsh by lia.
    rewrite Hp3 in Hsh. injection Hsh as Heq _ _. done.
  - replace (q + i) with (b_header (active_claims m') / IPM_MEMORY_PAGE_SIZE) in Hsh by lia.
    rewrite Hp1 in Hsh. injection Hsh as _ ? _. lia.
  - lia.
  - replace (q + i) with (b_header (real_memory m') / IPM_MEMORY_PAGE_SIZE) in Hsh by lia.
    rewrite Hp2 in Hsh. injection Hsh as ? _. lia.
Qed.

(** The list of claims and the size of a memory that is in use. *)
Lemma reachable_claims k l b :
  mem_reachable nd stale name k -> claim_list_of name k = Some l -> memory_size_of name k = Some b ->
  exists o ob, k_names k !! data_name name = Some o /\ k_objs k !! o = Some ob /\ block_size (so_header ob) = b /\ whole stale l ob.
Proof using Hname L.
  intros Hr Hl Hs. pose proof (reachable_memories nd stale name Hname k Hr) as Hk.
  destruct Hk as [o1 ob1 o2 ob2 _ Hst|_ Hno _]; [|unfold claim_list_of in Hl; by rewrite Hno in Hl].
  rewrite (claim_list_of_in nd stale name Hst) in Hl. rewrite (memory_size_of_in _ _ _ _ _ _ _ Hst) in Hs. injection Hl as <-. injection Hs as <-.
  pose proof (ms_data _ _ _ _ _ _ _ _ Hst) as [Hn Ho _ _ _ _ _ _ _]. exists o2, ob2. split_and!; try done. apply Hst.
Qed.

Lemma checked_run k pid p m n j size :
  mem_reachable nd stale name k -> k_procs k !! pid = Some p -> p_local p = Some m ->
  memory_size_of name k = Some size -> size <= round_size n -> block_pages (round_size n) j ->
  resize_checked (real_memory m) (round_size n) (view k p) = Ret tt (view k p).
Proof using Hname L.
  intros Hr Hp Hm Hs Hle Hpg. destruct (reachable_handle k pid p m Hr Hp Hm) as (o1 & ob1 & o2 & ob2 & _ & Hh & Hsz).
  rewrite Hs in Hsz. injection Hsz as ->. pose proof Hh as [[_ [Hhd _ _ _ _] _ _] _ _ _].
  destruct (block_pages_pos _ _ Hpg) as [Hpos _]. destruct Hpg as (Hsz & _). unfold resize_checked.
  erewrite bind_Ret by (by eapply read_header_run).
  erewrite bind_Ret by (apply cassert_true; lia).
  erewrite bind_Ret by (apply cassert_true; rewrite Hsz, land_page_mask, page_addr_mod; done).
  apply cassert_true. lia.
Qed.
End growth.

(** Without stale growth no handle has more than the memory. *)
Lemma reachable_size {E : Env} {L : EnvLaws E} nd name
  (Hname : Z.of_nat (String.length name) <= IPM_MAX_NAME_LEN) (k : machine (option ipm_memory)) pid p m size :
  mem_reachable nd false name k -> k_procs k !! pid = Some p -> p_local p = Some m ->
  memory_size_of name k = Some size -> b_size (real_memory m) <= size.
Proof.
  intros Hr Hp Hm Hs. destruct (reachable_handle nd false name Hname k pid p m Hr Hp Hm) as (o1 & ob1 & o2 & ob2 & Hst & _ & Hsz).
  rewrite Hs in Hsz. injection Hsz as ->. by apply (ms_sizes _ _ _ _ _ _ _ _ Hst _ _ _ Hp Hm).
Qed.

(** Code that is past the assertions does not know whether they are on. *)
Lemma locked_is_resize {E : Env} c b size (w : world) h :
  read_header (b_header b) w = Ret h w -> resize_locked c b size w = shared_memory_block_resize true c b size w.
Proof.
  intros Hr. rewrite resize_cut. symmetry. rewrite bind_Ret with (a := tt) (s' := w); [done|].
  unfold resize_checked. erewrite bind_Ret by exact Hr. done.
Qed.

(** ** Two users of a memory *)

(** The memory "demo" of [one_memory], opened by the second process too. *)
Definition second_world : @world linux := allocated (view one_memory (stranger 2)) (mk_thread 2 0 []) paid.
Definition demo_block (i : nat) : shm_object := default (mk_object 0 zero_header zero_list) (k_objs one_memory !! i).
Definition second_handle : @ipm_memory linux :=
  opened_memory second_world context "demo" IPM_ACCESS_MODE_READ_WRITE 1000 1 (demo_block 1) (demo_block 0) 16 17 19 20.
Definition shared_world : @world linux :=
  opened_world (opened_world second_world 1 (demo_block 1) 16 17 IPM_ACCESS_MODE_READ_WRITE) 0 (demo_block 0) 19 20
    IPM_ACCESS_MODE_READ_WRITE.
Definition two_users : @machine linux (option ipm_memory) := acted 2 shared_world (Some second_handle) one_memory.

Lemma two_users_reachable nd stale : mem_reachable nd stale "demo" two_users.
Proof.
  assert (open_request "demo" (view one_memory (stranger 2))) as Hreq by (split; vm_compute; (reflexivity || discriminate)).
  assert (allocates context 89 "ipm_memory_open" 1000 (mk_thread 2 0 []) paid (view one_memory (stranger 2))) as Hal
    by (split; [reflexivity|split; [split; reflexivity|vm_compute; discriminate]]).
  eapply mem_next; [apply one_memory_reachable|].
  eapply (mem_open _ _ _ 2 (stranger 2) context IPM_ACCESS_MODE_READ_WRITE 1000 _ _ 1%nat (demo_block 1) 0%nat (demo_block 0)
    16 17 19 20); [reflexivity|reflexivity|exact Hreq|exact Hal|vm_compute; reflexivity..|split; vm_compute; reflexivity
    |split; vm_compute; reflexivity|].
  destruct Hal as (Ha & Hs & Hn).
  apply (memory_open_run (E:=linux) nd [] [] context "demo" IPM_ACCESS_MODE_READ_WRITE (view one_memory (stranger 2)) 1000
    (mk_thread 2 0 []) paid Hreq Ha Hs Hn); [split; vm_compute; (reflexivity || discriminate)..|discriminate
    |split; vm_compute; reflexivity|split; vm_compute; reflexivity].
Qed.

(** What the second process has. *)
Definition second_process : @process linux (option ipm_memory) := became shared_world (Some second_handle).

Lemma two_users_first : k_procs two_users !! 1 = Some first_process.
Proof. unfold two_users. cbn [acted k_procs]. rewrite lookup_insert_ne by done. apply lookup_insert_eq. Qed.
Lemma two_users_second : k_procs two_users !! 2 = Some second_process.
Proof. apply lookup_insert_eq. Qed.

(** The kernel finds room for seven pages, at page 21 and at page 22. *)
Lemma first_can_map (k : @machine linux (option ipm_memory)) size :
  size = 12288 \/ size = 28672 -> can_map k first_process first_handle size.
Proof. intros [->| ->]; (split; [reflexivity|intros H; vm_compute in H; discriminate|vm_compute; eexists; reflexivity]). Qed.
Lemma second_can_map (k : @machine linux (option ipm_memory)) size :
  size = 12288 \/ size = 28672 -> can_map k second_process second_handle size.
Proof. intros [->| ->]; (split; [reflexivity|intros H; vm_compute in H; discriminate|vm_compute; eexists; reflexivity]). Qed.

Lemma seven_pages : block_pages (round_size 28672) 7.
Proof. unfold block_pages. vm_compute. repeat split; reflexivity. Qed.

(** ** Theorems *)

(** C8. Growth reaches every process, but not the pointers of the handles.  When a process
    that has a handle grows the memory to a size, rounded up to pages, that is neither
    below the memory's nor below its handle's, and the kernel finds room for it, the
    call succeeds, the header records the new size and so does the handle.  Any other
    process with a handle can then synchronise, and that succeeds: if its handle had
    another size, or no pointer, it has the new size and its access mode afterwards,
    every page of the memory is mapped where the kernel placed it, and the pointer of
    the handle, which [ipm_memory_pointer] returns, is null; a handle that was up to date and
    has its pointer stays as it is.  A size below that of the caller's handle is refused
    with [IPM_RESULT_ERR_BAD_VALUE], and nothing but the user's state changes. *)
Theorem growth_reaches_everyone {E : Env} {L : EnvLaws E} nd stale name k pid p m n j size :
  Z.of_nat (String.length name) <= IPM_MAX_NAME_LEN -> mem_reachable nd stale name k ->
  k_procs k !! pid = Some p -> p_local p = Some m -> memory_size_of name k = Some size ->
  size <= round_size n -> b_size (real_memory m) <= round_size n ->
  block_pages (round_size n) j -> can_map k p m (round_size n) ->
  (forall n', round_size n' < b_size (real_memory m) ->
   exists w', ipm_memory_resize_grow nd m n' (view k p) = Ret (IPM_RESULT_ERR_BAD_VALUE, m) w' /\ reported (view k p) w') /\
  exists m' w, ipm_memory_resize_grow nd m n (view k p) = Ret (IPM_RESULT_SUCCESS, m') w /\
    let k' := acted pid w (Some m') k in
    memory_size_of name k' = Some (round_size n) /\ b_size (real_memory m') = round_size n /\
    forall qid q m2 a, qid <> pid -> k_procs k !! qid = Some q -> p_local q = Some m2 ->
      t_faults (p_thread q) = [] -> place (view k q) m2 (round_size n) = Some a ->
      exists m2' w2 o, ipm_memory_sync m2 (view k' q) = Ret (IPM_RESULT_SUCCESS, m2') w2 /\
        k_names k' !! data_name name = Some o /\ follows o (round_size n) a m2 (view k' q) m2' w2.
Proof.
  intros Hname Hr Hp Hm Hs Hle Hge Hpg Hmap.
  split; [intros n'; apply resize_grow_refused|].
  destruct (grow_reaches nd stale name Hname k pid p m n j size Hr Hp Hm Hs Hle Hge Hpg Hmap)
    as (m' & w & Hrun & Hr' & Hs' & Hsz').
  exists m', w. split; [done|]. intros k'. split; [done|]. split; [done|]. intros qid q m2 a Hne Hq Hm2 Hf2 Hpl2.
  assert (k_procs k' !! qid = Some q) as Hq' by (cbn; by rewrite lookup_insert_ne).
  by apply (sync_follows nd stale name Hname k' qid q m2 (round_size n) a Hr' Hq' Hm2 Hs' Hf2).
Qed.

Lemma growth_reaches_everyone_witness :
  exists m' w m2' w2, ipm_memory_resize_grow false first_handle 28672 (view two_users first_process) = Ret (IPM_RESULT_SUCCESS, m') w /\
    ipm_memory_sync second_handle (view (acted 1 w (Some m') two_users) second_process) = Ret (IPM_RESULT_SUCCESS, m2') w2 /\
    b_size (real_memory m2') = 28672 /\ ipm_memory_pointer m2' = NULL /\ w_pages w2 !! 27 = Some (mk_page 1 7 true).
Proof.
  destruct (growth_reaches_everyone false false "demo" two_users 1 first_process first_handle 28672 7 8192)
    as (_ & m' & w & H1 & _ & _ & H2);
    [vm_compute; discriminate|apply two_users_reachable|apply two_users_first|reflexivity|vm_compute; reflexivity
    |vm_compute; discriminate|vm_compute; discriminate|apply seven_pages|apply first_can_map; right; reflexivity|].
  destruct (H2 2 second_process second_handle 21) as (m2' & w2 & o & H3 & Ho & H4);
    [discriminate|apply two_users_second|reflexivity|reflexivity|vm_compute; reflexivity|].
  destruct H4 as (H4 & _ & _ & H5). destruct H5 as [H5 H6]; [left; vm_compute; discriminate|].
  exists m', w, m2', w2. split; [exact H1|]. split; [exact H3|]. split; [exact H4|]. split; [exact H5|].
  specialize (H6 6 ltac:(split; vm_compute; (reflexivity || discriminate))).
  assert (o = 1%nat) as ->; [|exact H6].
  assert (match ipm_memory_resize_grow false first_handle 28672 (view two_users first_process) with
          | Ret _ w => bool_decide (w_names w !! data_name "demo" = Some 1%nat) | _ => false end = true) as Hn
    by (vm_compute; reflexivity).
  rewrite H1 in Hn. apply bool_decide_eq_true in Hn. cbn [acted k_names] in Ho. congruence.
Defined.

(** C9. Claims stay on the memory as long as it does not shrink.  Whatever processes
    create, open, close, grow, map again, claim and release, if none grows the memory
    from a size it has not followed to less than the memory has by then, and whatever
    claims the list loses or doubles on the way: of every active claim, and every claim
    in a spare slot of the list that can become active again, the end as the code
    computes it, offset and size added modulo [2^64], lies in the data block.  So the
    claim itself lies in the block and within its object, except where that sum wraps
    around, in which case only the wrapped end does. *)
Theorem claims_within_memory {E : Env} {L : EnvLaws E} nd name k l b :
  Z.of_nat (String.length name) <= IPM_MAX_NAME_LEN -> mem_reachable nd false name k ->
  claim_list_of name k = Some l -> memory_size_of name k = Some b ->
  visible l ⊆ claims l /\
  exists o ob, k_names k !! data_name name = Some o /\ k_objs k !! o = Some ob /\ so_size ob = IPM_MEMORY_PAGE_SIZE + b /\
    forall c, c ∈ claims l -> wrap64 (offset c + size c) <= b /\
      (0 <= offset c + size c < u64_mod ->
       offset c + size c <= b /\ IPM_MEMORY_PAGE_SIZE + offset c + size c <= so_size ob).
Proof.
  intros Hname Hr Hl Hs. split; [apply subseteq_take|].
  destruct (reachable_claims nd false name Hname k l b Hr Hl Hs) as (o & ob & Hn & Ho & <- & Hso & Hc).
  exists o, ob. split_and!; try done. specialize (Hc eq_refl). intros c Hin. rewrite Forall_forall in Hc. specialize (Hc c Hin).
  split; [exact Hc|]. intros Hfit. unfold claim_inside in Hc. rewrite wrap64_small in Hc by exact Hfit. lia.
Qed.

(** The second process claims the last hundred bytes. *)
Definition claiming_run : outcome (@world linux) (ipm_result * option Z) :=
  ipm_memory_claim_region false [] second_handle IPM_ACCESS_MODE_READ_WRITE 8092 100 (view two_users second_process).
Definition claiming_list : option ipm_claim_list :=
  match claiming_run with Ret _ w => claim_list_of "demo" (acted 2 w (Some second_handle) two_users) | _ => None end.

Lemma claims_within_memory_witness :
  exists k l, claim_list_of "demo" k = Some l /\ map offset (visible l) = [8092] /\
    Forall (fun c => 0 <= offset c + size c < u64_mod -> offset c + size c <= 8192) (visible l).
Proof.
  assert (map offset ∘ visible <$> claiming_list = Some [8092]) as Hoff by (vm_compute; reflexivity).
  unfold claiming_list in Hoff. destruct claiming_run as [r w| | |] eqn:Hrun; try discriminate.
  set (k := acted 2 w (Some second_handle) two_users) in *. destruct (claim_list_of "demo" k) as [l|] eqn:Hl; [|discriminate].
  assert (mem_reachable false false "demo" k) as Hr.
  { eapply mem_next; [apply (two_users_reachable false false)|].
    eapply (mem_claim _ _ _ 2 second_process second_handle IPM_ACCESS_MODE_READ_WRITE 8092 100); [apply two_users_second|reflexivity|reflexivity|right; reflexivity| |exact Hrun].
    intros l' Hl'. right. assert ((fun l => count l + 1 <? capacity l) <$> claim_list_of "demo" two_users = Some true) as Hc
      by (vm_compute; reflexivity).
    rewrite Hl' in Hc. injection Hc as Hc. apply Z.ltb_lt. exact Hc. }
  assert (memory_size_of "demo" k = Some 8192) as Hs.
  { assert ((match claiming_run with Ret _ w => memory_size_of "demo" (acted 2 w (Some second_handle) two_users) | _ => None end)
      = Some 8192) as Hs by (vm_compute; reflexivity). rewrite Hrun in Hs. exact Hs. }
  destruct (claims_within_memory false "demo" k l 8192) as (Hsub & o & ob & _ & _ & _ & H);
    [vm_compute; discriminate|exact Hr|exact Hl|exact Hs|].
  exists k, l. split; [exact Hl|]. split; [injection Hoff as Hoff; exact Hoff|].
  apply Forall_forall. intros c Hc Hfit. destruct (H c (Hsub c Hc)) as [_ H']. destruct (H' Hfit) as [Hle _]. exact Hle.
Defined.

(** C35. Growth from a stale size.  A process that has not followed the growth of the
    memory asks for a size that is more than its handle has and less than the memory.
    With assertions the call aborts the process.  Without them it succeeds and the
    memory shrinks: header and object get the smaller size, under every handle that
    knows the larger one, for [ipm_memory_resize_grow] compares the size with the
    caller's handle only. *)
Theorem stale_growth_shrinks {E : Env} {L : EnvLaws E} nd stale name k pid p m n j size :
  Z.of_nat (String.length name) <= IPM_MAX_NAME_LEN -> mem_reachable nd stale name k ->
  k_procs k !! pid = Some p -> p_local p = Some m -> memory_size_of name k = Some size ->
  b_size (real_memory m) <= round_size n < size -> block_pages (round_size n) j -> can_map k p m (round_size n) ->
  ipm_memory_resize_grow false m n (view k p) = Abort (view k p) /\
  exists o ob m' w, ipm_memory_resize_grow true m n (view k p) = Ret (IPM_RESULT_SUCCESS, m') w /\
    k_names k !! data_name name = Some o /\ w_names w = k_names k /\ w_objs w = <[o := ob]> (k_objs k) /\
    block_size (so_header ob) = round_size n /\ so_size ob = IPM_MEMORY_PAGE_SIZE + round_size n /\
    forall qid q m2, k_procs k !! qid = Some q -> p_local q = Some m2 -> b_size (real_memory m2) = size ->
      so_size ob < IPM_MEMORY_PAGE_SIZE + b_size (real_memory m2).
Proof.
  intros Hname Hr Hp Hm Hs Hle Hpg Hmap. split; [by apply (stale_grow_aborts nd stale name Hname k pid p m n size)|].
  destruct (stale_grow_run nd stale name Hname k pid p m n j size Hr Hp Hm Hs Hle Hpg Hmap)
    as (o & ob & m' & w & Hn & Hso & Hbs & Hrun & Hnm & Hob).
  exists o, ob, m', w. split_and!; try done. intros qid q m2 _ _ Hsz. lia.
Qed.

(** The second process, which has not followed, asks for three pages of seven. *)
Lemma stale_growth_shrinks_witness :
  exists k ob m' w, memory_size_of "demo" k = Some 28672 /\
    ipm_memory_resize_grow true second_handle 12288 (view k second_process) = Ret (IPM_RESULT_SUCCESS, m') w /\
    so_size ob = 16384.
Proof.
  destruct (grow_reaches true true "demo" ltac:(vm_compute; discriminate) two_users 1 first_process first_handle 28672 7 8192
    (two_users_reachable true true) two_users_first eq_refl ltac:(vm_compute; reflexivity) ltac:(vm_compute; discriminate) ltac:(vm_compute; discriminate)
    seven_pages (first_can_map two_users _ (or_intror eq_refl))) as (m1 & w1 & _ & Hr & Hs & _).
  destruct (stale_growth_shrinks true true "demo" (acted 1 w1 (Some m1) two_users) 2 second_process second_handle 12288 3 28672)
    as (_ & o & ob & m' & w & H1 & _ & _ & _ & _ & H2 & _).
  - vm_compute; discriminate.
  - exact Hr.
  - cbn [acted k_procs]. rewrite lookup_insert_ne by discriminate. apply two_users_second.
  - reflexivity.
  - exact Hs.
  - split; vm_compute; [discriminate|reflexivity].
  - unfold block_pages; vm_compute; repeat split; reflexivity.
  - apply second_can_map. left. reflexivity.
  - exists (acted 1 w1 (Some m1) two_users), ob, m', w. split; [exact Hs|]. split; [exact H1|]. rewrite H2. vm_compute. reflexivity.
Defined.

(** C36. Stale growth leaves claims without memory.  In a build without assertions a
    process that has not followed the growth of the memory asks for a size that is more
    than its handle has, while another process has an active claim that ends behind that
    size.  The call succeeds, and afterwards, in a state that processes can reach, the
    list of claims is what it was, that claim included, although the memory ends before
    the claim does. *)
Theorem stale_growth_strands_claims {E : Env} {L : EnvLaws E} name k pid p m n j size l c :
  Z.of_nat (String.length name) <= IPM_MAX_NAME_LEN -> mem_reachable true true name k ->
  k_procs k !! pid = Some p -> p_local p = Some m -> memory_size_of name k = Some size ->
  b_size (real_memory m) <= round_size n < size -> block_pages (round_size n) j -> can_map k p m (round_size n) ->
  claim_list_of name k = Some l -> c ∈ visible l -> round_size n < offset c + Claims.size c ->
  exists m' w, ipm_memory_resize_grow true m n (view k p) = Ret (IPM_RESULT_SUCCESS, m') w /\
    let k' := acted pid w (Some m') k in
    mem_reachable true true name k' /\ claim_list_of name k' = Some l /\
    exists b, memory_size_of name k' = Some b /\ b < offset c + Claims.size c.
Proof.
  intros Hname Hr Hp Hm Hs Hle Hpg Hmap Hl Hc Hend.
  destruct (stale_grow_run true true name Hname k pid p m n j size Hr Hp Hm Hs Hle Hpg Hmap)
    as (o & ob & m' & w & Hn & Hso & Hbs & Hrun & Hnm & Hob).
  exists m', w. split; [done|]. intros k'. destruct Hmap as [Hf Hb Hpl]. split_and!.
  - eapply mem_next; [exact Hr|]. eapply mem_grow; try done. by left.
  - destruct (reachable_handle true true name Hname k pid p m Hr Hp Hm) as (o1 & ob1 & o2 & ob2 & Hst & _ & _).
    pose proof (ms_claims _ _ _ _ _ _ _ _ Hst) as [Hn1 _ _ _ _ _ _ _ _].
    pose proof (ms_data _ _ _ _ _ _ _ _ Hst) as [Hn2 _ _ _ _ _ _ _ _]. pose proof (ms_objects _ _ _ _ _ _ _ _ Hst) as Hne.
    unfold data_name in Hn. rewrite Hn2 in Hn. injection Hn as <-.
    revert Hl. unfold claim_list_of, k', claims_name. cbn [acted k_names k_objs]. rewrite Hnm, Hob, Hn1. simpl.
    by rewrite lookup_insert_ne.
  - exists (round_size n). split; [|done].
    unfold memory_size_of, k'. cbn [acted k_names k_objs]. rewrite Hnm, Hob, Hn. simpl.
    rewrite lookup_insert_eq. simpl. by rewrite Hbs.
Qed.

(** The first process grows the memory to seven pages and claims bytes of the fifth. *)
Definition grown_run : outcome (@world linux) (ipm_result * @ipm_memory linux) :=
  ipm_memory_resize_grow true first_handle 28672 (view two_users first_process).
Definition grown_claim (m : @ipm_memory linux) (k : @machine linux (option ipm_memory)) (p : @process linux (option ipm_memory))
    : outcome (@world linux) (ipm_result * option Z) :=
  ipm_memory_claim_region true [] m IPM_ACCESS_MODE_READ_WRITE 20000 100 (view k p).
Definition strands (k : @machine linux (option ipm_memory)) : bool :=
  match claim_list_of "demo" k with
  | Some l => bool_decide (map (fun c => offset c + Claims.size c) (visible l) = [20100]) | None => false end.

Lemma stale_growth_strands_claims_witness :
  exists k m' w l c, claim_list_of "demo" k = Some l /\ c ∈ visible l /\
    ipm_memory_resize_grow true second_handle 12288 (view k second_process) = Ret (IPM_RESULT_SUCCESS, m') w /\
    exists b, memory_size_of "demo" (acted 2 w (Some m') k) = Some b /\ b < offset c + Claims.size c.
Proof.
  destruct (grow_reaches true true "demo" ltac:(vm_compute; discriminate) two_users 1 first_process first_handle 28672 7 8192
    (two_users_reachable true true) two_users_first eq_refl ltac:(vm_compute; reflexivity) ltac:(vm_compute; discriminate)
    ltac:(vm_compute; discriminate) seven_pages (first_can_map two_users _ (or_intror eq_refl)))
    as (m1 & w1 & Hrun1 & Hr1 & Hs1 & _).
  set (k1 := acted 1 w1 (Some m1) two_users) in *. pose (p1 := became w1 (Some m1)).
  assert (match grown_run with Ret (_, m) w =>
      let k := acted 1 w (Some m) two_users in
      match grown_claim m k (became w (Some m)) with
      | Ret _ w2 => let k2 := acted 1 w2 (Some m) k in
          strands k2 && bool_decide (memory_size_of "demo" k2 = Some 28672) && bool_decide (t_faults (w_thread w) = [])
      | _ => false end | _ => false end = true) as Hb by (vm_compute; reflexivity).
  unfold grown_run in Hb. rewrite Hrun1 in Hb. fold k1 in Hb. fold p1 in Hb.
  destruct (grown_claim m1 k1 p1) as [r w2| | |] eqn:Hclaim; try discriminate Hb.
  set (k2 := acted 1 w2 (Some m1) k1) in *. apply andb_true_iff in Hb as [[Hst Hs2]%andb_true_iff Hf].
  apply bool_decide_eq_true in Hs2, Hf. unfold strands in Hst.
  destruct (claim_list_of "demo" k2) as [l|] eqn:Hl; [|discriminate Hst]. apply bool_decide_eq_true in Hst.
  destruct (visible l) as [|c v] eqn:Hv; [discriminate Hst|]. injection Hst as Hc _.
  assert (mem_reachable true true "demo" k2) as Hr2.
  { eapply mem_next; [exact Hr1|]. eapply (mem_claim _ _ _ 1 p1 m1 IPM_ACCESS_MODE_READ_WRITE 20000 100);
      [apply lookup_insert_eq|reflexivity|exact Hf|by left|by left|exact Hclaim]. }
  destruct (stale_growth_strands_claims "demo" k2 2 second_process second_handle 12288 3 28672 l c)
    as (m' & w & H1 & _ & _ & H2).
  - vm_compute; discriminate.
  - exact Hr2.
  - unfold k2, k1. cbn [acted k_procs]. rewrite !lookup_insert_ne by discriminate. apply two_users_second.
  - reflexivity.
  - exact Hs2.
  - split; vm_compute; [discriminate|reflexivity].
  - unfold block_pages; vm_compute; repeat split; reflexivity.
  - apply second_can_map. left. reflexivity.
  - exact Hl.
  - rewrite Hv. left.
  - rewrite Hc. vm_compute. reflexivity.
  - exists k2, m', w, l, c. split; [exact Hl|]. split; [rewrite Hv; left|]. split; [exact H1|exact H2].
Defined.

(** C37. Two processes grow the memory at the same time.  [shared_memory_block_resize] is
    its assertions followed by what it does under the lock of the block.  One process
    with an up-to-date handle has passed the assertions when another one grows the
    memory to a larger size, in a call that succeeds; the first one then goes on, and
    succeeds in making the memory smaller, whether assertions are on or off: the size
    is checked before the lock is taken and only compared for equality after that. *)
Theorem growth_races {E : Env} {L : EnvLaws E} nd name k pid qid p q m m2 n n2 j j2 size :
  Z.of_nat (String.length name) <= IPM_MAX_NAME_LEN -> mem_reachable nd false name k ->
  k_procs k !! pid = Some p -> p_local p = Some m -> k_procs k !! qid = Some q -> p_local q = Some m2 -> qid <> pid ->
  memory_size_of name k = Some size -> size <= round_size n < round_size n2 ->
  block_pages (round_size n) j -> block_pages (round_size n2) j2 ->
  can_map k p m (round_size n) -> can_map k q m2 (round_size n2) ->
  (forall w, shared_memory_block_resize nd (ctx m) (real_memory m) (round_size n) w =
     (_ ← resize_checked nd (real_memory m) (round_size n); resize_locked (ctx m) (real_memory m) (round_size n)) w) /\
  resize_checked nd (real_memory m) (round_size n) (view k p) = Ret tt (view k p) /\
  exists m2' w2, ipm_memory_resize_grow nd m2 n2 (view k q) = Ret (IPM_RESULT_SUCCESS, m2') w2 /\
    let k' := acted qid w2 (Some m2') k in
    memory_size_of name k' = Some (round_size n2) /\ b_size (real_memory m2') = round_size n2 /\
    exists o ob b w, resize_locked (ctx m) (real_memory m) (round_size n) (view k' p) = Ret (IPM_RESULT_SUCCESS, b) w /\
      k_names k' !! data_name name = Some o /\ w_objs w = <[o := ob]> (k_objs k') /\
      block_size (so_header ob) = round_size n /\
      so_size ob = IPM_MEMORY_PAGE_SIZE + round_size n /\ so_size ob < IPM_MEMORY_PAGE_SIZE + b_size (real_memory m2').
Proof.
  intros Hname Hr Hp Hm Hq Hm2 Hne Hs [Hle Hlt] Hpg Hpg2 Hmap Hmap2.
  pose proof (reachable_size nd name Hname k pid p m size Hr Hp Hm Hs) as Hbs.
  pose proof (reachable_size nd name Hname k qid q m2 size Hr Hq Hm2 Hs) as Hbs2.
  split; [intros; apply resize_cut|]. split; [by eapply (checked_run nd false name Hname)|].
  destruct (grow_reaches nd false name Hname k qid q m2 n2 j2 size Hr Hq Hm2 Hs ltac:(lia) ltac:(lia) Hpg2 Hmap2) as (m2' & w2 & Hrun & Hr' & Hs' & Hsz').
  exists m2', w2. split; [done|]. intros k'. split; [done|]. split; [done|].
  assert (k_procs k' !! pid = Some p) as Hp' by (cbn; by rewrite lookup_insert_ne).
  destruct (stale_resize_run nd false name Hname k' pid p m n j (round_size n2) Hr' Hp' Hm Hs' ltac:(lia) Hpg (can_map_after k k' _ _ _ Hmap))
    as (o & ob & m' & w & Hn & Hso & Hob & Hlock & _ & _ & Hw).
  destruct (reachable_handle nd false name Hname k' pid p m Hr' Hp' Hm) as (? & ? & o' & ob' & _ & [[_ [Hhd _ _ _ _] _ _] _ _ _] & _).
  exists o, ob, (real_memory m'), w. split_and!; try done; [|lia].
  rewrite (locked_is_resize _ _ _ _ (so_header ob')); [done|]. by eapply read_header_run.
Qed.

Lemma growth_races_witness :
  exists m2' w2 b w, ipm_memory_resize_grow false second_handle 28672 (view two_users second_process) = Ret (IPM_RESULT_SUCCESS, m2') w2 /\
    resize_locked (ctx first_handle) (real_memory first_handle) 12288 (view (acted 2 w2 (Some m2') two_users) first_process) =
      Ret (IPM_RESULT_SUCCESS, b) w.
Proof.
  destruct (growth_races false "demo" two_users 1 2 first_process second_process first_handle second_handle 12288 28672 3 7 8192)
    as (_ & _ & m2' & w2 & H1 & _ & _ & o & ob & b & w & H2 & _).
  - vm_compute; discriminate.
  - apply two_users_reachable.
  - apply two_users_first.
  - reflexivity.
  - apply two_users_second.
  - reflexivity.
  - discriminate.
  - vm_compute; reflexivity.
  - split; vm_compute; (reflexivity || discriminate).
  - unfold block_pages; vm_compute; repeat split; reflexivity.
  - apply seven_pages.
  - apply first_can_map. left. reflexivity.
  - apply second_can_map. right. reflexivity.
  - exists m2', w2, b, w. split; [exact H1|exact H2].
Defined.

(** C38. What is mapped again stays mapped.  A process follows the growth of the memory
    with [ipm_memory_sync] and closes it at once.  Both calls return, and every page of
    the memory is still mapped in the process: the new address was not stored in the
    handle, so nothing can unmap it. *)
Theorem followed_growth_leaks {E : Env} {L : EnvLaws E} nd stale name k pid p m size q :
  Z.of_nat (String.length name) <= IPM_MAX_NAME_LEN -> mem_reachable nd stale name k ->
  k_procs k !! pid = Some p -> p_local p = Some m -> memory_size_of name k = Some size ->
  b_size (real_memory m) <> size -> can_map k p m size -> place (view k p) m size = Some q -> pages_of size <= q ->
  exists o w, k_names k !! data_name name = Some o /\
    ('(_, m') ← ipm_memory_sync m; ipm_memory_close nd m') (view k p) = Ret tt w /\
    forall i, 0 <= i < pages_of size ->
      w_pages w !! (q + i) = Some (mk_page o (1 + i) (is_writable (b_access_mode (real_memory m)))).
Proof. intros Hname Hr Hp Hm Hs Hne Hmap Hq Hlow. by eapply synced_pages_stay. Qed.

Lemma followed_growth_leaks_witness :
  exists k o w, ('(_, m') ← ipm_memory_sync second_handle; ipm_memory_close true m') (view k second_process) = Ret tt w /\
    w_pages w !! 21 = Some (mk_page o 1 true).
Proof.
  destruct (grow_reaches true true "demo" ltac:(vm_compute; discriminate) two_users 1 first_process first_handle 28672 7 8192
    (two_users_reachable true true) two_users_first eq_refl ltac:(vm_compute; reflexivity) ltac:(vm_compute; discriminate) ltac:(vm_compute; discriminate)
    seven_pages (first_can_map two_users _ (or_intror eq_refl))) as (m1 & w1 & _ & Hr & Hs & _).
  destruct (followed_growth_leaks true true "demo" (acted 1 w1 (Some m1) two_users) 2 second_process second_handle 28672 21)
    as (o & w & _ & H1 & H2).
  - vm_compute; discriminate.
  - exact Hr.
  - cbn [acted k_procs]. rewrite lookup_insert_ne by discriminate. apply two_users_second.
  - reflexivity.
  - exact Hs.
  - vm_compute. discriminate.
  - apply second_can_map. right. reflexivity.
  - vm_compute. reflexivity.
  - vm_compute. discriminate.
  - exists (acted 1 w1 (Some m1) two_users), o, w. split; [exact H1|]. apply (H2 0). split; vm_compute; (reflexivity || discriminate).
Defined.
