(* ===== verification/Protocol.v ===== *)
(** * Several processes on one claim list

    The operations of source/ipm_memory.c that work on the shared claim list
    ([ipm_memory_claim_region], [ipm_memory_release_region],
    [ipm_memory_release_all], [ipm_memory_remove_all_active_claims]) as steps of
    processes that interleave: entering (the lock), the body on the list,
    sleeping on the condition variable, being woken, leaving (the unlock) and
    signalling.  Each step is one run of the code of files [Platform], [Claims]
    and [Memory]; between two steps of a process any others may act, and a
    process may die.  [condition_wait_split] and [claim_wait_split] show that
    the sleep of the sequential definitions is the composition of these steps.

    This file has the step relation, the state of the mutex in every reachable
    state, and what follows from it; [Exclusive] has the claims themselves, and
    [Wakeups] who is woken. *)

From S2P Require Import Prelude Errors Pthread Platform Claims Common Names World SharedMemory Memory Machine Regions.

(** ** Processes *)

(** What a process asks for: a region, giving back one claim, all of its claims,
    or removing the claims of everybody.  A [Want] is a request that has passed
    the checks in front of the lock. *)
Inductive request := Want (a : ipm_access_mode) (off n : Z) | Give (id : Z) | Give_all | Clear.

(** Where a process is.  [Trying], [Removing], [Sweeping], [Clearing] and [Leaving]
    are between the lock and the unlock; [Leaving true] is going to signal.
    [Woken] has been woken and is about to take the mutex again; [Failing] is a
    claim whose wait reported an error. *)
Inductive phase :=
| Idle
| Entering (r : request)
| Trying (c : ipm_memory_claim)
| Sleeping (c : ipm_memory_claim)
| Woken (c : ipm_memory_claim)
| Failing
| Removing (id : Z)
| Sweeping
| Clearing
| Leaving (signal : bool)
| Signalling.

(** The phases in which a process works on the list. *)
Definition inside (ph : phase) : bool :=
  match ph with Trying _ | Removing _ | Sweeping | Clearing | Leaving _ => true | _ => false end.

(** A process is named by its access identifier, which is also its thread's name
    here; [granted] records the claims handed out and not yet given back. *)
Record system := mk_system {
  shared : ipm_claim_list;
  phases : gmap Z phase;
  granted : list ipm_memory_claim
}.

(** A thread with nothing injected and no stale error number. *)
Definition thr (p : Z) : thread := mk_thread p 0 [].
Definition move (p : Z) (ph : phase) (l : ipm_claim_list) (s : system) : system :=
  mk_system l (<[p := ph]> (phases s)) (granted s).
Definition grant (c : ipm_memory_claim) (s : system) : system :=
  mk_system (shared s) (phases s) (granted s ++ [c]).
Definition keep (P : ipm_memory_claim -> Prop) `{!forall c, Decision (P c)} (s : system) : system :=
  mk_system (shared s) (phases s) (filter P (granted s)).
Definition give_back (id : Z) (s : system) : system := keep (fun c => claim_id c <> id) s.
Definition give_all_back (p : Z) (s : system) : system := keep (fun c => proc_id c <> p) s.
Definition clear (s : system) : system := mk_system (shared s) (phases s) [].
Definition wake (q : Z) (c : ipm_memory_claim) (s : system) : system :=
  mk_system (shared s) (<[q := Woken c]> (phases s)) (granted s).
Definition dies (p : Z) (s : system) : system :=
  mk_system (set_mutex (owner_dies p (list_mutex (shared s))) (shared s)) (delete p (phases s)) (granted s).

(** The lines of [ipm_memory_claim_region] from the lock to the first check. *)
Definition enter_claim : LM (ipm_result * Z) :=
  r ← on_mutex ipm_mutex_lock;
  if negb (ok r) then mret (r, 0) else id ← fetch_add_counter; mret (r, id).

(** [ipm_condition_wait] from the wake-up on. *)
Definition wake_up : LM ipm_result :=
  res ← on_mutex mutex_acquire;
  if negb (res =? 0) then e ← errno; mret (cond_wait_error e) else mret IPM_RESULT_SUCCESS.

(** The phase behind the lock, for the requests other than [Want]. *)
Definition entered (r : request) : option phase :=
  match r with
  | Want _ _ _ => None
  | Give id => Some (Removing id)
  | Give_all => Some Sweeping
  | Clear => Some Clearing
  end.
Definition is_bulk (r : request) : bool := match r with Give_all | Clear => true | _ => false end.

(** ** Assumptions on the processes

    [strict] is the discipline under which the list is exact: claims do not wrap
    around the end of the address space, are appended, and are given back from
    the end; the claim counter does not wrap.  [mortal]: processes may die.
    [bulk]: the bulk operations are used.  [spurious]: sleepers may wake up
    without a signal. *)
Record regime := mk_regime { strict : bool; mortal : bool; bulk : bool; spurious : bool }.

Definition in_order_claim (st : bool) (c : ipm_memory_claim) (l : ipm_claim_list) : Prop :=
  st = true -> ins_pos c (visible l) = length (visible l).
Definition in_order_release (st : bool) (id : Z) (l : ipm_claim_list) : Prop :=
  st = true -> S (rem_pos id (visible l)) = length (visible l).
Definition in_order_sweep (st : bool) (p : Z) (l : ipm_claim_list) : Prop :=
  st = true -> exists others mine, visible l = others ++ mine /\
    Forall (fun d => proc_id d <> p) others /\ Forall (fun d => proc_id d = p) mine.
Definition fits (st : bool) (c : ipm_memory_claim) (l : ipm_claim_list) : Prop :=
  st = true -> claim_ok c /\ claim_counter l + 1 < u64_mod.

(** The signal of process [p] on the condition variable of [l], with the number of
    wake-ups it sends. *)
Definition signal (p : Z) (l : ipm_claim_list) : outcome (thread * (ipm_claim_list * nat)) ipm_result :=
  zoom (fun s => (s.1, (list_cnd s.2.1, s.2.2))) (fun s' s => (s'.1, (set_cnd s'.2.1 s.2.1, s'.2.2)))
    ipm_condition_signal (thr p, (l, 0%nat)).

Section protocol.
Variable NDEBUG : bool.
Variable R : regime.

Inductive step : system -> system -> Prop :=
| step_ask p r s :
    phases s !! p = Some Idle -> (is_bulk r = true -> bulk R = true) ->
    step s (move p (Entering r) (shared s) s)
| step_refused p r res t l s :
    phases s !! p = Some (Entering r) ->
    on_mutex ipm_mutex_lock (thr p, shared s) = Ret res (t, l) -> res <> IPM_RESULT_SUCCESS ->
    step s (move p Idle l s)
| step_enter_claim p a off n id t l s :
    phases s !! p = Some (Entering (Want a off n)) -> fits (strict R) (mk_claim 0 p a off n) (shared s) ->
    enter_claim (thr p, shared s) = Ret (IPM_RESULT_SUCCESS, id) (t, l) ->
    step s (move p (Trying (mk_claim id p a off n)) l s)
| step_enter p r ph t l s :
    phases s !! p = Some (Entering r) -> entered r = Some ph ->
    on_mutex ipm_mutex_lock (thr p, shared s) = Ret IPM_RESULT_SUCCESS (t, l) ->
    step s (move p ph l s)
| step_grant p c t l t' l' s :
    phases s !! p = Some (Trying c) -> in_order_claim (strict R) c (shared s) ->
    claim_wait c [] (thr p, shared s) = Ret None (t, l) ->
    claim_add_to_list NDEBUG c (t, l) = Ret IPM_RESULT_SUCCESS (t', l') ->
    step s (grant c (move p (Leaving false) l' s))
| step_sleep p c t l s :
    phases s !! p = Some (Trying c) ->
    claim_wait c [] (thr p, shared s) = Hang (t, l) ->
    step s (move p (Sleeping c) l s)
| step_spurious p c s :
    phases s !! p = Some (Sleeping c) -> spurious R = true -> step s (wake p c s)
| step_wake p c t l s :
    phases s !! p = Some (Woken c) ->
    wake_up (thr p, shared s) = Ret IPM_RESULT_SUCCESS (t, l) ->
    step s (move p (Trying c) l s)
| step_wake_fails p c res t l s :
    phases s !! p = Some (Woken c) ->
    wake_up (thr p, shared s) = Ret res (t, l) -> res <> IPM_RESULT_SUCCESS ->
    step s (move p Failing l s)
| step_fail p res t l s :
    phases s !! p = Some Failing ->
    on_mutex ipm_mutex_unlock (thr p, shared s) = Ret res (t, l) ->
    step s (move p Idle l s)
| step_remove p id t l s :
    phases s !! p = Some (Removing id) -> in_order_release (strict R) id (shared s) ->
    id ∈ map claim_id (visible (shared s)) ->
    claim_remove_from_list NDEBUG id (thr p, shared s) = Ret IPM_RESULT_SUCCESS (t, l) ->
    step s (give_back id (move p (Leaving true) l s))
| step_sweep p t l s :
    phases s !! p = Some Sweeping -> in_order_sweep (strict R) p (shared s) ->
    release_all_loop NDEBUG p (thr p, shared s) = Ret tt (t, l) ->
    step s (give_all_back p (move p (Leaving false) l s))
| step_clear p t l s :
    phases s !! p = Some Clearing ->
    remove_all_claims NDEBUG (thr p, shared s) = Ret tt (t, l) ->
    step s (clear (move p (Leaving false) l s))
| step_leave p sg res t l s :
    phases s !! p = Some (Leaving sg) ->
    on_mutex ipm_mutex_unlock (thr p, shared s) = Ret res (t, l) ->
    step s (move p (if sg then Signalling else Idle) l s)
| step_signal p q c res t l n s :
    phases s !! p = Some Signalling -> phases s !! q = Some (Sleeping c) ->
    signal p (shared s) = Ret res (t, (l, S n)) ->
    step s (wake q c (move p Idle l s))
| step_signal_nobody p res t l n s :
    phases s !! p = Some Signalling -> n = 0%nat \/ (forall q c, phases s !! q <> Some (Sleeping c)) ->
    signal p (shared s) = Ret res (t, (l, n)) ->
    step s (move p Idle l s)
| step_die p ph s :
    phases s !! p = Some ph -> mortal R = true -> step s (dies p s).

(** A new memory and processes that have done nothing yet. *)
Record initial (s : system) : Prop := {
  in_ready : ready (shared s);
  in_capacity : 0 < capacity (shared s) < 2 ^ 31;
  in_empty : visible (shared s) = [];
  in_granted : granted s = [];
  in_counter : claim_counter (shared s) = 0;
  in_idle : forall p ph, phases s !! p = Some ph -> ph = Idle
}.

Inductive reachable : system -> Prop :=
| reach_initial s : initial s -> reachable s
| reach_step s s' : reachable s -> step s s' -> reachable s'.
End protocol.

(** ** The mutex of the list

    Besides the states of an [ipm] lock (file [Platform]) the mutex can be
    abandoned, taken over by a sleeper that does not repair it, or
    unrecoverable: [ipm_mutex_lock] repairs an abandoned mutex, but
    [pthread_cond_wait] reports it to [ipm_condition_wait], which takes the
    report for a failure. *)
Inductive guard :=
| Avail
| Busy (p : Z)
| Left (p : Z) (b : bool)   (* its holder died; [b]: before repairing it *)
| Tainted (p : Z)           (* held after a death, not repaired *)
| Broken.                   (* given up while tainted *)

Definition guard_mutex (g : guard) : ipm_mut :=
  match g with
  | Avail => mutex_of Free
  | Busy p => mutex_of (Held p)
  | Left p b => mk_mutex true ipm_mutexattr (Some p) true b false
  | Tainted p => mk_mutex true ipm_mutexattr (Some p) false true false
  | Broken => mk_mutex true ipm_mutexattr None false false true
  end.

Lemma guard_mutex_inj g h : guard_mutex g = guard_mutex h -> g = h.
Proof. destruct g, h; cbn; intros H; simplify_eq; done. Qed.

Definition guard_dies (p : Z) (g : guard) : guard :=
  match g with
  | Busy q => if decide (q = p) then Left p false else g
  | Tainted q => if decide (q = p) then Left p true else g
  | _ => g
  end.

Lemma guard_dies_run p g : owner_dies p (guard_mutex g) = guard_mutex (guard_dies p g).
Proof.
  unfold owner_dies. destruct g as [|q|q b|q|]; simpl; repeat case_decide; simplify_eq; done.
Qed.

(** Runs a wrapper on a mutex, comparing the owner with the caller by [E]. *)
Ltac prim_run E :=
  unfold ipm_mutex_lock, ipm_mutex_unlock, pthread_mutex_lock, pthread_mutex_unlock, pthread_call,
    mutex_acquire, mutex_release, pthread_mutex_consistent, mbind, M_bind;
  simpl; rewrite E; reflexivity.

Section guards.
Implicit Types (p : Z) (l : ipm_claim_list) (g : guard).

(** The list with its mutex in state [h]. *)
Definition guarded g l : ipm_claim_list := set_mutex (guard_mutex g) l.

Lemma on_mutex_guard {A} p l g (m : M (thread * ipm_mut) A) r t h :
  list_mutex l = guard_mutex g ->
  m (thr p, guard_mutex g) = Ret r (t, guard_mutex h) ->
  on_mutex m (thr p, l) = Ret r (t, guarded h l).
Proof. intros Hg Hr. unfold on_mutex. by erewrite zoom_Ret by (cbn [fst snd]; by rewrite Hg). Qed.

Lemma on_mutex_hang {A} p l g (m : M (thread * ipm_mut) A) r s :
  list_mutex l = guard_mutex g ->
  (exists s', m (thr p, guard_mutex g) = Hang s') -> on_mutex m (thr p, l) = Ret r s -> False.
Proof. intros Hg [s' Hr]. unfold on_mutex, zoom. cbn [fst snd]. by rewrite Hg, Hr. Qed.

(** Locking: an available or abandoned mutex is taken and repaired; a mutex that
    is not recoverable, and the caller's own, give an error; else it blocks. *)
Definition lock_result p g : option (ipm_result * guard) :=
  match g with
  | Avail | Left _ _ => Some (IPM_RESULT_SUCCESS, Busy p)
  | Busy q | Tainted q => if q =? p then Some (IPM_RESULT_ERR_OS_UNEXPECTED, g) else None
  | Broken => Some (IPM_RESULT_ERR_OS_UNEXPECTED, Broken)
  end.

Lemma lock_guard_inv p l g r t l' :
  list_mutex l = guard_mutex g ->
  on_mutex ipm_mutex_lock (thr p, l) = Ret r (t, l') ->
  exists h, lock_result p g = Some (r, h) /\ l' = guarded h l /\ t = thr p.
Proof.
  intros Hg Hr. unfold lock_result.
  assert (forall r' h, ipm_mutex_lock (thr p, guard_mutex g) = Ret r' (thr p, guard_mutex h) ->
    r' = r /\ l' = guarded h l /\ t = thr p) as Hrun.
  { intros r' h H. rewrite (on_mutex_guard _ _ _ _ _ _ _ Hg H) in Hr. by injection Hr as <- <- <-. }
  destruct g as [|q|q b|q|].
  - destruct (Hrun IPM_RESULT_SUCCESS (Busy p) eq_refl) as (<- & -> & ->). eauto.
  - destruct (Z.eqb_spec q p) as [->|Hne].
    + destruct (Hrun IPM_RESULT_ERR_OS_UNEXPECTED (Busy p)) as (<- & -> & ->); [|eauto].
      by prim_run (Z.eqb_refl p).
    + exfalso. eapply on_mutex_hang; [exact Hg| |exact Hr].
      eexists. by prim_run (proj2 (Z.eqb_neq _ _) Hne).
  - destruct (Hrun IPM_RESULT_SUCCESS (Busy p)) as (<- & -> & ->); [|eauto].
    unfold ipm_mutex_lock, pthread_mutex_consistent, mbind, M_bind; simpl. by rewrite decide_True.
  - destruct (Z.eqb_spec q p) as [->|Hne].
    + destruct (Hrun IPM_RESULT_ERR_OS_UNEXPECTED (Tainted p)) as (<- & -> & ->); [|eauto].
      by prim_run (Z.eqb_refl p).
    + exfalso. eapply on_mutex_hang; [exact Hg| |exact Hr].
      eexists. by prim_run (proj2 (Z.eqb_neq _ _) Hne).
  - destruct (Hrun IPM_RESULT_ERR_OS_UNEXPECTED Broken eq_refl) as (<- & -> & ->). eauto.
Qed.

(** Taking the mutex again after a sleep: an abandoned mutex is an error and is
    not repaired. *)
Definition wake_result p g : option (ipm_result * guard) :=
  match g with
  | Avail => Some (IPM_RESULT_SUCCESS, Busy p)
  | Left _ _ => Some (IPM_RESULT_ERR_OS_UNEXPECTED, Tainted p)
  | Busy q | Tainted q => if q =? p then Some (IPM_RESULT_ERR_OS_UNEXPECTED, g) else None
  | Broken => Some (IPM_RESULT_ERR_OS_UNEXPECTED, Broken)
  end.

Lemma wake_guard_inv p l g r t l' :
  list_mutex l = guard_mutex g ->
  wake_up (thr p, l) = Ret r (t, l') ->
  exists h, wake_result p g = Some (r, h) /\ l' = guarded h l /\ t = thr p.
Proof.
  intros Hg Hr. unfold wake_up in Hr. apply bind_Ret_inv in Hr as (e & [t1 l1] & Hacq & Hr).
  assert (forall e' h, mutex_acquire (thr p, guard_mutex g) = Ret e' (thr p, guard_mutex h) ->
    e = e' /\ l1 = guarded h l /\ t1 = thr p) as Hrun.
  { intros e' h H. rewrite (on_mutex_guard _ _ _ _ _ _ _ Hg H) in Hacq. by injection Hacq as <- <- <-. }
  assert (t = t1 /\ l' = l1 /\ r = if e =? 0 then IPM_RESULT_SUCCESS else cond_wait_error (t_errno t1)) as (-> & -> & ->).
  { destruct (e =? 0); cbn [negb] in Hr; by injection Hr as <- <- <-. }
  unfold wake_result. destruct g as [|q|q b|q|].
  - destruct (Hrun 0 (Busy p) eq_refl) as (-> & -> & ->). eauto.
  - destruct (Z.eqb_spec q p) as [->|Hne].
    + destruct (Hrun EDEADLK (Busy p)) as (-> & -> & ->); [|eauto].
      by prim_run (Z.eqb_refl p).
    + exfalso. eapply on_mutex_hang; [exact Hg| |exact Hacq].
      eexists. by prim_run (proj2 (Z.eqb_neq _ _) Hne).
  - destruct (Hrun EOWNERDEAD (Tainted p) eq_refl) as (-> & -> & ->). eauto.
  - destruct (Z.eqb_spec q p) as [->|Hne].
    + destruct (Hrun EDEADLK (Tainted p)) as (-> & -> & ->); [|eauto].
      by prim_run (Z.eqb_refl p).
    + exfalso. eapply on_mutex_hang; [exact Hg| |exact Hacq].
      eexists. by prim_run (proj2 (Z.eqb_neq _ _) Hne).
  - destruct (Hrun ENOTRECOVERABLE Broken eq_refl) as (-> & -> & ->). eauto.
Qed.

Definition unlock_result p g : guard :=
  match g with
  | Busy q | Left q false => if decide (q = p) then Avail else g
  | Tainted q | Left q true => if decide (q = p) then Broken else g
  | _ => g
  end.

Lemma unlock_guard_run p l g :
  list_mutex l = guard_mutex g ->
  exists r, on_mutex ipm_mutex_unlock (thr p, l) = Ret r (thr p, guarded (unlock_result p g) l).
Proof.
  intros Hg.
  assert (exists r, ipm_mutex_unlock (thr p, guard_mutex g) = Ret r (thr p, guard_mutex (unlock_result p g))) as [r Hr].
  { unfold unlock_result. destruct g as [|q|q [|]|q|]; try case_decide; subst;
      eexists; unfold ipm_mutex_unlock, pthread_mutex_unlock, pthread_call, mutex_release, mbind, M_bind;
      simpl; first [rewrite decide_True by done | rewrite decide_False by congruence | idtac]; reflexivity. }
  exists r. by eapply on_mutex_guard.
Qed.

Lemma unlock_guard_inv p l g r t l' :
  list_mutex l = guard_mutex g ->
  on_mutex ipm_mutex_unlock (thr p, l) = Ret r (t, l') -> l' = guarded (unlock_result p g) l /\ t = thr p.
Proof. intros Hg Hr. destruct (unlock_guard_run p l g Hg) as [r' Hr']. rewrite Hr in Hr'. by injection Hr' as -> -> ->. Qed.
End guards.

(** ** Runs of the bodies *)

Section bodies.
Variable NDEBUG : bool.
Implicit Types (p : Z) (l : ipm_claim_list) (c : ipm_memory_claim) (t : thread).

Lemma leave_run p l :
  list_mutex l = mutex_of (Held p) ->
  on_mutex ipm_mutex_unlock (thr p, l) = Ret IPM_RESULT_SUCCESS (thr p, set_mutex (mutex_of Free) l).
Proof. intros Hm. rewrite unlock_list_run; [done|by apply no_faults_nil|done]. Qed.

Lemma signal_cnd_run p l :
  list_cnd l = mk_cond true true ->
  signal p l = Ret IPM_RESULT_SUCCESS (thr p, (l, 1%nat)).
Proof.
  intros Hc. unfold signal. erewrite zoom_Ret.
  2:{ cbn [fst snd]. rewrite Hc. apply counted_signal_run. by apply no_faults_nil. }
  cbn [fst snd]. rewrite thread_after_call_nil, <- Hc by done. by destruct l.
Qed.

(** A wait from the sleep on: unlocking, what the others do, and waking up. *)
Lemma condition_wait_split p l f :
  locked p l ->
  ipm_condition_wait list_cnd list_mutex set_mutex (Some f) (thr p, l) =
  wake_up (thr p, f (set_mutex (mutex_of Free) l)).
Proof.
  intros Hl. unfold ipm_condition_wait, wake_up, mbind, M_bind. by rewrite cond_wait_sleep by (done || by apply no_faults_nil).
Qed.

(** The body of a claim with the mutex held, without anybody to wake it. *)
Lemma claim_wait_once p c l :
  locked p l ->
  claim_wait c [] (thr p, l) =
  if grantable c l then Ret None (thr p, l) else Hang (thr p, set_mutex (mutex_of Free) l).
Proof.
  intros Hl. pose proof Hl as (Hwf & _ & _). pose proof Hwf as [Hc Hs Hw].
  cbn [claim_wait]. erewrite bind_Ret by done. cbn [snd].
  erewrite bind_Ret by (apply scan_loop_run; lia). fold (visible l). rewrite grantable_scan by done.
  destruct (grantable c l); [done|]. cbn [head].
  unfold mbind at 1, M_bind at 1, ipm_condition_wait, mbind at 1, M_bind at 1.
  by rewrite cond_wait_sleep by (done || by apply no_faults_nil).
Qed.

(** The body of a claim that is woken: it sleeps, the others act, it takes the
    mutex again and checks once more, or reports the failed wait. *)
Lemma claim_wait_split p c f wakes l :
  locked p l ->
  claim_wait c (f :: wakes) (thr p, l) =
  if grantable c l then Ret None (thr p, l)
  else (res ← wake_up; if negb (ok res) then mret (Some res) else claim_wait c wakes)
         (thr p, f (set_mutex (mutex_of Free) l)).
Proof.
  intros Hl. pose proof Hl as (Hwf & _ & _). pose proof Hwf as [Hc Hs Hw].
  cbn [claim_wait]. erewrite bind_Ret by done. cbn [snd].
  erewrite bind_Ret by (apply scan_loop_run; lia). fold (visible l). rewrite grantable_scan by done.
  destruct (grantable c l); [done|]. cbn [head].
  unfold mbind at 1, M_bind at 1. rewrite condition_wait_split by done. reflexivity.
Qed.

(** Adding and removing keep well-formedness and the synchronisation objects. *)
Lemma add_inv c t l t' l' :
  list_wf l -> grantable c l = true -> claim_add_to_list NDEBUG c (t, l) = Ret IPM_RESULT_SUCCESS (t', l') ->
  l' = added c l /\ list_wf l' /\ visible l' = visible_added c (visible l) (spare l).
Proof.
  intros Hwf Hg Hr. pose proof (grantable_room _ _ Hwf Hg) as Hlt.
  rewrite claim_add_run in Hr by done. injection Hr as <- <-.
  split_and!; [done|by apply added_wf|by apply visible_added_eq].
Qed.

Lemma remove_inv id r t l t' l' :
  list_wf l -> id ∈ map claim_id (visible l) ->
  claim_remove_from_list NDEBUG id (t, l) = Ret r (t', l') ->
  t' = t /\ l' = removed (rem_pos id (visible l)) l /\ list_wf l' /\
  visible l' = visible_removed (rem_pos id (visible l)) (visible l) /\
  (NDEBUG = true \/ count l < capacity l).
Proof.
  intros Hwf Hid Hr. pose proof (rem_pos_lt _ _ Hid) as Hp. pose proof Hwf as [Hc Hs Hw].
  rewrite length_visible in Hp by done.
  assert (NDEBUG = true \/ count l < capacity l) as Hnd.
  { destruct NDEBUG; [by left|right]. destruct (decide (count l < capacity l)); [done|exfalso].
    unfold claim_remove_from_list, fetch_sub_count, get_list, mbind, M_bind in Hr. simpl in Hr.
    rewrite (wrap32_small (count l)), (proj2 (Z.ltb_ge (count l) _)) in Hr by (word || lia). done. }
  rewrite claim_remove_run in Hr by (done || lia || by apply rem_pos_lt). injection Hr as <- <- <-.
  split_and!; [done..|by apply removed_wf|by apply visible_removed_eq|done].
Qed.

Lemma slot_visible l i c :
  list_wf l -> 0 <= i < count l -> claims l !! Z.to_nat i = Some c ->
  visible l !! Z.to_nat i = Some c /\ claim_id c ∈ map claim_id (visible l).
Proof.
  intros Hwf Hi Hc. assert (visible l !! Z.to_nat i = Some c) as Hv by (rewrite visible_lookup by lia; done).
  split; [done|]. apply list_elem_of_fmap. exists c. split; [done|]. by eapply list_elem_of_lookup_2.
Qed.

(** What [release_all_loop] and [remove_all_claims] leave whenever they return,
    whatever the identifiers in the list are. *)
Lemma release_loop_inv fuel p i t l t' l' :
  list_wf l -> count l < 2 ^ 31 -> 0 <= i ->
  release_loop NDEBUG fuel p i (t, l) = Ret tt (t', l') ->
  list_wf l' /\ same_sync l l' /\ visible l' ⊆ visible l.
Proof.
  revert i l. induction fuel as [|fuel IH]; intros i l Hwf Hmax Hi Hr; pose proof Hwf as [Hc Hs Hw];
    cbn [release_loop] in Hr; (erewrite bind_Ret in Hr by done); cbn [snd] in Hr;
    rewrite to_int_small in Hr by lia;
    (destruct (Z.ltb_spec i (count l)) as [Hlt|]; cbn [negb] in Hr;
     [|by injection Hr as <- <-]); [done|].
  apply bind_Ret_inv in Hr as (c & s1 & Hl & Hr).
  destruct (claims l !! Z.to_nat i) as [c'|] eqn:Hci; [|done]. injection Hl as <- <-.
  apply slot_visible in Hci as [Hv Hid]; [|done|lia].
  destruct (proc_id c' =? p).
  - apply bind_Ret_inv in Hr as (r & [t1 l1] & Hrem & Hr).
    apply remove_inv in Hrem as (-> & -> & Hwf1 & Hv1 & _); [|done|done].
    pose proof (rem_pos_lt _ _ Hid) as Hp.
    apply IH in Hr as (Hwf' & Hss & Hsub); [|done|simpl; lia|lia].
    split_and!; [done|by eapply same_sync_trans; [apply same_sync_removed|]|].
    etransitivity; [exact Hsub|]. rewrite Hv1. by apply visible_removed_subset.
  - by apply IH in Hr; [|done|lia|lia].
Qed.

Lemma remove_all_loop_inv fuel t l t' l' :
  list_wf l -> remove_all_loop NDEBUG fuel (t, l) = Ret tt (t', l') ->
  list_wf l' /\ same_sync l l' /\ visible l' = [].
Proof.
  revert l. induction fuel as [|fuel IH]; intros l Hwf Hr; pose proof Hwf as [Hc Hs Hw];
    cbn [remove_all_loop] in Hr; (erewrite bind_Ret in Hr by done); cbn [snd] in Hr;
    (destruct (Z.eqb_spec (count l) 0) as [H0|];
     [injection Hr as <- <-; split_and!; [done..|]; unfold visible; by rewrite H0|]); [done|].
  apply bind_Ret_inv in Hr as (c & s1 & Hl & Hr).
  destruct (claims l !! Z.to_nat (count l - 1)) as [c'|] eqn:Hci; [|done]. injection Hl as <- <-.
  apply slot_visible in Hci as [Hv Hid]; [|done|lia].
  apply bind_Ret_inv in Hr as (r & [t1 l1] & Hrem & Hr).
  apply remove_inv in Hrem as (-> & -> & Hwf1 & _); [|done|done].
  apply IH in Hr as (Hwf' & Hss & Hv'); [|done].
  split_and!; [done|by eapply same_sync_trans; [apply same_sync_removed|]|done].
Qed.

Lemma enter_claim_inv p l g t l' id :
  list_mutex l = guard_mutex g -> enter_claim (thr p, l) = Ret (IPM_RESULT_SUCCESS, id) (t, l') ->
  lock_result p g = Some (IPM_RESULT_SUCCESS, Busy p) /\ l' = asked p l /\ id = claim_counter l.
Proof.
  intros Hm Hr. unfold enter_claim in Hr.
  apply bind_Ret_inv in Hr as (r & [t1 l1] & Hlk & Hr).
  assert (r = IPM_RESULT_SUCCESS) as ->.
  { unfold ok in Hr. case_bool_decide; [done|]. by injection Hr as ->. }
  unfold ok in Hr. rewrite bool_decide_true in Hr by done. cbn [negb] in Hr.
  unfold fetch_add_counter, get_list, mbind, M_bind in Hr. simpl in Hr. injection Hr as <- <- <-.
  apply (lock_guard_inv _ _ g) in Hlk as (h & Hres & -> & ->); [|done].
  destruct g as [|q|q b|q|]; simpl in Hres; repeat case_match; simplify_eq; done.
Qed.
End bodies.

(** ** The state of the mutex in every reachable state *)

Definition nobody_inside (ps : gmap Z phase) : Prop := forall p ph, ps !! p = Some ph -> inside ph = false.

(** A busy mutex belongs to the one process inside; an abandoned one to a process
    that is gone; a tainted one to a process that is about to give it up. *)
Definition guard_agrees (g : guard) (ps : gmap Z phase) : Prop :=
  match g with
  | Busy q => exists ph, ps !! q = Some ph /\ inside ph = true /\
      forall p ph', p <> q -> ps !! p = Some ph' -> inside ph' = false
  | Tainted q => ps !! q = Some Failing /\ nobody_inside ps
  | Left q _ => ps !! q = None /\ nobody_inside ps
  | Avail | Broken => nobody_inside ps
  end.

Record sane (g : guard) (s : system) : Prop := {
  sn_wf : list_wf (shared s);
  sn_cnd : list_cnd (shared s) = mk_cond true true;
  sn_capacity : 0 < capacity (shared s) < 2 ^ 31;
  sn_mutex : list_mutex (shared s) = guard_mutex g;
  sn_guard : guard_agrees g (phases s)
}.

Section guard_agrees.
Implicit Types (g : guard) (ps : gmap Z phase) (p q : Z).

Lemma nobody_insert ps p ph : nobody_inside ps -> inside ph = false -> nobody_inside (<[p := ph]> ps).
Proof. intros Hn Hph q ph'. rewrite lookup_insert_Some. intros [[_ <-]|[_ ?]]; eauto. Qed.
Lemma nobody_delete ps p : nobody_inside ps -> nobody_inside (delete p ps).
Proof. intros Hn q ph' [_ ?]%lookup_delete_Some. eauto. Qed.

(** A process inside holds the mutex. *)
Lemma agrees_inside g ps p ph : guard_agrees g ps -> ps !! p = Some ph -> inside ph = true -> g = Busy p.
Proof.
  intros Hg Hp Hi. assert (nobody_inside ps -> False) as Hno by (intros Hn; rewrite (Hn _ _ Hp) in Hi; done).
  destruct g as [|q|q b|q|]; simpl in Hg; try (destruct Hno; tauto).
  destruct Hg as (ph' & Hq & _ & Hout). destruct (decide (p = q)) as [->|Hne]; [done|].
  rewrite (Hout _ _ Hne Hp) in Hi. done.
Qed.

(** A lock that succeeds lets the process in. *)
Lemma agrees_enter g ps p ph :
  guard_agrees g ps -> inside ph = true ->
  lock_result p g = Some (IPM_RESULT_SUCCESS, Busy p) -> guard_agrees (Busy p) (<[p := ph]> ps).
Proof.
  intros Hg Hi Hres. assert (nobody_inside ps) as Hn.
  { destruct g as [|q|q b|q|]; simpl in Hg, Hres; try tauto; case_match; simplify_eq. }
  exists ph. split_and!; [apply lookup_insert_eq|done|].
  intros q ph' Hne. rewrite lookup_insert_ne by done. apply Hn.
Qed.

Lemma agrees_stay p ps ph :
  guard_agrees (Busy p) ps -> inside ph = true -> guard_agrees (Busy p) (<[p := ph]> ps).
Proof.
  intros (ph0 & _ & _ & Hout) Hi. exists ph. split_and!; [apply lookup_insert_eq|done|].
  intros q ph' Hne. rewrite lookup_insert_ne by done. by apply Hout.
Qed.

Lemma agrees_leave p ps ph :
  guard_agrees (Busy p) ps -> inside ph = false -> guard_agrees Avail (<[p := ph]> ps).
Proof.
  intros (ph0 & _ & _ & Hout) Hi q ph'. rewrite lookup_insert_Some.
  intros [[_ <-]|[Hne ?]]; [done|]. by apply (Hout q).
Qed.

(** A process outside that stays outside. *)
Lemma agrees_outside g ps p ph ph' :
  guard_agrees g ps -> ps !! p = Some ph -> inside ph = false -> inside ph' = false ->
  (g = Tainted p -> ph' = Failing) -> guard_agrees g (<[p := ph']> ps).
Proof.
  intros Hg Hp Hi Hi' Ht. destruct g as [|q|q b|q|]; simpl in *; try (by apply nobody_insert).
  - destruct Hg as (phq & Hq & Hiq & Hout). assert (p <> q) as Hne by congruence.
    exists phq. rewrite lookup_insert_ne by done. split_and!; [done..|].
    intros r phr Hr. rewrite lookup_insert_Some. intros [[_ <-]|[_ ?]]; [done|]. by eapply Hout.
  - destruct Hg as [Hq Hn]. assert (p <> q) as Hne by congruence.
    rewrite lookup_insert_ne by done. split; [done|by apply nobody_insert].
  - destruct Hg as [Hq Hn]. split; [|by apply nobody_insert].
    destruct (decide (p = q)) as [->|Hne]; [rewrite lookup_insert_eq; by rewrite Ht|].
    by rewrite lookup_insert_ne.
Qed.

Lemma agrees_dies g ps p ph :
  guard_agrees g ps -> ps !! p = Some ph -> guard_agrees (guard_dies p g) (delete p ps).
Proof.
  intros Hg Hp. destruct g as [|q|q b|q|]; simpl in *; try (by apply nobody_delete).
  - destruct Hg as (phq & Hq & Hiq & Hout). case_decide as Heq.
    + subst. split; [apply lookup_delete_eq|]. intros r phr [Hne Hr]%lookup_delete_Some. by eapply (Hout r).
    + exists phq. rewrite lookup_delete_ne by done. split_and!; [done..|].
      intros r phr Hne [_ Hr]%lookup_delete_Some. by eapply (Hout r).
  - destruct Hg as [Hq Hn]. split; [|by apply nobody_delete].
    destruct (decide (q = p)) as [->|Hne]; [apply lookup_delete_eq|by rewrite lookup_delete_ne].
  - destruct Hg as [Hq Hn]. case_decide as Heq.
    + subst. split; [apply lookup_delete_eq|by apply nobody_delete].
    + split; [by rewrite lookup_delete_ne|by apply nobody_delete].
Qed.
End guard_agrees.

Section invariants.
Variable NDEBUG : bool.
Variable R : regime.
Implicit Types (s : system) (g : guard).

Lemma initial_sane s : initial s -> sane Avail s.
Proof.
  intros [(Hwf & Hm & Hc) Hcap _ _ _ Hidle]. split; [done..|].
  intros p ph Hp. by rewrite (Hidle _ _ Hp).
Qed.

Lemma sane_locked g s p ph :
  sane g s -> phases s !! p = Some ph -> inside ph = true ->
  g = Busy p /\ locked p (shared s).
Proof.
  intros [Hwf Hc _ Hm Hg] Hp Hi. pose proof (agrees_inside _ _ _ _ Hg Hp Hi) as ->. by split_and!.
Qed.

(** A step that leaves the claims alone. *)
Lemma sane_guarded g g' s ps gr :
  sane g s -> guard_agrees g' ps -> sane g' (mk_system (guarded g' (shared s)) ps gr).
Proof. intros [Hwf Hc Hcap _ _] Hg. split; [by destruct Hwf|done..]. Qed.

(** A step inside that changes the claims and stays inside. *)
Lemma sane_inside g s p ph ph' l gr :
  sane g s -> phases s !! p = Some ph -> inside ph = true -> inside ph' = true ->
  list_wf l -> same_sync (shared s) l -> sane (Busy p) (mk_system l (<[p := ph']> (phases s)) gr).
Proof.
  intros Hs Hp Hi Hi' Hwf (Hm & Hc & Hcap & _). destruct (sane_locked _ _ _ _ Hs Hp Hi) as [-> _].
  pose proof Hs as [_ Hc0 Hcap0 Hm0 Hg]. split; cbn [shared phases]; [done|congruence|congruence|congruence|].
  by apply agrees_stay.
Qed.

(** How the mutex changes in a step: it stays broken once it is, and as long as
    nobody dies it is available or busy. *)
Definition healthy g : Prop := match g with Avail | Busy _ => True | _ => False end.
Definition later g g' : Prop :=
  (g = Broken -> g' = Broken) /\ (mortal R = false -> healthy g -> healthy g').

Lemma later_refl g : later g g.
Proof. by split. Qed.
Lemma later_lock p g : lock_result p g = Some (IPM_RESULT_SUCCESS, Busy p) -> later g (Busy p).
Proof. by destruct g; split. Qed.
Lemma later_busy p g : healthy g -> later (Busy p) g.
Proof. by split. Qed.
Lemma later_wake p g r h : wake_result p g = Some (r, h) -> later g h.
Proof. destruct g; simpl; intros Hr; repeat case_match; simplify_eq; by split. Qed.
Lemma later_unlock p g : later g (unlock_result p g).
Proof. destruct g as [|q|q []|q|]; unfold unlock_result; repeat case_decide; by split. Qed.

(** What a step keeps of the state of the mutex. *)
Definition kept g s' : Prop := exists g', sane g' s' /\ later g g'.

Lemma kept_same g s' : sane g s' -> kept g s'.
Proof. intros Hs. exists g. split; [done|apply later_refl]. Qed.

(** A step outside that leaves the list alone. *)
Lemma sane_outside g s p ph ph' gr :
  sane g s -> phases s !! p = Some ph -> inside ph = false -> inside ph' = false -> ph <> Failing ->
  sane g (mk_system (shared s) (<[p := ph']> (phases s)) gr).
Proof.
  intros [Hwf Hc Hcap Hm Hg] Hp Hi Hi' Hne. split; [done..|]. eapply agrees_outside; [done..|].
  intros ->. destruct Hg as [Hg _]. congruence.
Qed.

(** A lock that succeeds, and one that fails. *)
Lemma kept_lock g s p ph l :
  sane g s -> inside ph = true -> lock_result p g = Some (IPM_RESULT_SUCCESS, Busy p) ->
  list_wf l -> list_cnd l = list_cnd (shared s) -> capacity l = capacity (shared s) ->
  list_mutex l = mutex_of (Held p) -> kept g (move p ph l s).
Proof.
  intros [Hwf Hc Hcap Hm Hg] Hi Hres Hwf' Hc' Hcap' Hm'. exists (Busy p). split; [|by apply later_lock].
  split; cbn [move shared phases]; [done|by rewrite Hc'|by rewrite Hcap'|done|by eapply agrees_enter].
Qed.
Lemma lock_refused g s p t l res :
  sane g s -> on_mutex ipm_mutex_lock (thr p, shared s) = Ret res (t, l) -> res <> IPM_RESULT_SUCCESS ->
  l = shared s.
Proof.
  intros [_ _ _ Hm _] Hr Hne. apply (lock_guard_inv _ _ g) in Hr as (h & Hres & -> & ->); [|done].
  assert (h = g) as -> by (destruct g; simpl in Hres; repeat case_match; simplify_eq; done).
  unfold guarded. rewrite <- Hm. apply set_mutex_id.
Qed.

(** Waking up, with the mutex or with an error. *)
Lemma kept_wake g s p c res t l :
  sane g s -> phases s !! p = Some (Woken c) -> wake_up (thr p, shared s) = Ret res (t, l) ->
  kept g (move p (if ok res then Trying c else Failing) l s).
Proof.
  intros Hs Hp Hr. pose proof Hs as [_ _ _ Hm Hg].
  apply (wake_guard_inv _ _ g) in Hr as (h & Hres & -> & ->); [|done]. exists h.
  split; [apply (sane_guarded g); [done|]|by eapply later_wake].
  destruct g as [|q|q b|q|]; simpl in Hres; repeat case_match; simplify_eq;
    try change (ok IPM_RESULT_ERR_OS_UNEXPECTED) with false; try change (ok IPM_RESULT_SUCCESS) with true;
    cbv iota; try (by eapply agrees_outside); [by eapply agrees_enter|].
  split; [apply lookup_insert_eq|apply nobody_insert; [apply Hg|done]].
Qed.

(** Unlocking after a failed wait. *)
Lemma kept_fail g s p res t l :
  sane g s -> phases s !! p = Some Failing -> on_mutex ipm_mutex_unlock (thr p, shared s) = Ret res (t, l) ->
  kept g (move p Idle l s).
Proof.
  intros Hs Hp Hr. pose proof Hs as [_ _ _ Hm Hg].
  apply (unlock_guard_inv _ _ g) in Hr as [-> ->]; [|done]. exists (unlock_result p g).
  split; [apply (sane_guarded g); [done|]|apply later_unlock].
  destruct g as [|q|q [|]|q|]; unfold unlock_result; repeat case_decide; subst;
    try (eapply agrees_outside; [exact Hg|exact Hp|done|done|intros; by simplify_eq]).
  - destruct Hg as (ph & Hq & Hi & _). rewrite Hp in Hq. by simplify_eq.
  - destruct Hg as [Hg _]. congruence.
  - destruct Hg as [Hg _]. congruence.
  - apply nobody_insert; [apply Hg|done].
Qed.

(** Leaving the mutex from inside, to sleep or for good. *)
Lemma kept_leave g s p ph ph' :
  sane g s -> phases s !! p = Some ph -> inside ph = true -> inside ph' = false ->
  kept g (move p ph' (set_mutex (mutex_of Free) (shared s)) s).
Proof.
  intros Hs Hp Hi Hi'. destruct (sane_locked _ _ _ _ Hs Hp Hi) as [-> _]. pose proof Hs as [_ _ _ _ Hg].
  exists Avail. split; [|by apply later_busy]. apply (sane_guarded (Busy p)); [done|]. by apply agrees_leave.
Qed.

Lemma kept_dies g s p ph : sane g s -> mortal R = true -> phases s !! p = Some ph -> kept g (dies p s).
Proof.
  intros Hs Hmo Hp. pose proof Hs as [_ _ _ Hm Hg].
  exists (guard_dies p g). split; [|split; [by intros ->|congruence]].
  assert (owner_dies p (list_mutex (shared s)) = guard_mutex (guard_dies p g)) as Hd
    by (rewrite Hm; apply guard_dies_run).
  unfold dies. rewrite Hd. apply (sane_guarded g); [done|]. by eapply agrees_dies.
Qed.

(** A step that works on the list. *)
Lemma kept_inside g s p ph ph' l gr :
  sane g s -> phases s !! p = Some ph -> inside ph = true -> inside ph' = true ->
  (locked p (shared s) -> list_wf l /\ same_sync (shared s) l) ->
  kept g (mk_system l (<[p := ph']> (phases s)) gr).
Proof.
  intros Hs Hp Hi Hi' Hl. destruct (sane_locked _ _ _ _ Hs Hp Hi) as [-> Hlk].
  destruct (Hl Hlk). apply kept_same. by eapply sane_inside.
Qed.

Lemma step_sane g s s' : sane g s -> step NDEBUG R s s' -> kept g s'.
Proof.
  intros Hs Hstep. pose proof Hs as [Hwf Hc Hcap Hm Hg]. pose proof Hwf as [Hcnt Hwf2 Hwf3].
  destruct Hstep as [p r s Hp Hb|p r res t l s Hp Hr Hne|p ac off n id t l s Hp Hfit Hr|p r ph t l s Hp He Hr
    |p c t l t' l' s Hp Hio Hw Hadd|p c t l s Hp Hw|p c s Hp Hsp|p c t l s Hp Hr|p c res t l s Hp Hr Hne
    |p res t l s Hp Hr|p id t l s Hp Hio Hid Hr|p t l s Hp Hio Hr|p t l s Hp Hr|p sg res t l s Hp Hr
    |p q c res t l n s Hp Hq Hr|p res t l n s Hp Hno Hr|p ph s Hp Hmo];
    try (rewrite signal_cnd_run in Hr by done; injection Hr as <- <- <- <-).
  - by eapply kept_same, sane_outside.
  - apply (lock_refused g) in Hr as ->; [|done..]. by eapply kept_same, sane_outside.
  - apply (enter_claim_inv _ _ g) in Hr as (Hres & -> & _); [|done]. by apply kept_lock.
  - apply (lock_guard_inv _ _ g) in Hr as (h & Hres & -> & ->); [|done].
    assert (h = Busy p) as -> by (destruct g; simpl in Hres; repeat case_match; simplify_eq; done).
    apply kept_lock; [done|destruct r; simpl in He; by simplify_eq|done|by destruct Hwf|done..].
  - eapply kept_inside; [done..|]. intros Hl. rewrite claim_wait_once in Hw by done.
    destruct (grantable c (shared s)) eqn:Hgr; [|done]. injection Hw as <- <-.
    by apply add_inv in Hadd as (-> & Hwf' & _).
  - destruct (sane_locked _ _ _ _ Hs Hp eq_refl) as [_ Hl]. rewrite claim_wait_once in Hw by done.
    destruct (grantable c (shared s)); [done|]. injection Hw as <- <-. by eapply kept_leave.
  - by eapply kept_same, sane_outside.
  - by eapply (kept_wake g s p c IPM_RESULT_SUCCESS).
  - eapply kept_wake in Hr; [|done..]. unfold ok in Hr. by rewrite bool_decide_false in Hr.
  - by eapply kept_fail.
  - eapply kept_inside; [done..|]. intros Hl. by apply remove_inv in Hr as (-> & -> & Hwf' & _).
  - eapply kept_inside; [done..|]. intros _. unfold release_all_loop in Hr. erewrite bind_Ret in Hr by done.
    by apply release_loop_inv in Hr as (Hwf' & Hss & _); [|done|simpl in *; lia|].
  - eapply kept_inside; [done..|]. intros _. unfold remove_all_claims in Hr. erewrite bind_Ret in Hr by done.
    by apply remove_all_loop_inv in Hr as (Hwf' & Hss & _).
  - destruct (sane_locked _ _ _ _ Hs Hp eq_refl) as [_ (_ & Hm' & _)].
    rewrite leave_run in Hr by done. injection Hr as <- <- <-. eapply kept_leave; [done..|by destruct sg].
  - eapply kept_same, (sane_outside _ (move p Idle (shared s) s) q (Sleeping c)); [by eapply sane_outside| |done..].
    cbn [move phases]. rewrite lookup_insert_ne by congruence. exact Hq.
  - by eapply kept_same, sane_outside.
  - by eapply kept_dies.
Qed.

Lemma reachable_sane s : reachable NDEBUG R s -> exists g, sane g s /\ (mortal R = false -> healthy g).
Proof.
  induction 1 as [s Hi|s s' Hr (g & IH & Hh) Hstep]; [exists Avail; split; [by apply initial_sane|done]|].
  destruct (step_sane _ _ _ IH Hstep) as (g' & Hg' & _ & Hl). exists g'. auto.
Qed.
End invariants.

(** ** What a process can do *)

Section progress.
Variable NDEBUG : bool.
Implicit Types (p : Z) (l : ipm_claim_list).

(** The loop of [ipm_memory_release_all] returns for every well-formed list. *)
Lemma release_loop_returns fuel p i t l :
  list_wf l -> count l < 2 ^ 31 -> 0 <= i <= count l -> fuel = Z.to_nat (count l - i) ->
  NDEBUG = true \/ count l < capacity l ->
  exists l', release_loop NDEBUG fuel p i (t, l) = Ret tt (t, l').
Proof.
  revert i l. induction fuel as [|fuel IH]; intros i l Hwf Hmax Hi Hfuel Hnd; pose proof Hwf as [Hc Hs Hw];
    cbn [release_loop]; (erewrite bind_Ret by done); cbn [snd]; rewrite to_int_small by lia.
  - rewrite (proj2 (Z.ltb_ge _ _)) by lia. by eexists.
  - rewrite (proj2 (Z.ltb_lt _ _)) by lia. cbn [negb].
    destruct (lookup_lt_is_Some_2 (claims l) (Z.to_nat i) ltac:(lia)) as [c Hci]. rewrite Hci.
    erewrite bind_Ret by done. apply slot_visible in Hci as [_ Hid]; [|done|lia].
    destruct (proc_id c =? p); [|apply IH; (done || lia)].
    pose proof (rem_pos_lt _ _ Hid) as Hp.
    erewrite bind_Ret by (apply claim_remove_run; (done || lia)). rewrite length_visible in Hp by done.
    apply IH; [by apply removed_wf|simpl; lia..|simpl; destruct Hnd; [by left|right; lia]].
Qed.

Lemma lock_list_guard p l g :
  list_mutex l = guard_mutex g -> lock_result p g = Some (IPM_RESULT_SUCCESS, Busy p) ->
  on_mutex ipm_mutex_lock (thr p, l) = Ret IPM_RESULT_SUCCESS (thr p, guarded (Busy p) l).
Proof.
  intros Hg Hres. apply (on_mutex_guard _ _ g); [done|].
  destruct g as [|q|q b|q|]; simpl in Hres; try discriminate Hres; try (case_match; discriminate Hres); [done|].
  unfold ipm_mutex_lock, pthread_mutex_consistent, mbind, M_bind; simpl. by rewrite decide_True.
Qed.
End progress.

(** ** Running schedules *)

(** Nobody sleeps. *)
Definition awake (s : system) : Prop :=
  map_Forall (fun _ ph => match ph with Sleeping _ => False | _ => True end) (phases s).
#[global] Instance awake_dec s : Decision (awake s).
Proof. unfold awake. apply map_Forall_dec. intros _ []; apply _. Defined.

Lemma not_awake s : ~ awake s -> exists q c, phases s !! q = Some (Sleeping c).
Proof.
  unfold awake. intros Ha. apply map_not_Forall in Ha as (q & ph & Hq & Hn); [|intros _ []; apply _].
  destruct ph; try done. eauto.
Qed.

Section schedules.
Variable NDEBUG : bool.
Variable R : regime.

(** The next step of process [p], without the discipline. *)
Definition advance (p : Z) (s : system) : option system :=
  match phases s !! p with
  | Some (Entering (Want a off n)) =>
      match enter_claim (thr p, shared s) with
      | Ret (IPM_RESULT_SUCCESS, id) (_, l) => Some (move p (Trying (mk_claim id p a off n)) l s)
      | _ => match on_mutex ipm_mutex_lock (thr p, shared s) with
             | Ret IPM_RESULT_SUCCESS _ => None
             | Ret _ (_, l) => Some (move p Idle l s)
             | _ => None
             end
      end
  | Some (Entering r) =>
      match on_mutex ipm_mutex_lock (thr p, shared s), entered r with
      | Ret IPM_RESULT_SUCCESS (_, l), Some ph => Some (move p ph l s)
      | Ret IPM_RESULT_SUCCESS _, None => None
      | Ret _ (_, l), _ => Some (move p Idle l s)
      | _, _ => None
      end
  | Some (Trying c) =>
      match claim_wait c [] (thr p, shared s) with
      | Ret None (t, l) =>
          match claim_add_to_list NDEBUG c (t, l) with
          | Ret IPM_RESULT_SUCCESS (_, l') => Some (grant c (move p (Leaving false) l' s))
          | _ => None
          end
      | Hang (_, l) => Some (move p (Sleeping c) l s)
      | _ => None
      end
  | Some (Woken c) =>
      match wake_up (thr p, shared s) with
      | Ret IPM_RESULT_SUCCESS (_, l) => Some (move p (Trying c) l s)
      | Ret _ (_, l) => Some (move p Failing l s)
      | _ => None
      end
  | Some Failing =>
      match on_mutex ipm_mutex_unlock (thr p, shared s) with
      | Ret _ (_, l) => Some (move p Idle l s)
      | _ => None
      end
  | Some (Removing id) =>
      if decide (id ∈ map claim_id (visible (shared s))) then
        match claim_remove_from_list NDEBUG id (thr p, shared s) with
        | Ret IPM_RESULT_SUCCESS (_, l) => Some (give_back id (move p (Leaving true) l s))
        | _ => None
        end
      else None
  | Some Sweeping =>
      match release_all_loop NDEBUG p (thr p, shared s) with
      | Ret _ (_, l) => Some (give_all_back p (move p (Leaving false) l s))
      | _ => None
      end
  | Some Clearing =>
      match remove_all_claims NDEBUG (thr p, shared s) with
      | Ret _ (_, l) => Some (clear (move p (Leaving false) l s))
      | _ => None
      end
  | Some (Leaving sg) =>
      match on_mutex ipm_mutex_unlock (thr p, shared s) with
      | Ret _ (_, l) => Some (move p (if sg then Signalling else Idle) l s)
      | _ => None
      end
  | Some Signalling =>
      match signal p (shared s) with
      | Ret _ (_, (l, n)) => if decide (n = 0%nat \/ awake s) then Some (move p Idle l s) else None
      | _ => None
      end
  | _ => None
  end.

(** A schedule: a process asks for something, goes on, signals to another, wakes
    up by itself, or dies. *)
Inductive event := Asks (p : Z) (r : request) | Goes (p : Z) | Signals (p q : Z) | Spurs (p : Z) | Dies (p : Z).

Definition happen (e : event) (s : system) : option system :=
  match e with
  | Asks p r =>
      match phases s !! p with
      | Some Idle => if implb (is_bulk r) (bulk R) then Some (move p (Entering r) (shared s) s) else None
      | _ => None
      end
  | Goes p => advance p s
  | Signals p q =>
      match phases s !! p, phases s !! q, signal p (shared s) with
      | Some Signalling, Some (Sleeping c), Ret _ (_, (l, S _)) => Some (wake q c (move p Idle l s))
      | _, _, _ => None
      end
  | Spurs p =>
      match phases s !! p with
      | Some (Sleeping c) => if spurious R then Some (wake p c s) else None
      | _ => None
      end
  | Dies p => match phases s !! p with Some _ => if mortal R then Some (dies p s) else None | None => None end
  end.
Fixpoint run_schedule (es : list event) (s : system) : option system :=
  match es with [] => Some s | e :: es => happen e s ≫= run_schedule es end.

Hypothesis Hfree : strict R = false.

Lemma advance_step p s s' : advance p s = Some s' -> step NDEBUG R s s'.
Proof using Hfree.
  assert (forall P : Prop, strict R = true -> P) as Hno by (intros P; by rewrite Hfree).
  unfold advance. destruct (phases s !! p) as [ph|] eqn:Hp; [|done]. destruct ph as [|r|c|c|c| |id| | |sg|].
  - done.
  - assert (forall res t l, on_mutex ipm_mutex_lock (thr p, shared s) = Ret res (t, l) ->
      res <> IPM_RESULT_SUCCESS -> step NDEBUG R s (move p Idle l s)) as Href by (intros; by eapply step_refused).
    assert (forall ph t l, on_mutex ipm_mutex_lock (thr p, shared s) = Ret IPM_RESULT_SUCCESS (t, l) ->
      entered r = Some ph -> step NDEBUG R s (move p ph l s)) as Hent by (intros; by eapply step_enter).
    destruct r as [a off n|id| |]; intros Hadv; repeat case_match; simplify_eq/=;
      try (by eapply Href); try (by eapply Hent);
      (eapply step_enter_claim; [done|by intros ?; apply Hno|done]).
  - intros Hadv; repeat case_match; simplify_eq; [eapply step_grant; [done|by intros ?; apply Hno|done..]|by eapply step_sleep].
  - done.
  - intros Hadv; repeat case_match; simplify_eq; try (by eapply step_wake_fails); by eapply step_wake.
  - intros Hadv; repeat case_match; simplify_eq; by eapply step_fail.
  - intros Hadv; repeat case_match; simplify_eq. eapply step_remove; [done|by intros ?; apply Hno|done..].
  - intros Hadv; repeat case_match; simplify_eq. eapply step_sweep; [done|by intros ?; apply Hno|].
    match goal with a : () |- _ => by destruct a end.
  - intros Hadv; repeat case_match; simplify_eq. eapply step_clear; [done|].
    match goal with a : () |- _ => by destruct a end.
  - intros Hadv. destruct (on_mutex ipm_mutex_unlock (thr p, shared s)) as [r [t l]| | |] eqn:Hr; simplify_eq.
    by eapply step_leave.
  - intros Hadv; repeat case_match; simplify_eq. eapply step_signal_nobody; [done| |done].
    match goal with H : _ \/ awake s |- _ => destruct H as [Hz|Ha]; [by left|right] end.
    intros q c Hq. exact (Ha q _ Hq).
Qed.

Lemma run_schedule_reachable es s s' :
  reachable NDEBUG R s -> run_schedule es s = Some s' -> reachable NDEBUG R s'.
Proof using Hfree.
  revert s. induction es as [|e es IH]; simpl; intros s Hr Hs; [by simplify_eq|].
  destruct (happen e s) as [s1|] eqn:He; [|done]. apply (IH s1); [|done].
  eapply reach_step; [exact Hr|]. destruct e as [p r|p|p q|p|p]; simpl in He; repeat case_match; simplify_eq.
  - apply step_ask; [done|]. intros Hb. match goal with H : implb _ _ = true |- _ => by rewrite Hb in H end.
  - by eapply advance_step.
  - by eapply step_signal.
  - by eapply step_spurious.
  - by eapply step_die.
Qed.
End schedules.

(** ** Theorems *)

(** C15. Mutual exclusion of the critical sections, for any number of processes,
    every interleaving of claims, releases and bulk operations, spurious wake-ups
    and deaths at any step: at most one process works on the list, and the mutex
    is held by that process; when nobody does and nobody has died, the mutex is
    free; and the list is well formed and as large as it was made. *)
Theorem protocol_mutual_exclusion nd R s :
  reachable nd R s ->
  (forall p q php phq, phases s !! p = Some php -> phases s !! q = Some phq ->
     inside php = true -> inside phq = true -> p = q) /\
  (forall p ph, phases s !! p = Some ph -> inside ph = true ->
     list_mutex (shared s) = mutex_of (Held p)) /\
  (mortal R = false -> (forall p ph, phases s !! p = Some ph -> inside ph = false) ->
     list_mutex (shared s) = mutex_of Free) /\
  list_wf (shared s) /\ 0 < capacity (shared s) < 2 ^ 31.
Proof.
  intros (g & Hs & Hh)%reachable_sane. pose proof Hs as [Hwf Hc Hcap Hm Hg]. split_and!; try done.
  - intros p q php phq Hp Hq Hip Hiq.
    destruct (sane_locked _ _ _ _ Hs Hp Hip) as [-> _], (sane_locked _ _ _ _ Hs Hq Hiq) as [[= ->] _]. done.
  - intros p ph Hp Hi. by destruct (sane_locked _ _ _ _ Hs Hp Hi) as [-> _].
  - intros Hmo Hout. specialize (Hh Hmo). destruct g as [|q|q b|q|]; try done.
    destruct Hg as (ph & Hq & Hin & _). rewrite (Hout _ _ Hq) in Hin. done.
  - apply Hcap.
  - apply Hcap.
Qed.

(** Three idle processes and an empty list of four slots. *)
Definition three_processes : system :=
  mk_system (ex_list 0 4 [zero_claim; zero_claim; zero_claim; zero_claim]) {[1 := Idle; 2 := Idle; 3 := Idle]} [].

Lemma three_processes_initial : initial three_processes.
Proof.
  split; [|vm_compute; done|reflexivity|reflexivity|reflexivity|].
  - split_and!; [split; vm_compute; try split; congruence|reflexivity|reflexivity].
  - intros p ph. cbn [three_processes phases]. rewrite !lookup_insert_Some, lookup_singleton_Some.
    intros [[_ <-]|[_ [[_ <-]|[_ [_ <-]]]]]; done.
Qed.

(** Everything may happen: no discipline, deaths, bulk operations, spurious wake-ups. *)
Definition anything : regime := mk_regime false true true true.
(** No discipline, and nothing out of the ordinary. *)
Definition ordinary : regime := mk_regime false false false false.

Definition wants (p : Z) (a : ipm_access_mode) (off n : Z) : list event :=
  [Asks p (Want a off n); Goes p; Goes p].
Definition gives (p id : Z) : list event := [Asks p (Give id); Goes p; Goes p; Goes p].

(** Process 1 has a claim granted and process 2 waits for it. *)
Definition waiting_schedule : list event :=
  wants 1 IPM_ACCESS_MODE_READ_WRITE 0 8 ++ [Goes 1] ++ wants 2 IPM_ACCESS_MODE_READ_WRITE 4 8.

Lemma protocol_mutual_exclusion_witness :
  exists s, run_schedule false anything waiting_schedule three_processes = Some s /\
    list_wf (shared s) /\ length (granted s) = 1%nat.
Proof.
  destruct (run_schedule false anything waiting_schedule three_processes) as [s|] eqn:Hs;
    [|vm_compute in Hs; discriminate Hs].
  exists s. split; [reflexivity|]. split.
  - apply (protocol_mutual_exclusion false anything s).
    eapply run_schedule_reachable; [reflexivity|apply reach_initial, three_processes_initial|exact Hs].
  - vm_compute in Hs. injection Hs as <-. reflexivity.
Defined.

(** A signal goes through whether or not anybody sleeps. *)
Lemma signal_goes nd R s p :
  list_cnd (shared s) = mk_cond true true -> phases s !! p = Some Signalling ->
  exists s', step nd R s s' /\ phases s' !! p <> Some Signalling.
Proof.
  intros Hc Hp. pose proof (signal_cnd_run p _ Hc) as Hr. destruct (decide (awake s)) as [Ha|Ha].
  - eexists. split; [eapply step_signal_nobody; [exact Hp| |exact Hr]|].
    + right. intros q c Hq. exact (Ha q _ Hq).
    + cbn. by rewrite lookup_insert_eq.
  - destruct (not_awake _ Ha) as (q & c & Hq). assert (p <> q) as Hne by congruence.
    eexists. split; [by eapply step_signal|]. cbn. rewrite lookup_insert_ne, lookup_insert_eq; done.
Qed.

(** C24. Nobody gets stuck as long as nobody dies, in an ordinary regime without deaths
    ([mortal]) and without a discipline of claims ([strict]): in every reachable state
    each process that has started an operation can take its next step, unless it
    sleeps on the condition variable, waits for the mutex while another process is
    inside (and that one is not waiting), or gives back an identifier that is not
    active.  In a build without assertions that includes giving back a claim and both
    bulk operations, in every state; in a build with assertions giving back and the
    bulk operations are promised where the list is not full, and giving back a claim
    of a full list aborts.  A signal always goes through. *)
Theorem protocol_progress nd R s p ph :
  mortal R = false -> strict R = false -> reachable nd R s -> phases s !! p = Some ph ->
  let room := nd = true \/ count (shared s) < capacity (shared s) in
  match ph with
  | Idle | Sleeping _ => True
  | Removing id =>
      (room -> id ∈ map claim_id (visible (shared s)) -> exists s', step nd R s s' /\ phases s' !! p <> Some ph) /\
      (count (shared s) = capacity (shared s) -> nd = false ->
       claim_remove_from_list nd id (thr p, shared s) = Abort (thr p, set_count (count (shared s) - 1) (shared s)))
  | Sweeping | Clearing => room -> exists s', step nd R s s' /\ phases s' !! p <> Some ph
  | Entering _ | Woken _ =>
      (exists q phq, phases s !! q = Some phq /\ inside phq = true) \/
      exists s' ph', step nd R s s' /\ phases s' !! p = Some ph' /\ inside ph' = true
  | _ => exists s', step nd R s s' /\ phases s' !! p <> Some ph
  end.
Proof.
  intros Hmo Hst (g & Hs & Hh)%reachable_sane Hp room. specialize (Hh Hmo).
  pose proof Hs as [Hwf Hc Hcap Hm Hg]. pose proof Hwf as [Hcnt _ _].
  assert (forall P : Prop, strict R = true -> P) as Hno by (intros P; by rewrite Hst).
  assert (inside ph = true -> locked p (shared s)) as Hlk
    by (intros Hi; by destruct (sane_locked _ _ _ _ Hs Hp Hi)).
  assert ((exists q phq, phases s !! q = Some phq /\ inside phq = true) \/ g = Avail) as Hfree.
  { destruct g as [|q|q b|q|]; try done; [by right|left]. destruct Hg as (phq & ? & ? & _). eauto. }
  assert (forall ph' s', step nd R s s' -> phases s' = <[p := ph']> (phases s) -> ph' <> ph ->
    exists s', step nd R s s' /\ phases s' !! p <> Some ph) as Hgo.
  { intros ph' s' Hstep Hps Hne. exists s'. rewrite Hps, lookup_insert_eq. split; congruence. }
  assert (forall ph' s', step nd R s s' -> phases s' = <[p := ph']> (phases s) -> inside ph' = true ->
    exists s' ph', step nd R s s' /\ phases s' !! p = Some ph' /\ inside ph' = true) as Hin.
  { intros ph' s' Hstep Hps Hi. exists s', ph'. by rewrite Hps, lookup_insert_eq. }
  destruct ph as [|r|c|c|c| |id| | |sg|]; try done.
  - destruct Hfree as [Hbusy| ->]; [by left|right].
    pose proof (lock_list_guard p _ Avail Hm eq_refl) as Hlock.
    destruct r as [a off n|id| |]; [|by eapply Hin; [by eapply step_enter|..]..].
    eapply Hin; [eapply (step_enter_claim _ _ p a off n); [exact Hp|by intros ?; apply Hno|]|done..].
    unfold enter_claim. erewrite bind_Ret by exact Hlock. reflexivity.
  - specialize (Hlk eq_refl). pose proof (claim_wait_once p c _ Hlk) as Hw.
    destruct (grantable c (shared s)) eqn:Hgr.
    + eapply Hgo; [eapply step_grant; [exact Hp|by intros ?; apply Hno|exact Hw|]|done..].
      apply claim_add_run; [done|by eapply grantable_room].
    + eapply Hgo; [by eapply step_sleep|done..].
  - destruct Hfree as [Hbusy| ->]; [by left|right].
    eapply Hin; [eapply step_wake; [exact Hp|]|done..].
    unfold wake_up. erewrite bind_Ret by (by eapply (on_mutex_guard _ _ Avail _ _ _ (Busy p))). reflexivity.
  - destruct (unlock_guard_run p _ g Hm) as [r Hr]. eapply Hgo; [by eapply step_fail|done..].
  - split; intros Hfull; [intros Hid|intros ->].
    2:{ by apply claim_remove_full; [|lia|]. }
    pose proof (rem_pos_lt _ _ Hid) as Hlt. rewrite length_visible in Hlt by done.
    eapply Hgo; [eapply step_remove; [exact Hp|by intros ?; apply Hno|exact Hid|]|done..].
    apply claim_remove_run; [done|lia|done|by apply rem_pos_lt].
  - intros Hfull. destruct (release_loop_returns nd (Z.to_nat (count (shared s))) p 0 (thr p) (shared s)) as [l' Hr];
      try done; [lia..|].
    eapply Hgo; [eapply step_sweep; [exact Hp|by intros ?; apply Hno|exact Hr]|done..].
  - intros Hfull. destruct (remove_all_loop_run nd (Z.to_nat (count (shared s))) (thr p) (shared s)) as (l' & Hr & _);
      [done|done|done|].
    eapply Hgo; [eapply step_clear; [exact Hp|exact Hr]|done..].
  - destruct (Hlk eq_refl) as (_ & Hm' & _). eapply Hgo; [eapply step_leave; [exact Hp|by apply leave_run]|done|by destruct sg].
  - by apply signal_goes.
Qed.

Lemma protocol_progress_witness :
  exists s s', run_schedule true ordinary (take 2 waiting_schedule) three_processes = Some s /\
    step true ordinary s s' /\ phases s' !! 1 <> Some (Trying (mk_claim 0 1 IPM_ACCESS_MODE_READ_WRITE 0 8)).
Proof.
  destruct (run_schedule true ordinary (take 2 waiting_schedule) three_processes) as [s|] eqn:Hs;
    [|vm_compute in Hs; discriminate Hs].
  assert (reachable true ordinary s) as Hr
    by (eapply run_schedule_reachable; [reflexivity|apply reach_initial, three_processes_initial|exact Hs]).
  destruct (protocol_progress true ordinary s 1 (Trying (mk_claim 0 1 IPM_ACCESS_MODE_READ_WRITE 0 8)))
    as (s' & H1 & H2); [reflexivity|reflexivity|exact Hr|vm_compute in Hs; injection Hs as <-; reflexivity|].
  exists s, s'. split; [reflexivity|]. split; [exact H1|exact H2].
Defined.

(** *** Deaths *)

Section deaths.
Variable NDEBUG : bool.
Variable R : regime.
Implicit Types (s : system).

(** With an unrecoverable mutex no step touches the list. *)
Lemma broken_step s s' : sane Broken s -> step NDEBUG R s s' -> shared s' = shared s.
Proof.
  intros Hs Hstep. pose proof Hs as [Hwf Hc Hcap Hm Hg].
  assert (guarded Broken (shared s) = shared s) as Hsame
    by (unfold guarded; rewrite <- Hm; apply set_mutex_id).
  assert (forall p ph, phases s !! p = Some ph -> inside ph = true -> False) as Hout
    by (intros p ph Hp Hi; rewrite (Hg _ _ Hp) in Hi; done).
  destruct Hstep; try done; try (by exfalso; eapply Hout).
  - apply (lock_guard_inv _ _ Broken) in H0 as (h & [= <- <-] & -> & ->); done.
  - by apply (enter_claim_inv _ _ Broken) in H1 as ([=] & _).
  - by apply (lock_guard_inv _ _ Broken) in H1 as (h & [=] & _).
  - by apply (wake_guard_inv _ _ Broken) in H0 as (h & [=] & _).
  - apply (wake_guard_inv _ _ Broken) in H0 as (h & [= <- <-] & -> & ->); done.
  - by apply (unlock_guard_inv _ _ Broken) in H0 as [-> ->].
  - rewrite signal_cnd_run in H1 by done. by injection H1 as <- <- <- <-.
  - rewrite signal_cnd_run in H1 by done. by injection H1 as <- <- <- <-.
  - cbn [dies shared]. rewrite Hm. change (guarded Broken (shared s) = shared s). done.
Qed.

Lemma broken_steps s s' :
  sane Broken s -> rtc (step NDEBUG R) s s' -> sane Broken s' /\ shared s' = shared s.
Proof.
  intros Hs Hsteps. induction Hsteps as [s|s s1 s2 Hstep Hsteps IH]; [done|].
  pose proof (broken_step _ _ Hs Hstep) as Hsh. destruct (step_sane _ _ _ _ _ Hs Hstep) as (g' & Hs1 & Hg' & _).
  rewrite (Hg' eq_refl) in Hs1. destruct (IH Hs1) as [Hs2 Hsh2]. split; [done|congruence].
Qed.
End deaths.

(** C25. What the death of a process between the lock and the unlock does.  Nobody is
    inside afterwards and the claims stay as they were, those of the dead process
    included.  A process that then locks the mutex takes it over and repairs it.
    But a process that was just woken in [pthread_cond_wait] gets the report of
    the dead owner, takes it for a failed wait and unlocks without repairing: the
    mutex becomes unrecoverable, and from then on, whatever happens, no process
    ever gets inside again and the list never changes. *)
Theorem protocol_death nd R s p ph :
  reachable nd R s -> mortal R = true -> phases s !! p = Some ph -> inside ph = true ->
  let s0 := dies p s in
  step nd R s s0 /\ nobody_inside (phases s0) /\
  visible (shared s0) = visible (shared s) /\ granted s0 = granted s /\
  (forall q, on_mutex ipm_mutex_lock (thr q, shared s0) =
     Ret IPM_RESULT_SUCCESS (thr q, set_mutex (mutex_of (Held q)) (shared s0))) /\
  (forall q c, phases s0 !! q = Some (Woken c) ->
     exists s1 s2, step nd R s0 s1 /\ step nd R s1 s2 /\ phases s2 !! q = Some Idle /\
       forall s3, rtc (step nd R) s2 s3 -> nobody_inside (phases s3) /\ shared s3 = shared s2).
Proof.
  intros (g & Hs & _)%reachable_sane Hmo Hp Hi s0.
  destruct (sane_locked _ _ _ _ Hs Hp Hi) as [-> _].
  assert (step nd R s s0) as Hstep by (by eapply step_die).
  pose proof Hs as [Hwf Hc Hcap Hm Hg].
  assert (list_mutex (shared s0) = guard_mutex (Left p false)) as Hm0.
  { unfold s0, dies. cbn [shared]. rewrite Hm, guard_dies_run. simpl. by rewrite decide_True. }
  assert (sane (Left p false) s0) as Hs0.
  { destruct (step_sane _ _ _ _ _ Hs Hstep) as (g' & Hs' & _). pose proof Hs' as [_ _ _ Hm' _].
    rewrite Hm0 in Hm'. by rewrite (guard_mutex_inj _ _ Hm'). }
  pose proof Hs0 as [_ _ _ _ [Hgone Hno]]. split_and!; try done.
  - intros q. by rewrite (lock_list_guard q _ _ Hm0).
  - intros q c Hq.
    assert (wake_up (thr q, shared s0) =
      Ret IPM_RESULT_ERR_OS_UNEXPECTED (thr q, guarded (Tainted q) (shared s0))) as Hwake.
    { unfold wake_up. erewrite bind_Ret by (eapply (on_mutex_guard _ _ _ _ _ _ (Tainted q) Hm0); reflexivity).
      reflexivity. }
    set (s1 := move q Failing (guarded (Tainted q) (shared s0)) s0).
    assert (step nd R s0 s1) as H1 by (by eapply step_wake_fails).
    destruct (unlock_guard_run q (shared s1) (Tainted q) eq_refl) as [r Hr].
    set (s2 := move q Idle (guarded (unlock_result q (Tainted q)) (shared s1)) s1).
    assert (step nd R s1 s2) as H2 by (eapply step_fail; [apply lookup_insert_eq|exact Hr]).
    assert (sane Broken s2) as Hs2.
    { destruct (step_sane _ _ _ _ _ Hs0 H1) as (g1 & Hs1 & _).
      destruct (step_sane _ _ _ _ _ Hs1 H2) as (g2 & Hs2 & _). pose proof Hs2 as [_ _ _ Hm2 _].
      unfold s2, unlock_result in Hm2. rewrite decide_True in Hm2 by done.
      by rewrite (guard_mutex_inj Broken g2 Hm2). }
    exists s1, s2. split_and!; [done..|apply lookup_insert_eq|].
    intros s3 Hsteps. destruct (broken_steps _ _ _ _ Hs2 Hsteps) as [[_ _ _ _ Hn] Hsh]. done.
Qed.

(** Process 1 holds two claims and process 2 waits; process 1 gives the second
    claim back; before it signals process 3 enters; then it signals to process 2. *)
Definition fatal_schedule : list event :=
  wants 1 IPM_ACCESS_MODE_READ_WRITE 0 8 ++ [Goes 1] ++ wants 1 IPM_ACCESS_MODE_READ_WRITE 8 8 ++ [Goes 1] ++
  wants 2 IPM_ACCESS_MODE_READ_WRITE 0 8 ++ gives 1 1 ++ [Asks 3 (Want IPM_ACCESS_MODE_READ_WRITE 0 8); Goes 3] ++
  [Signals 1 2].

Lemma protocol_death_witness :
  exists s s2, run_schedule false anything fatal_schedule three_processes = Some s /\
    rtc (step false anything) (dies 3 s) s2 /\ phases s2 !! 2 = Some Idle /\
    forall s3, rtc (step false anything) s2 s3 -> nobody_inside (phases s3) /\ shared s3 = shared s2.
Proof.
  destruct (run_schedule false anything fatal_schedule three_processes) as [s|] eqn:Hs;
    [|vm_compute in Hs; discriminate Hs].
  destruct (protocol_death false anything s 3 (Trying (mk_claim 3 3 IPM_ACCESS_MODE_READ_WRITE 0 8)))
    as (_ & _ & _ & _ & _ & H).
  - eapply run_schedule_reachable; [reflexivity|apply reach_initial, three_processes_initial|exact Hs].
  - reflexivity.
  - vm_compute in Hs. injection Hs as <-. reflexivity.
  - reflexivity.
  - destruct (H 2 (mk_claim 2 2 IPM_ACCESS_MODE_READ_WRITE 0 8)) as (s1 & s2 & H1 & H2 & H3 & H4);
      [vm_compute in Hs; injection Hs as <-; reflexivity|].
    exists s, s2. split; [reflexivity|]. split; [|split; [exact H3|exact H4]].
    eapply rtc_l; [exact H1|]. eapply rtc_l; [exact H2|]. apply rtc_refl.
Defined.
