(* ===== verification/Exclusive.v ===== *)
(** * Exclusive regions

    The claims of the protocol under the discipline of a regime with [strict]:
    whatever else happens (bulk operations, deaths, spurious wake-ups), the
    active claims are exactly the claims handed out and not given back, no two of
    them conflict, and the protocol refines a ledger of granted regions that
    knows nothing of arrays, locks and sleepers.  Without the discipline a run
    hands out overlapping regions. *)

From S2P Require Import Prelude Errors Pthread Platform Claims Common Names World SharedMemory Memory Machine Regions Protocol.

(** ** The ledger: an abstract specification

    The regions in use, by the rule of the README: a region is granted if it does
    not overlap one of another process unless both only read. *)
Inductive ledger_step : list ipm_memory_claim -> list ipm_memory_claim -> Prop :=
| ledger_grant c v :
    claim_ok c -> claim_id c ∉ map claim_id v -> (forall d, d ∈ v -> ~ region_conflict c d) ->
    ledger_step v (v ++ [c])
| ledger_give id v :
    id ∈ map claim_id v -> ledger_step v (filter (fun c => claim_id c <> id) v)
| ledger_give_all p v : ledger_step v (filter (fun c => proc_id c <> p) v)
| ledger_clear v : ledger_step v [].

(** The ledger keeps regions exclusive and identifiers different. *)
Record ledger_ok (v : list ipm_memory_claim) : Prop := {
  lo_ok : Forall claim_ok v;
  lo_exclusive : exclusive v;
  lo_ids : NoDup (map claim_id v)
}.

Lemma ledger_ok_sub v v' : sublist v' v -> ledger_ok v -> ledger_ok v'.
Proof.
  intros Hsub [Hok Hex Hids].
  assert (forall x, x ∈ v' -> x ∈ v) as Hin by (intros x Hx; eapply elem_of_submseteq; [exact Hx|by apply sublist_submseteq]).
  split.
  - rewrite Forall_forall in *. auto.
  - intros c d Hc Hd. auto.
  - eapply sublist_NoDup; [exact Hids|by apply fmap_sublist].
Qed.

Lemma ledger_step_ok v v' : ledger_ok v -> ledger_step v v' -> ledger_ok v'.
Proof.
  intros Hv Hstep. destruct Hstep as [c v Hc Hid Hno|id v Hid|p v|v].
  - destruct Hv as [Hok Hex Hids]. split.
    + apply Forall_app. by split; [|constructor].
    + intros a b. rewrite !elem_of_app, !list_elem_of_singleton.
      intros [Ha| ->] [Hb| ->]; [by apply Hex|intros H%region_conflict_sym; by apply (Hno a)|by apply Hno|].
      by intros [? _].
    + rewrite map_app. apply NoDup_app. split_and!; [done| |apply NoDup_singleton].
      simpl. by intros x Hx ->%list_elem_of_singleton.
  - eapply ledger_ok_sub; [apply sublist_filter|done].
  - eapply ledger_ok_sub; [apply sublist_filter|done].
  - eapply ledger_ok_sub; [apply sublist_nil_l|done].
Qed.

(** ** Claims in the protocol *)

(** The claim a process waits to be granted. *)
Definition pending (ph : phase) : option ipm_memory_claim :=
  match ph with Trying c | Sleeping c | Woken c => Some c | _ => None end.
Definition pends (ps : gmap Z phase) (p : Z) : option ipm_memory_claim := ps !! p ≫= pending.

Lemma pends_insert ps p ph q :
  pends (<[p := ph]> ps) q = if decide (q = p) then pending ph else pends ps q.
Proof.
  unfold pends. case_decide as Heq; [subst; by rewrite lookup_insert_eq|].
  by rewrite lookup_insert_ne.
Qed.

(** No process waits for a claim it did not wait for before. *)
Definition pends_sub (ps' ps : gmap Z phase) : Prop :=
  forall p c, pends ps' p = Some c -> pends ps p = Some c.

Lemma pends_sub_insert ps p ph ph0 :
  ps !! p = Some ph0 -> (pending ph = None \/ pending ph = pending ph0) -> pends_sub (<[p := ph]> ps) ps.
Proof.
  intros Hp Hph q c. rewrite pends_insert. case_decide as Heq; [|done]. subst q.
  unfold pends. rewrite Hp. simpl. by destruct Hph as [-> | ->].
Qed.
Lemma pends_sub_delete ps p : pends_sub (delete p ps) ps.
Proof.
  intros q c. unfold pends. destruct (decide (p = q)) as [->|Hne]; [by rewrite lookup_delete_eq|].
  by rewrite lookup_delete_ne.
Qed.
Lemma pends_sub_trans ps1 ps2 ps3 : pends_sub ps1 ps2 -> pends_sub ps2 ps3 -> pends_sub ps1 ps3.
Proof. intros H1 H2 p c ?. auto. Qed.

(** The active claims are the ledger; identifiers are taken from a counter. *)
Record exact (s : system) : Prop := {
  ex_view : visible (shared s) = granted s;
  ex_ledger : ledger_ok (granted s);
  ex_counter : 0 <= claim_counter (shared s) < u64_mod;
  ex_old : Forall (fun c => claim_id c < claim_counter (shared s)) (granted s);
  ex_pending : forall p c, pends (phases s) p = Some c ->
    claim_ok c /\ claim_id c < claim_counter (shared s) /\ claim_id c ∉ map claim_id (granted s);
  ex_distinct : forall p q c d, p <> q -> pends (phases s) p = Some c -> pends (phases s) q = Some d ->
    claim_id c <> claim_id d
}.

(** Steps that do not hand out claims: the ledger stays or shrinks. *)
Lemma exact_shrink l ps ps' gr gr' l' :
  exact (mk_system l ps gr) -> visible l' = gr' -> sublist gr' gr -> claim_counter l' = claim_counter l ->
  pends_sub ps' ps -> exact (mk_system l' ps' gr').
Proof.
  intros [? Hl Hc Ho Hp Hd] Hv Hsub Hctr Hps. cbn [shared phases granted] in *.
  assert (forall x, x ∈ gr' -> x ∈ gr) as Hin
    by (intros x Hx; eapply elem_of_submseteq; [exact Hx|by apply sublist_submseteq]).
  split; cbn [shared phases granted]; rewrite ?Hctr; try done.
  - by eapply ledger_ok_sub.
  - rewrite Forall_forall in *. auto.
  - intros p c Hpc. destruct (Hp _ _ (Hps _ _ Hpc)) as (? & ? & Hn). split_and!; [done..|].
    intros (d & Heq & Hd')%list_elem_of_fmap. apply Hn, list_elem_of_fmap. eauto.
  - intros p q c d Hne H1 H2. eauto.
Qed.

(** The last claim is the one with identifier [id]: giving it back pops it. *)
Lemma pop_last id v :
  id ∈ map claim_id v -> S (rem_pos id v) = length v ->
  filter (fun c => claim_id c <> id) v = visible_removed (rem_pos id v) v.
Proof.
  intros Hid Hlast. unfold visible_removed. rewrite decide_True by done.
  destruct v as [|c v _] using rev_ind; [done|].
  rewrite length_app in Hlast |- *. simpl in Hlast |- *. rewrite Nat.add_sub, take_app_length.
  assert (rem_pos id (v ++ [c]) = length v) as Hp by lia.
  assert (claim_id c = id) as Hc.
  { assert ((v ++ [c]) !! find_pos (has_id id) (v ++ [c]) = Some c) as Hl.
    { fold (rem_pos id (v ++ [c])). rewrite Hp. by apply list_lookup_middle. }
    apply find_pos_hit in Hl. unfold has_id in Hl. by apply Z.eqb_eq in Hl. }
  rewrite filter_app, filter_cons_False, filter_nil, app_nil_r by auto.
  apply filter_all. apply Forall_forall. intros d Hd Heq.
  apply list_elem_of_lookup in Hd as [i Hi]. pose proof (lookup_lt_Some _ _ _ Hi).
  assert (find_pos (has_id id) (v ++ [c]) <= i)%nat; [|unfold rem_pos in Hp; lia].
  eapply find_pos_lt; [by rewrite lookup_app_l|]. unfold has_id. by apply Z.eqb_eq.
Qed.

Lemma filter_own p others mine :
  Forall (fun d => proc_id d <> p) others -> Forall (fun d => proc_id d = p) mine ->
  filter (fun c => proc_id c <> p) (others ++ mine) = others.
Proof.
  intros Ho Hm. rewrite filter_app, filter_all by done.
  replace (filter (fun c => proc_id c <> p) mine) with (@nil ipm_memory_claim); [by rewrite app_nil_r|].
  induction Hm as [|c mine Hc Hm IH]; [done|]. rewrite filter_cons_False by auto. done.
Qed.

(** In a debug build the loop of [ipm_memory_release_all] removes nothing from a
    full list: the assertion of [claim_remove_from_list] fails first. *)
Lemma release_loop_full fuel p i t l r s :
  list_wf l -> count l < 2 ^ 31 -> 0 <= i -> capacity l <= count l ->
  release_loop false fuel p i (t, l) = Ret r s ->
  s = (t, l) /\ forall j c, i <= Z.of_nat j -> visible l !! j = Some c -> proc_id c <> p.
Proof.
  revert i. induction fuel as [|fuel IH]; intros i Hwf Hmax Hi Hfull Hr; pose proof Hwf as [Hc Hs Hw];
    cbn [release_loop] in Hr; (erewrite bind_Ret in Hr by done); cbn [snd] in Hr;
    rewrite to_int_small in Hr by lia;
    (destruct (Z.ltb_spec i (count l)) as [Hlt|Hge]; cbn [negb] in Hr;
     [|injection Hr as <- <-; split; [done|]; intros j c Hj Hjc; apply lookup_lt_Some in Hjc;
       rewrite length_visible in Hjc by done; lia]); [done|].
  apply bind_Ret_inv in Hr as (c & s1 & Hl & Hr).
  destruct (claims l !! Z.to_nat i) as [c'|] eqn:Hci; [|done]. injection Hl as <- <-.
  apply slot_visible in Hci as [Hv Hid]; [|done|lia].
  destruct (Z.eqb_spec (proc_id c') p) as [Hp|Hp].
  - apply bind_Ret_inv in Hr as (r1 & [t1 l1] & Hrem & Hr).
    apply remove_inv in Hrem as (_ & _ & _ & _ & [?|?]); [done|lia|done|done].
  - apply IH in Hr as [-> Hall]; [|done|done|lia|done]. split; [done|]. intros j d Hj Hd.
    destruct (decide (Z.of_nat j = i)) as [<-|]; [rewrite Nat2Z.id in Hv; congruence|].
    eapply Hall; [|exact Hd]. lia.
Qed.

(** What [release_all_loop] leaves when the caller's claims are the last ones. *)
Lemma release_all_suffix nd p t l t' l' others mine :
  list_wf l -> count l < 2 ^ 31 -> ids_of_one_process (visible l) ->
  visible l = others ++ mine -> Forall (fun d => proc_id d <> p) others ->
  Forall (fun d => proc_id d = p) mine ->
  release_all_loop nd p (t, l) = Ret tt (t', l') ->
  visible l' = others /\ claim_counter l' = claim_counter l.
Proof.
  intros Hwf Hmax Hids Hv Ho Hm Hr. pose proof Hwf as [Hc _ _].
  unfold release_all_loop in Hr. erewrite bind_Ret in Hr by done. cbn [snd] in Hr.
  destruct (decide (nd = true \/ count l < capacity l)) as [Hnd|Hnd].
  - destruct (release_loop_suffix nd (Z.to_nat (count l)) p 0 t l others mine)
      as (l1 & Hr1 & _ & (_ & _ & _ & Hctr) & Hv1); try done; [lia..|].
    rewrite Hr in Hr1. injection Hr1 as -> ->. done.
  - destruct nd; [by destruct Hnd; left|].
    apply release_loop_full in Hr as [[= -> ->] Hall]; [|done|done|lia|]; [|apply Znot_gt_le; intros ?; apply Hnd; right; lia].
    split; [|done]. destruct mine as [|c mine]; [by rewrite app_nil_r in Hv|]. exfalso.
    apply Forall_cons in Hm as [Hcp _]. apply (Hall (length others) c); [lia| |done].
    rewrite Hv. by apply list_lookup_middle.
Qed.

(** ** The simulation *)

Section simulation.
Variable NDEBUG : bool.
Variable R : regime.
Hypothesis Hstrict : strict R = true.
Implicit Types (s : system).

Lemma initial_exact s : initial s -> exact s.
Proof using.
  intros [_ _ Hv Hg Hctr Hidle].
  assert (forall p c, pends (phases s) p = Some c -> False) as Hno.
  { intros p c. unfold pends. destruct (phases s !! p) as [ph|] eqn:Hp; [|done].
    by rewrite (Hidle _ _ Hp). }
  split.
  - congruence.
  - rewrite Hg. split; [constructor| |constructor]. intros c d Hc. inversion Hc.
  - rewrite Hctr. by split.
  - rewrite Hg. constructor.
  - intros p c Hp. by destruct (Hno p c).
  - intros p q c d _ Hp. by destruct (Hno p c).
Qed.

Lemma exact_enter p a off n s ph :
  exact s -> phases s !! p = Some ph -> pending ph = None -> claim_ok (mk_claim 0 p a off n) ->
  claim_counter (shared s) + 1 < u64_mod ->
  exact (move p (Trying (mk_claim (claim_counter (shared s)) p a off n)) (asked p (shared s)) s).
Proof using.
  intros [Hv Hl Hctr Hold Hpend Hdist] Hp Hph Hcok Hroom.
  assert (wrap64 (claim_counter (shared s) + 1) = claim_counter (shared s) + 1) as Hw
    by (apply wrap64_small; word).
  split; cbn [move shared phases granted asked set_counter claim_counter]; rewrite ?Hw; try done; [lia|..].
  - eapply Forall_impl; [exact Hold|]. simpl. lia.
  - intros q c. rewrite pends_insert. case_decide as Hq; simpl.
    + intros [= <-]. split_and!; [by destruct Hcok|simpl; lia|]. simpl. intros Hin.
      apply list_elem_of_fmap in Hin as (d & Heq & Hd).
      rewrite Forall_forall in Hold. specialize (Hold _ Hd). lia.
    + intros Hc. destruct (Hpend _ _ Hc) as (? & ? & ?). split_and!; [done|lia|done].
  - intros q1 q2 c d Hne. rewrite !pends_insert. repeat case_decide; simpl; subst; try done.
    + intros [= <-] Hd. destruct (Hpend _ _ Hd) as (_ & ? & _). simpl. lia.
    + intros Hc [= <-]. destruct (Hpend _ _ Hc) as (_ & ? & _). simpl. lia.
    + eauto.
Qed.

(** A grant of the code is a grant of the ledger. *)
Lemma grant_simulates p c s :
  exact s -> phases s !! p = Some (Trying c) -> grantable c (shared s) = true ->
  ledger_step (granted s) (granted s ++ [c]).
Proof using.
  intros [Hv Hl Hctr Hold Hpend Hdist] Hp Hg.
  assert (pends (phases s) p = Some c) as Hpc by (unfold pends; by rewrite Hp).
  destruct (Hpend _ _ Hpc) as (Hcok & _ & Hnew). apply ledger_grant; [done..|].
  intros d Hd (Hproc & Hwr & _).
  assert (claims_conflict c d = false) as Hcf by (eapply grantable_no_conflict; [done|by rewrite Hv]).
  apply claims_conflict_false in Hcf as [?|[? ?]]; [done|tauto|done|].
  by apply (proj1 (Forall_forall _ _) (lo_ok _ Hl)).
Qed.

Lemma exact_grant p c s :
  exact s -> phases s !! p = Some (Trying c) -> list_wf (shared s) -> grantable c (shared s) = true ->
  ins_pos c (visible (shared s)) = length (visible (shared s)) ->
  exact (grant c (move p (Leaving false) (added c (shared s)) s)).
Proof using.
  intros Hex Hp Hwf Hg Hio. pose proof (grant_simulates _ _ _ Hex Hp Hg) as Hstep.
  pose proof Hex as [Hv Hl Hctr Hold Hpend Hdist].
  assert (pends (phases s) p = Some c) as Hpc by (unfold pends; by rewrite Hp).
  destruct (Hpend _ _ Hpc) as (_ & Hcid & _).
  split; cbn [grant move shared phases granted]; try done.
  - rewrite visible_added_eq by (done || by eapply grantable_room). unfold visible_added.
    by rewrite decide_True, Hv.
  - by eapply ledger_step_ok.
  - apply Forall_app. split; [done|]. by constructor.
  - intros q d. rewrite pends_insert. case_decide; [done|]. intros Hd.
    destruct (Hpend _ _ Hd) as (? & ? & ?). split_and!; [done|done|].
    rewrite map_app, elem_of_app. simpl. rewrite list_elem_of_singleton. intros [?|?]; [done|].
    by eapply (Hdist q p d c).
  - intros q1 q2 c1 c2 Hne. rewrite !pends_insert. repeat case_decide; eauto; done.
Qed.

(** A step of the protocol is a step of the ledger or leaves it alone. *)
Definition simulates s s' : Prop :=
  exact s' /\ (granted s' = granted s \/ ledger_step (granted s) (granted s')).

Lemma simulates_same s s' :
  exact s -> visible (shared s') = visible (shared s) -> claim_counter (shared s') = claim_counter (shared s) ->
  pends_sub (phases s') (phases s) -> granted s' = granted s -> simulates s s'.
Proof using.
  intros Hex Hv Hctr Hps Hgr. split; [|by left]. destruct s as [l ps gr], s' as [l' ps' gr'].
  cbn [shared phases granted] in *. subst gr'. eapply exact_shrink; [exact Hex| |done|done|done].
  rewrite Hv. by destruct Hex.
Qed.

Lemma simulates_shrink p ph0 ph l gr' s :
  exact s -> phases s !! p = Some ph0 -> pending ph = None -> visible l = gr' ->
  claim_counter l = claim_counter (shared s) -> sublist gr' (granted s) -> ledger_step (granted s) gr' ->
  simulates s (mk_system l (<[p := ph]> (phases s)) gr').
Proof using.
  intros Hex Hp Hph Hv Hctr Hsub Hstep. split; [|by right]. destruct s as [l0 ps gr].
  eapply exact_shrink; [exact Hex|done|done|done|]. eapply pends_sub_insert; [exact Hp|by left].
Qed.

Lemma give_back_simulates p id r t l s :
  exact s -> list_wf (shared s) -> phases s !! p = Some (Removing id) ->
  in_order_release (strict R) id (shared s) -> id ∈ map claim_id (visible (shared s)) ->
  claim_remove_from_list NDEBUG id (thr p, shared s) = Ret r (t, l) ->
  simulates s (give_back id (move p (Leaving true) l s)).
Proof using Hstrict.
  intros Hex Hwf Hp Hio Hid Hr. pose proof Hex as [Hv Hl _ _ _ _].
  apply remove_inv in Hr as (-> & -> & _ & Hvl & _); [|done..].
  assert (visible (removed (rem_pos id (visible (shared s))) (shared s)) =
    filter (fun c => claim_id c <> id) (granted s)) as Hvg
    by (rewrite Hvl, <- pop_last by (done || by apply Hio); by rewrite Hv).
  eapply simulates_shrink; try done; [apply sublist_filter|].
  rewrite Hv in Hid. by apply ledger_give.
Qed.

Lemma sweep_simulates p t l s :
  exact s -> list_wf (shared s) -> capacity (shared s) < 2 ^ 31 -> phases s !! p = Some Sweeping ->
  in_order_sweep (strict R) p (shared s) ->
  release_all_loop NDEBUG p (thr p, shared s) = Ret tt (t, l) ->
  simulates s (give_all_back p (move p (Leaving false) l s)).
Proof using Hstrict.
  intros Hex Hwf Hcap Hp Hio Hr. pose proof Hex as [Hv Hl _ _ _ _]. pose proof Hwf as [Hcnt _ _].
  destruct (Hio Hstrict) as (others & mine & Hsplit & Ho & Hmi).
  eapply release_all_suffix in Hr as [Hvl Hctr]; [|done|lia| |done..].
  2:{ rewrite Hv. apply ids_NoDup. apply Hl. }
  assert (visible l = filter (fun c => proc_id c <> p) (granted s)) as Hvg
    by (rewrite <- Hv, Hsplit, filter_own; done).
  eapply simulates_shrink; try done; [apply sublist_filter|apply ledger_give_all].
Qed.

Lemma step_simulates g s s' : sane g s -> exact s -> step NDEBUG R s s' -> simulates s s'.
Proof using Hstrict.
  intros Hs Hex Hstep. pose proof Hs as [Hwf Hc Hcap Hm Hg].
  assert (forall p ph ph0 l, phases s !! p = Some ph0 -> (pending ph = None \/ pending ph = pending ph0) ->
    visible l = visible (shared s) -> claim_counter l = claim_counter (shared s) -> simulates s (move p ph l s)) as Hsame
    by (intros; apply simulates_same; try done; by eapply pends_sub_insert).
  destruct Hstep as [p r s Hp Hb|p r res t l s Hp Hr Hne|p ac off n id t l s Hp Hfit Hr|p r ph t l s Hp He Hr
    |p c t l t' l' s Hp Hio Hw Hadd|p c t l s Hp Hw|p c s Hp Hsp|p c t l s Hp Hr|p c res t l s Hp Hr Hne
    |p res t l s Hp Hr|p id t l s Hp Hio Hid Hr|p t l s Hp Hio Hr|p t l s Hp Hr|p sg res t l s Hp Hr
    |p q c res t l n s Hp Hq Hr|p res t l n s Hp Hno Hr|p ph s Hp Hmo].
  - eapply Hsame; eauto.
  - apply (lock_guard_inv _ _ g) in Hr as (h & _ & -> & ->); [|done]. eapply Hsame; eauto.
  - apply (enter_claim_inv _ _ g) in Hr as (_ & -> & ->); [|done]. destruct (Hfit Hstrict) as [Hok Hroom].
    split; [by eapply exact_enter|by left].
  - apply (lock_guard_inv _ _ g) in Hr as (h & _ & -> & ->); [|done].
    eapply Hsame; eauto. left. destruct r; simpl in He; by simplify_eq.
  - destruct (sane_locked _ _ _ _ Hs Hp eq_refl) as [-> Hlk].
    rewrite claim_wait_once in Hw by done. destruct (grantable c (shared s)) eqn:Hgr; [|done].
    injection Hw as <- <-. apply add_inv in Hadd as (-> & _); [|done..].
    split; [by apply exact_grant; auto|right; by apply (grant_simulates p c s)].
  - destruct (sane_locked _ _ _ _ Hs Hp eq_refl) as [-> Hlk].
    rewrite claim_wait_once in Hw by done. destruct (grantable c (shared s)); [done|].
    injection Hw as <- <-. eapply Hsame; eauto.
  - apply simulates_same; try done. eapply pends_sub_insert; eauto.
  - apply (wake_guard_inv _ _ g) in Hr as (h & _ & -> & ->); [|done]. eapply Hsame; eauto.
  - apply (wake_guard_inv _ _ g) in Hr as (h & _ & -> & ->); [|done]. eapply Hsame; eauto.
  - apply (unlock_guard_inv _ _ g) in Hr as [-> ->]; [|done]. eapply Hsame; eauto.
  - by eapply give_back_simulates.
  - eapply sweep_simulates; [done|done|lia|done..].
  - unfold remove_all_claims in Hr. erewrite bind_Ret in Hr by done.
    apply remove_all_loop_inv in Hr as (_ & (_ & _ & _ & Hctr) & Hvl); [|done].
    eapply simulates_shrink; try done; [apply sublist_nil_l|apply ledger_clear].
  - destruct (sane_locked _ _ _ _ Hs Hp eq_refl) as [-> (_ & Hm' & _)].
    rewrite leave_run in Hr by done. injection Hr as <- <- <-. eapply Hsame; eauto. left. by destruct sg.
  - rewrite signal_cnd_run in Hr by done. injection Hr as <- <- <- <-. apply simulates_same; try done.
    assert (p <> q) as Hne by congruence. cbn [wake move phases].
    eapply pends_sub_trans; [|eapply (pends_sub_insert _ p Idle); eauto].
    eapply pends_sub_insert; [by rewrite lookup_insert_ne|by right].
  - rewrite signal_cnd_run in Hr by done. injection Hr as <- <- <- <-. eapply Hsame; eauto.
  - apply simulates_same; try done. apply pends_sub_delete.
Qed.

Lemma reachable_exact s : reachable NDEBUG R s -> exact s.
Proof using Hstrict.
  induction 1 as [s Hi|s s' Hr IH Hstep]; [by apply initial_exact|].
  destruct (reachable_sane _ _ _ Hr) as (g & Hs & _). by eapply step_simulates.
Qed.
End simulation.

(** ** Theorems *)

(** C1. Exclusive regions.  If every claim is made in order of offsets and claims
    are given back from the end of the list, then in every reachable state,
    however the processes interleave and whichever of them die, wake up by
    themselves or use the bulk operations, the active claims are exactly the
    claims granted and not given back, their identifiers are different, and no two
    of them conflict: two processes never hold overlapping regions unless both
    only read. *)
Theorem protocol_regions_exclusive nd R s :
  strict R = true -> reachable nd R s ->
  visible (shared s) = granted s /\ NoDup (map claim_id (granted s)) /\ exclusive (granted s).
Proof. intros HR Hr. by destruct (reachable_exact nd R HR s Hr) as [? [] _ _ _ _]. Qed.

(** The discipline, with everything else allowed. *)
Definition disciplined : regime := mk_regime true true true true.

(** One claim granted under the discipline. *)
Definition one_granted : system :=
  let c := mk_claim 0 1 IPM_ACCESS_MODE_READ_WRITE 0 8 in
  let s0 := three_processes in
  let s1 := move 1 (Entering (Want IPM_ACCESS_MODE_READ_WRITE 0 8)) (shared s0) s0 in
  let s2 := move 1 (Trying c) (asked 1 (shared s1)) s1 in
  grant c (move 1 (Leaving false) (added c (shared s2)) s2).

Lemma one_granted_reachable : reachable false disciplined one_granted.
Proof.
  eapply reach_step; [eapply reach_step; [eapply reach_step; [apply reach_initial, three_processes_initial|]|]|].
  - apply (step_ask false disciplined 1 (Want IPM_ACCESS_MODE_READ_WRITE 0 8)); [reflexivity|done].
  - eapply (step_enter_claim _ _ 1 IPM_ACCESS_MODE_READ_WRITE 0 8 0); [reflexivity| |reflexivity].
    intros _. split; [split; vm_compute; done|vm_compute; done].
  - eapply (step_grant _ _ 1 (mk_claim 0 1 IPM_ACCESS_MODE_READ_WRITE 0 8));
      [reflexivity|intros _; reflexivity|reflexivity|reflexivity].
Qed.

Lemma protocol_regions_exclusive_witness :
  visible (shared one_granted) = granted one_granted /\ length (granted one_granted) = 1%nat.
Proof.
  destruct (protocol_regions_exclusive false disciplined one_granted) as [H _];
    [reflexivity|exact one_granted_reachable|].
  split; [exact H|reflexivity].
Defined.

(** C2. Refinement.  Under the discipline the shared list implements the ledger
    of granted regions: the active claims of every reachable state are a ledger
    that can arise by granting and giving back, and every step of every process
    (the lock, the array moves, sleeping, waking, signalling, the bulk operations
    and deaths) either leaves that ledger alone or is one step of it. *)
Theorem protocol_refines_ledger nd R s s' :
  strict R = true -> reachable nd R s -> step nd R s s' ->
  rtc ledger_step [] (visible (shared s)) /\
  (visible (shared s') = visible (shared s) \/ ledger_step (visible (shared s)) (visible (shared s'))).
Proof.
  intros HR Hr Hstep.
  assert (forall s s', reachable nd R s -> step nd R s s' ->
    visible (shared s') = visible (shared s) \/ ledger_step (visible (shared s)) (visible (shared s'))) as Hsim.
  { intros s1 s2 H1 H12. destruct (reachable_sane _ _ _ H1) as (g & Hs & _).
    pose proof (reachable_exact nd R HR _ H1) as Hex.
    destruct (step_simulates nd R HR _ _ _ Hs Hex H12) as [[Hv2 _ _ _ _ _] Hl].
    destruct Hex as [Hv1 _ _ _ _ _]. by rewrite Hv1, Hv2. }
  split; [|by apply Hsim].
  clear s' Hstep. induction Hr as [s Hi|s1 s2 H1 IH H12]; [by rewrite (in_empty _ Hi)|].
  destruct (Hsim _ _ H1 H12) as [->|H]; [exact IH|]. eapply rtc_r; [exact IH|exact H].
Qed.

Lemma protocol_refines_ledger_witness :
  exists s', step false disciplined one_granted s' /\ rtc ledger_step [] (visible (shared one_granted)).
Proof.
  exists (dies 1 one_granted).
  assert (step false disciplined one_granted (dies 1 one_granted)) as Hstep
    by (eapply step_die; [vm_compute; reflexivity|reflexivity]).
  split; [exact Hstep|].
  apply (protocol_refines_ledger false disciplined one_granted (dies 1 one_granted));
    [reflexivity|exact one_granted_reachable|exact Hstep].
Defined.

(** Process 1 reads at 10, process 2 reads at 5, gives that up and asks to write
    at 10. *)
Definition losing_schedule : list event :=
  wants 1 IPM_ACCESS_MODE_READ_ONLY 10 4 ++ [Goes 1] ++ wants 2 IPM_ACCESS_MODE_READ_ONLY 5 4 ++ [Goes 2] ++
  gives 2 1 ++ [Goes 2] ++ wants 2 IPM_ACCESS_MODE_READ_WRITE 10 4.

(** C33. Without the discipline regions are not exclusive: two processes, each
    following the documented interface, nobody dying and no bulk operation used,
    reach a state in which both hold the same bytes and one of them may write.
    The claim of the first process was lost when the second inserted a claim in
    front of it and gave it back. *)
Theorem protocol_loses_claims :
  exists s c d, reachable false ordinary s /\ c ∈ granted s /\ d ∈ granted s /\
    region_conflict c d /\ c ∉ visible (shared s).
Proof.
  destruct (run_schedule false ordinary losing_schedule three_processes) as [s|] eqn:Hs;
    [|vm_compute in Hs; discriminate Hs].
  exists s, (mk_claim 0 1 IPM_ACCESS_MODE_READ_ONLY 10 4), (mk_claim 2 2 IPM_ACCESS_MODE_READ_WRITE 10 4).
  split.
  - eapply run_schedule_reachable; [reflexivity|apply reach_initial, three_processes_initial|exact Hs].
  - vm_compute in Hs. injection Hs as <-. split_and!; [apply (bool_decide_unpack _); vm_compute; exact I..| |].
    + split_and!; [done|by right|exists 10; split; unfold covers; simpl; lia].
    + apply (bool_decide_unpack _); vm_compute; exact I.
Qed.
