(* ===== verification/Wakeups.v ===== *)
(** * Who is woken

    A process whose claim conflicts sleeps on the condition variable of the list;
    [ipm_memory_release_region] signals once, after it has given up the mutex; the
    bulk operations do not signal at all.  As long as claims are given back one at
    a time a wake-up is never lost altogether; with [ipm_memory_release_all], or
    when several readers wait, processes sleep on although their claims could be
    granted. *)

From S2P Require Import Prelude Errors Pthread Platform Claims Common Names World SharedMemory Memory Machine Regions Protocol.

(** A wake-up is on its way: a process has given a claim back and is going to
    signal, or has been woken and is going to check again. *)
Definition on_the_way (ph : phase) : bool :=
  match ph with Trying _ | Woken _ | Leaving true | Signalling => true | _ => false end.
Definition sleeper (s : system) : Prop := exists p c, phases s !! p = Some (Sleeping c).
Definition coming (ps : gmap Z phase) : Prop := exists q ph, ps !! q = Some ph /\ on_the_way ph = true.

(** Whoever sleeps waits for a claim that is active or for a wake-up that comes. *)
Definition served (s : system) : Prop := sleeper s -> visible (shared s) <> [] \/ coming (phases s).

Section served.
Implicit Types (s : system) (ps : gmap Z phase).

Lemma coming_insert ps p ph : on_the_way ph = true -> coming (<[p := ph]> ps).
Proof. intros H. exists p, ph. split; [apply lookup_insert_eq|done]. Qed.
Lemma coming_other ps p ph ph0 :
  ps !! p = Some ph0 -> on_the_way ph0 = false -> coming ps -> coming (<[p := ph]> ps).
Proof.
  intros Hp H0 (q & phq & Hq & Hw). exists q, phq. split; [|done].
  rewrite lookup_insert_ne by congruence. done.
Qed.
Lemma sleeper_other s p ph l :
  (forall c, ph <> Sleeping c) -> sleeper (move p ph l s) -> sleeper s.
Proof.
  intros Hph (q & c & Hq). cbn in Hq. apply lookup_insert_Some in Hq as [[_ Heq]|[_ Hq]].
  - by destruct (Hph c).
  - by exists q, c.
Qed.

(** Steps of a process that is not on the way and does not go to sleep. *)
Lemma served_move s p ph ph0 l :
  served s -> phases s !! p = Some ph0 -> on_the_way ph0 = false -> (forall c, ph <> Sleeping c) ->
  visible l = visible (shared s) -> served (move p ph l s).
Proof.
  intros Hs Hp H0 Hph Hv Hsl. cbn [move shared phases]. rewrite Hv.
  destruct (Hs (sleeper_other _ _ _ _ Hph Hsl)) as [?|?]; [by left|right]. by eapply coming_other.
Qed.

Lemma not_grantable_visible c l :
  list_wf l -> 0 < capacity l -> grantable c l = false -> visible l <> [].
Proof.
  intros Hwf Hcap Hg Hv. pose proof (length_visible _ Hwf) as Hlen. rewrite Hv in Hlen. simpl in Hlen.
  destruct Hwf as [Hc _ _]. unfold grantable in Hg. rewrite Hv in Hg. simpl in Hg.
  apply negb_false_iff, Z.eqb_eq in Hg. lia.
Qed.

Lemma visible_added_nonempty c l : list_wf l -> count l < capacity l -> visible (added c l) <> [].
Proof.
  intros Hwf Hlt Hv. pose proof (added_wf c l Hwf Hlt) as Hwf'.
  pose proof (length_visible _ Hwf') as Hlen. rewrite Hv in Hlen. simpl in Hlen.
  destruct Hwf as [Hc _ _]. unfold added in Hlen. simpl in Hlen. lia.
Qed.
End served.

Section no_lost_wakeups.
Variable NDEBUG : bool.
Variable R : regime.
Hypothesis Hbulk : bulk R = false.
Hypothesis Hmortal : mortal R = false.
Implicit Types (s : system).

(** Without bulk requests nobody gets to the bulk operations. *)
Definition no_bulk s : Prop := forall p ph, phases s !! p = Some ph ->
  match ph with Entering r => is_bulk r = false | Sweeping | Clearing => False | _ => True end.

Lemma no_bulk_insert s p ph l gr :
  no_bulk s -> match ph with Entering r => is_bulk r = false | Sweeping | Clearing => False | _ => True end ->
  no_bulk (mk_system l (<[p := ph]> (phases s)) gr).
Proof using. intros Hs Hph q phq. cbn. rewrite lookup_insert_Some. intros [[_ <-]|[_ ?]]; [done|by eapply Hs]. Qed.

Lemma step_no_bulk s s' : no_bulk s -> step NDEBUG R s s' -> no_bulk s'.
Proof using Hbulk Hmortal.
  intros Hs Hstep. destruct Hstep; unfold grant, give_back, give_all_back, clear, keep, move, wake;
    cbn [shared phases granted]; try (by apply no_bulk_insert); try (by rewrite Hmortal in *).
  - apply no_bulk_insert; [done|]. destruct (is_bulk r) eqn:Hb; [|done]. rewrite Hbulk in *. discriminate (H0 eq_refl).
  - apply no_bulk_insert; [done|]. pose proof (Hs _ _ H) as Hr. destruct r; simpl in *; by simplify_eq.
  - apply no_bulk_insert; [done|]. by destruct sg.
  - intros r ph. cbn. rewrite !lookup_insert_Some. intros [[_ <-]|[_ [[_ <-]|[_ ?]]]]; [done..|by eapply Hs].
Qed.

Lemma step_served g s s' :
  sane g s -> healthy g -> no_bulk s -> served s -> step NDEBUG R s s' -> served s'.
Proof using Hbulk Hmortal.
  intros Hs Hh Hnb Hsv Hstep. pose proof Hs as [Hwf Hc Hcap Hm Hg].
  destruct Hstep as [p r s Hp Hb|p r res t l s Hp Hr Hne|p ac off n id t l s Hp Hfit Hr|p r ph t l s Hp He Hr
    |p c t l t' l' s Hp Hio Hw Hadd|p c t l s Hp Hw|p c s Hp Hsp|p c t l s Hp Hr|p c res t l s Hp Hr Hne
    |p res t l s Hp Hr|p id t l s Hp Hio Hid Hr|p t l s Hp Hio Hr|p t l s Hp Hr|p sg res t l s Hp Hr
    |p q c res t l n s Hp Hq Hr|p res t l n s Hp Hno Hr|p ph s Hp Hmo].
  - by eapply served_move.
  - apply (lock_guard_inv _ _ g) in Hr as (h & _ & -> & _); [|done]. by eapply served_move.
  - intros _. right. by apply coming_insert.
  - apply (lock_guard_inv _ _ g) in Hr as (h & _ & -> & _); [|done]. eapply served_move; [done..| |done].
    intros c. destruct r; simpl in He; by simplify_eq.
  - intros _. left. destruct (sane_locked _ _ _ _ Hs Hp eq_refl) as [-> Hlk].
    rewrite claim_wait_once in Hw by done. destruct (grantable c (shared s)) eqn:Hgr; [|done].
    injection Hw as <- <-. apply add_inv in Hadd as (-> & _); [|done..].
    apply visible_added_nonempty; [done|by eapply grantable_room].
  - intros _. left. destruct (sane_locked _ _ _ _ Hs Hp eq_refl) as [-> Hlk].
    rewrite claim_wait_once in Hw by done. destruct (grantable c (shared s)) eqn:Hgr; [done|].
    injection Hw as <- <-. change (visible (shared s) <> []). by eapply not_grantable_visible; [| |exact Hgr]; [|apply Hcap].
  - intros _. right. by apply coming_insert.
  - intros _. right. by apply coming_insert.
  - exfalso. apply (wake_guard_inv _ _ g) in Hr as (h & Hres & _); [|done].
    destruct g as [|q|q b|q|]; simpl in Hres; try done; [by simplify_eq|].
    destruct (Z.eqb_spec q p) as [->|]; [|done]. destruct Hg as (ph & Hq & Hi & _).
    rewrite Hp in Hq. by simplify_eq.
  - apply (unlock_guard_inv _ _ g) in Hr as [-> _]; [|done]. by eapply served_move.
  - intros _. right. by apply coming_insert.
  - by destruct (Hnb _ _ Hp).
  - by destruct (Hnb _ _ Hp).
  - apply (unlock_guard_inv _ _ g) in Hr as [-> _]; [|done]. destruct sg.
    + intros _. right. by apply coming_insert.
    + by eapply served_move.
  - intros _. right. by apply coming_insert.
  - intros (q & c & Hq). exfalso. cbn in Hq. apply lookup_insert_Some in Hq as [[_ ?]|[_ Hq]]; [done|].
    rewrite signal_cnd_run in Hr by done. injection Hr as _ _ _ <-. destruct Hno as [?|Hno]; [done|].
    by apply (Hno q c).
  - by rewrite Hmortal in Hmo.
Qed.

Lemma reachable_served s : reachable NDEBUG R s -> no_bulk s /\ served s.
Proof using Hbulk Hmortal.
  induction 1 as [s Hi|s s' Hr [Hnb Hsv] Hstep].
  - split.
    + intros p ph Hp. by rewrite (in_idle _ Hi _ _ Hp).
    + intros (p & c & Hp). apply (in_idle _ Hi) in Hp. done.
  - destruct (reachable_sane _ _ _ Hr) as (g & Hs & Hh). split; [by eapply step_no_bulk|].
    eapply step_served; [exact Hs|by apply Hh|done..].
Qed.
End no_lost_wakeups.

(** ** Steps of a quiet system *)

(** Everybody is idle or asleep. *)
Definition quiet (s : system) : Prop :=
  forall p ph, phases s !! p = Some ph -> ph = Idle \/ exists c, ph = Sleeping c.

Lemma quiet_step nd R s s' :
  spurious R = false -> mortal R = false -> quiet s -> step nd R s s' ->
  exists p r, phases s !! p = Some Idle /\ s' = move p (Entering r) (shared s) s.
Proof.
  intros Hsp Hmo Hq Hstep.
  destruct Hstep; try congruence; try (exfalso; match goal with H : phases _ !! _ = Some _ |- _ =>
    destruct (Hq _ _ H) as [?|[? ?]]; congruence end).
  eauto.
Qed.

(** No process is in a call of [ipm_memory_release_region]. *)
Definition not_giving (ph : phase) : Prop :=
  match ph with Entering (Give _) | Removing _ | Leaving true | Signalling => False | _ => True end.
Definition nobody_gives (s : system) : Prop := forall p ph, phases s !! p = Some ph -> not_giving ph.

(** A sleeper sleeps on while nobody gives a claim back with [ipm_memory_release_region]. *)
Lemma sleeps_on nd R s s' q c :
  spurious R = false -> mortal R = false -> nobody_gives s -> phases s !! q = Some (Sleeping c) ->
  step nd R s s' -> phases s' !! q = Some (Sleeping c).
Proof.
  intros Hsp Hmo Hn Hq Hstep.
  assert (forall p ph ph' l, phases s !! p = Some ph -> (forall c, ph <> Sleeping c) ->
    phases (move p ph' l s) !! q = Some (Sleeping c)) as Hkeep.
  { intros p ph ph' l Hp Hph. cbn. rewrite lookup_insert_ne; [done|]. intros ->. rewrite Hq in Hp.
    injection Hp as <-. by apply (Hph c). }
  destruct Hstep; try congruence; try (by eapply Hkeep); try (by exfalso; eapply (Hn p _ ltac:(eassumption))).
Qed.

(** ** Theorems *)

(** C16. No wake-up is lost as long as claims are given back one at a time and
    nobody dies: in every reachable state in which a process sleeps there is
    an active claim, whose release will signal, or a wake-up is already on its
    way (a process is going to signal, or has been woken and is going to look at
    the list).  So nobody sleeps in front of an empty list for good. *)
Theorem protocol_no_lost_wakeup nd R s p c :
  bulk R = false -> mortal R = false -> reachable nd R s -> phases s !! p = Some (Sleeping c) ->
  visible (shared s) <> [] \/ exists q ph, phases s !! q = Some ph /\ on_the_way ph = true.
Proof.
  intros Hb Hm Hr Hp. destruct (reachable_served nd R Hb Hm s Hr) as [_ Hs]. apply Hs. by exists p, c.
Qed.

(** After process 1 gave its claim back and before it signals. *)
Lemma protocol_no_lost_wakeup_witness :
  exists s, run_schedule true ordinary (waiting_schedule ++ gives 1 0) three_processes = Some s /\
    visible (shared s) = [] /\ exists q ph, phases s !! q = Some ph /\ on_the_way ph = true.
Proof.
  destruct (run_schedule true ordinary (waiting_schedule ++ gives 1 0) three_processes) as [s|] eqn:Hs;
    [|vm_compute in Hs; discriminate Hs].
  assert (visible (shared s) = []) as Hv by (vm_compute in Hs; injection Hs as <-; vm_compute; reflexivity).
  exists s. split; [reflexivity|]. split; [exact Hv|].
  destruct (protocol_no_lost_wakeup true ordinary s 2 (mk_claim 1 2 IPM_ACCESS_MODE_READ_WRITE 4 8))
    as [H|H]; [reflexivity|reflexivity| |vm_compute in Hs; injection Hs as <-; reflexivity|by destruct H|exact H].
  eapply run_schedule_reachable; [reflexivity|apply reach_initial, three_processes_initial|exact Hs].
Defined.

(** Bulk operations are used, nothing else out of the ordinary happens. *)
Definition with_bulk : regime := mk_regime false false true false.

(** Process 1 gives back everything it has while process 2 waits for it. *)
Definition sweeping_schedule : list event := waiting_schedule ++ [Asks 1 Give_all; Goes 1; Goes 1; Goes 1].

(** C40. [ipm_memory_release_all] loses wake-ups: it does not signal.  A state is
    reachable in which the list is empty, everybody but process 2 is idle and
    process 2 sleeps although its claim could be granted; and it sleeps on in
    every continuation in which no process happens to give back a claim with
    [ipm_memory_release_region], also when the others claim regions and release
    all of them any number of times. *)
Theorem protocol_sweep_loses_wakeup nd :
  exists s c, reachable nd with_bulk s /\ quiet s /\ visible (shared s) = [] /\
    phases s !! 2 = Some (Sleeping c) /\ grantable c (shared s) = true /\
    forall s', rtc (fun a b => step nd with_bulk a b /\ nobody_gives b) s s' ->
      phases s' !! 2 = Some (Sleeping c).
Proof.
  destruct (run_schedule nd with_bulk sweeping_schedule three_processes) as [s|] eqn:Hs;
    [|destruct nd; vm_compute in Hs; discriminate Hs].
  pose (c := mk_claim 1 2 IPM_ACCESS_MODE_READ_WRITE 4 8). exists s, c.
  assert (reachable nd with_bulk s) as Hr
    by (eapply run_schedule_reachable; [reflexivity|apply reach_initial, three_processes_initial|exact Hs]).
  assert (phases s = {[1 := Idle; 2 := Sleeping c; 3 := Idle]} /\ visible (shared s) = [] /\
    grantable c (shared s) = true) as (Hps & Hv & Hg)
    by (destruct nd; vm_compute in Hs; injection Hs as <-; split_and!; reflexivity).
  assert (quiet s) as Hquiet.
  { intros p ph. rewrite Hps, !lookup_insert_Some, lookup_singleton_Some.
    intros [[_ <-]|[_ [[_ <-]|[_ [_ <-]]]]]; eauto. }
  assert (nobody_gives s) as Hn by (intros p ph Hp; by destruct (Hquiet _ _ Hp) as [->|[? ->]]).
  assert (phases s !! 2 = Some (Sleeping c)) as Hp by (by rewrite Hps).
  split_and!; try done. clear -Hn Hp. intros s' Hsteps.
  induction Hsteps as [s|s s1 s2 [Hstep Hn1] Hsteps IH]; [done|].
  apply IH; [done|]. by apply (sleeps_on nd with_bulk s).
Qed.

(** Process 1 writes, processes 2 and 3 wait to read; process 1 gives its claim
    back and signals to process 2, which reads. *)
Definition single_signal_schedule : list event :=
  wants 1 IPM_ACCESS_MODE_READ_WRITE 0 8 ++ [Goes 1] ++ wants 2 IPM_ACCESS_MODE_READ_ONLY 0 8 ++
  wants 3 IPM_ACCESS_MODE_READ_ONLY 0 8 ++ gives 1 0 ++ [Signals 1 2; Goes 2; Goes 2; Goes 2].

(** One signal is not enough for two readers: a state is reachable, without
    bulk operations and deaths, in which process 3 sleeps although its claim to
    read could be granted next to the claim process 2 was granted, and no step
    but a new request is possible. *)
Theorem protocol_single_signal nd :
  exists s c, reachable nd ordinary s /\ phases s !! 3 = Some (Sleeping c) /\
    grantable c (shared s) = true /\ length (granted s) = 1%nat /\
    forall s', step nd ordinary s s' -> exists p r, s' = move p (Entering r) (shared s) s.
Proof.
  destruct (run_schedule nd ordinary single_signal_schedule three_processes) as [s|] eqn:Hs;
    [|destruct nd; vm_compute in Hs; discriminate Hs].
  pose (c := mk_claim 2 3 IPM_ACCESS_MODE_READ_ONLY 0 8). exists s, c.
  assert (reachable nd ordinary s) as Hr
    by (eapply run_schedule_reachable; [reflexivity|apply reach_initial, three_processes_initial|exact Hs]).
  assert (phases s = {[1 := Idle; 2 := Idle; 3 := Sleeping c]} /\ length (granted s) = 1%nat /\
    grantable c (shared s) = true) as (Hps & Hgr & Hg)
    by (destruct nd; vm_compute in Hs; injection Hs as <-; split_and!; reflexivity).
  assert (quiet s) as Hquiet.
  { intros p ph. rewrite Hps, !lookup_insert_Some, lookup_singleton_Some.
    intros [[_ <-]|[_ [[_ <-]|[_ [_ <-]]]]]; eauto. }
  split_and!; try done; [by rewrite Hps|].
  intros s' Hstep. apply quiet_step in Hstep as (p & r & _ & Heq); eauto.
Qed.
