(* ===== verification/Tests.v ===== *)
(** * The test programs (tests/single_test.c, tests/fork_test.c, tests/test_common.c)

    The repository's tests as programs of the model: their callbacks, their
    assertions and what they print.  Running them composes every layer, from the
    public interface down to the system calls.  [malloc] is a bump allocator and
    the streams are texts; [fork] copies the private part of the world.  What
    [fork_test] writes to the shared data is kept per shared object, beside the
    world, which has no bytes for data blocks.  A test passes only if it leaves no
    allocation.  [fork_test] runs under two schedules of parent and child. *)

From S2P Require Import Prelude Errors Pthread Platform Claims Common Names World SharedMemory Memory Machine Regions.

(** ** The harness *)

Record tester := mk_tester {
  t_live : gset Z;          (* allocations not yet freed *)
  t_next : Z;               (* the next address [malloc] returns *)
  t_stdout : string;
  t_stderr : string;
  t_trapped : bool          (* an assertion of a callback failed *)
}.

#[local] Instance harness : Env :=
  {| user := tester; os_place := place_on_top; os_strerror := fun e => "error " +:+ pretty e |}.

Definition state_ptr : Z := 0xB16B00B135.

Definition malloc (size : Z) (t : tester) : Z * tester :=
  (t_next t, mk_tester ({[t_next t]} ∪ t_live t) (t_next t + size) (t_stdout t) (t_stderr t) (t_trapped t)).
Definition free (ptr : Z) (t : tester) : tester :=
  mk_tester (t_live t ∖ {[ptr]}) (t_next t) (t_stdout t) (t_stderr t) (t_trapped t).
Definition printf (text : string) (t : tester) : tester :=
  mk_tester (t_live t) (t_next t) (t_stdout t +:+ text) (t_stderr t) (t_trapped t).
Definition fprintf_stderr (text : string) (t : tester) : tester :=
  mk_tester (t_live t) (t_next t) (t_stdout t) (t_stderr t +:+ text) (t_trapped t).
Definition endl : string := String (Ascii.ascii_of_nat 10) "".
Definition trap_unless (b : bool) (t : tester) : tester :=
  mk_tester (t_live t) (t_next t) (t_stdout t) (t_stderr t) (t_trapped t || negb b).

Definition allocate_callback (state size : Z) : callback tester Z := fun t e =>
  let '(p, t) := malloc size (trap_unless (state =? state_ptr) t) in (p, t, e).
Definition deallocate_callback (state ptr : Z) : callback tester unit := fun t e =>
  (tt, free ptr (trap_unless (state =? state_ptr) t), e).
Definition common_error_report_fn (msg file : string) (line : Z) (func : string) (param : Z)
    : callback tester unit := fun t e =>
  (tt, fprintf_stderr ("IPM Error " +:+ file +:+ ":" +:+ pretty line +:+ " - " +:+ func +:+ ": "
                        +:+ quoted msg +:+ endl) t, e).

Definition ctx : ipm_context tester :=
  mk_context (Some common_error_report_fn) NULL allocate_callback state_ptr deallocate_callback state_ptr.

Definition puts (text : string) : M world unit := modify (fun w => set_user (printf text (w_user w)) w).
Definition eputs (text : string) : M world unit := modify (fun w => set_user (fprintf_stderr text (w_user w)) w).

(** [ASSERT(x)] for the text [x], the file and the line of its use: it says what
    failed and traps, or exits with an error. *)
Definition ASSERT (x file : string) (line : Z) (b : bool) : M world unit :=
  if b then mret tt
  else _ ← eputs ("Failed assertion " +:+ quoted x +:+ " at " +:+ file +:+ ":" +:+ pretty line +:+ endl); abort.

Section programs.
Variable NDEBUG : bool.

(** [for (unsigned i = 0; i < list->count; ++i) ...] prints the first [n] claims. *)
Definition claim_line (c : ipm_memory_claim) : string :=
  "(ipm_memory_claim) {.claim_id = " +:+ pretty (claim_id c) +:+ ", .proc_id = " +:+ pretty (proc_id c)
  +:+ ", access = " +:+ (if bool_decide (access c = IPM_ACCESS_MODE_READ_WRITE) then "RW" else "RO")
  +:+ ", .offset = " +:+ pretty (offset c) +:+ ", .size = " +:+ pretty (size c) +:+ "}" +:+ endl.
Fixpoint print_loop (cs : list ipm_memory_claim) (n i : nat) : M world unit :=
  match n with
  | O => mret tt
  | S n => c ← unwrap (cs !! i); _ ← puts (claim_line c); print_loop cs n (S i)
  end.
Definition print_claims (memory : ipm_memory) : M world unit :=
  let list := b_memory (active_claims memory) in
  _ ← cassert NDEBUG (negb (list =? NULL));
  l ← on_list list get_list;
  print_loop (claims l) (Z.to_nat (count l)) 0.

Definition is_success (r : ipm_result) : bool := bool_decide (r = IPM_RESULT_SUCCESS).

(** A pointer or an identifier that the call was to set. *)
Definition given {A} (o : option A) : M world A := unwrap o.

Definition single_test : M world Z :=
  let ASSERT x line := ASSERT x "single_test.c" line in
  '(res, mem) ← ipm_memory_create NDEBUG ctx 69 "cool_block" IPM_ACCESS_MODE_READ_WRITE;
  _ ← ASSERT "res == IPM_RESULT_SUCCESS" 19 (is_success res);
  mem ← given mem;
  block_info ← ipm_memory_get_info mem;
  _ ← ASSERT "block_info.active_claims == 0" 22 (info_active_claims block_info =? 0);
  _ ← ASSERT "block_info.memory_access_mode == IPM_ACCESS_MODE_READ_WRITE" 23
        (bool_decide (info_memory_access_mode block_info = IPM_ACCESS_MODE_READ_WRITE));
  _ ← ASSERT "block_info.block_size >= 69" 24 (69 <=? info_block_size block_info);
  '(res, claim_id1) ← ipm_memory_claim_region NDEBUG [] mem IPM_ACCESS_MODE_READ_WRITE 16 16;
  _ ← ASSERT "res == IPM_RESULT_SUCCESS" 27 (is_success res);
  claim_id1 ← given claim_id1;
  _ ← puts (endl +:+ "Claims at point 1:" +:+ endl);
  _ ← print_claims mem;
  '(res, claim_id2) ← ipm_memory_claim_region NDEBUG [] mem IPM_ACCESS_MODE_READ_WRITE 24 16;
  _ ← ASSERT "res == IPM_RESULT_SUCCESS" 32 (is_success res);
  claim_id2 ← given claim_id2;
  _ ← puts (endl +:+ "Claims at point 2:" +:+ endl);
  _ ← print_claims mem;
  res ← ipm_memory_release_region NDEBUG mem claim_id2;
  _ ← ASSERT "res == IPM_RESULT_SUCCESS" 37 (is_success res);
  _ ← puts (endl +:+ "Claims at point 3:" +:+ endl);
  _ ← print_claims mem;
  res ← ipm_memory_release_region NDEBUG mem claim_id1;
  _ ← ASSERT "res == IPM_RESULT_SUCCESS" 42 (is_success res);
  _ ← puts (endl +:+ "Claims at point 4:" +:+ endl);
  _ ← print_claims mem;
  _ ← ipm_memory_close NDEBUG mem;
  '(res, _) ← ipm_memory_open NDEBUG [] [] ctx "cool_block" IPM_ACCESS_MODE_READ_WRITE;
  _ ← ASSERT "res == IPM_RESULT_ERR_DOES_NOT_EXIST" 48 (bool_decide (res = IPM_RESULT_ERR_DOES_NOT_EXIST));
  mret 0.
End programs.

(** A process that has just started. *)
Definition start (tid : Z) : world := mk_world (mk_thread tid 0 []) (mk_tester ∅ 4096 "" "" false) ∅ ∅ ∅ ∅.

(** What a test leaves behind: no name, descriptor or mapping, no allocation, and
    no failed assertion. *)
Definition spotless (w : world) : Prop :=
  w_names w = ∅ /\ w_fds w = ∅ /\ w_pages w = ∅ /\ t_live (w_user w) = ∅ /\ t_trapped (w_user w) = false.
#[local] Instance spotless_dec w : Decision (spotless w).
Proof. unfold spotless; apply _. Defined.

Definition lines (ls : list string) : string := foldr (fun l s => l +:+ endl +:+ s) "" ls.
Definition passes (o : outcome world Z) (out : string) : bool :=
  match o with
  | Ret r w => (r =? 0) && bool_decide (spotless w) && bool_decide (t_stdout (w_user w) = out)
  | _ => false
  end.

(** ** Two processes *)

Section fork.
Variable NDEBUG : bool.

(** [fork]: the child has the private part of the parent's world and a thread of
    its own. *)
Definition fork (child : Z) (w : world) : world := set_thread (mk_thread child (t_errno (w_thread w)) (t_faults (w_thread w))) w.
(** Process [p] goes on after another left names and objects as in [w]. *)
Definition resume (p w : world) : world :=
  mk_world (w_thread p) (w_user p) (w_names w) (w_objs w) (w_fds p) (w_pages p).

Definition assert_that (x : string) (line : Z) (b : bool) : M world unit := ASSERT x "fork_test.c" line b.

(** What was written to the data of the shared objects. *)
Definition texts := gmap nat string.
Definition write_text (buffer : Z) (text : string) (d : texts) : M world texts := fun w =>
  match object_at 1 true buffer w with Some o => Ret (<[o := text]> d) w | None => Undef end.
Definition read_text (buffer : Z) (d : texts) : M world string := fun w =>
  match object_at 1 false buffer w with Some o => Ret (default "" (d !! o)) w | None => Undef end.

(** The program up to [fork]. *)
Definition fork_test_start : M world ipm_memory :=
  '(res, mem) ← ipm_memory_create NDEBUG ctx 69 "cool_block" IPM_ACCESS_MODE_READ_WRITE;
  _ ← assert_that "res == IPM_RESULT_SUCCESS" 22 (is_success res);
  given mem.

(** The child up to [sleep(3)], and from there on. *)
Definition fork_test_child (mem : ipm_memory) : M world (ipm_memory * Z * texts) :=
  _ ← ipm_memory_clean NDEBUG mem;
  '(res, mem_child) ← ipm_memory_open NDEBUG [] [] ctx "cool_block" IPM_ACCESS_MODE_READ_WRITE;
  _ ← assert_that "res == IPM_RESULT_SUCCESS" 39 (is_success res);
  mem_child ← given mem_child;
  let buffer := ipm_memory_pointer mem_child in
  '(res, claim_id) ← ipm_memory_claim_region NDEBUG [] mem_child IPM_ACCESS_MODE_READ_WRITE 0 32;
  _ ← assert_that "res == IPM_RESULT_SUCCESS" 42 (is_success res);
  claim_id ← given claim_id;
  d ← write_text buffer "Hello my guy" ∅;
  mret (mem_child, claim_id, d).
Definition fork_test_child_release (mem_child : ipm_memory) (claim_id : Z) : M world unit :=
  res ← ipm_memory_release_region NDEBUG mem_child claim_id;
  assert_that "res == IPM_RESULT_SUCCESS" 46 (is_success res).
Definition fork_test_child_end (mem_child : ipm_memory) : M world Z :=
  _ ← ipm_memory_close NDEBUG mem_child; mret 0.

(** The parent up to [wait], and from there on. *)
Definition fork_test_parent (wakes : list (ipm_claim_list -> ipm_claim_list)) (d : texts) (mem : ipm_memory) : M world unit :=
  let buffer := ipm_memory_pointer mem in
  '(res, claim_id) ← ipm_memory_claim_region NDEBUG wakes mem IPM_ACCESS_MODE_READ_ONLY 0 32;
  _ ← assert_that "res == IPM_RESULT_SUCCESS" 59 (is_success res);
  claim_id ← given claim_id;
  text ← read_text buffer d;
  _ ← puts ("Message was: " +:+ quoted (String.substring 0 32 text) +:+ endl);
  res ← ipm_memory_release_region NDEBUG mem claim_id;
  assert_that "res == IPM_RESULT_SUCCESS" 62 (is_success res).
Definition fork_test_parent_end (mem : ipm_memory) : M world Z :=
  _ ← ipm_memory_close NDEBUG mem;
  '(res, _) ← ipm_memory_open NDEBUG [] [] ctx "cool_block" IPM_ACCESS_MODE_READ_WRITE;
  _ ← assert_that "res == IPM_RESULT_ERR_DOES_NOT_EXIST" 70 (bool_decide (res = IPM_RESULT_ERR_DOES_NOT_EXIST));
  mret 0.

(** What the child's release does to the claim list, as the sleeping parent meets
    it: the child's code runs on the object of the list with contents [l]. *)
Definition list_object (w : world) (mem : ipm_memory) : nat :=
  default 0%nat (object_at 1 true (b_memory (active_claims mem)) w).
Definition child_meanwhile (child : world) (mem_child : ipm_memory) (claim_id : Z)
    (l : ipm_claim_list) : ipm_claim_list :=
  let o := list_object child mem_child in
  match w_objs child !! o with
  | None => l
  | Some ob =>
      match fork_test_child_release mem_child claim_id (set_obj o (set_so_list l ob) child) with
      | Ret _ w => match w_objs w !! o with Some ob => so_list ob | None => l end
      | _ => l
      end
  end.

(** The results of both processes.  In the first schedule the parent asks while
    the child holds its claim (left alone it would sleep forever), in the second
    the child has ended before. *)
Definition parent_waits (w0 : world) : option (outcome world Z * outcome world Z) :=
  match fork_test_start w0 with
  | Ret mem wp =>
      match fork_test_child mem (fork 2 wp) with
      | Ret (mem_child, claim_id, d) wc =>
          match fork_test_parent [] d mem (resume wp wc),
                fork_test_parent [child_meanwhile wc mem_child claim_id] d mem (resume wp wc) with
          | Hang _, Ret _ wp =>
              match fork_test_child_end mem_child (resume wc wp) with
              | Ret r wc => Some (Ret r wc, fork_test_parent_end mem (resume wp wc))
              | _ => None
              end
          | _, _ => None
          end
      | _ => None
      end
  | _ => None
  end.

Definition child_first (w0 : world) : option (outcome world Z * outcome world Z) :=
  match fork_test_start w0 with
  | Ret mem wp =>
      match ('(mem_child, claim_id, d) ← fork_test_child mem;
             _ ← fork_test_child_release mem_child claim_id;
             r ← fork_test_child_end mem_child; mret (r, d)) (fork 2 wp) with
      | Ret (r, d) wc =>
          match fork_test_parent [] d mem (resume wp wc) with
          | Ret _ wp => Some (Ret r wc, fork_test_parent_end mem wp)
          | _ => None
          end
      | _ => None
      end
  | _ => None
  end.
End fork.

(** The child ends without descriptors, mappings or allocations of its own; the copy of
    the parent's handle, which [fork] gave it, is among the allocations it frees. *)
Definition child_done (o : outcome world Z) : bool :=
  match o with
  | Ret r w =>
      (r =? 0) && bool_decide (w_fds w = ∅ /\ w_pages w = ∅ /\ t_live (w_user w) = ∅ /\ t_trapped (w_user w) = false)
  | _ => false
  end.

(** ** Theorems *)

Definition single_test_output : string :=
  let first := "(ipm_memory_claim) {.claim_id = 0, .proc_id = 1, access = RW, .offset = 16, .size = 16}" in
  let second := "(ipm_memory_claim) {.claim_id = 1, .proc_id = 1, access = RW, .offset = 24, .size = 16}" in
  lines [""; "Claims at point 1:"; first; ""; "Claims at point 2:"; first; second; "";
         "Claims at point 3:"; first; ""; "Claims at point 4:"].

Definition both_end (o : option (outcome world Z * outcome world Z)) (out : string) : bool :=
  match o with Some (child, parent) => child_done child && passes parent out | None => false end.

(** The repository's tests pass, in debug and in release builds: no assertion of
    a test, of its callbacks or of the library fails, both processes return 0, and
    at the end there is no name, no descriptor, no mapping and no allocation left.
    The test of one process prints at its four points the claims made and not yet
    given back, in order.  In the test of two, under both schedules, the child
    cleans its copy of the handle, opens the memory again, claims, writes, gives
    back and closes; the parent's claim waits for the child's if it has to, and the
    parent reads the text the child wrote; closing in the child leaves the memory
    to the parent, and closing in the parent removes it. *)
Theorem tests_pass nd :
  passes (single_test nd (start 1)) single_test_output = true /\
  both_end (parent_waits nd (start 1)) (lines ["Message was: " +:+ quoted "Hello my guy"]) = true /\
  both_end (child_first nd (start 1)) (lines ["Message was: " +:+ quoted "Hello my guy"]) = true.
Proof. destruct nd; vm_compute; repeat split; reflexivity. Qed.
